(** * dynarmic: IR optimisation, Thumb translation and x64 vector
      floating-point emission

    A shallow embedding of
    - [src/ir_opt/a32_constant_memory_reads_pass.cpp],
    - [src/frontend/translate/translate_thumb.cpp],
    - [src/backend_x64/emit_x64_vector_floating_point.cpp],
    followed by the properties proved about them.

    Part I holds the definitions, Part II the lemmas and theorems. *)

From Stdlib Require Import ZArith List Bool Lia String.
From Stdlib Require Import Floats.SpecFloat.
From stdpp Require Import base tactics option list.

Local Open Scope Z_scope.

(* ===================================================================== *)
(** * Part I: definitions *)
(* ===================================================================== *)

(* --------------------------------------------------------------------- *)
(** ** Guest registers ([frontend/arm_types.h]) *)
(* --------------------------------------------------------------------- *)

Module Arm.

(** Modelled from the spec: the guest register enumeration of
    [frontend/arm_types.h] is not among the sources; spec 4.1 gives
    "r in 0..15, R15 is PC". *)
Inductive Reg :=
| R0 | R1 | R2 | R3 | R4 | R5 | R6 | R7
| R8 | R9 | R10 | R11 | R12 | R13 | R14 | R15.

Definition SP := R13.
Definition LR := R14.
Definition PC := R15.

Definition RegNumber (r : Reg) : Z :=
  match r with
  | R0 => 0 | R1 => 1 | R2 => 2 | R3 => 3 | R4 => 4 | R5 => 5 | R6 => 6
  | R7 => 7 | R8 => 8 | R9 => 9 | R10 => 10 | R11 => 11 | R12 => 12
  | R13 => 13 | R14 => 14 | R15 => 15
  end.

Definition RegOfNumber (n : Z) : option Reg :=
  match n with
  | 0 => Some R0 | 1 => Some R1 | 2 => Some R2 | 3 => Some R3
  | 4 => Some R4 | 5 => Some R5 | 6 => Some R6 | 7 => Some R7
  | 8 => Some R8 | 9 => Some R9 | 10 => Some R10 | 11 => Some R11
  | 12 => Some R12 | 13 => Some R13 | 14 => Some R14 | 15 => Some R15
  | _ => None
  end.

(** [reg == other] and [reg < other] on the enumeration. *)
Definition Reg_eqb (a b : Reg) : bool := RegNumber a =? RegNumber b.
Definition Reg_ltb (a b : Reg) : bool := RegNumber a <? RegNumber b.

(** Guest location descriptor (spec 3): guest PC, ISA bit and the
    floating-point status bits that affect code generation. *)
Record LocationDescriptor := {
  arm_pc : Z;
  TFlag : bool;
  fpscr_mode : Z
}.

End Arm.

(* --------------------------------------------------------------------- *)
(** ** The intermediate representation ([frontend/ir]) *)
(* --------------------------------------------------------------------- *)

Module IR.

(** Modelled from the spec: [frontend/ir/opcodes.h] is not among the
    sources.  The enumeration lists the opcodes spec 4.1 names and the
    sources use; [Void] is the opcode of an invalidated instruction. *)
Inductive Opcode :=
| Void | Identity
| A32GetRegister | A32SetRegister
| A32GetNFlag | A32GetZFlag | A32GetCFlag | A32GetVFlag
| A32SetNFlag | A32SetZFlag | A32SetCFlag | A32SetVFlag
| A32ALUWritePC | A32CallSupervisor
| GetCarryFromOp | GetOverflowFromOp
| MostSignificantBit | IsZero
| LeastSignificantHalf | LeastSignificantByte
| LogicalShiftLeft | LogicalShiftRight | ArithmeticShiftRight | RotateRight
| AddWithCarry | SubWithCarry | Add | And | Eor | Or | Not
| SignExtendHalfToWord | SignExtendByteToWord
| ZeroExtendHalfToWord | ZeroExtendByteToWord
| ByteReverseWord | ByteReverseHalf
| A32ReadMemory8 | A32ReadMemory16 | A32ReadMemory32 | A32ReadMemory64
| A32WriteMemory8 | A32WriteMemory16 | A32WriteMemory32 | A32WriteMemory64.

Definition OpcodeNumber (op : Opcode) : nat :=
  match op with
  | Void => 0 | Identity => 1
  | A32GetRegister => 2 | A32SetRegister => 3
  | A32GetNFlag => 4 | A32GetZFlag => 5 | A32GetCFlag => 6 | A32GetVFlag => 7
  | A32SetNFlag => 8 | A32SetZFlag => 9 | A32SetCFlag => 10
  | A32SetVFlag => 11
  | A32ALUWritePC => 12 | A32CallSupervisor => 13
  | GetCarryFromOp => 14 | GetOverflowFromOp => 15
  | MostSignificantBit => 16 | IsZero => 17
  | LeastSignificantHalf => 18 | LeastSignificantByte => 19
  | LogicalShiftLeft => 20 | LogicalShiftRight => 21
  | ArithmeticShiftRight => 22 | RotateRight => 23
  | AddWithCarry => 24 | SubWithCarry => 25 | Add => 26 | And => 27
  | Eor => 28 | Or => 29 | Not => 30
  | SignExtendHalfToWord => 31 | SignExtendByteToWord => 32
  | ZeroExtendHalfToWord => 33 | ZeroExtendByteToWord => 34
  | ByteReverseWord => 35 | ByteReverseHalf => 36
  | A32ReadMemory8 => 37 | A32ReadMemory16 => 38 | A32ReadMemory32 => 39
  | A32ReadMemory64 => 40
  | A32WriteMemory8 => 41 | A32WriteMemory16 => 42 | A32WriteMemory32 => 43
  | A32WriteMemory64 => 44
  end%nat.

(** [a == b] on opcodes. *)
Definition Opcode_eqb (a b : Opcode) : bool :=
  Nat.eqb (OpcodeNumber a) (OpcodeNumber b).

(** Modelled from the spec: [frontend/ir/value.h] is not among the
    sources.  Spec 3: an IR value is an immediate literal of a primitive
    type or a reference to an instruction of the same block.  [Empty] is
    the default-constructed value [{}]; [InstRef i] names the instruction
    at position [i] of the block. *)
Inductive Value :=
| Empty
| ImmRegRef (r : Arm.Reg)
| ImmU1 (b : bool)
| ImmU8 (n : Z)
| ImmU16 (n : Z)
| ImmU32 (n : Z)
| ImmU64 (n : Z)
| InstRef (i : nat).

(** [Value::IsImmediate]. *)
Definition IsImmediate (v : Value) : bool :=
  match v with
  | InstRef _ => false
  | _ => true
  end.

(** [Value::GetU32]: asserts that the value is a [u32] immediate;
    [None] is the failed assertion. *)
Definition GetU32 (v : Value) : option Z :=
  match v with
  | ImmU32 n => Some n
  | _ => None
  end.

(** IR instruction (spec 3): opcode and ordered operand list. *)
Record Inst := {
  opcode : Opcode;
  args : list Value
}.

(** [Inst::GetArg(index)]. *)
Definition GetArg (inst : Inst) (index : nat) : Value :=
  default Empty (args inst !! index).

(** [Inst::AreAllArgsImmediates]. *)
Definition AreAllArgsImmediates (inst : Inst) : bool :=
  forallb IsImmediate (args inst).

(** Block terminators (spec 3). *)
Inductive Terminal :=
| TermInvalid
| LinkBlock (next : Arm.LocationDescriptor)
| LinkBlockFast (next : Arm.LocationDescriptor)
| If (cond : Z) (then_ else_ : Arm.LocationDescriptor)
| Interpret (next : Arm.LocationDescriptor)
| ReturnToDispatch.

(** IR basic block (spec 3): instruction list, start location, cycle
    count and terminator. *)
Record Block := {
  instructions : list Inst;
  location : Arm.LocationDescriptor;
  cycle_count : Z;
  terminal : Terminal
}.

Definition set_instructions (b : Block) (l : list Inst) : Block :=
  {| instructions := l; location := location b;
     cycle_count := cycle_count b; terminal := terminal b |}.

(** Opcode of the instruction a value points to
    ([arg.GetInst()->GetOpcode()]); references leaving the block do not
    occur (spec 3) and answer [None]. *)
Definition GetInstOpcode (l : list Inst) (v : Value) : option Opcode :=
  match v with
  | InstRef j => opcode <$> l !! j
  | _ => None
  end.

(** [arg.GetInst()->GetOpcode() == op]. *)
Definition GetInstOpcode_is (l : list Inst) (v : Value) (op : Opcode)
  : bool :=
  match GetInstOpcode l v with
  | Some o => Opcode_eqb o op
  | None => false
  end.

(** Modelled from the spec: [Inst::Invalidate] of
    [frontend/ir/microinstruction.cpp] is not among the sources.
    Spec 3: an invalidated instruction remains in the list as a no-op. *)
Definition Invalidated : Inst := {| opcode := Void; args := [] |}.

Definition Invalidate (i : nat) (l : list Inst) : list Inst :=
  <[i := Invalidated]> l.

(** Replacing the use [InstRef i] by [v] in one operand. *)
Definition replace_use (i : nat) (v : Value) (x : Value) : Value :=
  match x with
  | InstRef j => if Nat.eqb j i then v else x
  | _ => x
  end.

(** Modelled from the spec: [Inst::ReplaceUsesWith] of
    [frontend/ir/microinstruction.cpp] is not among the sources.
    Spec 4.4: "replace all uses of the instruction with the literal";
    spec 8, scenario 2: afterwards the IR holds the literal "with no
    memory-read instruction", and spec 3 allows a pass to change a block
    by invalidation and replace-uses-with only: the instruction whose
    uses are replaced stays in the list as a no-op. *)
Definition ReplaceUsesWith (i : nat) (v : Value) (l : list Inst)
  : list Inst :=
  imap (fun j inst =>
          if Nat.eqb j i then Invalidated
          else {| opcode := opcode inst;
                  args := replace_use i v <$> args inst |}) l.

End IR.

(* --------------------------------------------------------------------- *)
(** ** [ir_opt/a32_constant_memory_reads_pass.cpp] *)
(* --------------------------------------------------------------------- *)

Module Optimization.
Import IR.

(** The guest callbacks the pass uses ([A32::UserCallbacks], spec 6).
    The answers are functions of the address: the callbacks are
    deterministic. *)
Record UserCallbacks := {
  IsReadOnlyMemory : Z -> bool;
  MemoryRead8 : Z -> Z;
  MemoryRead16 : Z -> Z;
  MemoryRead32 : Z -> Z;
  MemoryRead64 : Z -> Z
}.

(** The body of the loop [for (auto& inst : block)], for the instruction
    at position [i]; [None] is a failed assertion. *)
Definition visit_inst (cb : UserCallbacks) (i : nat) (l : list Inst)
  : option (list Inst) :=
  match l !! i with
  | None => Some l
  | Some inst =>
    match opcode inst with
    | A32SetCFlag =>
      let arg := GetArg inst 0 in
      if negb (IsImmediate arg)
         && GetInstOpcode_is l arg A32GetCFlag
      then Some (Invalidate i l)
      else Some l
    | A32ReadMemory8 =>
      if negb (AreAllArgsImmediates inst) then Some l
      else
        vaddr ← GetU32 (GetArg inst 0);
        if IsReadOnlyMemory cb vaddr
        then Some (ReplaceUsesWith i (ImmU8 (MemoryRead8 cb vaddr)) l)
        else Some l
    | A32ReadMemory16 =>
      if negb (AreAllArgsImmediates inst) then Some l
      else
        vaddr ← GetU32 (GetArg inst 0);
        if IsReadOnlyMemory cb vaddr
        then Some (ReplaceUsesWith i (ImmU16 (MemoryRead16 cb vaddr)) l)
        else Some l
    | A32ReadMemory32 =>
      if negb (AreAllArgsImmediates inst) then Some l
      else
        vaddr ← GetU32 (GetArg inst 0);
        if IsReadOnlyMemory cb vaddr
        then Some (ReplaceUsesWith i (ImmU32 (MemoryRead32 cb vaddr)) l)
        else Some l
    | A32ReadMemory64 =>
      if negb (AreAllArgsImmediates inst) then Some l
      else
        vaddr ← GetU32 (GetArg inst 0);
        if IsReadOnlyMemory cb vaddr
        then Some (ReplaceUsesWith i (ImmU64 (MemoryRead64 cb vaddr)) l)
        else Some l
    | _ => Some l
    end
  end.

(** The loop over the instructions at positions [0 .. n-1], in program
    order. *)
Definition visit_upto (cb : UserCallbacks) (n : nat) (l : list Inst)
  : option (list Inst) :=
  fold_left (fun acc i => acc ≫= visit_inst cb i) (seq 0 n) (Some l).

(** [A32ConstantMemoryReads(block, cb)]. *)
Definition A32ConstantMemoryReads (cb : UserCallbacks) (block : Block)
  : option Block :=
  set_instructions block
    <$> visit_upto cb (length (instructions block)) (instructions block).

(** *** Vocabulary of the statements about the pass *)

Definition is_read (op : Opcode) : bool :=
  match op with
  | A32ReadMemory8 | A32ReadMemory16 | A32ReadMemory32 | A32ReadMemory64 =>
    true
  | _ => false
  end.

(** The literal a memory read of address [vaddr] is replaced by. *)
Definition read_literal (cb : UserCallbacks) (op : Opcode) (vaddr : Z)
  : option Value :=
  match op with
  | A32ReadMemory8 => Some (ImmU8 (MemoryRead8 cb vaddr))
  | A32ReadMemory16 => Some (ImmU16 (MemoryRead16 cb vaddr))
  | A32ReadMemory32 => Some (ImmU32 (MemoryRead32 cb vaddr))
  | A32ReadMemory64 => Some (ImmU64 (MemoryRead64 cb vaddr))
  | _ => None
  end.

(** [foldable cb inst = Some v]: [inst] is a memory read whose address
    operand is an immediate naming read-only memory, and [v] is the
    literal read through the callback. *)
Definition foldable (cb : UserCallbacks) (inst : Inst) : option Value :=
  if AreAllArgsImmediates inst then
    match GetU32 (GetArg inst 0) with
    | Some vaddr =>
      if IsReadOnlyMemory cb vaddr
      then read_literal cb (opcode inst) vaddr
      else None
    | None => None
    end
  else None.

(** An operand [y] that stands for the operand [x] of the block as it
    was given: [x] itself, or the literal of the folded read [x] refers
    to. *)
Definition use_of (R : nat -> Value -> Prop) (x y : Value) : Prop :=
  y = x \/ exists k, x = InstRef k /\ R k y.

(** [folds_to cb l k v]: the instruction at position [k] of [l] is a
    memory read that, once the reads it depends on are replaced by their
    literals, has an immediate read-only address, and [v] is the literal
    read there. *)
#[warnings="-register-all"]
Inductive folds_to (cb : UserCallbacks) (l : list Inst)
  : nat -> Value -> Prop :=
| folds_to_intro (k : nat) (d : Inst) (args' : list Value) (v : Value) :
    l !! k = Some d ->
    Forall2 (use_of (folds_to cb l)) (args d) args' ->
    foldable cb {| opcode := opcode d; args := args' |} = Some v ->
    folds_to cb l k v.

(** [inst] is a [SetCFlag] whose operand is the value of a [GetCFlag]
    instruction of [l]. *)
Definition set_of_get_CFlag (l : list Inst) (inst : Inst) : Prop :=
  opcode inst = A32SetCFlag /\
  exists j d, args inst !! 0%nat = Some (InstRef j) /\
              l !! j = Some d /\ opcode d = A32GetCFlag.

(** No operand of [l] refers to the instruction at position [i]. *)
Definition unused (i : nat) (l : list Inst) : Prop :=
  forall j inst, l !! j = Some inst -> ~ In (InstRef i) (args inst).

(** Spec 3: every value reference is to an earlier instruction of the
    same block. *)
Definition well_formed (l : list Inst) : Prop :=
  forall i inst j,
    l !! i = Some inst -> In (InstRef j) (args inst) -> (j < i)%nat.

(** A checker for [well_formed]. *)
Definition refs_below (i : nat) (inst : Inst) : bool :=
  forallb (fun x => match x with InstRef j => Nat.ltb j i | _ => true end)
    (args inst).

Definition well_formed_b (l : list Inst) : bool :=
  forallb (fun b : bool => b) (imap refs_below l).

(** The state of the instruction at position [i] after the loop has
    visited the positions below [k]: [inst0] is the instruction of the
    given block [l0], [inst] the one of the block in progress [l]. *)
Definition inst_state (cb : UserCallbacks) (l0 : list Inst) (k : nat)
  (l : list Inst) (i : nat) (inst0 inst : Inst) : Prop :=
  ((i < k)%nat /\ inst = Invalidated /\
   ((exists v, folds_to cb l0 i v /\ unused i l)
    \/ set_of_get_CFlag l0 inst0))
  \/ (opcode inst = opcode inst0 /\
      Forall2 (use_of (folds_to cb l0)) (args inst0) (args inst) /\
      ((i < k)%nat -> ~ set_of_get_CFlag l0 inst0)).

Definition pass_state (cb : UserCallbacks) (l0 : list Inst) (k : nat)
  (l : list Inst) : Prop :=
  length l = length l0 /\
  forall i inst0, l0 !! i = Some inst0 ->
    exists inst, l !! i = Some inst /\ inst_state cb l0 k l i inst0 inst.

Definition is_NZV_set (op : Opcode) : bool :=
  match op with
  | A32SetNFlag | A32SetZFlag | A32SetVFlag => true
  | _ => false
  end.

Definition is_flag_set (op : Opcode) : bool :=
  match op with
  | A32SetNFlag | A32SetZFlag | A32SetCFlag | A32SetVFlag => true
  | _ => false
  end.

(** The frame property in the specification's words: every instruction
    that is not a memory read with an immediate read-only address is
    left unchanged. *)
Definition others_unchanged (cb : UserCallbacks) (b b' : Block) : Prop :=
  forall i inst, instructions b !! i = Some inst ->
    foldable cb inst = None -> instructions b' !! i = Some inst.

(** [inst] is a set of the flag written by [set] whose operand is the
    value of a get of the same flag, read by [get]. *)
Definition set_of_get (get set : Opcode) (l : list Inst) (inst : Inst)
  : Prop :=
  opcode inst = set /\
  exists j d, args inst !! 0%nat = Some (InstRef j) /\
              l !! j = Some d /\ opcode d = get.

(** *** Concrete inputs *)

(** Read-only memory at [0x1008], holding [0xDEADBEEF]. *)
Definition rom_1008 : UserCallbacks := {|
  IsReadOnlyMemory := fun vaddr => vaddr =? 0x1008;
  MemoryRead8 := fun _ => 0xEF;
  MemoryRead16 := fun _ => 0xBEEF;
  MemoryRead32 := fun _ => 0xDEADBEEF;
  MemoryRead64 := fun _ => 0xDEADBEEF
|}.

Definition block_of (l : list Inst) : Block := {|
  instructions := l;
  location := {| Arm.arm_pc := 0x1000; Arm.TFlag := true;
                 Arm.fpscr_mode := 0 |};
  cycle_count := 1;
  terminal := ReturnToDispatch
|}.

Definition mk (op : Opcode) (operands : list Value) : Inst :=
  {| opcode := op; args := operands |}.

(** A read of read-only memory, a read that depends on it, a read of
    other memory, a read through a register, and flag traffic. *)
Definition sample_block : Block := block_of [
  mk A32ReadMemory32 [ImmU32 0x1008];
  mk A32SetRegister [ImmRegRef Arm.R1; InstRef 0];
  mk A32ReadMemory32 [ImmU32 0x2000];
  mk A32GetRegister [ImmRegRef Arm.R0];
  mk A32ReadMemory32 [InstRef 3];
  mk A32GetCFlag [];
  mk A32SetCFlag [InstRef 5];
  mk AddWithCarry [InstRef 3; InstRef 2; InstRef 5];
  mk GetCarryFromOp [InstRef 7];
  mk A32SetCFlag [InstRef 8];
  mk A32GetNFlag [];
  mk A32SetNFlag [InstRef 10]
].

Definition sample_block_after : Block := block_of [
  Invalidated;
  mk A32SetRegister [ImmRegRef Arm.R1; ImmU32 0xDEADBEEF];
  mk A32ReadMemory32 [ImmU32 0x2000];
  mk A32GetRegister [ImmRegRef Arm.R0];
  mk A32ReadMemory32 [InstRef 3];
  mk A32GetCFlag [];
  Invalidated;
  mk AddWithCarry [InstRef 3; InstRef 2; InstRef 5];
  mk GetCarryFromOp [InstRef 7];
  mk A32SetCFlag [InstRef 8];
  mk A32GetNFlag [];
  mk A32SetNFlag [InstRef 10]
].

Definition CFlag_block : Block := block_of [
  mk A32GetCFlag [];
  mk A32SetCFlag [InstRef 0]
].

Definition NFlag_block : Block := block_of [
  mk A32GetNFlag [];
  mk A32SetNFlag [InstRef 0]
].

(** *** Vocabulary of further statements about the pass *)

(** Two callbacks that name the same read-only memory and read the same
    values there. *)
Definition agree_on_read_only (cb1 cb2 : UserCallbacks) : Prop :=
  (forall vaddr, IsReadOnlyMemory cb1 vaddr = IsReadOnlyMemory cb2 vaddr) /\
  (forall vaddr, IsReadOnlyMemory cb1 vaddr = true ->
     MemoryRead8 cb1 vaddr = MemoryRead8 cb2 vaddr /\
     MemoryRead16 cb1 vaddr = MemoryRead16 cb2 vaddr /\
     MemoryRead32 cb1 vaddr = MemoryRead32 cb2 vaddr /\
     MemoryRead64 cb1 vaddr = MemoryRead64 cb2 vaddr).

(** The address operand of every memory read is a [u32]: a [u32]
    immediate, or the value of an instruction that is no 8, 16 or 64-bit
    memory read. *)
Definition u32_address (l : list Inst) (x : Value) : Prop :=
  (exists vaddr, x = ImmU32 vaddr) \/
  (exists j d, x = InstRef j /\ l !! j = Some d /\
               opcode d <> A32ReadMemory8 /\
               opcode d <> A32ReadMemory16 /\
               opcode d <> A32ReadMemory64).

Definition typed_reads (l : list Inst) : Prop :=
  forall i inst, l !! i = Some inst -> is_read (opcode inst) = true ->
    exists x, args inst = [x] /\ u32_address l x.

(** The address [x] is a [u32] immediate or the value of an [Add]. *)
Definition literal_or_sum (l : list Inst) (x : Value) : Prop :=
  (exists vaddr, x = ImmU32 vaddr) \/
  (exists j d, x = InstRef j /\ l !! j = Some d /\ opcode d = Add).

(** Every memory read is a 32-bit read of such an address. *)
Definition word_reads (l : list Inst) : Prop :=
  forall i inst, l !! i = Some inst -> is_read (opcode inst) = true ->
    opcode inst = A32ReadMemory32 /\
    exists x, args inst = [x] /\ literal_or_sum l x.

(** The opcode whose value a flag set of translated code takes. *)
Definition flag_source (op : Opcode) : option Opcode :=
  match op with
  | A32SetNFlag => Some MostSignificantBit
  | A32SetZFlag => Some IsZero
  | A32SetCFlag => Some GetCarryFromOp
  | A32SetVFlag => Some GetOverflowFromOp
  | _ => None
  end.

(** Every flag set takes the value of an instruction of its
    [flag_source]. *)
Definition flags_from_ops (l : list Inst) : Prop :=
  forall i inst src, l !! i = Some inst ->
    flag_source (opcode inst) = Some src ->
    exists j d, args inst = [InstRef j] /\ l !! j = Some d /\
                opcode d = src.

(** A block that reads a word through a pointer held in read-only
    memory. *)
Definition pointer_block : Block := block_of [
  mk A32ReadMemory32 [ImmU32 0x1008];
  mk A32ReadMemory8 [InstRef 0];
  mk A32SetRegister [ImmRegRef Arm.R0; InstRef 1]
].

(** Memory like [rom_1008], with other contents outside the read-only
    word. *)
Definition rom_1008_other : UserCallbacks := {|
  IsReadOnlyMemory := fun vaddr => vaddr =? 0x1008;
  MemoryRead8 := fun vaddr => if vaddr =? 0x1008 then 0xEF else 0x11;
  MemoryRead16 := fun vaddr => if vaddr =? 0x1008 then 0xBEEF else 0x2222;
  MemoryRead32 := fun vaddr =>
    if vaddr =? 0x1008 then 0xDEADBEEF else 0x33333333;
  MemoryRead64 := fun vaddr =>
    if vaddr =? 0x1008 then 0xDEADBEEF else 0x44444444
|}.

(** No read-only memory at all. *)
Definition no_rom : UserCallbacks := {|
  IsReadOnlyMemory := fun _ => false;
  MemoryRead8 := fun _ => 0;
  MemoryRead16 := fun _ => 0;
  MemoryRead32 := fun _ => 0;
  MemoryRead64 := fun _ => 0
|}.

End Optimization.

(* --------------------------------------------------------------------- *)
(** ** [frontend/translate/translate_thumb.cpp] *)
(* --------------------------------------------------------------------- *)

Module Translate.
Import Arm IR.

(** Modelled from the spec: the IR builder [IREmitter] of
    [frontend/ir/ir_emitter.h] is not among the sources.  Spec 4.1: the
    builder holds the block in progress and the current location; each
    method appends one instruction to the block and returns a handle to
    its value. *)
Record IREmitter := {
  block : Block;
  current_location : LocationDescriptor
}.

(** The outcome of running translator code: it returns with a new
    builder state, or an [ASSERT_MSG] fails and the process aborts
    (spec 5, spec 7). *)
Inductive Outcome (A : Type) :=
| Returns (a : A) (ir : IREmitter)
| AssertionFailed (msg : string).
Arguments Returns {A} a ir.
Arguments AssertionFailed {A} msg.

Definition Visitor (A : Type) : Type := IREmitter -> Outcome A.

Definition ret {A} (a : A) : Visitor A := fun ir => Returns a ir.

Definition bind {A B} (m : Visitor A) (k : A -> Visitor B) : Visitor B :=
  fun ir =>
    match m ir with
    | Returns a ir' => k a ir'
    | AssertionFailed msg => AssertionFailed msg
    end.

Notation "'let*' x := m 'in' k" := (bind m (fun x => k))
  (at level 10, x name, m at level 100, k at level 200).

(** [ASSERT_MSG(false, msg)]. *)
Definition ASSERT_MSG_false {A} (msg : string) : Visitor A :=
  fun _ => AssertionFailed msg.

(** Appending one instruction to the block; the handle is the reference
    to the new instruction. *)
Definition Inst (op : Opcode) (operands : list Value) : Visitor Value :=
  fun ir =>
    let b := block ir in
    Returns (InstRef (length (instructions b)))
      {| block := set_instructions b
                    (instructions b ++ [{| opcode := op; args := operands |}]);
         current_location := current_location ir |}.

Definition Imm1 (b : bool) : Value := ImmU1 b.
Definition Imm8 (n : Z) : Value := ImmU8 n.
Definition Imm32 (n : Z) : Value := ImmU32 n.

Definition GetRegister (r : Reg) : Visitor Value :=
  Inst A32GetRegister [ImmRegRef r].
Definition SetRegister (r : Reg) (v : Value) : Visitor Value :=
  Inst A32SetRegister [ImmRegRef r; v].
Definition ALUWritePC (v : Value) : Visitor Value :=
  Inst A32ALUWritePC [v].
Definition CallSupervisor (v : Value) : Visitor Value :=
  Inst A32CallSupervisor [v].
Definition GetCFlag : Visitor Value := Inst A32GetCFlag [].
Definition SetNFlag (v : Value) : Visitor Value := Inst A32SetNFlag [v].
Definition SetZFlag (v : Value) : Visitor Value := Inst A32SetZFlag [v].
Definition SetCFlag (v : Value) : Visitor Value := Inst A32SetCFlag [v].
Definition SetVFlag (v : Value) : Visitor Value := Inst A32SetVFlag [v].
Definition MostSignificantBit (v : Value) : Visitor Value :=
  Inst IR.MostSignificantBit [v].
Definition IsZero (v : Value) : Visitor Value := Inst IR.IsZero [v].
Definition ReadMemory32 (addr : Value) : Visitor Value :=
  Inst A32ReadMemory32 [addr].

(** Composite results (spec 4.1): the fields are extracted by
    instructions of their own. *)
Record ResultAndCarry := { rc_result : Value; rc_carry : Value }.
Record ResultAndCarryAndOverflow := {
  rco_result : Value; rco_carry : Value; rco_overflow : Value
}.

Definition shift_op (op : Opcode) (x n cin : Value)
  : Visitor ResultAndCarry :=
  let* r := Inst op [x; n; cin] in
  let* c := Inst GetCarryFromOp [r] in
  ret {| rc_result := r; rc_carry := c |}.

Definition LogicalShiftRight := shift_op IR.LogicalShiftRight.
Definition ArithmeticShiftRight := shift_op IR.ArithmeticShiftRight.

Definition carry_op (op : Opcode) (a b cin : Value)
  : Visitor ResultAndCarryAndOverflow :=
  let* r := Inst op [a; b; cin] in
  let* c := Inst GetCarryFromOp [r] in
  let* v := Inst GetOverflowFromOp [r] in
  ret {| rco_result := r; rco_carry := c; rco_overflow := v |}.

Definition AddWithCarry := carry_op IR.AddWithCarry.
Definition SubWithCarry := carry_op IR.SubWithCarry.

(** [ir.SetTerm(t)]. *)
Definition SetTerm (t : Terminal) : Visitor unit :=
  fun ir =>
    let b := block ir in
    Returns tt
      {| block := {| instructions := instructions b;
                     location := location b;
                     cycle_count := cycle_count b;
                     terminal := t |};
         current_location := current_location ir |}.

(** Spec 4.3: [AlignPC(4)] is [(current_guest_pc + 4) & ~3]. *)
Definition AlignPC4 : Visitor Z :=
  fun ir =>
    Returns (Z.land ((arm_pc (current_location ir) + 4) mod 2 ^ 32)
                    0xFFFFFFFC) ir.

(** [reg + number] on registers; the sum has to name a register. *)
Definition RegAdd (r : Reg) (number : Z) : Visitor Reg :=
  match RegOfNumber (RegNumber r + number) with
  | Some r' => ret r'
  | None => ASSERT_MSG_false "new_reg <= 15"
  end.

(** *** [struct ThumbTranslatorVisitor] *)

Definition InterpretThisInstruction : Visitor bool :=
  fun ir =>
    (let* _ := SetTerm (Interpret (current_location ir)) in ret false) ir.

Definition UnpredictableInstruction : Visitor bool :=
  ASSERT_MSG_false "UNPREDICTABLE".

(** Operands written as nested calls are emitted from left to right. *)
Definition thumb16_LSR_imm (imm5 : Z) (m d : Reg) : Visitor bool :=
  let shift_n := if negb (imm5 =? 0) then imm5 else 32 in
  let* cpsr_c := GetCFlag in
  let* rm := GetRegister m in
  let* result := LogicalShiftRight rm (Imm8 shift_n) cpsr_c in
  let* _ := SetRegister d (rc_result result) in
  let* msb := MostSignificantBit (rc_result result) in
  let* _ := SetNFlag msb in
  let* z := IsZero (rc_result result) in
  let* _ := SetZFlag z in
  let* _ := SetCFlag (rc_carry result) in
  ret true.

Definition thumb16_ASR_imm (imm5 : Z) (m d : Reg) : Visitor bool :=
  let shift_n := if negb (imm5 =? 0) then imm5 else 32 in
  let* cpsr_c := GetCFlag in
  let* rm := GetRegister m in
  let* result := ArithmeticShiftRight rm (Imm8 shift_n) cpsr_c in
  let* _ := SetRegister d (rc_result result) in
  let* msb := MostSignificantBit (rc_result result) in
  let* _ := SetNFlag msb in
  let* z := IsZero (rc_result result) in
  let* _ := SetZFlag z in
  let* _ := SetCFlag (rc_carry result) in
  ret true.

Definition thumb16_ADD_reg_t2 (d_n_hi : bool) (m d_n_lo : Reg)
  : Visitor bool :=
  let* d_n := (if d_n_hi then RegAdd d_n_lo 8 else ret d_n_lo) in
  let d := d_n in
  let n := d_n in
  if Reg_eqb n PC && Reg_eqb m PC then UnpredictableInstruction
  else
    let* rn := GetRegister n in
    let* rm := GetRegister m in
    let* result := AddWithCarry rn rm (Imm1 false) in
    if Reg_eqb d PC then
      let* _ := ALUWritePC (rco_result result) in
      let* _ := SetTerm ReturnToDispatch in
      ret false
    else
      let* _ := SetRegister d (rco_result result) in
      ret true.

Definition thumb16_CMP_reg_t2 (n_hi : bool) (m n_lo : Reg)
  : Visitor bool :=
  let* n := (if n_hi then RegAdd n_lo 8 else ret n_lo) in
  if Reg_ltb n R8 && Reg_ltb m R8 then UnpredictableInstruction
  else if Reg_eqb n PC || Reg_eqb m PC then UnpredictableInstruction
  else
    let* rn := GetRegister n in
    let* rm := GetRegister m in
    let* result := SubWithCarry rn rm (Imm1 true) in
    let* msb := MostSignificantBit (rco_result result) in
    let* _ := SetNFlag msb in
    let* z := IsZero (rco_result result) in
    let* _ := SetZFlag z in
    let* _ := SetCFlag (rco_carry result) in
    let* _ := SetVFlag (rco_overflow result) in
    ret true.

Definition thumb16_LDR_literal (t : Reg) (imm8 : Z) : Visitor bool :=
  let imm32 := Z.shiftl imm8 2 mod 2 ^ 32 in
  let* aligned := AlignPC4 in
  let address := (aligned + imm32) mod 2 ^ 32 in
  let* data := ReadMemory32 (Imm32 address) in
  let* _ := SetRegister t data in
  ret true.

Definition thumb16_UDF : Visitor bool := InterpretThisInstruction.

Definition thumb16_SVC (imm8 : Z) : Visitor bool :=
  let imm32 := imm8 in
  let* _ := CallSupervisor (Imm32 imm32) in
  ret false.

(** *** The other builder methods and instruction methods *)

(** Modelled from the spec: the other methods of [IREmitter] the
    visitor calls (spec 4.1); each appends the instruction of its name,
    the shifts like [LogicalShiftRight] above. *)
Definition LogicalShiftLeft := shift_op IR.LogicalShiftLeft.
Definition RotateRight := shift_op IR.RotateRight.
Definition Add (a b : Value) : Visitor Value := Inst IR.Add [a; b].
Definition And (a b : Value) : Visitor Value := Inst IR.And [a; b].
Definition Eor (a b : Value) : Visitor Value := Inst IR.Eor [a; b].
Definition Or (a b : Value) : Visitor Value := Inst IR.Or [a; b].
Definition Not (a : Value) : Visitor Value := Inst IR.Not [a].
Definition LeastSignificantHalf (v : Value) : Visitor Value :=
  Inst IR.LeastSignificantHalf [v].
Definition LeastSignificantByte (v : Value) : Visitor Value :=
  Inst IR.LeastSignificantByte [v].
Definition SignExtendHalfToWord (v : Value) : Visitor Value :=
  Inst IR.SignExtendHalfToWord [v].
Definition SignExtendByteToWord (v : Value) : Visitor Value :=
  Inst IR.SignExtendByteToWord [v].
Definition ZeroExtendHalfToWord (v : Value) : Visitor Value :=
  Inst IR.ZeroExtendHalfToWord [v].
Definition ZeroExtendByteToWord (v : Value) : Visitor Value :=
  Inst IR.ZeroExtendByteToWord [v].
Definition ByteReverseWord (v : Value) : Visitor Value :=
  Inst IR.ByteReverseWord [v].
Definition ByteReverseHalf (v : Value) : Visitor Value :=
  Inst IR.ByteReverseHalf [v].
Definition WriteMemory8 (addr data : Value) : Visitor Value :=
  Inst A32WriteMemory8 [addr; data].
Definition WriteMemory16 (addr data : Value) : Visitor Value :=
  Inst A32WriteMemory16 [addr; data].
Definition WriteMemory32 (addr data : Value) : Visitor Value :=
  Inst A32WriteMemory32 [addr; data].

Definition thumb16_LSL_imm (imm5 : Z) (m d : Reg) : Visitor bool :=
  let shift_n := imm5 in
  let* cpsr_c := GetCFlag in
  let* rm := GetRegister m in
  let* result := LogicalShiftLeft rm (Imm8 shift_n) cpsr_c in
  let* _ := SetRegister d (rc_result result) in
  let* msb := MostSignificantBit (rc_result result) in
  let* _ := SetNFlag msb in
  let* z := IsZero (rc_result result) in
  let* _ := SetZFlag z in
  let* _ := SetCFlag (rc_carry result) in
  ret true.

Definition thumb16_ADD_reg_t1 (m n d : Reg) : Visitor bool :=
  let* rn := GetRegister n in
  let* rm := GetRegister m in
  let* result := AddWithCarry rn rm (Imm1 false) in
  let* _ := SetRegister d (rco_result result) in
  let* msb := MostSignificantBit (rco_result result) in
  let* _ := SetNFlag msb in
  let* z := IsZero (rco_result result) in
  let* _ := SetZFlag z in
  let* _ := SetCFlag (rco_carry result) in
  let* _ := SetVFlag (rco_overflow result) in
  ret true.

Definition thumb16_SUB_reg (m n d : Reg) : Visitor bool :=
  let* rn := GetRegister n in
  let* rm := GetRegister m in
  let* result := SubWithCarry rn rm (Imm1 true) in
  let* _ := SetRegister d (rco_result result) in
  let* msb := MostSignificantBit (rco_result result) in
  let* _ := SetNFlag msb in
  let* z := IsZero (rco_result result) in
  let* _ := SetZFlag z in
  let* _ := SetCFlag (rco_carry result) in
  let* _ := SetVFlag (rco_overflow result) in
  ret true.

Definition thumb16_ADD_imm_t1 (imm3 : Z) (n d : Reg) : Visitor bool :=
  let imm32 := Z.land imm3 0x7 in
  let* rn := GetRegister n in
  let* result := AddWithCarry rn (Imm32 imm32) (Imm1 false) in
  let* _ := SetRegister d (rco_result result) in
  let* msb := MostSignificantBit (rco_result result) in
  let* _ := SetNFlag msb in
  let* z := IsZero (rco_result result) in
  let* _ := SetZFlag z in
  let* _ := SetCFlag (rco_carry result) in
  let* _ := SetVFlag (rco_overflow result) in
  ret true.

Definition thumb16_SUB_imm_t1 (imm3 : Z) (n d : Reg) : Visitor bool :=
  let imm32 := Z.land imm3 0x7 in
  let* rn := GetRegister n in
  let* result := SubWithCarry rn (Imm32 imm32) (Imm1 true) in
  let* _ := SetRegister d (rco_result result) in
  let* msb := MostSignificantBit (rco_result result) in
  let* _ := SetNFlag msb in
  let* z := IsZero (rco_result result) in
  let* _ := SetZFlag z in
  let* _ := SetCFlag (rco_carry result) in
  let* _ := SetVFlag (rco_overflow result) in
  ret true.

Definition thumb16_MOV_imm (d : Reg) (imm8 : Z) : Visitor bool :=
  let imm32 := Z.land imm8 0xFF in
  let result := Imm32 imm32 in
  let* _ := SetRegister d result in
  let* msb := MostSignificantBit result in
  let* _ := SetNFlag msb in
  let* z := IsZero result in
  let* _ := SetZFlag z in
  ret true.

Definition thumb16_CMP_imm (n : Reg) (imm8 : Z) : Visitor bool :=
  let imm32 := Z.land imm8 0xFF in
  let* rn := GetRegister n in
  let* result := SubWithCarry rn (Imm32 imm32) (Imm1 true) in
  let* msb := MostSignificantBit (rco_result result) in
  let* _ := SetNFlag msb in
  let* z := IsZero (rco_result result) in
  let* _ := SetZFlag z in
  let* _ := SetCFlag (rco_carry result) in
  let* _ := SetVFlag (rco_overflow result) in
  ret true.

Definition thumb16_ADD_imm_t2 (d_n : Reg) (imm8 : Z) : Visitor bool :=
  let imm32 := Z.land imm8 0xFF in
  let d := d_n in
  let n := d_n in
  let* rn := GetRegister n in
  let* result := AddWithCarry rn (Imm32 imm32) (Imm1 false) in
  let* _ := SetRegister d (rco_result result) in
  let* msb := MostSignificantBit (rco_result result) in
  let* _ := SetNFlag msb in
  let* z := IsZero (rco_result result) in
  let* _ := SetZFlag z in
  let* _ := SetCFlag (rco_carry result) in
  let* _ := SetVFlag (rco_overflow result) in
  ret true.

Definition thumb16_SUB_imm_t2 (d_n : Reg) (imm8 : Z) : Visitor bool :=
  let imm32 := Z.land imm8 0xFF in
  let d := d_n in
  let n := d_n in
  let* rn := GetRegister n in
  let* result := SubWithCarry rn (Imm32 imm32) (Imm1 true) in
  let* _ := SetRegister d (rco_result result) in
  let* msb := MostSignificantBit (rco_result result) in
  let* _ := SetNFlag msb in
  let* z := IsZero (rco_result result) in
  let* _ := SetZFlag z in
  let* _ := SetCFlag (rco_carry result) in
  let* _ := SetVFlag (rco_overflow result) in
  ret true.

Definition thumb16_AND_reg (m d_n : Reg) : Visitor bool :=
  let d := d_n in
  let n := d_n in
  let* rn := GetRegister n in
  let* rm := GetRegister m in
  let* result := And rn rm in
  let* _ := SetRegister d result in
  let* msb := MostSignificantBit result in
  let* _ := SetNFlag msb in
  let* z := IsZero result in
  let* _ := SetZFlag z in
  ret true.

Definition thumb16_EOR_reg (m d_n : Reg) : Visitor bool :=
  let d := d_n in
  let n := d_n in
  let* rn := GetRegister n in
  let* rm := GetRegister m in
  let* result := Eor rn rm in
  let* _ := SetRegister d result in
  let* msb := MostSignificantBit result in
  let* _ := SetNFlag msb in
  let* z := IsZero result in
  let* _ := SetZFlag z in
  ret true.

Definition thumb16_LSL_reg (m d_n : Reg) : Visitor bool :=
  let d := d_n in
  let n := d_n in
  let* rm := GetRegister m in
  let* shift_n := LeastSignificantByte rm in
  let* apsr_c := GetCFlag in
  let* rn := GetRegister n in
  let* result_carry := LogicalShiftLeft rn shift_n apsr_c in
  let* _ := SetRegister d (rc_result result_carry) in
  let* msb := MostSignificantBit (rc_result result_carry) in
  let* _ := SetNFlag msb in
  let* z := IsZero (rc_result result_carry) in
  let* _ := SetZFlag z in
  let* _ := SetCFlag (rc_carry result_carry) in
  ret true.

Definition thumb16_LSR_reg (m d_n : Reg) : Visitor bool :=
  let d := d_n in
  let n := d_n in
  let* rm := GetRegister m in
  let* shift_n := LeastSignificantByte rm in
  let* cpsr_c := GetCFlag in
  let* rn := GetRegister n in
  let* result := LogicalShiftRight rn shift_n cpsr_c in
  let* _ := SetRegister d (rc_result result) in
  let* msb := MostSignificantBit (rc_result result) in
  let* _ := SetNFlag msb in
  let* z := IsZero (rc_result result) in
  let* _ := SetZFlag z in
  let* _ := SetCFlag (rc_carry result) in
  ret true.

Definition thumb16_ASR_reg (m d_n : Reg) : Visitor bool :=
  let d := d_n in
  let n := d_n in
  let* rm := GetRegister m in
  let* shift_n := LeastSignificantByte rm in
  let* cpsr_c := GetCFlag in
  let* rn := GetRegister n in
  let* result := ArithmeticShiftRight rn shift_n cpsr_c in
  let* _ := SetRegister d (rc_result result) in
  let* msb := MostSignificantBit (rc_result result) in
  let* _ := SetNFlag msb in
  let* z := IsZero (rc_result result) in
  let* _ := SetZFlag z in
  let* _ := SetCFlag (rc_carry result) in
  ret true.

Definition thumb16_ADC_reg (m d_n : Reg) : Visitor bool :=
  let d := d_n in
  let n := d_n in
  let* aspr_c := GetCFlag in
  let* rn := GetRegister n in
  let* rm := GetRegister m in
  let* result := AddWithCarry rn rm aspr_c in
  let* _ := SetRegister d (rco_result result) in
  let* msb := MostSignificantBit (rco_result result) in
  let* _ := SetNFlag msb in
  let* z := IsZero (rco_result result) in
  let* _ := SetZFlag z in
  let* _ := SetCFlag (rco_carry result) in
  let* _ := SetVFlag (rco_overflow result) in
  ret true.

Definition thumb16_SBC_reg (m d_n : Reg) : Visitor bool :=
  let d := d_n in
  let n := d_n in
  let* aspr_c := GetCFlag in
  let* rn := GetRegister n in
  let* rm := GetRegister m in
  let* result := SubWithCarry rn rm aspr_c in
  let* _ := SetRegister d (rco_result result) in
  let* msb := MostSignificantBit (rco_result result) in
  let* _ := SetNFlag msb in
  let* z := IsZero (rco_result result) in
  let* _ := SetZFlag z in
  let* _ := SetCFlag (rco_carry result) in
  let* _ := SetVFlag (rco_overflow result) in
  ret true.

Definition thumb16_ROR_reg (m d_n : Reg) : Visitor bool :=
  let d := d_n in
  let n := d_n in
  let* rm := GetRegister m in
  let* shift_n := LeastSignificantByte rm in
  let* cpsr_c := GetCFlag in
  let* rn := GetRegister n in
  let* result := RotateRight rn shift_n cpsr_c in
  let* _ := SetRegister d (rc_result result) in
  let* msb := MostSignificantBit (rc_result result) in
  let* _ := SetNFlag msb in
  let* z := IsZero (rc_result result) in
  let* _ := SetZFlag z in
  let* _ := SetCFlag (rc_carry result) in
  ret true.

Definition thumb16_TST_reg (m n : Reg) : Visitor bool :=
  let* rn := GetRegister n in
  let* rm := GetRegister m in
  let* result := And rn rm in
  let* msb := MostSignificantBit result in
  let* _ := SetNFlag msb in
  let* z := IsZero result in
  let* _ := SetZFlag z in
  ret true.

Definition thumb16_RSB_imm (n d : Reg) : Visitor bool :=
  let* rn := GetRegister n in
  let* result := SubWithCarry (Imm32 0) rn (Imm1 true) in
  let* _ := SetRegister d (rco_result result) in
  let* msb := MostSignificantBit (rco_result result) in
  let* _ := SetNFlag msb in
  let* z := IsZero (rco_result result) in
  let* _ := SetZFlag z in
  let* _ := SetCFlag (rco_carry result) in
  let* _ := SetVFlag (rco_overflow result) in
  ret true.

Definition thumb16_CMP_reg_t1 (m n : Reg) : Visitor bool :=
  let* rn := GetRegister n in
  let* rm := GetRegister m in
  let* result := SubWithCarry rn rm (Imm1 true) in
  let* msb := MostSignificantBit (rco_result result) in
  let* _ := SetNFlag msb in
  let* z := IsZero (rco_result result) in
  let* _ := SetZFlag z in
  let* _ := SetCFlag (rco_carry result) in
  let* _ := SetVFlag (rco_overflow result) in
  ret true.

Definition thumb16_CMN_reg (m n : Reg) : Visitor bool :=
  let* rn := GetRegister n in
  let* rm := GetRegister m in
  let* result := AddWithCarry rn rm (Imm1 false) in
  let* msb := MostSignificantBit (rco_result result) in
  let* _ := SetNFlag msb in
  let* z := IsZero (rco_result result) in
  let* _ := SetZFlag z in
  let* _ := SetCFlag (rco_carry result) in
  let* _ := SetVFlag (rco_overflow result) in
  ret true.

Definition thumb16_ORR_reg (m d_n : Reg) : Visitor bool :=
  let d := d_n in
  let n := d_n in
  let* rm := GetRegister m in
  let* rn := GetRegister n in
  let* result := Or rm rn in
  let* _ := SetRegister d result in
  let* msb := MostSignificantBit result in
  let* _ := SetNFlag msb in
  let* z := IsZero result in
  let* _ := SetZFlag z in
  ret true.

Definition thumb16_BIC_reg (m d_n : Reg) : Visitor bool :=
  let d := d_n in
  let n := d_n in
  let* rn := GetRegister n in
  let* rm := GetRegister m in
  let* not_rm := Not rm in
  let* result := And rn not_rm in
  let* _ := SetRegister d result in
  let* msb := MostSignificantBit result in
  let* _ := SetNFlag msb in
  let* z := IsZero result in
  let* _ := SetZFlag z in
  ret true.

Definition thumb16_MVN_reg (m d : Reg) : Visitor bool :=
  let* rm := GetRegister m in
  let* result := Not rm in
  let* _ := SetRegister d result in
  let* msb := MostSignificantBit result in
  let* _ := SetNFlag msb in
  let* z := IsZero result in
  let* _ := SetZFlag z in
  ret true.

Definition thumb16_MOV_reg (d_hi : bool) (m d_lo : Reg) : Visitor bool :=
  let* d := (if d_hi then RegAdd d_lo 8 else ret d_lo) in
  let* result := GetRegister m in
  if Reg_eqb d PC then
    let* _ := ALUWritePC result in
    let* _ := SetTerm ReturnToDispatch in
    ret false
  else
    let* _ := SetRegister d result in
    ret true.

Definition thumb16_STR_reg (m n t : Reg) : Visitor bool :=
  let* rn := GetRegister n in
  let* rm := GetRegister m in
  let* address := Add rn rm in
  let* data := GetRegister t in
  let* _ := WriteMemory32 address data in
  ret true.

Definition thumb16_STRH_reg (m n t : Reg) : Visitor bool :=
  let* rn := GetRegister n in
  let* rm := GetRegister m in
  let* address := Add rn rm in
  let* rt := GetRegister t in
  let* data := LeastSignificantHalf rt in
  let* _ := WriteMemory16 address data in
  ret true.

Definition thumb16_STRB_reg (m n t : Reg) : Visitor bool :=
  let* rn := GetRegister n in
  let* rm := GetRegister m in
  let* address := Add rn rm in
  let* rt := GetRegister t in
  let* data := LeastSignificantByte rt in
  let* _ := WriteMemory8 address data in
  ret true.

Definition thumb16_LDR_imm_t1 (imm5 : Z) (n t : Reg) : Visitor bool :=
  let imm32 := Z.shiftl imm5 2 mod 2 ^ 32 in
  let* rn := GetRegister n in
  let* address := Add rn (Imm32 imm32) in
  let* data := ReadMemory32 address in
  let* _ := SetRegister t data in
  ret true.

Definition thumb16_ADR (d : Reg) (imm8 : Z) : Visitor bool :=
  let imm32 := Z.shiftl imm8 2 mod 2 ^ 32 in
  let* aligned := AlignPC4 in
  let result := Imm32 ((aligned + imm32) mod 2 ^ 32) in
  let* _ := SetRegister d result in
  ret true.

Definition thumb16_ADD_sp_t1 (d : Reg) (imm8 : Z) : Visitor bool :=
  let imm32 := Z.shiftl imm8 2 mod 2 ^ 32 in
  let* sp := GetRegister SP in
  let* result := AddWithCarry sp (Imm32 imm32) (Imm1 false) in
  let* _ := SetRegister d (rco_result result) in
  ret true.

Definition thumb16_ADD_sp_t2 (imm7 : Z) : Visitor bool :=
  let imm32 := Z.shiftl imm7 2 mod 2 ^ 32 in
  let d := SP in
  let* sp := GetRegister SP in
  let* result := AddWithCarry sp (Imm32 imm32) (Imm1 false) in
  let* _ := SetRegister d (rco_result result) in
  ret true.

Definition thumb16_SUB_sp (imm7 : Z) : Visitor bool :=
  let imm32 := Z.shiftl imm7 2 mod 2 ^ 32 in
  let d := SP in
  let* sp := GetRegister SP in
  let* result := SubWithCarry sp (Imm32 imm32) (Imm1 true) in
  let* _ := SetRegister d (rco_result result) in
  ret true.

Definition thumb16_SXTH (m d : Reg) : Visitor bool :=
  let* rm := GetRegister m in
  let* half := LeastSignificantHalf rm in
  let* word := SignExtendHalfToWord half in
  let* _ := SetRegister d word in
  ret true.

Definition thumb16_SXTB (m d : Reg) : Visitor bool :=
  let* rm := GetRegister m in
  let* byte := LeastSignificantByte rm in
  let* word := SignExtendByteToWord byte in
  let* _ := SetRegister d word in
  ret true.

Definition thumb16_UXTH (m d : Reg) : Visitor bool :=
  let* rm := GetRegister m in
  let* half := LeastSignificantHalf rm in
  let* word := ZeroExtendHalfToWord half in
  let* _ := SetRegister d word in
  ret true.

Definition thumb16_UXTB (m d : Reg) : Visitor bool :=
  let* rm := GetRegister m in
  let* byte := LeastSignificantByte rm in
  let* word := ZeroExtendByteToWord byte in
  let* _ := SetRegister d word in
  ret true.

Definition thumb16_REV (m d : Reg) : Visitor bool :=
  let* rm := GetRegister m in
  let* word := ByteReverseWord rm in
  let* _ := SetRegister d word in
  ret true.

Definition thumb16_REV16 (m d : Reg) : Visitor bool :=
  let* Rm := GetRegister m in
  let* shifted := LogicalShiftRight Rm (Imm8 16) (Imm1 false) in
  let* upper_half := LeastSignificantHalf (rc_result shifted) in
  let* lower_half := LeastSignificantHalf Rm in
  let* swapped_upper := ByteReverseHalf upper_half in
  let* rev_upper_half := ZeroExtendHalfToWord swapped_upper in
  let* swapped_lower := ByteReverseHalf lower_half in
  let* rev_lower_half := ZeroExtendHalfToWord swapped_lower in
  let* upper := LogicalShiftLeft rev_upper_half (Imm8 16) (Imm1 false) in
  let* result := Or (rc_result upper) rev_lower_half in
  let* _ := SetRegister d result in
  ret true.

Definition thumb16_REVSH (m d : Reg) : Visitor bool :=
  let* rm := GetRegister m in
  let* half := LeastSignificantHalf rm in
  let* rev_half := ByteReverseHalf half in
  let* word := SignExtendHalfToWord rev_half in
  let* _ := SetRegister d word in
  ret true.

(** A call of an instruction method of [ThumbTranslatorVisitor] with its
    arguments, as a matcher of the decoder table makes it. *)
Inductive VisitorCall :=
| Call_LSL_imm (imm5 : Z) (m d : Reg)
| Call_LSR_imm (imm5 : Z) (m d : Reg)
| Call_ASR_imm (imm5 : Z) (m d : Reg)
| Call_ADD_reg_t1 (m n d : Reg)
| Call_SUB_reg (m n d : Reg)
| Call_ADD_imm_t1 (imm3 : Z) (n d : Reg)
| Call_SUB_imm_t1 (imm3 : Z) (n d : Reg)
| Call_MOV_imm (d : Reg) (imm8 : Z)
| Call_CMP_imm (n : Reg) (imm8 : Z)
| Call_ADD_imm_t2 (d_n : Reg) (imm8 : Z)
| Call_SUB_imm_t2 (d_n : Reg) (imm8 : Z)
| Call_AND_reg (m d_n : Reg)
| Call_EOR_reg (m d_n : Reg)
| Call_LSL_reg (m d_n : Reg)
| Call_LSR_reg (m d_n : Reg)
| Call_ASR_reg (m d_n : Reg)
| Call_ADC_reg (m d_n : Reg)
| Call_SBC_reg (m d_n : Reg)
| Call_ROR_reg (m d_n : Reg)
| Call_TST_reg (m n : Reg)
| Call_RSB_imm (n d : Reg)
| Call_CMP_reg_t1 (m n : Reg)
| Call_CMN_reg (m n : Reg)
| Call_ORR_reg (m d_n : Reg)
| Call_BIC_reg (m d_n : Reg)
| Call_MVN_reg (m d : Reg)
| Call_ADD_reg_t2 (d_n_hi : bool) (m d_n_lo : Reg)
| Call_CMP_reg_t2 (n_hi : bool) (m n_lo : Reg)
| Call_MOV_reg (d_hi : bool) (m d_lo : Reg)
| Call_LDR_literal (t : Reg) (imm8 : Z)
| Call_STR_reg (m n t : Reg)
| Call_STRH_reg (m n t : Reg)
| Call_STRB_reg (m n t : Reg)
| Call_LDR_imm_t1 (imm5 : Z) (n t : Reg)
| Call_ADR (d : Reg) (imm8 : Z)
| Call_ADD_sp_t1 (d : Reg) (imm8 : Z)
| Call_ADD_sp_t2 (imm7 : Z)
| Call_SUB_sp (imm7 : Z)
| Call_SXTH (m d : Reg)
| Call_SXTB (m d : Reg)
| Call_UXTH (m d : Reg)
| Call_UXTB (m d : Reg)
| Call_REV (m d : Reg)
| Call_REV16 (m d : Reg)
| Call_REVSH (m d : Reg)
| Call_UDF
| Call_SVC (imm8 : Z).

Definition call (c : VisitorCall) : Visitor bool :=
  match c with
  | Call_LSL_imm imm5 m d => thumb16_LSL_imm imm5 m d
  | Call_LSR_imm imm5 m d => thumb16_LSR_imm imm5 m d
  | Call_ASR_imm imm5 m d => thumb16_ASR_imm imm5 m d
  | Call_ADD_reg_t1 m n d => thumb16_ADD_reg_t1 m n d
  | Call_SUB_reg m n d => thumb16_SUB_reg m n d
  | Call_ADD_imm_t1 imm3 n d => thumb16_ADD_imm_t1 imm3 n d
  | Call_SUB_imm_t1 imm3 n d => thumb16_SUB_imm_t1 imm3 n d
  | Call_MOV_imm d imm8 => thumb16_MOV_imm d imm8
  | Call_CMP_imm n imm8 => thumb16_CMP_imm n imm8
  | Call_ADD_imm_t2 d_n imm8 => thumb16_ADD_imm_t2 d_n imm8
  | Call_SUB_imm_t2 d_n imm8 => thumb16_SUB_imm_t2 d_n imm8
  | Call_AND_reg m d_n => thumb16_AND_reg m d_n
  | Call_EOR_reg m d_n => thumb16_EOR_reg m d_n
  | Call_LSL_reg m d_n => thumb16_LSL_reg m d_n
  | Call_LSR_reg m d_n => thumb16_LSR_reg m d_n
  | Call_ASR_reg m d_n => thumb16_ASR_reg m d_n
  | Call_ADC_reg m d_n => thumb16_ADC_reg m d_n
  | Call_SBC_reg m d_n => thumb16_SBC_reg m d_n
  | Call_ROR_reg m d_n => thumb16_ROR_reg m d_n
  | Call_TST_reg m n => thumb16_TST_reg m n
  | Call_RSB_imm n d => thumb16_RSB_imm n d
  | Call_CMP_reg_t1 m n => thumb16_CMP_reg_t1 m n
  | Call_CMN_reg m n => thumb16_CMN_reg m n
  | Call_ORR_reg m d_n => thumb16_ORR_reg m d_n
  | Call_BIC_reg m d_n => thumb16_BIC_reg m d_n
  | Call_MVN_reg m d => thumb16_MVN_reg m d
  | Call_ADD_reg_t2 d_n_hi m d_n_lo => thumb16_ADD_reg_t2 d_n_hi m d_n_lo
  | Call_CMP_reg_t2 n_hi m n_lo => thumb16_CMP_reg_t2 n_hi m n_lo
  | Call_MOV_reg d_hi m d_lo => thumb16_MOV_reg d_hi m d_lo
  | Call_LDR_literal t imm8 => thumb16_LDR_literal t imm8
  | Call_STR_reg m n t => thumb16_STR_reg m n t
  | Call_STRH_reg m n t => thumb16_STRH_reg m n t
  | Call_STRB_reg m n t => thumb16_STRB_reg m n t
  | Call_LDR_imm_t1 imm5 n t => thumb16_LDR_imm_t1 imm5 n t
  | Call_ADR d imm8 => thumb16_ADR d imm8
  | Call_ADD_sp_t1 d imm8 => thumb16_ADD_sp_t1 d imm8
  | Call_ADD_sp_t2 imm7 => thumb16_ADD_sp_t2 imm7
  | Call_SUB_sp imm7 => thumb16_SUB_sp imm7
  | Call_SXTH m d => thumb16_SXTH m d
  | Call_SXTB m d => thumb16_SXTB m d
  | Call_UXTH m d => thumb16_UXTH m d
  | Call_UXTB m d => thumb16_UXTB m d
  | Call_REV m d => thumb16_REV m d
  | Call_REV16 m d => thumb16_REV16 m d
  | Call_REVSH m d => thumb16_REVSH m d
  | Call_UDF => thumb16_UDF
  | Call_SVC imm8 => thumb16_SVC imm8
  end.

(** *** Instruction fetch *)

Inductive ThumbInstSize := Thumb16 | Thumb32.

Definition ReadThumbInstruction (arm_pc : Z) (memory_read_32 : Z -> Z)
  : Z * ThumbInstSize :=
  let first_part := memory_read_32 (Z.land arm_pc 0xFFFFFFFC) in
  let first_part :=
    if negb (Z.land arm_pc 0x2 =? 0) then Z.shiftr first_part 16
    else first_part in
  let first_part := Z.land first_part 0xFFFF in
  if Z.land first_part 0xF800 <=? 0xE800 then
    (first_part, Thumb16)
  else
    let second_part :=
      memory_read_32 (Z.land ((arm_pc + 2) mod 2 ^ 32) 0xFFFFFFFC) in
    let second_part :=
      if negb (Z.land ((arm_pc + 2) mod 2 ^ 32) 0x2 =? 0)
      then Z.shiftr second_part 16
      else second_part in
    let second_part := Z.land second_part 0xFFFF in
    (Z.lor (Z.shiftl first_part 16) second_part mod 2 ^ 32, Thumb32).

(** *** The translation loop *)

Section TranslateThumb.

(** The 16-bit decoder table [DecodeThumb16] of
    [frontend/decoder/thumb16.h] is not among the sources: it is a
    parameter.  A hit is the matcher's [call], which takes the visitor
    state and the instruction. *)
Variable DecodeThumb16 : Z -> option (Z -> Visitor bool).

Variable memory_read_32 : Z -> Z.

(** The [Thumb16] branch of the loop body: the decoder is asked, and a
    miss is [thumb16_UDF]. *)
Definition dispatch_thumb16 (thumb_instruction : Z) : Visitor bool :=
  match DecodeThumb16 (thumb_instruction mod 2 ^ 16) with
  | Some decoder => decoder (thumb_instruction mod 2 ^ 16)
  | None => thumb16_UDF
  end.

(** The end of the loop body: [arm_pc] advances by the size of the
    instruction and [cycle_count] by one. *)
Definition advance (inst_size : ThumbInstSize)
  (dispatched : Outcome bool) : Outcome bool :=
  match dispatched with
  | AssertionFailed msg => AssertionFailed msg
  | Returns should_continue v =>
    let loc := current_location v in
    let b := block v in
    Returns should_continue
      {| block := {| instructions := instructions b;
                     location := location b;
                     cycle_count := cycle_count b + 1;
                     terminal := terminal b |};
         current_location :=
           {| Arm.arm_pc :=
                (Arm.arm_pc loc
                 + match inst_size with Thumb16 => 2 | Thumb32 => 4 end)
                mod 2 ^ 32;
              TFlag := TFlag loc;
              fpscr_mode := fpscr_mode loc |} |}
  end.

(** One round of the [while (should_continue)] loop. *)
Definition TranslateThumb_round : Visitor bool :=
  fun visitor =>
    let arm_pc := Arm.arm_pc (current_location visitor) in
    let '(thumb_instruction, inst_size) :=
      ReadThumbInstruction arm_pc memory_read_32 in
    advance inst_size
      match inst_size with
      | Thumb16 => dispatch_thumb16 thumb_instruction visitor
      | Thumb32 => InterpretThisInstruction visitor
      end.

(** The loop, bounded by [fuel] rounds; [None] when the bound is reached
    before a round asks to stop. *)
Fixpoint TranslateThumb_loop (fuel : nat) (visitor : IREmitter)
  : option (Outcome unit) :=
  match fuel with
  | O => None
  | S fuel' =>
    match TranslateThumb_round visitor with
    | AssertionFailed msg => Some (AssertionFailed msg)
    | Returns true v => TranslateThumb_loop fuel' v
    | Returns false v => Some (Returns tt v)
    end
  end.

(** [TranslateThumb(descriptor, memory_read_32)]. *)
Definition TranslateThumb (fuel : nat) (descriptor : LocationDescriptor)
  : option (Outcome Block) :=
  if negb (TFlag descriptor) then
    Some (AssertionFailed "The processor must be in Thumb mode")
  else
    let visitor :=
      {| block := {| instructions := []; location := descriptor;
                     cycle_count := 0; terminal := TermInvalid |};
         current_location := descriptor |} in
    match TranslateThumb_loop fuel visitor with
    | None => None
    | Some (AssertionFailed msg) => Some (AssertionFailed msg)
    | Some (Returns _ v) => Some (Returns (block v) v)
    end.

End TranslateThumb.

(** *** Vocabulary and concrete inputs of the statements *)

(** The builder [ir] after the instructions [l] were appended. *)
Definition append_insts (ir : IREmitter) (l : list IR.Inst) : IREmitter :=
  {| block := set_instructions (block ir) (instructions (block ir) ++ l);
     current_location := current_location ir |}.

(** The register a one-bit [hi] and a three-bit [lo] field name. *)
Definition high_register (hi : bool) (lo : Reg) : option Reg :=
  if hi then RegOfNumber (RegNumber lo + 8) else Some lo.

(** The halfword at [arm_pc], as [ReadThumbInstruction] reads it. *)
Definition halfword_at (memory_read_32 : Z -> Z) (arm_pc : Z) : Z :=
  let word := memory_read_32 (Z.land arm_pc 0xFFFFFFFC) in
  Z.land (if negb (Z.land arm_pc 0x2 =? 0) then Z.shiftr word 16 else word)
         0xFFFF.

(** A builder at the start of a block at [0x1000]. *)
Definition fresh_emitter : IREmitter := {|
  block := {| instructions := [];
              location := {| arm_pc := 0x1000; TFlag := true;
                             fpscr_mode := 0 |};
              cycle_count := 0;
              terminal := TermInvalid |};
  current_location := {| arm_pc := 0x1000; TFlag := true;
                         fpscr_mode := 0 |}
|}.

(** A decoder table that takes every halfword for [SVC #imm8]. *)
Definition decode_all_as_SVC (inst : Z) : option (Z -> Visitor bool) :=
  Some (fun inst => thumb16_SVC (Z.land inst 0xFF)).

(** The builder [ir] with the terminal [t], as [SetTerm] leaves it. *)
Definition with_terminal (ir : IREmitter) (t : Terminal) : IREmitter :=
  {| block := {| instructions := instructions (block ir);
                 location := location (block ir);
                 cycle_count := cycle_count (block ir);
                 terminal := t |};
     current_location := current_location ir |}.

(** The builder after a visitor appended [l] and, when [t] names one,
    set the terminal. *)
Definition after (ir : IREmitter) (l : list IR.Inst) (t : option Terminal)
  : IREmitter :=
  match t with
  | None => append_insts ir l
  | Some t => with_terminal (append_insts ir l) t
  end.

(** The value [v] is defined among the first [n] instructions. *)
Definition defined_below (n : nat) (v : Value) : Prop :=
  match v with
  | InstRef k => (k < n)%nat
  | _ => True
  end.

(** The instructions [l], appended at position [n], use only values of
    earlier instructions. *)
Fixpoint refs_earlier (n : nat) (l : list IR.Inst) : Prop :=
  match l with
  | [] => True
  | d :: l' => Forall (defined_below n) (args d) /\ refs_earlier (S n) l'
  end.

(** Each memory read among the instructions [l], appended at position
    [n], is a 32-bit read whose address is a [u32] immediate or the
    value of an [Add] of [l]. *)
Definition reads_words (n : nat) (l : list IR.Inst) : Prop :=
  Forall (fun d =>
    Optimization.is_read (opcode d) = true ->
    opcode d = A32ReadMemory32 /\
    exists x, args d = [x] /\
      ((exists vaddr, x = ImmU32 vaddr) \/
       (exists k d', x = InstRef (n + k) /\ l !! k = Some d' /\
                     opcode d' = IR.Add))) l.

(** Each flag set among the instructions [l], appended at position [n],
    takes the value of an instruction of [l] of its [flag_source]. *)
Definition flags_of_ops (n : nat) (l : list IR.Inst) : Prop :=
  Forall (fun d =>
    forall src, Optimization.flag_source (opcode d) = Some src ->
    exists k d', args d = [InstRef (n + k)] /\ l !! k = Some d' /\
                 opcode d' = src) l.

(** Some instruction of [l] has the opcode [op]. *)
Definition emits (op : Opcode) (l : list IR.Inst) : bool :=
  existsb (fun d => Opcode_eqb (opcode d) op) l.

(** The flags a method sets: N and Z together, C only with them, V only
    with C. *)
Definition flags_together (l : list IR.Inst) : bool :=
  Bool.eqb (emits A32SetNFlag l) (emits A32SetZFlag l)
  && implb (emits A32SetCFlag l) (emits A32SetNFlag l)
  && implb (emits A32SetVFlag l) (emits A32SetCFlag l).

(** How a visitor that returned [should_continue] left the block: it
    goes on without a terminal; it stops at an instruction handed to the
    interpreter, after a write to the PC, or after a supervisor call. *)
Definition stop_reason (location : LocationDescriptor)
  (should_continue : bool) (l : list IR.Inst) (t : option Terminal)
  : Prop :=
  if should_continue then t = None
  else
    (l = [] /\ t = Some (Interpret location)) \/
    (t = Some ReturnToDispatch /\
     exists v, last l = Some {| opcode := A32ALUWritePC; args := [v] |}) \/
    (t = None /\
     exists imm32,
       l = [{| opcode := A32CallSupervisor; args := [ImmU32 imm32] |}]).

(** The decoder table calls instruction methods of the visitor. *)
Definition calls_visitor (DecodeThumb16 : Z -> option (Z -> Visitor bool))
  : Prop :=
  forall inst decoder, DecodeThumb16 inst = Some decoder ->
    exists c, decoder inst = call c.

(** Memory that holds [LDR r0, [pc, #4]] ([0x4801]) and [SVC #0]
    ([0xDF00]) in every word. *)
Definition memory_LDR_SVC (vaddr : Z) : Z := 0xDF004801.

(** A decoder table for [LDR <Rt>, <label>] with [Rt = r0] and for
    [SVC #<imm8>]. *)
Definition decode_LDR_SVC (inst : Z) : option (Z -> Visitor bool) :=
  if Z.land inst 0xFF00 =? 0x4800 then
    Some (fun inst => thumb16_LDR_literal R0 (Z.land inst 0xFF))
  else if Z.land inst 0xFF00 =? 0xDF00 then
    Some (fun inst => thumb16_SVC (Z.land inst 0xFF))
  else None.

Definition descriptor_1000 : LocationDescriptor :=
  {| arm_pc := 0x1000; TFlag := true; fpscr_mode := 0 |}.

(** The block of [memory_LDR_SVC] at [0x1000]. *)
Definition LDR_SVC_block : Block := {|
  instructions :=
    [ {| opcode := A32ReadMemory32; args := [ImmU32 0x1008] |};
      {| opcode := A32SetRegister; args := [ImmRegRef R0; InstRef 0] |};
      {| opcode := A32CallSupervisor; args := [ImmU32 0] |} ];
  location := descriptor_1000;
  cycle_count := 2;
  terminal := TermInvalid
|}.

Definition LDR_SVC_visitor : IREmitter := {|
  block := LDR_SVC_block;
  current_location :=
    {| arm_pc := 0x1004; TFlag := true; fpscr_mode := 0 |}
|}.

(** The loop invariant: [n] rounds were run on a block started at
    [descriptor], each on a 16-bit instruction. *)
Definition translating (descriptor : LocationDescriptor) (n : Z)
  (visitor : IREmitter) : Prop :=
  Optimization.well_formed (instructions (block visitor)) /\
  Optimization.word_reads (instructions (block visitor)) /\
  Optimization.flags_from_ops (instructions (block visitor)) /\
  location (block visitor) = descriptor /\
  cycle_count (block visitor) = n /\
  TFlag (current_location visitor) = TFlag descriptor /\
  fpscr_mode (current_location visitor) = fpscr_mode descriptor /\
  arm_pc (current_location visitor) mod 2 ^ 32
  = (arm_pc descriptor + 2 * n) mod 2 ^ 32.

(** How a block translated at [descriptor] ends: with
    [ReturnToDispatch] after a write to the PC; with [Interpret] of the
    location of its last instruction, all instructions before it being
    16-bit ones; or after a supervisor call with the terminal it started
    with. *)
Definition block_end (descriptor : LocationDescriptor) (b : Block)
  : Prop :=
  (terminal b = ReturnToDispatch /\
   exists v, last (instructions b)
             = Some {| opcode := A32ALUWritePC; args := [v] |}) \/
  (exists next, terminal b = Interpret next /\ TFlag next = true /\
                fpscr_mode next = fpscr_mode descriptor /\
                arm_pc next mod 2 ^ 32
                = (arm_pc descriptor + 2 * (cycle_count b - 1))
                  mod 2 ^ 32) \/
  (terminal b = TermInvalid /\
   exists imm32,
     last (instructions b)
     = Some {| opcode := A32CallSupervisor; args := [ImmU32 imm32] |}).

(** The block [b] a translation started at [descriptor] returns. *)
Definition translated (descriptor : LocationDescriptor) (b : Block)
  : Prop :=
  Optimization.well_formed (instructions b) /\
  Optimization.word_reads (instructions b) /\
  Optimization.flags_from_ops (instructions b) /\
  location b = descriptor /\
  block_end descriptor b.

End Translate.

(* --------------------------------------------------------------------- *)
(** ** Floating-point formats ([common/fp]) *)
(* --------------------------------------------------------------------- *)

Module FP.

(** The template parameter [fsize]; the [static_assert]s allow 32 and 64
    only. *)
Inductive FSize := F32 | F64.

Definition bitsize (fsize : FSize) : Z :=
  match fsize with F32 => 32 | F64 => 64 end.

(** Modelled from the spec: [FP::FPInfo] of [common/fp/info.h] is not
    among the sources.  The fields are those of the IEEE-754 binary32
    and binary64 formats the spec names; spec 4.6 gives the default NaN,
    [7FC0_0000] and [7FF8_0000_0000_0000]. *)
Definition explicit_mantissa_width (fsize : FSize) : Z :=
  match fsize with F32 => 23 | F64 => 52 end.
Definition exponent_width (fsize : FSize) : Z :=
  match fsize with F32 => 8 | F64 => 11 end.
Definition exponent_bias (fsize : FSize) : Z :=
  match fsize with F32 => 127 | F64 => 1023 end.
Definition sign_mask (fsize : FSize) : Z :=
  Z.shiftl 1 (bitsize fsize - 1).
Definition exponent_mask (fsize : FSize) : Z :=
  Z.shiftl (Z.ones (exponent_width fsize)) (explicit_mantissa_width fsize).
Definition mantissa_mask (fsize : FSize) : Z :=
  Z.ones (explicit_mantissa_width fsize).
Definition mantissa_msb (fsize : FSize) : Z :=
  Z.shiftl 1 (explicit_mantissa_width fsize - 1).
Definition DefaultNaN (fsize : FSize) : Z :=
  Z.lor (exponent_mask fsize) (mantissa_msb fsize).

(** Modelled from the spec: the classification helpers of
    [common/fp/util.h] are not among the sources; they are the IEEE-754
    classes of a bit pattern. *)
Definition IsZero (fsize : FSize) (value : Z) : bool :=
  Z.land value (Z.ones (bitsize fsize - 1)) =? 0.
Definition IsInf (fsize : FSize) (value : Z) : bool :=
  Z.land value (Z.ones (bitsize fsize - 1)) =? exponent_mask fsize.
Definition IsNaN (fsize : FSize) (value : Z) : bool :=
  (Z.land value (exponent_mask fsize) =? exponent_mask fsize)
  && negb (Z.land value (mantissa_mask fsize) =? 0).
Definition IsQNaN (fsize : FSize) (value : Z) : bool :=
  IsNaN fsize value && negb (Z.land value (mantissa_msb fsize) =? 0).
Definition IsSNaN (fsize : FSize) (value : Z) : bool :=
  IsNaN fsize value && (Z.land value (mantissa_msb fsize) =? 0).

(** A NaN made quiet: the top mantissa bit set. *)
Definition Quiet (fsize : FSize) (value : Z) : Z :=
  Z.lor value (mantissa_msb fsize).

(** Modelled from the spec: [FP::ProcessNaNs] of [common/fp] is not among
    the sources.  Spec 8, scenario 3 calls the rule of [FPProcessNaNs]
    the "first-NaN-of-inputs rule" and shows the result quieted: the
    answer is the first NaN among the operands, in operand order, made
    quiet, and nothing when no operand is a NaN. *)
Definition ProcessNaNs (fsize : FSize) (a b : Z) : option Z :=
  if IsNaN fsize a then Some (Quiet fsize a)
  else if IsNaN fsize b then Some (Quiet fsize b)
  else None.

(** [FP::RoundingMode], with the enumerators the sources name. *)
Inductive RoundingMode :=
| ToNearest_TieEven
| TowardsPlusInfinity
| TowardsMinusInfinity
| TowardsZero
| ToNearest_TieAwayFromZero.

Definition RoundingMode_eqb (a b : RoundingMode) : bool :=
  match a, b with
  | ToNearest_TieEven, ToNearest_TieEven
  | TowardsPlusInfinity, TowardsPlusInfinity
  | TowardsMinusInfinity, TowardsMinusInfinity
  | TowardsZero, TowardsZero
  | ToNearest_TieAwayFromZero, ToNearest_TieAwayFromZero => true
  | _, _ => false
  end.

End FP.

(* --------------------------------------------------------------------- *)
(** ** Host instructions *)
(* --------------------------------------------------------------------- *)

(** The meaning of the SSE and AVX instructions the emitter writes, as
    functions on register contents.  An XMM register is seen as its
    [128 / fsize] lanes, lowest lane first; a lane is the integer of its
    bit pattern.  Arithmetic follows the IEEE-754 specification of the
    Standard Library ([SpecFloat]), with rounding to nearest even and
    masked exceptions; NaN operands follow the SSE rule (the first NaN
    operand, made quiet). *)

Module X64.
Import FP.

Abbreviation Vec := (list Z).

Definition lanes (fsize : FSize) : nat :=
  match fsize with F32 => 4%nat | F64 => 2%nat end.

Definition all_ones (fsize : FSize) : Z := Z.ones (bitsize fsize).

(** [v[i]]. *)
Definition lane (v : Vec) (i : nat) : Z := default 0 (v !! i).

(** *** Bit patterns and IEEE-754 values *)

Definition prec (fsize : FSize) : Z := explicit_mantissa_width fsize + 1.
Definition emax (fsize : FSize) : Z := exponent_bias fsize + 1.

Definition sign_bit (fsize : FSize) (x : Z) : bool :=
  Z.testbit x (bitsize fsize - 1).

Definition decode (fsize : FSize) (x : Z) : spec_float :=
  let s := sign_bit fsize x in
  let mw := explicit_mantissa_width fsize in
  let e := Z.shiftr (Z.land x (exponent_mask fsize)) mw in
  let m := Z.land x (mantissa_mask fsize) in
  if IsNaN fsize x then S754_nan
  else if IsInf fsize x then S754_infinity s
  else if IsZero fsize x then S754_zero s
  else if e =? 0 then
    S754_finite s (Z.to_pos m) (1 - exponent_bias fsize - mw)
  else
    S754_finite s (Z.to_pos (m + 2 ^ mw)) (e - exponent_bias fsize - mw).

(** The NaN an invalid operation produces ("QNaN floating-point
    indefinite"). *)
Definition QNaN_indefinite (fsize : FSize) : Z :=
  Z.lor (sign_mask fsize) (DefaultNaN fsize).

Definition encode (fsize : FSize) (f : spec_float) : Z :=
  let sgn (s : bool) := if s then sign_mask fsize else 0 in
  let mw := explicit_mantissa_width fsize in
  match f with
  | S754_zero s => sgn s
  | S754_infinity s => Z.lor (sgn s) (exponent_mask fsize)
  | S754_nan => QNaN_indefinite fsize
  | S754_finite s m e =>
    if Z.pos m <? 2 ^ mw then Z.lor (sgn s) (Z.pos m)
    else Z.lor (sgn s)
           (Z.lor (Z.shiftl (e + exponent_bias fsize + mw) mw)
                  (Z.pos m - 2 ^ mw))
  end.

(** *** Moves and bitwise instructions *)

Definition movaps (src : Vec) : Vec := src.
Definition andps (dst src : Vec) : Vec := zip_with Z.land dst src.
Definition orps (dst src : Vec) : Vec := zip_with Z.lor dst src.
Definition xorps (dst src : Vec) : Vec := zip_with Z.lxor dst src.
Definition andnps (dst src : Vec) : Vec :=
  zip_with (fun d s => Z.land (Z.lnot d) s) dst src.

(** Three-operand forms. *)
Definition vandp (src1 src2 : Vec) : Vec := andps src1 src2.
Definition vorp (src1 src2 : Vec) : Vec := orps src1 src2.
Definition vxorp (src1 src2 : Vec) : Vec := xorps src1 src2.
Definition vandnp (src1 src2 : Vec) : Vec := andnps src1 src2.

(** [pcmpeqw]: equality of the 16-bit words of the lanes. *)
Definition word16 (k : nat) (x : Z) : Z :=
  Z.land (Z.shiftr x (16 * Z.of_nat k)) 0xFFFF.

Definition pcmpeqw_lane (fsize : FSize) (x y : Z) : Z :=
  fold_right
    (fun k acc =>
       Z.lor acc (if word16 k x =? word16 k y
                  then Z.shiftl 0xFFFF (16 * Z.of_nat k) else 0))
    0 (seq 0 (Z.to_nat (bitsize fsize / 16))).

Definition pcmpeqw (fsize : FSize) (dst src : Vec) : Vec :=
  zip_with (pcmpeqw_lane fsize) dst src.

(** [vblendvp]: the lane of [src2] where the sign bit of the mask lane
    is set, the lane of [src1] elsewhere. *)
Definition vblendvp (fsize : FSize) (src1 src2 mask : Vec) : Vec :=
  zip_with (fun pick m => pick m)
    (zip_with (fun x y m => if sign_bit fsize m then y else x) src1 src2)
    mask.

(** [vbroadcasts] of a constant in memory. *)
Definition vbroadcasts (fsize : FSize) (x : Z) : Vec :=
  replicate (lanes fsize) (x mod 2 ^ bitsize fsize).

(** [punpcklqdq]: the low quadwords of both operands. *)
Definition punpcklqdq (fsize : FSize) (dst src : Vec) : Vec :=
  take (lanes fsize / 2) dst ++ take (lanes fsize / 2) src.

(** *** Comparisons *)

Definition compare (fsize : FSize) (a b : Z) : option comparison :=
  SFcompare (decode fsize a) (decode fsize b).

Definition EQ_OQ (c : option comparison) : bool :=
  match c with Some Eq => true | _ => false end.
Definition NEQ_UQ (c : option comparison) : bool := negb (EQ_OQ c).
Definition LT_OQ (c : option comparison) : bool :=
  match c with Some Lt => true | _ => false end.
Definition GE_OQ (c : option comparison) : bool :=
  match c with Some Gt | Some Eq => true | _ => false end.
Definition NGE_UQ (c : option comparison) : bool := negb (GE_OQ c).
Definition ORD (c : option comparison) : bool :=
  match c with Some _ => true | None => false end.
Definition UNORD (c : option comparison) : bool := negb (ORD c).

Definition cmp_lane (fsize : FSize) (pred : option comparison -> bool)
  (a b : Z) : Z :=
  if pred (compare fsize a b) then all_ones fsize else 0.

Definition cmpp (fsize : FSize) (pred : option comparison -> bool)
  (a b : Vec) : Vec :=
  zip_with (cmp_lane fsize pred) a b.

Definition cmpordp (fsize : FSize) := cmpp fsize ORD.
Definition cmpunordp (fsize : FSize) := cmpp fsize UNORD.
Definition cmpneqp (fsize : FSize) := cmpp fsize NEQ_UQ.
Definition vcmpeqp (fsize : FSize) := cmpp fsize EQ_OQ.
Definition vcmplt_oqp (fsize : FSize) := cmpp fsize LT_OQ.
Definition vcmpge_oqp (fsize : FSize) := cmpp fsize GE_OQ.
Definition vcmpnge_uqp (fsize : FSize) := cmpp fsize NGE_UQ.

(** [ptest]: the zero flag. *)
Definition ptest_ZF (a b : Vec) : bool :=
  forallb (fun x => x =? 0) (andps a b).

(** [movmskps]: the sign bits of the 32-bit parts of the register. *)
Definition sign_bits32 (fsize : FSize) (x : Z) : list bool :=
  match fsize with
  | F32 => [Z.testbit x 31]
  | F64 => [Z.testbit x 31; Z.testbit x 63]
  end.

Definition bits_to_Z (l : list bool) : Z :=
  fold_right (fun b acc => Z.b2z b + 2 * acc) 0 l.

Definition movmskps (fsize : FSize) (v : Vec) : Z :=
  bits_to_Z (flat_map (sign_bits32 fsize) v).

(** *** Arithmetic *)

Definition arith2 (fsize : FSize)
  (op : spec_float -> spec_float -> spec_float) (a b : Z) : Z :=
  if IsNaN fsize a then Quiet fsize a
  else if IsNaN fsize b then Quiet fsize b
  else encode fsize (op (decode fsize a) (decode fsize b)).

Definition addp (fsize : FSize) (dst src : Vec) : Vec :=
  zip_with (arith2 fsize (SFadd (prec fsize) (emax fsize))) dst src.
Definition subp (fsize : FSize) (dst src : Vec) : Vec :=
  zip_with (arith2 fsize (SFsub (prec fsize) (emax fsize))) dst src.
Definition mulp (fsize : FSize) (dst src : Vec) : Vec :=
  zip_with (arith2 fsize (SFmul (prec fsize) (emax fsize))) dst src.
Definition divp (fsize : FSize) (dst src : Vec) : Vec :=
  zip_with (arith2 fsize (SFdiv (prec fsize) (emax fsize))) dst src.
Definition vmulp (fsize : FSize) (src1 src2 : Vec) : Vec :=
  mulp fsize src1 src2.

(** [maxp] and [minp] answer the second operand unless the first is
    strictly greater (smaller): so for a NaN operand and for two
    zeros. *)
Definition max_lane (fsize : FSize) (a b : Z) : Z :=
  match compare fsize a b with Some Gt => a | _ => b end.
Definition min_lane (fsize : FSize) (a b : Z) : Z :=
  match compare fsize a b with Some Lt => a | _ => b end.

Definition maxp (fsize : FSize) (dst src : Vec) : Vec :=
  zip_with (max_lane fsize) dst src.
Definition minp (fsize : FSize) (dst src : Vec) : Vec :=
  zip_with (min_lane fsize) dst src.
Definition vmaxp (fsize : FSize) (src1 src2 : Vec) : Vec :=
  maxp fsize src1 src2.
Definition vminp (fsize : FSize) (src1 src2 : Vec) : Vec :=
  minp fsize src1 src2.

(** [haddp]: sums of adjacent lanes, of [dst] and then of [src]. *)
Fixpoint pair_sums (fsize : FSize) (v : Vec) : Vec :=
  match v with
  | x :: y :: rest =>
    arith2 fsize (SFadd (prec fsize) (emax fsize)) x y
    :: pair_sums fsize rest
  | _ => []
  end.

Definition haddp (fsize : FSize) (dst src : Vec) : Vec :=
  pair_sums fsize dst ++ pair_sums fsize src.

(** [vroundp]: rounding to an integral value; bits 1:0 of the immediate
    select the direction (00 nearest even, 01 down, 10 up, 11
    truncate). *)
Definition round_magnitude (imm : Z) (s : bool) (m : positive) (e : Z)
  : Z :=
  let k := - e in
  let q := Z.shiftr (Z.pos m) k in
  let r := Z.land (Z.pos m) (Z.ones k) in
  let half := Z.shiftl 1 (k - 1) in
  match imm with
  | 0 => if r <? half then q
         else if half <? r then q + 1
         else if Z.even q then q else q + 1
  | 1 => if s && (0 <? r) then q + 1 else q
  | 2 => if negb s && (0 <? r) then q + 1 else q
  | _ => q
  end.

Definition round_to_integral (fsize : FSize) (imm : Z) (f : spec_float)
  : spec_float :=
  match f with
  | S754_finite s m e =>
    if 0 <=? e then f
    else
      let n := round_magnitude imm s m e in
      if n =? 0 then S754_zero s
      else binary_normalize (prec fsize) (emax fsize)
             (if s then - n else n) 0 s
  | _ => f
  end.

Definition round_lane (fsize : FSize) (imm : Z) (x : Z) : Z :=
  if IsNaN fsize x then Quiet fsize x
  else encode fsize (round_to_integral fsize imm (decode fsize x)).

Definition vroundp (fsize : FSize) (src : Vec) (imm : Z) : Vec :=
  round_lane fsize imm <$> src.

(** *** Instructions of the other emitters *)

(** The integer and double-precision forms of the bitwise
    instructions act on the register as the single-precision forms
    do. *)
Definition pand (dst src : Vec) : Vec := andps dst src.
Definition pxor (dst src : Vec) : Vec := xorps dst src.
Definition andpd (dst src : Vec) : Vec := andps dst src.

(** [cmpeqp], [cmpltp] and [cmplep]: the comparison predicates 0, 1
    and 2.  The last two signal on a quiet NaN, which is masked; their
    answer is that of the ordered comparison. *)
Definition LT_OS (c : option comparison) : bool :=
  match c with Some Lt => true | _ => false end.
Definition LE_OS (c : option comparison) : bool :=
  match c with Some Lt | Some Eq => true | _ => false end.

Definition cmpeqp (fsize : FSize) := cmpp fsize EQ_OQ.
Definition cmpltp (fsize : FSize) := cmpp fsize LT_OS.
Definition cmplep (fsize : FSize) := cmpp fsize LE_OS.

(** *** Conversions from integers, shuffles and blends *)

(** The lane as a signed integer. *)
Definition signed (fsize : FSize) (x : Z) : Z :=
  if sign_bit fsize x then x - 2 ^ bitsize fsize else x.

(** The host converts under the rounding mode of MXCSR; the lanes here
    are rounded to nearest, ties to even, as the host additions are. *)
Definition cvt_signed (fsize : FSize) (x : Z) : Z :=
  encode fsize
    (binary_normalize (prec fsize) (emax fsize) (signed fsize x) 0 false).
Definition cvt_unsigned (fsize : FSize) (x : Z) : Z :=
  encode fsize (binary_normalize (prec fsize) (emax fsize) x 0 false).

Definition cvtdq2ps (src : Vec) : Vec := cvt_signed F32 <$> src.
Definition vcvtqq2pd (src : Vec) : Vec := cvt_signed F64 <$> src.
Definition vcvtudq2ps (src : Vec) : Vec := cvt_unsigned F32 <$> src.

(** [cvtsi2sd xmm, r64] writes the low lane and keeps the high one. *)
Definition cvtsi2sd (dst : Vec) (src : Z) : Vec :=
  <[0%nat := cvt_signed F64 src]> dst.

(** [movq r64, xmm] and [pextrq r64, xmm, imm8]. *)
Definition movq (src : Vec) : Z := lane src 0.
Definition pextrq (src : Vec) (imm8 : nat) : Z := lane src imm8.

(** [movhlps]: the high quadword of [src] to the low quadword of
    [dst]. *)
Definition movhlps (dst src : Vec) : Vec := <[0%nat := lane src 1]> dst.

(** [unpcklpd]: the low quadwords of both operands. *)
Definition unpcklpd (dst src : Vec) : Vec := [lane dst 0; lane src 0].

Definition por (dst src : Vec) : Vec := orps dst src.
Definition movdqa (src : Vec) : Vec := src.

(** [psrld]: a logical shift of the 32-bit lanes. *)
Definition psrld (dst : Vec) (imm8 : Z) : Vec :=
  (fun x => Z.shiftr x imm8) <$> dst.
Definition vpsrld (src : Vec) (imm8 : Z) : Vec := psrld src imm8.

(** [vpblendw] on 32-bit lanes: bits [2 i] and [2 i + 1] of the
    immediate pick the low and the high word of lane [i] from
    [src2]. *)
Definition blend_lane (imm8 : Z) (i : nat) (x y : Z) : Z :=
  Z.lor
    (Z.land (if Z.testbit imm8 (2 * Z.of_nat i) then y else x) 0xFFFF)
    (Z.land (if Z.testbit imm8 (2 * Z.of_nat i + 1) then y else x)
            0xFFFF0000).

Definition vpblendw (src1 src2 : Vec) (imm8 : Z) : Vec :=
  imap (fun i pick => pick i)
       (zip_with (fun x y i => blend_lane imm8 i x y) src1 src2).

Definition vaddp (fsize : FSize) (src1 src2 : Vec) : Vec :=
  addp fsize src1 src2.

End X64.

(* --------------------------------------------------------------------- *)
(** ** [backend_x64/emit_x64_vector_floating_point.cpp] *)
(* --------------------------------------------------------------------- *)

(** The emitter is modelled by the meaning of the code it emits: every
    [Xbyak::Xmm] variable of the source is a register of its own (spec
    4.5: a host register has one owner), each emitted instruction is a
    [let] that rebinds its destination, and the value is the one handed
    to [DefineValue]. *)

Module BackendX64.
Import FP X64.

Inductive CpuFeature := tSSE41 | tAVX | tFMA | tAVX512VL | tAVX512DQ.

(** [BlockOfCode], as far as the emitter asks it. *)
Record BlockOfCode := {
  DoesCpuSupport : CpuFeature -> bool
}.

(** [ctx.reg_alloc]: [ScratchXmm k] is the undefined content of the
    [k]-th scratch register handed out to an emitter. *)
Record RegAlloc := {
  ScratchXmm : nat -> Vec
}.

Record EmitContext := {
  AccurateNaN : bool;
  FPSCR_DN : bool;
  FPSCR_RMode : RoundingMode;
  FPCR : Z;
  reg_alloc : RegAlloc
}.

(** [code.MConst(xword, lower, upper)] seen as lanes. *)
Definition MConst (fsize : FSize) (lower upper : Z) : Vec :=
  match fsize with
  | F32 => [Z.land lower 0xFFFFFFFF; Z.shiftr lower 32;
            Z.land upper 0xFFFFFFFF; Z.shiftr upper 32]
  | F64 => [lower; upper]
  end.

(** *** Indexers *)

Inductive Indexer := DefaultIndexer | PairedIndexer | PairedLowerIndexer.

Definition Indexer_call (fsize : FSize) (indexer : Indexer) (i : nat)
  (a b : Vec) : Z * Z :=
  match indexer with
  | DefaultIndexer => (lane a i, lane b i)
  | PairedIndexer =>
    let halfway := (lanes fsize / 2)%nat in
    let which_array := (i / halfway)%nat in
    let i := (i mod halfway)%nat in
    match which_array with
    | 0%nat => (lane a (2 * i), lane a (2 * i + 1))
    | 1%nat => (lane b (2 * i), lane b (2 * i + 1))
    | _ => (0, 0)
    end
  | PairedLowerIndexer =>
    match fsize with
    | F32 =>
      match i with
      | 0%nat => (lane a 0, lane a 1)
      | 1%nat => (lane b 0, lane b 1)
      | _ => (0, 0)
      end
    | F64 =>
      if Nat.eqb i 0 then (lane a 0, lane b 0) else (0, 0)
    end
  end.

Definition DefaultIndexer3 (i : nat) (a b c : Vec) : Z * Z * Z :=
  (lane a i, lane b i, lane c i).

(** *** [NaNHandler::GetDefault] *)

(** The handler receives the array [values] and rewrites [values[0]]. *)
Definition NaNHandler_GetDefault (fsize : FSize) (indexer : Indexer)
  (values : list Vec) : list Vec :=
  let result := default [] (values !! 0%nat) in
  let a := default [] (values !! 1%nat) in
  let b := default [] (values !! 2%nat) in
  let result :=
    imap (fun elementi r =>
            let current_values := Indexer_call fsize indexer elementi a b in
            match ProcessNaNs fsize (fst current_values)
                    (snd current_values) with
            | Some r' => r'
            | None => if IsNaN fsize r then DefaultNaN fsize else r
            end) result in
  <[0%nat := result]> values.

Section ThreeOperands.

(** [FP::ProcessNaNs] with three operands ([common/fp]) is not among
    the sources, and the specification gives no rule for three
    operands: it is a parameter. *)
Variable ProcessNaNs3 : FSize -> Z -> Z -> Z -> option Z.

Definition NaNHandler_GetDefault4 (fsize : FSize) (values : list Vec)
  : list Vec :=
  let result := default [] (values !! 0%nat) in
  let a := default [] (values !! 1%nat) in
  let b := default [] (values !! 2%nat) in
  let c := default [] (values !! 3%nat) in
  let result :=
    imap (fun elementi r =>
            let '(x, y, z) := DefaultIndexer3 elementi a b c in
            match ProcessNaNs3 fsize x y z with
            | Some r' => r'
            | None => if IsNaN fsize r then DefaultNaN fsize else r
            end) result in
  <[0%nat := result]> values.

End ThreeOperands.

(** *** [HandleNaNs] *)

(** [jnz nan] is taken when [nan_mask] is not zero; the far code copies
    [xmms] to the stack, calls the handler on the copy and loads
    [xmms[0]] back. *)
Definition HandleNaNs (fsize : FSize) (code : BlockOfCode)
  (xmms : list Vec) (nan_mask : Vec)
  (nan_handler : list Vec -> list Vec) : Vec :=
  let jnz :=
    if DoesCpuSupport code tSSE41 then negb (ptest_ZF nan_mask nan_mask)
    else
      let bitmask := movmskps fsize nan_mask in
      negb (bitmask =? 0) in
  let result := default [] (xmms !! 0%nat) in
  if jnz then default [] (nan_handler xmms !! 0%nat)
  else result.

(** *** [EmitThreeOpVectorOperation], [EmitFourOpVectorOperation] *)

Definition DefaultNaN_MConst (fsize : FSize) : Vec :=
  match fsize with
  | F32 => MConst F32 0x7fc000007fc00000 0x7fc000007fc00000
  | F64 => MConst F64 0x7ff8000000000000 0x7ff8000000000000
  end.

Definition EmitThreeOpVectorOperation (fsize : FSize)
  (code : BlockOfCode) (ctx : EmitContext)
  (fn : Vec -> Vec -> Vec) (nan_handler : list Vec -> list Vec)
  (arg0 arg1 : Vec) : Vec :=
  if negb (AccurateNaN ctx) || FPSCR_DN ctx then
    let xmm_a := arg0 in
    let xmm_b := arg1 in
    let xmm_a := fn xmm_a xmm_b in
    let xmm_a :=
      if FPSCR_DN ctx then
        let nan_mask := ScratchXmm (reg_alloc ctx) 0 in
        let tmp := ScratchXmm (reg_alloc ctx) 1 in
        let tmp := pcmpeqw fsize tmp tmp in
        let nan_mask := movaps xmm_a in
        let nan_mask := cmpordp fsize nan_mask nan_mask in
        let xmm_a := andps xmm_a nan_mask in
        let nan_mask := xorps nan_mask tmp in
        let nan_mask := andps nan_mask (DefaultNaN_MConst fsize) in
        let xmm_a := orps xmm_a nan_mask in
        xmm_a
      else xmm_a in
    xmm_a
  else
    let result := ScratchXmm (reg_alloc ctx) 0 in
    let xmm_a := arg0 in
    let xmm_b := arg1 in
    let nan_mask := ScratchXmm (reg_alloc ctx) 1 in
    let nan_mask := movaps xmm_b in
    let result := movaps xmm_a in
    let nan_mask := cmpunordp fsize nan_mask xmm_a in
    let result := fn result xmm_b in
    let nan_mask := cmpunordp fsize nan_mask result in
    let result :=
      HandleNaNs fsize code [result; xmm_a; xmm_b] nan_mask nan_handler in
    result.

Definition EmitFourOpVectorOperation (fsize : FSize)
  (code : BlockOfCode) (ctx : EmitContext)
  (fn : Vec -> Vec -> Vec -> Vec) (nan_handler : list Vec -> list Vec)
  (arg0 arg1 arg2 : Vec) : Vec :=
  if negb (AccurateNaN ctx) || FPSCR_DN ctx then
    let xmm_a := arg0 in
    let xmm_b := arg1 in
    let xmm_c := arg2 in
    let xmm_a := fn xmm_a xmm_b xmm_c in
    let xmm_a :=
      if FPSCR_DN ctx then
        let nan_mask := ScratchXmm (reg_alloc ctx) 0 in
        let tmp := ScratchXmm (reg_alloc ctx) 1 in
        let tmp := pcmpeqw fsize tmp tmp in
        let nan_mask := movaps xmm_a in
        let nan_mask := cmpordp fsize nan_mask nan_mask in
        let xmm_a := andps xmm_a nan_mask in
        let nan_mask := xorps nan_mask tmp in
        let nan_mask := andps nan_mask (DefaultNaN_MConst fsize) in
        let xmm_a := orps xmm_a nan_mask in
        xmm_a
      else xmm_a in
    xmm_a
  else
    let result := ScratchXmm (reg_alloc ctx) 0 in
    let xmm_a := arg0 in
    let xmm_b := arg1 in
    let xmm_c := arg2 in
    let nan_mask := ScratchXmm (reg_alloc ctx) 1 in
    let nan_mask := movaps xmm_b in
    let result := movaps xmm_a in
    let nan_mask := cmpunordp fsize nan_mask xmm_a in
    let nan_mask := cmpunordp fsize nan_mask xmm_c in
    let result := fn result xmm_b xmm_c in
    let nan_mask := cmpunordp fsize nan_mask result in
    let result :=
      HandleNaNs fsize code [result; xmm_a; xmm_b; xmm_c] nan_mask
        nan_handler in
    result.

(** *** Element-wise operations *)

Definition EmitFPVectorAdd (fsize : FSize) code ctx : Vec -> Vec -> Vec :=
  EmitThreeOpVectorOperation fsize code ctx (addp fsize)
    (NaNHandler_GetDefault fsize DefaultIndexer).
Definition EmitFPVectorDiv (fsize : FSize) code ctx : Vec -> Vec -> Vec :=
  EmitThreeOpVectorOperation fsize code ctx (divp fsize)
    (NaNHandler_GetDefault fsize DefaultIndexer).
Definition EmitFPVectorMul (fsize : FSize) code ctx : Vec -> Vec -> Vec :=
  EmitThreeOpVectorOperation fsize code ctx (mulp fsize)
    (NaNHandler_GetDefault fsize DefaultIndexer).
Definition EmitFPVectorSub (fsize : FSize) code ctx : Vec -> Vec -> Vec :=
  EmitThreeOpVectorOperation fsize code ctx (subp fsize)
    (NaNHandler_GetDefault fsize DefaultIndexer).

Definition EmitFPVectorAdd32 := EmitFPVectorAdd F32.
Definition EmitFPVectorAdd64 := EmitFPVectorAdd F64.

(** *** [EmitFPVectorMax], [EmitFPVectorMin] *)

(** The lambda handed to [EmitThreeOpVectorOperation]. *)
Definition EmitFPVectorMax_fn (fsize : FSize) (code : BlockOfCode)
  (ctx : EmitContext) (result xmm_b : Vec) : Vec :=
  let mask := ScratchXmm (reg_alloc ctx) 2 in
  let anded := ScratchXmm (reg_alloc ctx) 3 in
  if DoesCpuSupport code tAVX then
    let mask := vcmpeqp fsize result xmm_b in
    let anded := vandp result xmm_b in
    let result := vmaxp fsize result xmm_b in
    let result := vblendvp fsize result anded mask in
    result
  else
    let mask := movaps result in
    let anded := movaps result in
    let mask := cmpneqp fsize mask xmm_b in
    let anded := andps anded xmm_b in
    let result := maxp fsize result xmm_b in
    let result := andps result mask in
    let mask := andnps mask anded in
    let result := orps result mask in
    result.

Definition EmitFPVectorMax (fsize : FSize) code ctx : Vec -> Vec -> Vec :=
  EmitThreeOpVectorOperation fsize code ctx
    (EmitFPVectorMax_fn fsize code ctx)
    (NaNHandler_GetDefault fsize DefaultIndexer).

Definition EmitFPVectorMin_fn (fsize : FSize) (code : BlockOfCode)
  (ctx : EmitContext) (result xmm_b : Vec) : Vec :=
  let mask := ScratchXmm (reg_alloc ctx) 2 in
  let ored := ScratchXmm (reg_alloc ctx) 3 in
  if DoesCpuSupport code tAVX then
    let mask := vcmpeqp fsize result xmm_b in
    let ored := vorp result xmm_b in
    let result := vminp fsize result xmm_b in
    let result := vblendvp fsize result ored mask in
    result
  else
    let mask := movaps result in
    let ored := movaps result in
    let mask := cmpneqp fsize mask xmm_b in
    let ored := orps ored xmm_b in
    let result := minp fsize result xmm_b in
    let result := andps result mask in
    let mask := andnps mask ored in
    let result := orps result mask in
    result.

Definition EmitFPVectorMin (fsize : FSize) code ctx : Vec -> Vec -> Vec :=
  EmitThreeOpVectorOperation fsize code ctx
    (EmitFPVectorMin_fn fsize code ctx)
    (NaNHandler_GetDefault fsize DefaultIndexer).

Definition EmitFPVectorMax32 := EmitFPVectorMax F32.
Definition EmitFPVectorMax64 := EmitFPVectorMax F64.
Definition EmitFPVectorMin32 := EmitFPVectorMin F32.
Definition EmitFPVectorMin64 := EmitFPVectorMin F64.

(** *** Paired additions *)

Definition EmitFPVectorPairedAdd (fsize : FSize) code ctx
  : Vec -> Vec -> Vec :=
  EmitThreeOpVectorOperation fsize code ctx (haddp fsize)
    (NaNHandler_GetDefault fsize PairedIndexer).

Definition EmitFPVectorPairedAddLower (fsize : FSize) code ctx
  : Vec -> Vec -> Vec :=
  EmitThreeOpVectorOperation fsize code ctx
    (fun result xmm_b =>
       let zero := ScratchXmm (reg_alloc ctx) 2 in
       let zero := xorps zero zero in
       let result := punpcklqdq fsize result xmm_b in
       let result := haddp fsize result zero in
       result)
    (NaNHandler_GetDefault fsize PairedLowerIndexer).

(** *** [EmitFPVectorToFixed] *)

(** What an emitter leaves behind: the value handed to [DefineValue], if
    any, and the final content of the register that held [args[0]]. *)
Record Emitted := {
  DefineValue : option Vec;
  xmm_src : Vec
}.

Section ToFixed.

(** [FP::FPToFixed] of [common/fp/op.h] is not among the sources: it is
    a parameter, called as
    [FPToFixed ibits input fbits unsigned_ fpcr rounding]. *)
Variable FPToFixed : Z -> Z -> Z -> bool -> Z -> RoundingMode -> Z.

(** [EmitTwoOpFallback] with the table entry for [(fbits, rounding)]:
    the host function fills the output array lane by lane. *)
Definition ToFixed_fallback (fsize : FSize) (unsigned_ : bool)
  (fbits : Z) (rounding_mode : RoundingMode) (fpcr : Z) (input : Vec)
  : Vec :=
  (fun x => FPToFixed (bitsize fsize) x fbits unsigned_ fpcr rounding_mode
            mod 2 ^ bitsize fsize) <$> input.

Definition EmitFPVectorToFixed (fsize : FSize) (unsigned_ : bool)
  (code : BlockOfCode) (ctx : EmitContext)
  (arg0 : Vec) (fbits : Z) (rounding : RoundingMode)
  : option Emitted :=
  if DoesCpuSupport code tAVX
     && negb (RoundingMode_eqb rounding ToNearest_TieAwayFromZero) then
    let src := arg0 in
    let scratch := ScratchXmm (reg_alloc ctx) 0 in
    let lower_limit_mask := ScratchXmm (reg_alloc ctx) 1 in
    let upper_limit_mask := ScratchXmm (reg_alloc ctx) 2 in
    let round_imm :=
      match rounding with
      | ToNearest_TieEven => 0
      | TowardsPlusInfinity => 2
      | TowardsMinusInfinity => 1
      | TowardsZero => 3
      | ToNearest_TieAwayFromZero => 0
      end in
    let '(scratch, src) :=
      if negb (fbits =? 0) then
        let scale_factor_scalar :=
          Z.shiftl (fbits + exponent_bias fsize)
                   (explicit_mantissa_width fsize) mod 2 ^ 64 in
        let scratch := vbroadcasts fsize scale_factor_scalar in
        let src := vmulp fsize src scratch in
        (scratch, src)
      else (scratch, src) in
    let src := vroundp fsize src round_imm in
    let fp_lower_limit :=
      if unsigned_ then 0
      else match fsize with
           | F32 => 0xcf000000 | F64 => 0xc3e0000000000000
           end in
    let fp_upper_limit :=
      if unsigned_
      then match fsize with
           | F32 => 0x4f800000 | F64 => 0x43f0000000000000
           end
      else match fsize with
           | F32 => 0x4f000000 | F64 => 0x43e0000000000000
           end in
    let '(scratch, lower_limit_mask) :=
      if fp_lower_limit =? 0 then
        let scratch := vxorp scratch scratch in
        let lower_limit_mask := vcmpnge_uqp fsize scratch src in
        (scratch, lower_limit_mask)
      else
        let scratch := vbroadcasts fsize fp_lower_limit in
        let lower_limit_mask := vcmplt_oqp fsize scratch src in
        (scratch, lower_limit_mask) in
    let scratch := vbroadcasts fsize fp_upper_limit in
    let upper_limit_mask := vcmpge_oqp fsize src scratch in
    let src := vandnp upper_limit_mask src in
    let src := vandnp lower_limit_mask src in
    Some {| DefineValue := None; xmm_src := src |}
  else if (0 <=? fbits) && (fbits <? bitsize fsize) then
    Some {| DefineValue :=
              Some (ToFixed_fallback fsize unsigned_ fbits rounding
                      (FPCR ctx) arg0);
            xmm_src := arg0 |}
  else None.

Definition EmitFPVectorToSignedFixed32 := EmitFPVectorToFixed F32 false.
Definition EmitFPVectorToSignedFixed64 := EmitFPVectorToFixed F64 false.
Definition EmitFPVectorToUnsignedFixed32 := EmitFPVectorToFixed F32 true.
Definition EmitFPVectorToUnsignedFixed64 := EmitFPVectorToFixed F64 true.

End ToFixed.

(** *** Absolute value, negation and comparisons *)

Definition EmitFPVectorAbs32 (arg0 : Vec) : Vec :=
  let a := arg0 in
  let mask := MConst F32 0x7FFFFFFF7FFFFFFF 0x7FFFFFFF7FFFFFFF in
  let a := andps a mask in
  a.

Definition EmitFPVectorAbs64 (arg0 : Vec) : Vec :=
  let a := arg0 in
  let mask := MConst F64 0x7FFFFFFFFFFFFFFF 0x7FFFFFFFFFFFFFFF in
  let a := andpd a mask in
  a.

Definition EmitFPVectorNeg32 (arg0 : Vec) : Vec :=
  let a := arg0 in
  let mask := MConst F32 0x8000000080000000 0x8000000080000000 in
  let a := pxor a mask in
  a.

Definition EmitFPVectorNeg64 (arg0 : Vec) : Vec :=
  let a := arg0 in
  let mask := MConst F64 0x8000000000000000 0x8000000000000000 in
  let a := pxor a mask in
  a.

Definition EmitFPVectorEqual32 (arg0 arg1 : Vec) : Vec :=
  let a := arg0 in
  let b := arg1 in
  let a := cmpeqp F32 a b in
  a.

Definition EmitFPVectorEqual64 (arg0 arg1 : Vec) : Vec :=
  let a := arg0 in
  let b := arg1 in
  let a := cmpeqp F64 a b in
  a.

Definition EmitFPVectorGreater32 (arg0 arg1 : Vec) : Vec :=
  let a := arg0 in
  let b := arg1 in
  let b := cmpltp F32 b a in
  b.

Definition EmitFPVectorGreater64 (arg0 arg1 : Vec) : Vec :=
  let a := arg0 in
  let b := arg1 in
  let b := cmpltp F64 b a in
  b.

Definition EmitFPVectorGreaterEqual32 (arg0 arg1 : Vec) : Vec :=
  let a := arg0 in
  let b := arg1 in
  let b := cmplep F32 b a in
  b.

Definition EmitFPVectorGreaterEqual64 (arg0 arg1 : Vec) : Vec :=
  let a := arg0 in
  let b := arg1 in
  let b := cmplep F64 b a in
  b.

(** *** Conversions from integers *)

Definition EmitFPVectorS32ToSingle (arg0 : Vec) : Vec :=
  let xmm := arg0 in
  let xmm := cvtdq2ps xmm in
  xmm.

Definition EmitFPVectorS64ToDouble (code : BlockOfCode) (ctx : EmitContext)
  (arg0 : Vec) : Vec :=
  let xmm := arg0 in
  let xmm :=
    if DoesCpuSupport code tAVX512VL && DoesCpuSupport code tAVX512DQ then
      vcvtqq2pd xmm
    else if DoesCpuSupport code tSSE41 then
      let xmm_tmp := ScratchXmm (reg_alloc ctx) 0 in
      let tmp := movq xmm in
      let xmm := cvtsi2sd xmm tmp in
      let tmp := pextrq xmm 1 in
      let xmm_tmp := cvtsi2sd xmm_tmp tmp in
      let xmm := unpcklpd xmm xmm_tmp in
      xmm
    else
      let high_xmm := ScratchXmm (reg_alloc ctx) 0 in
      let xmm_tmp := ScratchXmm (reg_alloc ctx) 1 in
      let high_xmm := movhlps high_xmm xmm in
      let tmp := movq xmm in
      let xmm := cvtsi2sd xmm tmp in
      let tmp := movq high_xmm in
      let xmm_tmp := cvtsi2sd xmm_tmp tmp in
      let xmm := unpcklpd xmm xmm_tmp in
      xmm in
  xmm.

Definition EmitFPVectorU32ToSingle (code : BlockOfCode) (ctx : EmitContext)
  (arg0 : Vec) : Vec :=
  let xmm := arg0 in
  let xmm :=
    if DoesCpuSupport code tAVX512DQ && DoesCpuSupport code tAVX512VL then
      vcvtudq2ps xmm
    else
      let mem_4B000000 := MConst F32 0x4B0000004B000000 0x4B0000004B000000 in
      let mem_53000000 := MConst F32 0x5300000053000000 0x5300000053000000 in
      let mem_D3000080 := MConst F32 0xD3000080D3000080 0xD3000080D3000080 in
      let tmp := ScratchXmm (reg_alloc ctx) 0 in
      if DoesCpuSupport code tAVX then
        let tmp := vpblendw xmm mem_4B000000 170 in
        let xmm := vpsrld xmm 16 in
        let xmm := vpblendw xmm mem_53000000 170 in
        let xmm := vaddp F32 xmm mem_D3000080 in
        let xmm := vaddp F32 tmp xmm in
        xmm
      else
        let mem_0xFFFF :=
          MConst F32 0x0000FFFF0000FFFF 0x0000FFFF0000FFFF in
        let tmp := movdqa mem_0xFFFF in
        let tmp := pand tmp xmm in
        let tmp := por tmp mem_4B000000 in
        let xmm := psrld xmm 16 in
        let xmm := por xmm mem_53000000 in
        let xmm := addp F32 xmm mem_D3000080 in
        let xmm := addp F32 xmm tmp in
        xmm in
  let xmm :=
    if RoundingMode_eqb (FPSCR_RMode ctx) TowardsMinusInfinity then
      pand xmm (MConst F32 0x7FFFFFFF7FFFFFFF 0x7FFFFFFF7FFFFFFF)
    else xmm in
  xmm.

(** *** [EmitFPVectorMulAdd] *)

Section MulAdd.

(** The host instruction [vfmadd231ps] or [vfmadd231pd], as a function
    of the three registers it reads, [FP::FPMulAdd] of
    [common/fp/op.h], called as [FPMulAdd addend op1 op2 fpcr], and
    [FP::ProcessNaNs] with three operands: none is among the sources,
    all are parameters. *)
Variable vfmadd231p : FSize -> Vec -> Vec -> Vec -> Vec.
Variable FPMulAdd : FSize -> Z -> Z -> Z -> Z -> Z.
Variable ProcessNaNs3 : FSize -> Z -> Z -> Z -> option Z.

(** The NaN handler [EmitFPVectorMulAdd] hands to
    [EmitFourOpVectorOperation]. *)
Definition MulAdd_nan_handler (fsize : FSize) (values : list Vec)
  : list Vec :=
  let result := default [] (values !! 0%nat) in
  let a := default [] (values !! 1%nat) in
  let b := default [] (values !! 2%nat) in
  let c := default [] (values !! 3%nat) in
  let result :=
    imap (fun i r =>
            if IsQNaN fsize (lane a i)
               && ((IsInf fsize (lane b i) && IsZero fsize (lane c i))
                   || (IsZero fsize (lane b i) && IsInf fsize (lane c i)))
            then DefaultNaN fsize
            else
              match ProcessNaNs3 fsize (lane a i) (lane b i) (lane c i) with
              | Some r' => r'
              | None => if IsNaN fsize r then DefaultNaN fsize else r
              end) result in
  <[0%nat := result]> values.

(** [EmitFourOpFallback] with the lambda of [EmitFPVectorMulAdd]: the
    host function fills the result array lane by lane. *)
Definition MulAdd_fallback (fsize : FSize) (fpcr : Z)
  (addend op1 op2 : Vec) : Vec :=
  imap (fun i _ =>
          FPMulAdd fsize (lane addend i) (lane op1 i) (lane op2 i) fpcr
          mod 2 ^ bitsize fsize)
       (replicate (lanes fsize) 0).

Definition EmitFPVectorMulAdd (fsize : FSize) (code : BlockOfCode)
  (ctx : EmitContext) (arg0 arg1 arg2 : Vec) : Vec :=
  if DoesCpuSupport code tFMA then
    let x64_instruction := vfmadd231p fsize in
    EmitFourOpVectorOperation fsize code ctx x64_instruction
      (MulAdd_nan_handler fsize) arg0 arg1 arg2
  else
    MulAdd_fallback fsize (FPCR ctx) arg0 arg1 arg2.

Definition EmitFPVectorMulAdd32 := EmitFPVectorMulAdd F32.
Definition EmitFPVectorMulAdd64 := EmitFPVectorMulAdd F64.

End MulAdd.

(** *** Vocabulary and concrete inputs of the statements *)

(** Register contents: [lanes fsize] lanes of [fsize] bits. *)
Definition valid_lane (fsize : FSize) (x : Z) : bool :=
  (0 <=? x) && (x <? 2 ^ bitsize fsize).

Definition valid_vec (fsize : FSize) (v : Vec) : bool :=
  Nat.eqb (length v) (lanes fsize) && forallb (valid_lane fsize) v.

(** The lane the default-NaN post-processing leaves. *)
Definition default_nan_lane (fsize : FSize) (r : Z) : Z :=
  if IsNaN fsize r then DefaultNaN fsize else r.

(** The lane accurate-NaN processing leaves, for the inputs [(x, y)] of
    the lane and the lane [r] of the host operation. *)
Definition accurate_nan_lane (fsize : FSize) (xy : Z * Z) (r : Z) : Z :=
  if IsNaN fsize (fst xy) then Quiet fsize (fst xy)
  else if IsNaN fsize (snd xy) then Quiet fsize (snd xy)
  else if IsNaN fsize r then DefaultNaN fsize
  else r.

(** The lanes of [EmitFPVectorMax] and [EmitFPVectorMin] before NaN
    processing. *)
Definition max_fixed_lane (fsize : FSize) (x y : Z) : Z :=
  if EQ_OQ (compare fsize x y) then Z.land x y else max_lane fsize x y.
Definition min_fixed_lane (fsize : FSize) (x y : Z) : Z :=
  if EQ_OQ (compare fsize x y) then Z.lor x y else min_lane fsize x y.

Definition host (sse41 avx : bool) : BlockOfCode := {|
  DoesCpuSupport := fun f =>
    match f with
    | tSSE41 => sse41
    | tAVX => avx
    | _ => false
    end
|}.

Definition context (accurate_nan dn : bool) (fsize : FSize)
  : EmitContext := {|
  AccurateNaN := accurate_nan;
  FPSCR_DN := dn;
  FPSCR_RMode := ToNearest_TieEven;
  FPCR := 0;
  reg_alloc := {| ScratchXmm := fun _ => replicate (lanes fsize) 0 |}
|}.

(** The words of the specification on default-NaN mode: every NaN
    lane of the register [v] is the default NaN. *)
Definition NaN_lanes_default (fsize : FSize) (v : Vec) : Prop :=
  forall i r, v !! i = Some r -> IsNaN fsize r = true ->
              r = DefaultNaN fsize.

(** A lane with the sign bit cleared, and with the sign bit flipped. *)
Definition clear_sign (fsize : FSize) (x : Z) : Z :=
  Z.land x (Z.ones (bitsize fsize - 1)).
Definition flip_sign (fsize : FSize) (x : Z) : Z :=
  Z.lxor x (sign_mask fsize).

(** Some lane of [v] holds a NaN. *)
Definition has_nan (fsize : FSize) (v : Vec) : bool :=
  existsb (IsNaN fsize) v.

(** A host by its features. *)
Definition host_with (features : list CpuFeature) : BlockOfCode := {|
  DoesCpuSupport := fun f =>
    existsb (fun g =>
               match f, g with
               | tSSE41, tSSE41 | tAVX, tAVX | tFMA, tFMA
               | tAVX512VL, tAVX512VL | tAVX512DQ, tAVX512DQ => true
               | _, _ => false
               end) features
|}.

(** A host with FMA and SSE4.1. *)
Definition host_fma : BlockOfCode := {|
  DoesCpuSupport := fun f =>
    match f with
    | tSSE41 | tFMA => true
    | _ => false
    end
|}.

(** Single-precision bit patterns. *)
Definition f32_1 : Z := 0x3F800000.
Definition f32_2 : Z := 0x40000000.
Definition f32_3 : Z := 0x40400000.
Definition f32_4 : Z := 0x40800000.
Definition f32_pos_zero : Z := 0x00000000.
Definition f32_neg_zero : Z := 0x80000000.
Definition f32_pos_inf : Z := 0x7F800000.
Definition f32_neg_inf : Z := 0xFF800000.
Definition qNaN_a : Z := 0x7FC00001.
Definition sNaN_c : Z := 0x7F800003.

End BackendX64.

(* ===================================================================== *)
(** * Part II: lemmas and theorems *)
(* ===================================================================== *)

(* --------------------------------------------------------------------- *)
(** ** The constant-memory-reads pass *)
(* --------------------------------------------------------------------- *)

Section ConstantMemoryReads.
Import IR Optimization.

Variable cb : UserCallbacks.

Lemma Opcode_eqb_eq (a b : Opcode) : Opcode_eqb a b = true <-> a = b.
Proof.
  unfold Opcode_eqb. rewrite Nat.eqb_eq. split; [|congruence].
  destruct a, b; simpl; intros H; solve [reflexivity | discriminate H].
Qed.

(** The loop body in one normal form for all opcodes. *)
Lemma visit_inst_unfold (i : nat) (l : list Inst) (inst : Inst) :
  l !! i = Some inst ->
  visit_inst cb i l =
  if Opcode_eqb (opcode inst) A32SetCFlag then
    if negb (IsImmediate (GetArg inst 0))
       && GetInstOpcode_is l (GetArg inst 0) A32GetCFlag
    then Some (Invalidate i l) else Some l
  else
    match foldable cb inst with
    | Some v => Some (ReplaceUsesWith i v l)
    | None =>
      if is_read (opcode inst) && AreAllArgsImmediates inst
         && negb (bool_decide (is_Some (GetU32 (GetArg inst 0))))
      then None else Some l
    end.
Proof.
  intros Hi. unfold visit_inst, foldable. rewrite Hi.
  destruct (opcode inst) eqn:Hop; simpl; try reflexivity;
    try (destruct (AreAllArgsImmediates inst); simpl;
         [destruct (GetU32 (GetArg inst 0)) as [vaddr|]; simpl;
          [destruct (IsReadOnlyMemory cb vaddr); reflexivity
          |reflexivity]
         |reflexivity]).
  all: destruct (AreAllArgsImmediates inst); simpl; try reflexivity;
       destruct (GetU32 (GetArg inst 0)) as [vaddr|]; simpl; try reflexivity;
       destruct (IsReadOnlyMemory cb vaddr); reflexivity.
Qed.

Lemma visit_upto_S (n : nat) (l : list Inst) :
  visit_upto cb (S n) l = visit_upto cb n l ≫= visit_inst cb n.
Proof.
  unfold visit_upto. rewrite seq_S, fold_left_app. reflexivity.
Qed.

Lemma read_literal_Some (op : Opcode) (a : Z) (v : Value) :
  read_literal cb op a = Some v -> is_read op = true /\ IsImmediate v = true.
Proof.
  destruct op; simpl; intros H; try discriminate H;
    injection H as <-; split; reflexivity.
Qed.

Lemma foldable_Some (inst : Inst) (v : Value) :
  foldable cb inst = Some v ->
  is_read (opcode inst) = true /\ IsImmediate v = true.
Proof.
  unfold foldable. destruct (AreAllArgsImmediates inst); [|discriminate].
  destruct (GetU32 (GetArg inst 0)) as [a|]; [|discriminate].
  destruct (IsReadOnlyMemory cb a); [|discriminate].
  apply read_literal_Some.
Qed.

Lemma folds_to_read (l : list Inst) (k : nat) (v : Value) (d : Inst) :
  folds_to cb l k v -> l !! k = Some d ->
  is_read (opcode d) = true /\ IsImmediate v = true.
Proof.
  intros Hf Hk. inversion Hf as [k' d' args' v' Hk' _ Hfold]; subst.
  rewrite Hk in Hk'. injection Hk' as <-.
  apply foldable_Some in Hfold. exact Hfold.
Qed.

Lemma Invalidated_visit (i : nat) (l : list Inst) :
  l !! i = Some Invalidated -> visit_inst cb i l = Some l.
Proof.
  intros Hi. rewrite (visit_inst_unfold i l _ Hi). reflexivity.
Qed.

(** *** What one step changes *)

Lemma lookup_Invalidate (i j : nat) (l : list Inst) (inst : Inst) :
  l !! j = Some inst ->
  Invalidate i l !! j = Some (if Nat.eqb j i then Invalidated else inst).
Proof.
  intros Hj. unfold Invalidate.
  destruct (Nat.eqb j i) eqn:E.
  - apply Nat.eqb_eq in E. subst j.
    apply list_lookup_insert_eq. eapply lookup_lt_Some, Hj.
  - apply Nat.eqb_neq in E.
    rewrite list_lookup_insert_ne by congruence. exact Hj.
Qed.

Lemma lookup_ReplaceUsesWith (i j : nat) (v : Value) (l : list Inst)
  (inst : Inst) :
  l !! j = Some inst ->
  ReplaceUsesWith i v l !! j =
  Some (if Nat.eqb j i then Invalidated
        else {| opcode := opcode inst;
                args := replace_use i v <$> args inst |}).
Proof.
  intros Hj. unfold ReplaceUsesWith. rewrite list_lookup_imap, Hj.
  reflexivity.
Qed.

Lemma replace_use_In (i j : nat) (v : Value) (xs : list Value) :
  IsImmediate v = true ->
  In (InstRef j) (replace_use i v <$> xs) ->
  In (InstRef j) xs /\ j <> i.
Proof.
  intros Hv Hin. apply in_map_iff in Hin as (x & Hx & Hin).
  destruct x as [| | | | | | |j']; simpl in Hx; try discriminate Hx.
  destruct (Nat.eqb j' i) eqn:E.
  - subst v. discriminate Hv.
  - apply Nat.eqb_neq in E. injection Hx as ->. split; [exact Hin|exact E].
Qed.

Lemma replace_use_id (i : nat) (v : Value) (xs : list Value) :
  ~ In (InstRef i) xs -> replace_use i v <$> xs = xs.
Proof.
  induction xs as [|x xs IH]; intros Hnot; [reflexivity|].
  simpl in *. f_equal.
  - destruct x as [| | | | | | |j']; try reflexivity. simpl.
    destruct (Nat.eqb j' i) eqn:E; [|reflexivity].
    apply Nat.eqb_eq in E. subst j'.
    exfalso. apply Hnot. left. reflexivity.
  - apply IH. intros H. apply Hnot. right. exact H.
Qed.

Lemma unused_Invalidate (i k : nat) (l : list Inst) :
  unused i l -> unused i (Invalidate k l).
Proof.
  intros Hun j inst Hj.
  destruct (l !! j) as [inst0|] eqn:Hl.
  - rewrite (lookup_Invalidate k j l inst0 Hl) in Hj. injection Hj as <-.
    destruct (Nat.eqb j k); [intros []|]. eapply Hun, Hl.
  - unfold Invalidate in Hj.
    apply lookup_lt_Some in Hj. rewrite length_insert in Hj.
    apply lookup_ge_None in Hl. lia.
Qed.

Lemma unused_ReplaceUsesWith (i k : nat) (v : Value) (l : list Inst) :
  IsImmediate v = true ->
  (i = k \/ unused i l) -> unused i (ReplaceUsesWith k v l).
Proof.
  intros Hv Hun j inst Hj.
  destruct (l !! j) as [inst0|] eqn:Hl.
  - rewrite (lookup_ReplaceUsesWith k j v l inst0 Hl) in Hj.
    injection Hj as <-.
    destruct (Nat.eqb j k); [intros []|]. simpl. intros Hin.
    apply (replace_use_In k i v _ Hv) in Hin as [Hin Hne].
    destruct Hun as [->|Hun]; [congruence|]. eapply Hun; eauto.
  - unfold ReplaceUsesWith in Hj.
    apply lookup_lt_Some in Hj. rewrite length_imap in Hj.
    apply lookup_ge_None in Hl. lia.
Qed.

Lemma visit_inst_length (i : nat) (l l1 : list Inst) :
  visit_inst cb i l = Some l1 -> length l1 = length l.
Proof.
  destruct (l !! i) as [inst|] eqn:Hi.
  - rewrite (visit_inst_unfold i l inst Hi).
    repeat case_match; intros Hres; try discriminate Hres;
      injection Hres as <-; unfold Invalidate, ReplaceUsesWith;
      rewrite ?length_insert, ?length_imap; reflexivity.
  - unfold visit_inst. rewrite Hi. intros Hres. injection Hres as <-.
    reflexivity.
Qed.

(** *** The relation between the given block and the block in progress *)

Lemma use_of_refl (R : nat -> Value -> Prop) (xs : list Value) :
  Forall2 (use_of R) xs xs.
Proof. induction xs; constructor; [left; reflexivity|assumption]. Qed.

Lemma use_of_replace (l0 : list Inst) (k : nat) (v : Value)
  (xs ys : list Value) :
  folds_to cb l0 k v ->
  Forall2 (use_of (folds_to cb l0)) xs ys ->
  Forall2 (use_of (folds_to cb l0)) xs (replace_use k v <$> ys).
Proof.
  intros Hk HF. induction HF as [|x y xs ys Hxy _ IH]; simpl;
    constructor; [|exact IH].
  destruct y as [| | | | | | |j']; simpl; try exact Hxy.
  destruct (Nat.eqb j' k) eqn:E; [|exact Hxy].
  apply Nat.eqb_eq in E. subst j'.
  destruct Hxy as [<-|(k' & -> & Hf)].
  - right. exists k. split; [reflexivity|exact Hk].
  - exfalso. inversion Hf as [? d ? ? Hd _ Hfold]; subst.
    apply foldable_Some in Hfold as [_ Himm]. discriminate Himm.
Qed.




Lemma use_of_InstRef_r (l0 : list Inst) (x : Value) (j : nat) :
  use_of (folds_to cb l0) x (InstRef j) -> x = InstRef j.
Proof.
  intros [H|(k & _ & Hf)]; [congruence|].
  inversion Hf as [? d ? ? _ _ Hfold]; subst.
  apply foldable_Some in Hfold as [_ Himm]. discriminate Himm.
Qed.

Lemma use_of_InstRef_l (l0 : list Inst) (y : Value) (j : nat) (d : Inst) :
  l0 !! j = Some d -> is_read (opcode d) = false ->
  use_of (folds_to cb l0) (InstRef j) y -> y = InstRef j.
Proof.
  intros Hj Hd [H|(k & Hk & Hf)]; [exact H|].
  injection Hk as <-.
  destruct (folds_to_read l0 j y d Hf Hj) as [Hr _]. congruence.
Qed.

Lemma state_GetCFlag (l0 : list Inst) (k : nat) (l : list Inst)
  (j : nat) (d dj : Inst) :
  pass_state cb l0 k l -> l0 !! j = Some d -> l !! j = Some dj ->
  (opcode dj = A32GetCFlag <-> opcode d = A32GetCFlag).
Proof.
  intros [_ Hst] Hj Hlj.
  destruct (Hst j d Hj) as (inst & Hinst & Hs).
  rewrite Hlj in Hinst. injection Hinst as <-.
  destruct Hs as [(_ & -> & [(v & Hf & _)|[Hset _]])|(Hop & _)].
  - destruct (folds_to_read l0 j v d Hf Hj) as [Hr _].
    split; intros H; [discriminate H|]. rewrite H in Hr. discriminate Hr.
  - split; intros H; [discriminate H|congruence].
  - rewrite Hop. reflexivity.
Qed.

(** In the block in progress a pending [SetCFlag] takes the branch that
    invalidates it exactly when it was a set of a get in the given
    block. *)
Lemma set_of_get_CFlag_test (l0 : list Inst) (k : nat) (l : list Inst)
  (inst0 inst : Inst) :
  pass_state cb l0 k l ->
  opcode inst = opcode inst0 ->
  Forall2 (use_of (folds_to cb l0)) (args inst0) (args inst) ->
  opcode inst = A32SetCFlag ->
  (negb (IsImmediate (GetArg inst 0))
   && GetInstOpcode_is l (GetArg inst 0) A32GetCFlag = true
   <-> set_of_get_CFlag l0 inst0).
Proof.
  intros Hst Hop Hargs Hset. unfold GetArg, set_of_get_CFlag. split.
  - intros Hc. apply andb_true_iff in Hc as [Himm Hget].
    destruct (args inst !! 0%nat) as [y|] eqn:Hy; [|discriminate Himm].
    simpl in *. destruct y as [| | | | | | |j]; try discriminate Himm.
    unfold GetInstOpcode_is in Hget. simpl in Hget.
    destruct (l !! j) as [dj|] eqn:Hlj; [|discriminate Hget].
    simpl in Hget. apply Opcode_eqb_eq in Hget.
    destruct (Forall2_lookup_r _ _ _ _ _ Hargs Hy) as (x & Hx & Hxy).
    apply use_of_InstRef_r in Hxy. subst x.
    destruct (lookup_lt_is_Some_2 l0 j) as [d Hd].
    { destruct Hst as [<- _]. eapply lookup_lt_Some, Hlj. }
    split; [congruence|]. exists j, d. split; [exact Hx|].
    split; [exact Hd|].
    apply (state_GetCFlag l0 k l j d dj Hst Hd Hlj). exact Hget.
  - intros (_ & j & d & Hx & Hd & Hdop).
    destruct (Forall2_lookup_l _ _ _ _ _ Hargs Hx) as (y & Hy & Hxy).
    apply (use_of_InstRef_l l0 y j d Hd) in Hxy;
      [|rewrite Hdop; reflexivity].
    subst y. rewrite Hy. simpl. unfold GetInstOpcode_is. simpl.
    destruct (lookup_lt_is_Some_2 l j) as [dj Hdj].
    { destruct Hst as [-> _]. eapply lookup_lt_Some, Hd. }
    rewrite Hdj. simpl. apply Opcode_eqb_eq.
    apply (state_GetCFlag l0 k l j d dj Hst Hd Hdj). exact Hdop.
Qed.

Lemma inst_eta (inst : Inst) :
  {| opcode := opcode inst; args := args inst |} = inst.
Proof. destruct inst; reflexivity. Qed.

Lemma visit_upto_state (l0 : list Inst) (k : nat) (l : list Inst) :
  (k <= length l0)%nat -> visit_upto cb k l0 = Some l -> pass_state cb l0 k l.
Proof.
  revert l. induction k as [|k IH]; intros l Hk Hrun.
  - injection Hrun as <-. split; [reflexivity|].
    intros i inst0 Hi. exists inst0. split; [exact Hi|]. right.
    split; [reflexivity|]. split; [apply use_of_refl|lia].
  - rewrite visit_upto_S in Hrun.
    destruct (visit_upto cb k l0) as [lk|] eqn:Hrunk; [|discriminate Hrun].
    simpl in Hrun.
    assert (Hstk : pass_state cb l0 k lk) by (apply IH; [lia|reflexivity]).
    destruct Hstk as [Hlen Hst].
    destruct (lookup_lt_is_Some_2 l0 k) as [inst0 Hk0]; [lia|].
    destruct (Hst k inst0 Hk0) as (instk & Hkk & Hs).
    destruct Hs as [(Hlt & _)|(Hop & Hargs & _)]; [lia|].
    split; [rewrite (visit_inst_length k lk l Hrun); exact Hlen|].
    rewrite (visit_inst_unfold k lk instk Hkk) in Hrun.
    destruct (Opcode_eqb (opcode instk) A32SetCFlag) eqn:Hset.
    + apply Opcode_eqb_eq in Hset.
      pose proof (set_of_get_CFlag_test l0 k lk inst0 instk
                    (conj Hlen Hst) Hop Hargs Hset) as Htest.
      destruct (negb (IsImmediate (GetArg instk 0))
                && GetInstOpcode_is lk (GetArg instk 0) A32GetCFlag)
        eqn:Hcond; injection Hrun as <-.
      * (* the set is invalidated *)
        intros i inst1 Hi. destruct (Hst i inst1 Hi) as (inst & Hli & Hs).
        rewrite (lookup_Invalidate k i lk inst Hli).
        eexists. split; [reflexivity|].
        destruct (Nat.eqb i k) eqn:E.
        -- apply Nat.eqb_eq in E. subst i.
           rewrite Hk0 in Hi. injection Hi as <-.
           left. split; [lia|]. split; [reflexivity|].
           right. apply Htest. reflexivity.
        -- apply Nat.eqb_neq in E.
           destruct Hs as [(Hlt & Hinv & Hwhy)|(Hop' & Hargs' & Hno)].
           ++ left. split; [lia|]. split; [exact Hinv|].
              destruct Hwhy as [(v & Hf & Hun)|Hsg]; [left|right; exact Hsg].
              exists v. split; [exact Hf|]. apply unused_Invalidate, Hun.
           ++ right. split; [exact Hop'|]. split; [exact Hargs'|].
              intros Hlt. apply Hno. lia.
      * (* the set stays *)
        intros i inst1 Hi. destruct (Hst i inst1 Hi) as (inst & Hli & Hs).
        exists inst. split; [exact Hli|].
        destruct Hs as [(Hlt & Hinv & Hwhy)|(Hop' & Hargs' & Hno)].
        -- left. split; [lia|]. split; [exact Hinv|exact Hwhy].
        -- right. split; [exact Hop'|]. split; [exact Hargs'|].
           intros Hlt. destruct (Nat.eq_dec i k) as [->|Hne].
           ++ rewrite Hk0 in Hi. injection Hi as <-.
              intros Hsg. apply Htest in Hsg. discriminate Hsg.
           ++ apply Hno. lia.
    + assert (Hnset : ~ set_of_get_CFlag l0 inst0).
      { intros [Hsg _]. rewrite <- Hop in Hsg. rewrite Hsg in Hset.
        discriminate Hset. }
      destruct (foldable cb instk) as [v|] eqn:Hfold.
      * (* the read is folded *)
        injection Hrun as <-.
        assert (Hf : folds_to cb l0 k v).
        { apply (folds_to_intro cb l0 k inst0 (args instk) v Hk0 Hargs).
          rewrite <- Hop, inst_eta. exact Hfold. }
        destruct (foldable_Some instk v Hfold) as [_ Himm].
        intros i inst1 Hi. destruct (Hst i inst1 Hi) as (inst & Hli & Hs).
        rewrite (lookup_ReplaceUsesWith k i v lk inst Hli).
        eexists. split; [reflexivity|].
        destruct (Nat.eqb i k) eqn:E.
        -- apply Nat.eqb_eq in E. subst i.
           left. split; [lia|]. split; [reflexivity|]. left.
           exists v. split; [exact Hf|].
           apply unused_ReplaceUsesWith; [exact Himm|left; reflexivity].
        -- apply Nat.eqb_neq in E.
           destruct Hs as [(Hlt & Hinv & Hwhy)|(Hop' & Hargs' & Hno)].
           ++ left. split; [lia|]. split; [subst inst; reflexivity|].
              destruct Hwhy as [(v' & Hf' & Hun)|Hsg];
                [left|right; exact Hsg].
              exists v'. split; [exact Hf'|].
              apply unused_ReplaceUsesWith; [exact Himm|right; exact Hun].
           ++ right. split; [exact Hop'|].
              split; [apply use_of_replace; assumption|].
              intros Hlt. apply Hno. lia.
      * (* nothing changes *)
        destruct (is_read (opcode instk) && AreAllArgsImmediates instk
                  && negb (bool_decide (is_Some (GetU32 (GetArg instk 0)))));
          [discriminate Hrun|]. injection Hrun as <-.
        intros i inst1 Hi. destruct (Hst i inst1 Hi) as (inst & Hli & Hs).
        exists inst. split; [exact Hli|].
        destruct Hs as [(Hlt & Hinv & Hwhy)|(Hop' & Hargs' & Hno)].
        -- left. split; [lia|]. split; [exact Hinv|exact Hwhy].
        -- right. split; [exact Hop'|]. split; [exact Hargs'|].
           intros Hlt. destruct (Nat.eq_dec i k) as [->|Hne].
           ++ rewrite Hk0 in Hi. injection Hi as <-. exact Hnset.
           ++ apply Hno. lia.
Qed.


(** *** Visited instructions stay as the loop left them *)

Lemma visit_inst_cases (k : nat) (l l1 : list Inst) :
  visit_inst cb k l = Some l1 ->
  l1 = l \/
  exists inst, l !! k = Some inst /\
    ((opcode inst = A32SetCFlag /\ l1 = Invalidate k l) \/
     (exists v, foldable cb inst = Some v /\ l1 = ReplaceUsesWith k v l)).
Proof.
  destruct (l !! k) as [inst|] eqn:Hk.
  - rewrite (visit_inst_unfold k l inst Hk).
    destruct (Opcode_eqb (opcode inst) A32SetCFlag) eqn:Hset.
    + apply Opcode_eqb_eq in Hset.
      case_match; intros Hres; injection Hres as <-; [|left; reflexivity].
      right. exists inst. split; [reflexivity|]. left. split; congruence.
    + destruct (foldable cb inst) as [v|] eqn:Hfold.
      * intros Hres. injection Hres as <-. right. exists inst.
        split; [reflexivity|]. right. exists v.
        split; [exact Hfold|reflexivity].
      * case_match; intros Hres; [discriminate Hres|].
        injection Hres as <-. left. reflexivity.
  - unfold visit_inst. rewrite Hk. intros Hres. injection Hres as <-.
    left. reflexivity.
Qed.

Lemma visit_inst_again (k : nat) (l l1 : list Inst) :
  visit_inst cb k l = Some l1 -> visit_inst cb k l1 = Some l1.
Proof.
  intros Hv.
  destruct (visit_inst_cases k l l1 Hv)
    as [->|(inst & Hk & [[_ ->]|(v & _ & ->)])]; [exact Hv| |];
    apply Invalidated_visit.
  - rewrite (lookup_Invalidate k k l inst Hk), Nat.eqb_refl. reflexivity.
  - rewrite (lookup_ReplaceUsesWith k k v l inst Hk), Nat.eqb_refl.
    reflexivity.
Qed.

Lemma well_formed_visit (k : nat) (l l1 : list Inst) :
  well_formed l -> visit_inst cb k l = Some l1 -> well_formed l1.
Proof.
  intros Hwf Hv.
  destruct (visit_inst_cases k l l1 Hv)
    as [->|(inst & Hk & [[_ ->]|(v & Hfold & ->)])]; [exact Hwf| |];
    intros i insti j Hi Hin.
  - destruct (l !! i) as [inst'|] eqn:Hli.
    + rewrite (lookup_Invalidate k i l inst' Hli) in Hi. injection Hi as <-.
      destruct (Nat.eqb i k); [destruct Hin|]. eapply Hwf; eauto.
    + apply lookup_lt_Some in Hi. unfold Invalidate in Hi.
      rewrite length_insert in Hi. apply lookup_ge_None in Hli. lia.
  - apply foldable_Some in Hfold as [_ Himm].
    destruct (l !! i) as [inst'|] eqn:Hli.
    + rewrite (lookup_ReplaceUsesWith k i v l inst' Hli) in Hi.
      injection Hi as <-.
      destruct (Nat.eqb i k); [destruct Hin|]. simpl in Hin.
      apply (replace_use_In k j v _ Himm) in Hin as [Hin _].
      eapply Hwf; eauto.
    + apply lookup_lt_Some in Hi. unfold ReplaceUsesWith in Hi.
      rewrite length_imap in Hi. apply lookup_ge_None in Hli. lia.
Qed.

Lemma visit_inst_earlier (k : nat) (l l1 : list Inst) :
  well_formed l -> visit_inst cb k l = Some l1 ->
  forall j, (j < k)%nat -> l1 !! j = l !! j.
Proof.
  intros Hwf Hv j Hj.
  destruct (visit_inst_cases k l l1 Hv)
    as [->|(inst & Hk & [[_ ->]|(v & Hfold & ->)])]; [reflexivity| |].
  - unfold Invalidate. apply list_lookup_insert_ne. lia.
  - destruct (l !! j) as [instj|] eqn:Hlj.
    + rewrite (lookup_ReplaceUsesWith k j v l instj Hlj).
      replace (Nat.eqb j k) with false
        by (symmetry; apply Nat.eqb_neq; lia).
      rewrite replace_use_id, inst_eta; [reflexivity|].
      intros Hin. pose proof (Hwf j instj k Hlj Hin). lia.
    + apply lookup_ge_None. unfold ReplaceUsesWith. rewrite length_imap.
      apply lookup_ge_None. exact Hlj.
Qed.

Lemma visit_inst_stable (i k : nat) (l l1 : list Inst) :
  well_formed l -> visit_inst cb k l = Some l1 -> (i < k)%nat ->
  visit_inst cb i l = Some l -> visit_inst cb i l1 = Some l1.
Proof.
  intros Hwf Hv Hik Hfix.
  pose proof (visit_inst_earlier k l l1 Hwf Hv) as Hsame.
  destruct (l !! i) as [inst|] eqn:Hi.
  - assert (Hi1 : l1 !! i = Some inst) by (rewrite Hsame; [exact Hi|lia]).
    rewrite (visit_inst_unfold i l inst Hi) in Hfix.
    rewrite (visit_inst_unfold i l1 inst Hi1).
    assert (Hget : GetInstOpcode_is l1 (GetArg inst 0) A32GetCFlag
                   = GetInstOpcode_is l (GetArg inst 0) A32GetCFlag).
    { unfold GetInstOpcode_is, GetArg.
      destruct (args inst !! 0%nat) as [y|] eqn:Hy; [|reflexivity].
      simpl. destruct y as [| | | | | | |j]; try reflexivity. simpl.
      rewrite Hsame; [reflexivity|].
      assert (j < i)%nat; [|lia].
      apply (Hwf i inst j Hi), list_elem_of_In.
      eapply list_elem_of_lookup_2, Hy. }
    rewrite Hget.
    destruct (Opcode_eqb (opcode inst) A32SetCFlag) eqn:Hset.
    + apply Opcode_eqb_eq in Hset.
      case_match; [|reflexivity]. exfalso.
      injection Hfix as Hfix.
      pose proof (lookup_Invalidate i i l inst Hi) as Hl.
      rewrite Hfix, Hi, Nat.eqb_refl in Hl. injection Hl as ->.
      discriminate Hset.
    + destruct (foldable cb inst) as [v|] eqn:Hfold.
      * exfalso. injection Hfix as Hfix.
        pose proof (lookup_ReplaceUsesWith i i v l inst Hi) as Hl.
        rewrite Hfix, Hi, Nat.eqb_refl in Hl. injection Hl as ->.
        apply foldable_Some in Hfold as [Hr _]. discriminate Hr.
      * case_match; [discriminate Hfix|reflexivity].
  - unfold visit_inst.
    replace (l1 !! i) with (@None Inst); [reflexivity|].
    symmetry. rewrite Hsame; [exact Hi|lia].
Qed.

Lemma visit_upto_stable (l0 : list Inst) (k : nat) (l : list Inst) :
  well_formed l0 -> visit_upto cb k l0 = Some l ->
  well_formed l /\ forall i, (i < k)%nat -> visit_inst cb i l = Some l.
Proof.
  intros Hwf. revert l. induction k as [|k IH]; intros l Hrun.
  - injection Hrun as <-. split; [exact Hwf|]. intros i Hi. lia.
  - rewrite visit_upto_S in Hrun.
    destruct (visit_upto cb k l0) as [lk|] eqn:Hrunk; [|discriminate Hrun].
    simpl in Hrun. destruct (IH lk eq_refl) as [Hwfk Hfixk].
    split; [exact (well_formed_visit k lk l Hwfk Hrun)|].
    intros i Hi. destruct (Nat.eq_dec i k) as [->|Hne].
    + exact (visit_inst_again k lk l Hrun).
    + apply (visit_inst_stable i k lk l Hwfk Hrun); [lia|].
      apply Hfixk. lia.
Qed.

Lemma visit_upto_fixed (n : nat) (l : list Inst) :
  (forall i, (i < n)%nat -> visit_inst cb i l = Some l) ->
  visit_upto cb n l = Some l.
Proof.
  induction n as [|n IH]; intros Hfix; [reflexivity|].
  rewrite visit_upto_S, IH by (intros i Hi; apply Hfix; lia).
  simpl. apply Hfix. lia.
Qed.

Lemma visit_upto_length (n : nat) (l l1 : list Inst) :
  visit_upto cb n l = Some l1 -> length l1 = length l.
Proof.
  revert l1. induction n as [|n IH]; intros l1 Hrun.
  - injection Hrun as <-. reflexivity.
  - rewrite visit_upto_S in Hrun.
    destruct (visit_upto cb n l) as [ln|]; [|discriminate Hrun].
    simpl in Hrun. rewrite (visit_inst_length n ln l1 Hrun).
    apply IH. reflexivity.
Qed.

(** A visited read that stays in the block has no immediate read-only
    address. *)
Lemma visit_inst_fixed_read (i : nat) (l : list Inst) (inst : Inst) :
  l !! i = Some inst -> visit_inst cb i l = Some l ->
  opcode inst <> Void -> foldable cb inst = None.
Proof.
  intros Hi Hfix Hop. rewrite (visit_inst_unfold i l inst Hi) in Hfix.
  destruct (foldable cb inst) as [v|] eqn:Hfold; [|reflexivity].
  exfalso.
  destruct (foldable_Some inst v Hfold) as [Hr _].
  destruct (Opcode_eqb (opcode inst) A32SetCFlag) eqn:Hset.
  { apply Opcode_eqb_eq in Hset. rewrite Hset in Hr. discriminate Hr. }
  injection Hfix as Hfix.
  pose proof (lookup_ReplaceUsesWith i i v l inst Hi) as Hl.
  rewrite Hfix, Hi, Nat.eqb_refl in Hl. injection Hl as ->.
  apply Hop. reflexivity.
Qed.



Lemma well_formed_b_sound (l : list Inst) :
  well_formed_b l = true -> well_formed l.
Proof.
  unfold well_formed_b. rewrite forallb_forall.
  intros Hall i inst j Hi Hin.
  assert (Hb : refs_below i inst = true).
  { apply Hall, list_elem_of_In.
    apply (list_elem_of_lookup_2 _ i). rewrite list_lookup_imap, Hi.
    reflexivity. }
  unfold refs_below in Hb. rewrite forallb_forall in Hb.
  apply Hb in Hin. apply Nat.ltb_lt in Hin. exact Hin.
Qed.

Lemma A32ConstantMemoryReads_Some (b b' : Block) :
  A32ConstantMemoryReads cb b = Some b' ->
  exists l', visit_upto cb (length (instructions b)) (instructions b)
             = Some l' /\ b' = set_instructions b l'.
Proof.
  unfold A32ConstantMemoryReads.
  destruct (visit_upto cb _ _) as [l'|]; [|discriminate].
  intros H. injection H as <-. exists l'. split; reflexivity.
Qed.

Lemma foldable_not_read (inst : Inst) :
  is_read (opcode inst) = false -> foldable cb inst = None.
Proof.
  intros Hr. destruct (foldable cb inst) as [v|] eqn:Hf; [|reflexivity].
  apply foldable_Some in Hf as [Hr' _]. congruence.
Qed.

(** C6 (amended).  On a block whose value references point to earlier
    instructions, the pass keeps the location, the cycle count and the
    terminator, and treats each instruction in one of three ways:
    - a memory read whose address operand, once the reads it depends on
      are replaced by their literals, is an immediate naming read-only
      memory is retired, and no use of it remains;
    - a [SetCFlag] whose operand is the value of a [GetCFlag] is
      invalidated;
    - every other instruction keeps its opcode, each of its operands is
      the operand it had or the literal of the folded read that operand
      referred to, and if it is a memory read its address is not an
      immediate naming read-only memory. *)
Theorem constant_memory_reads_frame (b b' : Block) :
  well_formed (instructions b) ->
  A32ConstantMemoryReads cb b = Some b' ->
  location b' = location b /\
  cycle_count b' = cycle_count b /\
  terminal b' = terminal b /\
  length (instructions b') = length (instructions b) /\
  forall i inst, instructions b !! i = Some inst ->
    exists inst', instructions b' !! i = Some inst' /\
      ((inst' = Invalidated /\
        exists v, folds_to cb (instructions b) i v /\
                  unused i (instructions b'))
       \/ (inst' = Invalidated /\ set_of_get_CFlag (instructions b) inst)
       \/ (opcode inst' = opcode inst /\
           Forall2 (use_of (folds_to cb (instructions b)))
             (args inst) (args inst') /\
           ~ set_of_get_CFlag (instructions b) inst /\
           foldable cb inst' = None)).
Proof.
  intros Hwf Hpass.
  destruct (A32ConstantMemoryReads_Some b b' Hpass) as (l' & Hrun & ->).
  simpl. repeat (split; [reflexivity|]).
  destruct (visit_upto_state _ _ _ (Nat.le_refl _) Hrun) as [Hlen Hst].
  destruct (visit_upto_stable _ _ _ Hwf Hrun) as [_ Hfix].
  split; [exact Hlen|].
  intros i inst Hi. destruct (Hst i inst Hi) as (inst' & Hi' & Hs).
  exists inst'. split; [exact Hi'|].
  assert (Hlt : (i < length (instructions b))%nat)
    by (eapply lookup_lt_Some, Hi).
  destruct Hs as [(_ & Hinv & [Hwhy|Hwhy])|(Hop & Hargs & Hno)].
  - left. split; assumption.
  - right. left. split; assumption.
  - right. right. split; [exact Hop|]. split; [exact Hargs|].
    split; [apply Hno, Hlt|].
    destruct (is_read (opcode inst')) eqn:Hr.
    + apply (visit_inst_fixed_read i l' inst' Hi' (Hfix i Hlt)).
      intros Hv. rewrite Hv in Hr. discriminate Hr.
    + apply foldable_not_read, Hr.
Qed.

(** C8.  On a block whose value references point to earlier instructions
    (spec 3), and with callbacks that answer as functions of the
    address, running the pass on its own result changes nothing. *)
Theorem A32ConstantMemoryReads_idempotent (b b' : Block) :
  well_formed (instructions b) ->
  A32ConstantMemoryReads cb b = Some b' ->
  A32ConstantMemoryReads cb b' = Some b'.
Proof.
  intros Hwf Hpass.
  destruct (A32ConstantMemoryReads_Some b b' Hpass) as (l' & Hrun & ->).
  destruct (visit_upto_stable _ _ _ Hwf Hrun) as [_ Hfix].
  unfold A32ConstantMemoryReads. simpl.
  rewrite (visit_upto_fixed (length l') l').
  - reflexivity.
  - intros i Hi. apply Hfix.
    rewrite <- (visit_upto_length _ _ _ Hrun). exact Hi.
Qed.



(** C7 (amended).  The pass invalidates a [SetCFlag] whose operand is
    the value of a [GetCFlag] instruction.  It does so for the C flag
    only: a [SetNFlag], [SetZFlag] or [SetVFlag] keeps its opcode
    whatever its operand is, and so does every flag set whose operand is
    the value of an instruction other than [GetCFlag], an arithmetic
    instruction in particular. *)
Theorem dead_flag_elimination (b b' : Block) :
  A32ConstantMemoryReads cb b = Some b' ->
  (forall i inst, instructions b !! i = Some inst ->
     set_of_get_CFlag (instructions b) inst ->
     instructions b' !! i = Some Invalidated) /\
  (forall i inst, instructions b !! i = Some inst ->
     is_NZV_set (opcode inst) = true ->
     exists inst', instructions b' !! i = Some inst' /\
                   opcode inst' = opcode inst) /\
  (forall i inst j d, instructions b !! i = Some inst ->
     is_flag_set (opcode inst) = true ->
     args inst !! 0%nat = Some (InstRef j) ->
     instructions b !! j = Some d ->
     opcode d <> A32GetCFlag ->
     exists inst', instructions b' !! i = Some inst' /\
                   opcode inst' = opcode inst).
Proof.
  intros Hpass.
  destruct (A32ConstantMemoryReads_Some b b' Hpass) as (l' & Hrun & ->).
  simpl.
  destruct (visit_upto_state _ _ _ (Nat.le_refl _) Hrun) as [Hlen Hst].
  split; [|split].
  - intros i inst Hi Hsg. destruct (Hst i inst Hi) as (inst' & Hi' & Hs).
    destruct Hs as [(_ & -> & _)|(_ & _ & Hno)]; [exact Hi'|].
    exfalso. apply Hno; [eapply lookup_lt_Some, Hi|exact Hsg].
  - intros i inst Hi Hnzv. destruct (Hst i inst Hi) as (inst' & Hi' & Hs).
    exists inst'. split; [exact Hi'|].
    destruct Hs as [(_ & _ & [(v & Hf & _)|[Hsg _]])|(Hop & _)];
      [exfalso..|exact Hop].
    + destruct (folds_to_read _ _ _ _ Hf Hi) as [Hr _].
      destruct (opcode inst); discriminate.
    + rewrite Hsg in Hnzv. discriminate Hnzv.
  - intros i inst j d Hi Hfs Harg Hj Hd.
    destruct (Hst i inst Hi) as (inst' & Hi' & Hs).
    exists inst'. split; [exact Hi'|].
    destruct Hs as [(_ & _ & [(v & Hf & _)|Hsg])|(Hop & _)];
      [exfalso..|exact Hop].
    + destruct (folds_to_read _ _ _ _ Hf Hi) as [Hr _].
      destruct (opcode inst); discriminate.
    + destruct Hsg as (_ & j' & d' & Harg' & Hj' & Hd').
      rewrite Harg in Harg'. injection Harg' as <-.
      rewrite Hj in Hj'. injection Hj' as <-. exact (Hd Hd').
Qed.

End ConstantMemoryReads.

(** *** The pass on concrete blocks *)

Section ConstantMemoryReadsExamples.
Import IR Optimization.

Lemma sample_block_pass :
  A32ConstantMemoryReads rom_1008 sample_block = Some sample_block_after.
Proof. vm_compute. reflexivity. Qed.

Lemma constant_memory_reads_frame_witness :
  well_formed (instructions sample_block) /\
  A32ConstantMemoryReads rom_1008 sample_block = Some sample_block_after /\
  location sample_block_after = location sample_block /\
  cycle_count sample_block_after = cycle_count sample_block /\
  terminal sample_block_after = terminal sample_block /\
  length (instructions sample_block_after)
  = length (instructions sample_block) /\
  forall i inst, instructions sample_block !! i = Some inst ->
    exists inst', instructions sample_block_after !! i = Some inst' /\
      ((inst' = Invalidated /\
        exists v, folds_to rom_1008 (instructions sample_block) i v /\
                  unused i (instructions sample_block_after))
       \/ (inst' = Invalidated
           /\ set_of_get_CFlag (instructions sample_block) inst)
       \/ (opcode inst' = opcode inst /\
           Forall2 (use_of (folds_to rom_1008 (instructions sample_block)))
             (args inst) (args inst') /\
           ~ set_of_get_CFlag (instructions sample_block) inst /\
           foldable rom_1008 inst' = None)).
Proof.
  split; [apply well_formed_b_sound; vm_compute; reflexivity|].
  split; [vm_compute; reflexivity|].
  apply (constant_memory_reads_frame rom_1008 sample_block
           sample_block_after).
  - apply well_formed_b_sound. vm_compute. reflexivity.
  - vm_compute. reflexivity.
Defined.

(** C6 as the specification words it fails: the pass also rewrites a
    [SetCFlag], which is no memory read. *)
Lemma others_unchanged_fails :
  exists b', A32ConstantMemoryReads rom_1008 CFlag_block = Some b' /\
             ~ others_unchanged rom_1008 CFlag_block b'.
Proof.
  eexists. split; [vm_compute; reflexivity|].
  intros H. specialize (H 1%nat (mk A32SetCFlag [InstRef 0])).
  simpl in H. specialize (H eq_refl eq_refl). discriminate H.
Qed.

Lemma A32ConstantMemoryReads_idempotent_witness :
  well_formed (instructions sample_block) /\
  A32ConstantMemoryReads rom_1008 sample_block = Some sample_block_after /\
  A32ConstantMemoryReads rom_1008 sample_block_after
  = Some sample_block_after.
Proof.
  split; [apply well_formed_b_sound; vm_compute; reflexivity|].
  split; [vm_compute; reflexivity|].
  apply (A32ConstantMemoryReads_idempotent rom_1008 sample_block).
  - apply well_formed_b_sound. vm_compute. reflexivity.
  - vm_compute. reflexivity.
Defined.

(** Without the order of value references the pass is not idempotent:
    here the first read uses the value of the second. *)
Lemma forward_reference_not_idempotent :
  exists b',
    A32ConstantMemoryReads rom_1008
      (block_of [mk A32ReadMemory32 [InstRef 1];
                 mk A32ReadMemory8 [ImmU32 0x1008]]) = Some b' /\
    A32ConstantMemoryReads rom_1008 b' <> Some b'.
Proof.
  eexists. split; [vm_compute; reflexivity|]. vm_compute. discriminate.
Qed.

(** C7 as the specification words it fails for the N flag: a [SetNFlag]
    of the value of a [GetNFlag] is left in place. *)
Lemma NFlag_set_of_get_kept :
  exists b' inst,
    A32ConstantMemoryReads rom_1008 NFlag_block = Some b' /\
    instructions NFlag_block !! 1%nat = Some inst /\
    set_of_get A32GetNFlag A32SetNFlag (instructions NFlag_block) inst /\
    instructions b' !! 1%nat <> Some Invalidated.
Proof.
  eexists. eexists. split; [vm_compute; reflexivity|].
  split; [reflexivity|]. split.
  - split; [reflexivity|]. eexists. eexists.
    split; [reflexivity|]. split; reflexivity.
  - discriminate.
Qed.

Lemma dead_flag_elimination_witness :
  A32ConstantMemoryReads rom_1008 sample_block = Some sample_block_after /\
  (forall i inst, instructions sample_block !! i = Some inst ->
     set_of_get_CFlag (instructions sample_block) inst ->
     instructions sample_block_after !! i = Some Invalidated) /\
  (forall i inst, instructions sample_block !! i = Some inst ->
     is_NZV_set (opcode inst) = true ->
     exists inst', instructions sample_block_after !! i = Some inst' /\
                   opcode inst' = opcode inst) /\
  (forall i inst j d, instructions sample_block !! i = Some inst ->
     is_flag_set (opcode inst) = true ->
     args inst !! 0%nat = Some (InstRef j) ->
     instructions sample_block !! j = Some d ->
     opcode d <> A32GetCFlag ->
     exists inst', instructions sample_block_after !! i = Some inst' /\
                   opcode inst' = opcode inst).
Proof.
  split; [vm_compute; reflexivity|].
  apply (dead_flag_elimination rom_1008 sample_block sample_block_after).
  vm_compute. reflexivity.
Defined.

End ConstantMemoryReadsExamples.

(* --------------------------------------------------------------------- *)
(** ** More about the constant-memory-reads pass *)
(* --------------------------------------------------------------------- *)

Section ConstantMemoryReadsMore.
Import IR Optimization.

(** *** Memory outside the read-only regions is not looked at *)

Lemma visit_inst_agree (cb1 cb2 : UserCallbacks) (i : nat)
  (l : list Inst) :
  agree_on_read_only cb1 cb2 ->
  visit_inst cb1 i l = visit_inst cb2 i l.
Proof.
  intros [Hro Hrd]. unfold visit_inst.
  destruct (l !! i) as [inst|]; [|reflexivity].
  destruct (opcode inst); try reflexivity;
    (destruct (negb (AreAllArgsImmediates inst)); [reflexivity|];
     destruct (GetU32 (GetArg inst 0)) as [vaddr|]; [|reflexivity];
     simpl; rewrite <- (Hro vaddr);
     destruct (IsReadOnlyMemory cb1 vaddr) eqn:Hv; [|reflexivity];
     destruct (Hrd vaddr Hv) as (H8 & H16 & H32 & H64);
     rewrite <- ?H8, <- ?H16, <- ?H32, <- ?H64; reflexivity).
Qed.

Lemma visit_upto_agree (cb1 cb2 : UserCallbacks) (n : nat)
  (l : list Inst) :
  agree_on_read_only cb1 cb2 ->
  visit_upto cb1 n l = visit_upto cb2 n l.
Proof.
  intros Hag. induction n as [|n IH]; [reflexivity|].
  rewrite !visit_upto_S, IH.
  destruct (visit_upto cb2 n l) as [ln|]; [|reflexivity].
  simpl. apply visit_inst_agree, Hag.
Qed.

(** The result of the pass depends on guest memory through the
    read-only regions only: callbacks that name the same read-only
    memory and agree on its contents give the same block, whatever other
    memory holds. *)
Theorem pass_reads_read_only_memory_only (cb1 cb2 : UserCallbacks)
  (b : Block) :
  agree_on_read_only cb1 cb2 ->
  A32ConstantMemoryReads cb1 b = A32ConstantMemoryReads cb2 b.
Proof.
  intros Hag. unfold A32ConstantMemoryReads.
  rewrite (visit_upto_agree cb1 cb2 _ _ Hag). reflexivity.
Qed.

Lemma agree_rom_1008 : agree_on_read_only rom_1008 rom_1008_other.
Proof.
  split; [reflexivity|]. simpl. intros vaddr Hv. rewrite Hv.
  repeat split.
Qed.

Lemma pass_reads_read_only_memory_only_witness :
  agree_on_read_only rom_1008 rom_1008_other /\
  A32ConstantMemoryReads rom_1008 sample_block
  = A32ConstantMemoryReads rom_1008_other sample_block.
Proof.
  split; [exact agree_rom_1008|].
  apply (pass_reads_read_only_memory_only rom_1008 rom_1008_other
           sample_block agree_rom_1008).
Defined.

(** *** Without read-only memory *)

Lemma use_of_nothing_folds (cb : UserCallbacks) (l0 : list Inst)
  (xs ys : list Value) :
  (forall k v, ~ folds_to cb l0 k v) ->
  Forall2 (use_of (folds_to cb l0)) xs ys -> ys = xs.
Proof.
  intros Hno HF. induction HF as [|x y xs ys Hxy _ IH]; [reflexivity|].
  f_equal; [|exact IH].
  destruct Hxy as [H|(k & _ & Hf)]; [exact H|]. destruct (Hno k y Hf).
Qed.

Lemma no_rom_nothing_folds (cb : UserCallbacks) (l0 : list Inst) :
  (forall vaddr, IsReadOnlyMemory cb vaddr = false) ->
  forall k v, ~ folds_to cb l0 k v.
Proof.
  intros Hro k v Hf. inversion Hf as [? d args' ? _ _ Hfold]; subst.
  unfold foldable in Hfold.
  destruct (AreAllArgsImmediates _); [|discriminate Hfold].
  destruct (GetU32 _) as [a|]; [|discriminate Hfold].
  rewrite Hro in Hfold. discriminate Hfold.
Qed.

(** When the callback reports no read-only memory, the pass folds no
    read: an instruction is either a [SetCFlag] of a [GetCFlag], which is
    invalidated, or left exactly as it was. *)
Theorem no_read_only_memory_no_fold (cb : UserCallbacks) (b b' : Block) :
  (forall vaddr, IsReadOnlyMemory cb vaddr = false) ->
  A32ConstantMemoryReads cb b = Some b' ->
  forall i inst, instructions b !! i = Some inst ->
    (set_of_get_CFlag (instructions b) inst /\
     instructions b' !! i = Some Invalidated)
    \/ (~ set_of_get_CFlag (instructions b) inst /\
        instructions b' !! i = Some inst).
Proof.
  intros Hro Hpass i inst Hi.
  destruct (A32ConstantMemoryReads_Some cb b b' Hpass) as (l' & Hrun & ->).
  simpl.
  destruct (visit_upto_state cb _ _ _ (Nat.le_refl _) Hrun) as [_ Hst].
  destruct (Hst i inst Hi) as (inst' & Hi' & Hs).
  pose proof (no_rom_nothing_folds cb (instructions b) Hro) as Hno.
  destruct Hs as [(_ & -> & [(v & Hf & _)|Hsg])|(Hop & Hargs & Hkeep)].
  - destruct (Hno i v Hf).
  - left. split; assumption.
  - right. split; [apply Hkeep; eapply lookup_lt_Some, Hi|].
    rewrite Hi'. f_equal.
    apply (use_of_nothing_folds cb _ _ _ Hno) in Hargs.
    destruct inst, inst'. simpl in *. congruence.
Qed.

Lemma no_read_only_memory_no_fold_witness :
  (forall vaddr, IsReadOnlyMemory no_rom vaddr = false) /\
  A32ConstantMemoryReads no_rom sample_block
  = Some (block_of (<[6%nat := Invalidated]> (instructions sample_block))) /\
  forall i inst, instructions sample_block !! i = Some inst ->
    (set_of_get_CFlag (instructions sample_block) inst /\
     <[6%nat := Invalidated]> (instructions sample_block) !! i
     = Some Invalidated)
    \/ (~ set_of_get_CFlag (instructions sample_block) inst /\
        <[6%nat := Invalidated]> (instructions sample_block) !! i
        = Some inst).
Proof.
  split; [reflexivity|]. split; [vm_compute; reflexivity|].
  apply (no_read_only_memory_no_fold no_rom sample_block
           (block_of (<[6%nat := Invalidated]> (instructions sample_block)))).
  - reflexivity.
  - vm_compute. reflexivity.
Defined.


(** *** Which reads are folded *)

Lemma foldable_immediates (cb : UserCallbacks) (inst : Inst) (v : Value) :
  foldable cb inst = Some v -> forallb IsImmediate (args inst) = true.
Proof.
  unfold foldable, AreAllArgsImmediates.
  destruct (forallb IsImmediate (args inst)); [reflexivity|discriminate].
Qed.

Lemma use_of_immediate (R : nat -> Value -> Prop) (x y : Value) :
  IsImmediate x = true -> use_of R x y -> y = x.
Proof.
  intros Hx [H|(k & -> & _)]; [exact H|discriminate Hx].
Qed.

Lemma operands_functional (R : nat -> Value -> Prop)
  (xs ys zs : list Value) :
  (forall k y z, In (InstRef k) xs -> R k y -> R k z -> y = z) ->
  Forall2 (use_of R) xs ys -> Forall2 (use_of R) xs zs ->
  forallb IsImmediate ys = true -> forallb IsImmediate zs = true ->
  ys = zs.
Proof.
  intros Hfun HF. revert zs.
  induction HF as [|x y xs ys Hxy _ IH]; intros zs HG Hy Hz.
  - inversion HG. reflexivity.
  - inversion HG as [|x' z xs' zs' Hxz HG']; subst.
    simpl in Hy, Hz. apply andb_true_iff in Hy as [Hy Hys].
    apply andb_true_iff in Hz as [Hz Hzs].
    f_equal.
    + destruct Hxy as [->|(k & -> & Hky)].
      * symmetry. apply (use_of_immediate R x z Hy Hxz).
      * destruct Hxz as [->|(k' & Hk' & Hkz)]; [discriminate Hz|].
        injection Hk' as <-. apply (Hfun k); [left; reflexivity|..];
          assumption.
    + apply IH; try assumption.
      intros k y' z' Hin. apply Hfun. right. exact Hin.
Qed.

Lemma folds_to_functional (cb : UserCallbacks) (l : list Inst) :
  well_formed l ->
  forall i v v', folds_to cb l i v -> folds_to cb l i v' -> v = v'.
Proof.
  intros Hwf i. induction i as [i IH] using lt_wf_ind. intros v v' Hv Hv'.
  inversion Hv as [? d ys ? Hd Hys Hfy]; subst.
  inversion Hv' as [? d' zs ? Hd' Hzs Hfz]; subst.
  rewrite Hd in Hd'. injection Hd' as <-.
  assert (Heq : ys = zs).
  { apply (operands_functional (folds_to cb l) (args d)); try assumption.
    - intros k y z Hin. apply IH. exact (Hwf i d k Hd Hin).
    - exact (foldable_immediates cb _ _ Hfy).
    - exact (foldable_immediates cb _ _ Hfz). }
  subst zs. congruence.
Qed.

Lemma operands_settled (R : nat -> Value -> Prop)
  (xs ys zs : list Value) :
  (forall k y z, In (InstRef k) xs -> R k y -> R k z -> y = z) ->
  (forall k y, In (InstRef k) xs -> R k y -> ~ In (InstRef k) zs) ->
  Forall2 (use_of R) xs ys -> Forall2 (use_of R) xs zs ->
  forallb IsImmediate ys = true ->
  zs = ys.
Proof.
  intros Hfun Hun HF. revert zs Hun.
  induction HF as [|x y xs ys Hxy _ IH]; intros zs Hun HG Hy.
  - inversion HG. reflexivity.
  - inversion HG as [|x' z xs' zs' Hxz HG']; subst.
    simpl in Hy. apply andb_true_iff in Hy as [Hy Hys].
    f_equal.
    + destruct Hxy as [->|(k & -> & Hky)].
      * apply (use_of_immediate R x z Hy Hxz).
      * destruct Hxz as [->|(k' & Hk' & Hkz)].
        -- exfalso. apply (Hun k y); [left; reflexivity|exact Hky|].
           left. reflexivity.
        -- injection Hk' as <-. apply (Hfun k); [left; reflexivity|..];
             assumption.
    + apply IH; try assumption.
      * intros k y' z' Hin. apply Hfun. right. exact Hin.
      * intros k y' Hin Hk Hin'.
        apply (Hun k y'); [right; exact Hin|exact Hk|right; exact Hin'].
Qed.

Lemma folded_read_retired (cb : UserCallbacks) (l0 l' : list Inst) :
  well_formed l0 ->
  visit_upto cb (length l0) l0 = Some l' ->
  forall i v, folds_to cb l0 i v ->
    l' !! i = Some Invalidated /\ unused i l'.
Proof.
  intros Hwf Hrun.
  destruct (visit_upto_state cb _ _ _ (Nat.le_refl _) Hrun) as [Hlen Hst].
  destruct (visit_upto_stable cb _ _ _ Hwf Hrun) as [_ Hfix].
  intros i. induction i as [i IH] using lt_wf_ind. intros v Hv.
  inversion Hv as [? d ys ? Hd Hys Hfy]; subst.
  destruct (foldable_Some cb _ _ Hfy) as [Hread _]. simpl in Hread.
  destruct (Hst i d Hd) as (inst' & Hi' & Hs).
  destruct Hs as [(_ & -> & [(w & _ & Hun)|[Hset _]])|(Hop & Hargs & _)].
  - split; assumption.
  - rewrite Hset in Hread. discriminate Hread.
  - exfalso.
    assert (Hnone : foldable cb inst' = None).
    { apply (visit_inst_fixed_read cb i l' inst' Hi').
      - apply Hfix. eapply lookup_lt_Some, Hd.
      - intros Hv0. rewrite <- Hop, Hv0 in Hread. discriminate Hread. }
    assert (Heq : args inst' = ys).
    { apply (operands_settled (folds_to cb l0) (args d)).
      - intros k y z Hin. apply (folds_to_functional cb l0 Hwf).
      - intros k y Hin Hy.
        destruct (IH k (Hwf i d k Hd Hin) y Hy) as [_ Hun].
        exact (Hun i inst' Hi').
      - exact Hys.
      - exact Hargs.
      - exact (foldable_immediates cb _ _ Hfy). }
    rewrite <- Heq, <- Hop, inst_eta in Hfy. congruence.
Qed.

(** On a block whose value references point to earlier instructions,
    the reads the pass retires are exactly those that [folds_to]
    describes, and the literal of such a read is unique: a memory read
    is replaced by its literal if and only if its address operand, with
    the folded reads it depends on replaced by their literals, is an
    immediate naming read-only memory. *)
Theorem retired_reads_are_the_foldable_ones (cb : UserCallbacks)
  (b b' : Block) :
  well_formed (instructions b) ->
  A32ConstantMemoryReads cb b = Some b' ->
  forall i inst, instructions b !! i = Some inst ->
    ((exists v, folds_to cb (instructions b) i v) <->
     (is_read (opcode inst) = true /\
      instructions b' !! i = Some Invalidated)) /\
    (forall v v', folds_to cb (instructions b) i v ->
                  folds_to cb (instructions b) i v' -> v = v').
Proof.
  intros Hwf Hpass i inst Hi.
  destruct (A32ConstantMemoryReads_Some cb b b' Hpass) as (l' & Hrun & ->).
  simpl. split; [split|].
  - intros [v Hv]. split.
    + exact (proj1 (folds_to_read cb _ _ _ _ Hv Hi)).
    + exact (proj1 (folded_read_retired cb _ _ Hwf Hrun i v Hv)).
  - intros [Hread Hinv].
    destruct (visit_upto_state cb _ _ _ (Nat.le_refl _) Hrun) as [_ Hst].
    destruct (Hst i inst Hi) as (inst' & Hi' & Hs).
    rewrite Hinv in Hi'. injection Hi' as <-.
    destruct Hs as [(_ & _ & [(v & Hv & _)|[Hset _]])|(Hop & _)].
    + exists v. exact Hv.
    + rewrite Hset in Hread. discriminate Hread.
    + simpl in Hop. rewrite <- Hop in Hread. discriminate Hread.
  - apply (folds_to_functional cb _ Hwf).
Qed.

Lemma retired_reads_are_the_foldable_ones_witness :
  well_formed (instructions pointer_block) /\
  A32ConstantMemoryReads rom_1008 pointer_block
  = Some (block_of [ Invalidated;
                     mk A32ReadMemory8 [ImmU32 0xDEADBEEF];
                     mk A32SetRegister [ImmRegRef Arm.R0; InstRef 1] ]) /\
  forall i inst, instructions pointer_block !! i = Some inst ->
    ((exists v, folds_to rom_1008 (instructions pointer_block) i v) <->
     (is_read (opcode inst) = true /\
      [ Invalidated;
        mk A32ReadMemory8 [ImmU32 0xDEADBEEF];
        mk A32SetRegister [ImmRegRef Arm.R0; InstRef 1] ] !! i
      = Some Invalidated)) /\
    (forall v v', folds_to rom_1008 (instructions pointer_block) i v ->
                  folds_to rom_1008 (instructions pointer_block) i v' ->
                  v = v').
Proof.
  split; [apply well_formed_b_sound; vm_compute; reflexivity|].
  split; [vm_compute; reflexivity|].
  apply (retired_reads_are_the_foldable_ones rom_1008 pointer_block
           (block_of [ Invalidated;
                       mk A32ReadMemory8 [ImmU32 0xDEADBEEF];
                       mk A32SetRegister [ImmRegRef Arm.R0; InstRef 1] ])).
  - apply well_formed_b_sound. vm_compute. reflexivity.
  - vm_compute. reflexivity.
Defined.

(** *** The assertion of [GetU32] *)

Lemma foldable_literal (cb : UserCallbacks) (inst : Inst) (v : Value) :
  foldable cb inst = Some v ->
  exists vaddr, read_literal cb (opcode inst) vaddr = Some v.
Proof.
  unfold foldable. destruct (AreAllArgsImmediates inst); [|discriminate].
  destruct (GetU32 (GetArg inst 0)) as [a|]; [|discriminate].
  destruct (IsReadOnlyMemory cb a); [|discriminate].
  intros H. exists a. exact H.
Qed.

Lemma visit_inst_typed (cb : UserCallbacks) (l0 : list Inst) (k : nat)
  (l : list Inst) :
  typed_reads l0 -> (k < length l0)%nat -> pass_state cb l0 k l ->
  is_Some (visit_inst cb k l).
Proof.
  intros Hty Hk [Hlen Hst].
  destruct (lookup_lt_is_Some_2 l0 k Hk) as [inst0 Hk0].
  destruct (Hst k inst0 Hk0) as (inst & Hkk & Hs).
  destruct Hs as [(Hlt & _)|(Hop & Hargs & _)]; [lia|].
  rewrite (visit_inst_unfold cb k l inst Hkk).
  destruct (Opcode_eqb (opcode inst) A32SetCFlag);
    [case_match; eexists; reflexivity|].
  destruct (foldable cb inst) as [v|]; [eexists; reflexivity|].
  destruct (is_read (opcode inst)) eqn:Hread; [|eexists; reflexivity].
  destruct (AreAllArgsImmediates inst) eqn:Himm; [|eexists; reflexivity].
  simpl.
  assert (Hu32 : is_Some (GetU32 (GetArg inst 0))).
  { rewrite Hop in Hread. destruct (Hty k inst0 Hk0 Hread) as (x & Hx & Hu).
    rewrite Hx in Hargs.
    inversion Hargs as [|x' y xs ys Hxy Hnil Heq1 Heq2]; subst.
    inversion Hnil; subst.
    unfold GetArg. rewrite <- Heq2. simpl.
    unfold AreAllArgsImmediates in Himm. rewrite <- Heq2 in Himm.
    simpl in Himm. apply andb_true_iff in Himm as [Hy _].
    destruct Hu as [[a ->]|(j & d & -> & Hj & H8 & H16 & H64)].
    - rewrite (use_of_immediate _ (ImmU32 a) _ eq_refl Hxy). eexists. reflexivity.
    - destruct Hxy as [->|(j' & Hj' & Hf)]; [discriminate Hy|].
      injection Hj' as <-.
      inversion Hf as [? d' zs ? Hd' _ Hfold]; subst.
      rewrite Hj in Hd'. injection Hd' as <-.
      apply foldable_literal in Hfold as [a Hlit]. simpl in Hlit.
      destruct (opcode d); try discriminate Hlit; try congruence.
      injection Hlit as <-. eexists. reflexivity. }
  rewrite bool_decide_eq_true_2 by exact Hu32. eexists. reflexivity.
Qed.

Lemma typed_reads_run (cb : UserCallbacks) (l : list Inst) :
  typed_reads l -> is_Some (visit_upto cb (length l) l).
Proof.
  intros Hty.
  assert (Hrun : forall k, (k <= length l)%nat ->
            is_Some (visit_upto cb k l)).
  { induction k as [|k IH]; intros Hk; [eexists; reflexivity|].
    destruct IH as [lk Hlk]; [lia|].
    rewrite visit_upto_S, Hlk. simpl.
    apply (visit_inst_typed cb l); [exact Hty|lia|].
    apply visit_upto_state; [lia|exact Hlk]. }
  apply Hrun. lia.
Qed.

Lemma run_twice (cb : UserCallbacks) (l l' : list Inst) :
  well_formed l ->
  visit_upto cb (length l) l = Some l' ->
  visit_upto cb (length l') l' = Some l'.
Proof.
  intros Hwf Hrun.
  destruct (visit_upto_stable cb _ _ _ Hwf Hrun) as [_ Hfix].
  apply visit_upto_fixed. intros i Hi. apply Hfix.
  rewrite <- (visit_upto_length cb _ _ _ Hrun). exact Hi.
Qed.

(** The pass runs to its end, without a failed [GetU32] assertion, on
    every block in which the address operand of each memory read is a
    [u32]: an immediate [u32], or the value of an instruction other than
    an 8, 16 or 64-bit memory read. *)
Theorem typed_reads_pass_succeeds (cb : UserCallbacks) (b : Block) :
  typed_reads (instructions b) ->
  exists b', A32ConstantMemoryReads cb b = Some b'.
Proof.
  intros Hty.
  destruct (typed_reads_run cb _ Hty) as [l' Hl'].
  exists (set_instructions b l'). unfold A32ConstantMemoryReads.
  rewrite Hl'. reflexivity.
Qed.

Lemma typed_pointer_block : typed_reads (instructions pointer_block).
Proof.
  intros i inst Hi Hread.
  destruct i as [|[|[|i]]]; simpl in Hi; try discriminate Hi;
    injection Hi as <-; try discriminate Hread.
  - exists (ImmU32 4104). split; [reflexivity|]. left. eexists. reflexivity.
  - exists (InstRef 0). split; [reflexivity|]. right.
    exists 0%nat, (mk A32ReadMemory32 [ImmU32 4104]).
    repeat split; discriminate.
Qed.

Lemma typed_reads_pass_succeeds_witness :
  typed_reads (instructions pointer_block) /\
  exists b', A32ConstantMemoryReads rom_1008 pointer_block = Some b'.
Proof.
  split; [exact typed_pointer_block|].
  apply (typed_reads_pass_succeeds rom_1008 pointer_block
           typed_pointer_block).
Defined.

(** An address operand of another type stops the pass: here the byte
    read from read-only memory is used as an address. *)
Example untyped_read_fails :
  A32ConstantMemoryReads rom_1008
    (block_of [ mk A32ReadMemory8 [ImmU32 0x1008];
                mk A32ReadMemory32 [InstRef 0] ]) = None.
Proof. vm_compute. reflexivity. Qed.

End ConstantMemoryReadsMore.

(* --------------------------------------------------------------------- *)
(** ** The Thumb translator *)
(* --------------------------------------------------------------------- *)

Section ThumbTranslator.
Import Arm IR Translate.

(** Running the builder, one appended instruction after the other. *)
Lemma bind_Inst {A} (op : Opcode) (operands : list Value)
  (k : Value -> Visitor A) (ir : IREmitter) :
  bind (Inst op operands) k ir
  = k (InstRef (length (instructions (block ir))))
      (append_insts ir [{| opcode := op; args := operands |}]).
Proof. reflexivity. Qed.

Lemma bind_bind {A B C} (m : Visitor A) (f : A -> Visitor B)
  (g : B -> Visitor C) (ir : IREmitter) :
  bind (bind m f) g ir = bind m (fun x => bind (f x) g) ir.
Proof. unfold bind. destruct (m ir); reflexivity. Qed.

Lemma bind_ret {A B} (a : A) (k : A -> Visitor B) (ir : IREmitter) :
  bind (ret a) k ir = k a ir.
Proof. reflexivity. Qed.

Lemma append_insts_app (ir : IREmitter) (l l' : list IR.Inst) :
  append_insts (append_insts ir l) l' = append_insts ir (l ++ l').
Proof.
  unfold append_insts, set_instructions. simpl. rewrite app_assoc.
  reflexivity.
Qed.

Lemma append_insts_length (ir : IREmitter) (l : list IR.Inst) :
  length (instructions (block (append_insts ir l)))
  = (length (instructions (block ir)) + length l)%nat.
Proof. unfold append_insts. simpl. apply length_app. Qed.

Lemma append_insts_instructions (ir : IREmitter) (l : list IR.Inst) :
  instructions (block (append_insts ir l)) = instructions (block ir) ++ l.
Proof. reflexivity. Qed.

Ltac step_visitor :=
  repeat first
    [ rewrite bind_bind
    | rewrite bind_ret
    | rewrite bind_Inst; rewrite ?append_insts_app, ?append_insts_length;
      cbn [length app] ].

(** C9.  With a zero immediate, [thumb16_LSR_imm] and [thumb16_ASR_imm]
    append exactly the instructions below: the one shift instruction
    takes the amount 32. *)
Theorem thumb16_shift_imm_zero_is_32 (m d : Reg) (ir : IREmitter) :
  let n := length (instructions (block ir)) in
  (exists ir',
     thumb16_LSR_imm 0 m d ir = Returns true ir' /\
     instructions (block ir') =
     instructions (block ir) ++
     [ {| opcode := A32GetCFlag; args := [] |};
       {| opcode := A32GetRegister; args := [ImmRegRef m] |};
       {| opcode := IR.LogicalShiftRight;
          args := [InstRef (n + 1); ImmU8 32; InstRef n] |};
       {| opcode := GetCarryFromOp; args := [InstRef (n + 2)] |};
       {| opcode := A32SetRegister;
          args := [ImmRegRef d; InstRef (n + 2)] |};
       {| opcode := IR.MostSignificantBit; args := [InstRef (n + 2)] |};
       {| opcode := A32SetNFlag; args := [InstRef (n + 5)] |};
       {| opcode := IR.IsZero; args := [InstRef (n + 2)] |};
       {| opcode := A32SetZFlag; args := [InstRef (n + 7)] |};
       {| opcode := A32SetCFlag; args := [InstRef (n + 3)] |} ]) /\
  (exists ir',
     thumb16_ASR_imm 0 m d ir = Returns true ir' /\
     instructions (block ir') =
     instructions (block ir) ++
     [ {| opcode := A32GetCFlag; args := [] |};
       {| opcode := A32GetRegister; args := [ImmRegRef m] |};
       {| opcode := IR.ArithmeticShiftRight;
          args := [InstRef (n + 1); ImmU8 32; InstRef n] |};
       {| opcode := GetCarryFromOp; args := [InstRef (n + 2)] |};
       {| opcode := A32SetRegister;
          args := [ImmRegRef d; InstRef (n + 2)] |};
       {| opcode := IR.MostSignificantBit; args := [InstRef (n + 2)] |};
       {| opcode := A32SetNFlag; args := [InstRef (n + 5)] |};
       {| opcode := IR.IsZero; args := [InstRef (n + 2)] |};
       {| opcode := A32SetZFlag; args := [InstRef (n + 7)] |};
       {| opcode := A32SetCFlag; args := [InstRef (n + 3)] |} ]).
Proof.
  intros n. subst n. split.
  - exists (append_insts ir
      [ {| opcode := A32GetCFlag; args := [] |};
        {| opcode := A32GetRegister; args := [ImmRegRef m] |};
        {| opcode := IR.LogicalShiftRight;
           args := [InstRef (length (instructions (block ir)) + 1);
                    ImmU8 32; InstRef (length (instructions (block ir)))] |};
        {| opcode := GetCarryFromOp;
           args := [InstRef (length (instructions (block ir)) + 2)] |};
        {| opcode := A32SetRegister;
           args := [ImmRegRef d;
                    InstRef (length (instructions (block ir)) + 2)] |};
        {| opcode := IR.MostSignificantBit;
           args := [InstRef (length (instructions (block ir)) + 2)] |};
        {| opcode := A32SetNFlag;
           args := [InstRef (length (instructions (block ir)) + 5)] |};
        {| opcode := IR.IsZero;
           args := [InstRef (length (instructions (block ir)) + 2)] |};
        {| opcode := A32SetZFlag;
           args := [InstRef (length (instructions (block ir)) + 7)] |};
        {| opcode := A32SetCFlag;
           args := [InstRef (length (instructions (block ir)) + 3)] |} ]).
    split; [|reflexivity].
    unfold thumb16_LSR_imm, LogicalShiftRight, shift_op, GetCFlag,
      GetRegister, SetRegister, MostSignificantBit, IsZero, SetNFlag,
      SetZFlag, SetCFlag, Imm8.
    cbn [Z.eqb negb]. step_visitor. reflexivity.
  - exists (append_insts ir
      [ {| opcode := A32GetCFlag; args := [] |};
        {| opcode := A32GetRegister; args := [ImmRegRef m] |};
        {| opcode := IR.ArithmeticShiftRight;
           args := [InstRef (length (instructions (block ir)) + 1);
                    ImmU8 32; InstRef (length (instructions (block ir)))] |};
        {| opcode := GetCarryFromOp;
           args := [InstRef (length (instructions (block ir)) + 2)] |};
        {| opcode := A32SetRegister;
           args := [ImmRegRef d;
                    InstRef (length (instructions (block ir)) + 2)] |};
        {| opcode := IR.MostSignificantBit;
           args := [InstRef (length (instructions (block ir)) + 2)] |};
        {| opcode := A32SetNFlag;
           args := [InstRef (length (instructions (block ir)) + 5)] |};
        {| opcode := IR.IsZero;
           args := [InstRef (length (instructions (block ir)) + 2)] |};
        {| opcode := A32SetZFlag;
           args := [InstRef (length (instructions (block ir)) + 7)] |};
        {| opcode := A32SetCFlag;
           args := [InstRef (length (instructions (block ir)) + 3)] |} ]).
    split; [|reflexivity].
    unfold thumb16_ASR_imm, ArithmeticShiftRight, shift_op, GetCFlag,
      GetRegister, SetRegister, MostSignificantBit, IsZero, SetNFlag,
      SetZFlag, SetCFlag, Imm8.
    cbn [Z.eqb negb]. step_visitor. reflexivity.
Qed.

(** C10.  The encodings the translator takes for unpredictable end in
    the failed assertion of [UnpredictableInstruction]: [ADD <Rdn>, <Rm>]
    with both registers the PC, and [CMP <Rn>, <Rm>] with both registers
    below R8 or with one of them the PC.  The visitor does not return, so
    it sets no terminator, [Interpret] or other. *)
Theorem unpredictable_encodings_assert
  (d_n_hi : bool) (d_n_lo : Reg) (n_hi : bool) (m n_lo n : Reg)
  (ir : IREmitter) :
  high_register d_n_hi d_n_lo = Some PC ->
  high_register n_hi n_lo = Some n ->
  (Reg_ltb n R8 && Reg_ltb m R8) || (Reg_eqb n PC || Reg_eqb m PC) = true ->
  UnpredictableInstruction ir = AssertionFailed "UNPREDICTABLE" /\
  thumb16_ADD_reg_t2 d_n_hi PC d_n_lo ir
  = UnpredictableInstruction ir /\
  thumb16_CMP_reg_t2 n_hi m n_lo ir = UnpredictableInstruction ir.
Proof.
  intros Hd Hn Hc. split; [reflexivity|]. split.
  - unfold thumb16_ADD_reg_t2, high_register, RegAdd, bind in *.
    destruct d_n_hi.
    + rewrite Hd. reflexivity.
    + injection Hd as ->. reflexivity.
  - unfold thumb16_CMP_reg_t2, high_register, RegAdd, bind in *.
    assert (Hrun : (if n_hi
                    then match RegOfNumber (RegNumber n_lo + 8) with
                         | Some r' => ret r'
                         | None => ASSERT_MSG_false "new_reg <= 15"
                         end
                    else ret n_lo) ir = Returns n ir).
    { destruct n_hi; [rewrite Hn|injection Hn as ->]; reflexivity. }
    rewrite Hrun.
    destruct (Reg_ltb n R8 && Reg_ltb m R8); [reflexivity|].
    simpl in Hc. rewrite Hc. reflexivity.
Qed.

Lemma unpredictable_encodings_assert_witness :
  high_register true R7 = Some PC /\
  high_register false R3 = Some R3 /\
  (Reg_ltb R3 R8 && Reg_ltb R2 R8) || (Reg_eqb R3 PC || Reg_eqb R2 PC)
  = true /\
  UnpredictableInstruction fresh_emitter = AssertionFailed "UNPREDICTABLE" /\
  thumb16_ADD_reg_t2 true PC R7 fresh_emitter
  = UnpredictableInstruction fresh_emitter /\
  thumb16_CMP_reg_t2 false R2 R3 fresh_emitter
  = UnpredictableInstruction fresh_emitter.
Proof.
  split; [reflexivity|]. split; [reflexivity|]. split; [reflexivity|].
  apply (unpredictable_encodings_assert true R7 false R2 R3 R3
           fresh_emitter); reflexivity.
Defined.

(** A predictable [ADD <Rdn>, <Rm>] that writes the PC ends the block
    with [ReturnToDispatch]. *)
Example thumb16_ADD_reg_t2_writes_PC :
  exists ir',
    thumb16_ADD_reg_t2 true R1 R7 fresh_emitter = Returns false ir' /\
    terminal (block ir') = ReturnToDispatch.
Proof. eexists. split; [vm_compute; reflexivity|reflexivity]. Qed.

(** *** Instruction fetch *)

Lemma high5_mask (x : Z) :
  Z.land x 0xF800 = Z.shiftl (Z.land (Z.shiftr x 11) 0x1F) 11.
Proof.
  apply Z.bits_inj'. intros k Hk.
  rewrite Z.land_spec, Z.shiftl_spec by exact Hk.
  destruct (Z.ltb_spec k 11) as [Hlt|Hge].
  - rewrite (Z.testbit_neg_r _ (k - 11)) by lia.
    replace 0xF800 with (Z.shiftl 0x1F 11) by reflexivity.
    rewrite Z.shiftl_spec by exact Hk.
    rewrite (Z.testbit_neg_r _ (k - 11)) by lia.
    apply andb_false_r.
  - rewrite Z.land_spec, Z.shiftr_spec by lia.
    replace (k - 11 + 11) with k by lia.
    replace 0xF800 with (Z.shiftl 0x1F 11) by reflexivity.
    rewrite Z.shiftl_spec by exact Hk. reflexivity.
Qed.

Lemma halfword_at_high5 (memory_read_32 : Z -> Z) (arm_pc : Z) :
  Z.land (Z.shiftr (halfword_at memory_read_32 arm_pc) 11) 0x1F
  = Z.shiftr (halfword_at memory_read_32 arm_pc) 11.
Proof.
  unfold halfword_at.
  set (w := if negb (Z.land arm_pc 2 =? 0) then _ else _).
  apply Z.bits_inj'. intros k Hk.
  rewrite Z.land_spec, Z.shiftr_spec, Z.land_spec by exact Hk.
  destruct (Z.ltb_spec k 5) as [Hlt|Hge].
  - replace (Z.testbit 31 k) with true; [apply andb_true_r|].
    assert (Hcases : k = 0 \/ k = 1 \/ k = 2 \/ k = 3 \/ k = 4) by lia.
    destruct Hcases as [->|[->|[->|[->| ->]]]]; reflexivity.
  - replace (Z.testbit 65535 (k + 11)) with false;
      [rewrite !andb_false_r; reflexivity|].
    symmetry. change 65535 with (Z.ones 16).
    apply Z.ones_spec_high. lia.
Qed.

(** The size [ReadThumbInstruction] answers, by the high five bits of
    the first halfword. *)
Lemma ReadThumbInstruction_size (memory_read_32 : Z -> Z) (arm_pc : Z) :
  snd (ReadThumbInstruction arm_pc memory_read_32)
  = if Z.shiftr (halfword_at memory_read_32 arm_pc) 11 <=? 29
    then Thumb16 else Thumb32.
Proof.
  unfold ReadThumbInstruction. fold (halfword_at memory_read_32 arm_pc).
  set (hw := halfword_at memory_read_32 arm_pc).
  rewrite high5_mask. unfold hw. rewrite halfword_at_high5. fold hw.
  rewrite Z.shiftl_mul_pow2 by lia.
  destruct (Z.leb_spec (Z.shiftr hw 11) 29) as [Hle|Hgt].
  - replace (Z.shiftr hw 11 * 2 ^ 11 <=? 59392) with true; [reflexivity|].
    symmetry. apply Z.leb_le. lia.
  - replace (Z.shiftr hw 11 * 2 ^ 11 <=? 59392) with false; [reflexivity|].
    symmetry. apply Z.leb_gt. lia.
Qed.

Lemma ReadThumbInstruction_thumb16 (memory_read_32 : Z -> Z) (arm_pc : Z) :
  Z.shiftr (halfword_at memory_read_32 arm_pc) 11 <= 29 ->
  ReadThumbInstruction arm_pc memory_read_32
  = (halfword_at memory_read_32 arm_pc, Thumb16).
Proof.
  intros Hle.
  pose proof (ReadThumbInstruction_size memory_read_32 arm_pc) as Hsize.
  apply Z.leb_le in Hle. rewrite Hle in Hsize.
  unfold ReadThumbInstruction in *.
  fold (halfword_at memory_read_32 arm_pc) in *.
  destruct (Z.land (halfword_at memory_read_32 arm_pc) 63488 <=? 59392);
    [reflexivity|discriminate Hsize].
Qed.

(** C2, the part the code keeps: a first halfword whose high five bits
    are [0b11110] or [0b11111] (30 or 31) is a 32-bit instruction, and the round
    ends the block with [Interpret] at the current location. *)
Lemma prefix_0b1111x_is_interpreted
  (DecodeThumb16 : Z -> option (Z -> Visitor bool))
  (memory_read_32 : Z -> Z) (ir : IREmitter) :
  let hw := halfword_at memory_read_32 (arm_pc (current_location ir)) in
  Z.shiftr hw 11 = 30 \/ Z.shiftr hw 11 = 31 ->
  snd (ReadThumbInstruction (arm_pc (current_location ir)) memory_read_32)
  = Thumb32 /\
  exists ir',
    TranslateThumb_round DecodeThumb16 memory_read_32 ir
    = Returns false ir' /\
    terminal (block ir') = Interpret (current_location ir) /\
    instructions (block ir') = instructions (block ir).
Proof.
  intros hw Hhw.
  pose proof (ReadThumbInstruction_size memory_read_32
                (arm_pc (current_location ir))) as Hsize.
  fold hw in Hsize.
  replace (Z.shiftr hw 11 <=? 29) with false in Hsize
    by (symmetry; apply Z.leb_gt; lia).
  split; [exact Hsize|].
  unfold TranslateThumb_round.
  destruct (ReadThumbInstruction _ _) as [inst size]. simpl in Hsize.
  subst size. eexists. split; [reflexivity|]. split; reflexivity.
Qed.

(** C2 at the prefix [0b11101] (29): the code takes the halfword for a
    16-bit instruction and hands it to the 16-bit decoder. *)
Theorem prefix_0b11101_goes_to_the_thumb16_decoder
  (DecodeThumb16 : Z -> option (Z -> Visitor bool))
  (memory_read_32 : Z -> Z) (ir : IREmitter) :
  let hw := halfword_at memory_read_32 (arm_pc (current_location ir)) in
  Z.shiftr hw 11 = 29 ->
  ReadThumbInstruction (arm_pc (current_location ir)) memory_read_32
  = (hw, Thumb16) /\
  TranslateThumb_round DecodeThumb16 memory_read_32 ir
  = advance Thumb16 (dispatch_thumb16 DecodeThumb16 hw ir).
Proof.
  intros hw Hhw.
  assert (Hread : ReadThumbInstruction (arm_pc (current_location ir))
                    memory_read_32 = (hw, Thumb16)).
  { apply ReadThumbInstruction_thumb16. fold hw. lia. }
  split; [exact Hread|].
  unfold TranslateThumb_round. rewrite Hread. reflexivity.
Qed.

(** The halfword [0xE800] at [0x1000], with a decoder table that takes
    every halfword for an [SVC]: the round emits the supervisor call,
    sets no [Interpret] terminator and advances the PC by two. *)
Lemma prefix_0b11101_goes_to_the_thumb16_decoder_witness :
  Z.shiftr (halfword_at (fun _ => 0xE800)
              (arm_pc (current_location fresh_emitter))) 11 = 29 /\
  ReadThumbInstruction 0x1000 (fun _ => 0xE800) = (0xE800, Thumb16) /\
  TranslateThumb_round decode_all_as_SVC (fun _ => 0xE800) fresh_emitter
  = Returns false
      {| block := {| instructions :=
                       [{| opcode := A32CallSupervisor;
                           args := [ImmU32 0] |}];
                     location := location (block fresh_emitter);
                     cycle_count := 1;
                     terminal := TermInvalid |};
         current_location := {| arm_pc := 0x1002; TFlag := true;
                                fpscr_mode := 0 |} |}.
Proof.
  split; [reflexivity|].
  destruct (prefix_0b11101_goes_to_the_thumb16_decoder decode_all_as_SVC
              (fun _ => 0xE800) fresh_emitter eq_refl) as [Hread Hround].
  split; [exact Hread|]. rewrite Hround. reflexivity.
Defined.

(** Spec 8, scenario 2: [LDR R1, [PC, #4]] at [0x1000], and the pass
    with read-only memory at [0x1008]. *)
Example LDR_literal_then_constant_memory_reads :
  exists ir',
    thumb16_LDR_literal R1 1 fresh_emitter = Returns true ir' /\
    instructions (block ir')
    = [ {| opcode := A32ReadMemory32; args := [ImmU32 0x1008] |};
        {| opcode := A32SetRegister;
           args := [ImmRegRef R1; InstRef 0] |} ] /\
    instructions
    <$> Optimization.A32ConstantMemoryReads Optimization.rom_1008 (block ir')
    = Some [ Invalidated;
             {| opcode := A32SetRegister;
                args := [ImmRegRef R1; ImmU32 0xDEADBEEF] |} ].
Proof.
  eexists. split; [vm_compute; reflexivity|].
  split; vm_compute; reflexivity.
Qed.

End ThumbTranslator.

(* --------------------------------------------------------------------- *)
(** ** The instruction methods of the Thumb translator *)
(* --------------------------------------------------------------------- *)

Section ThumbVisitors.
Import Arm IR Translate.

Lemma bind_SetTerm {A} (t : Terminal) (k : unit -> Visitor A)
  (ir : IREmitter) :
  bind (SetTerm t) k ir = k tt (with_terminal ir t).
Proof. reflexivity. Qed.

Lemma bind_AlignPC4 {A} (k : Z -> Visitor A) (ir : IREmitter) :
  bind AlignPC4 k ir
  = k (Z.land ((arm_pc (current_location ir) + 4) mod 2 ^ 32) 0xFFFFFFFC)
      ir.
Proof. reflexivity. Qed.

Ltac run_builder :=
  cbv beta zeta delta
    [ LogicalShiftLeft LogicalShiftRight ArithmeticShiftRight RotateRight
      shift_op AddWithCarry SubWithCarry carry_op
      GetRegister SetRegister ALUWritePC CallSupervisor GetCFlag
      SetNFlag SetZFlag SetCFlag SetVFlag MostSignificantBit IsZero
      ReadMemory32 Add And Eor Or Not
      LeastSignificantHalf LeastSignificantByte
      SignExtendHalfToWord SignExtendByteToWord
      ZeroExtendHalfToWord ZeroExtendByteToWord
      ByteReverseWord ByteReverseHalf
      WriteMemory8 WriteMemory16 WriteMemory32 ];
  repeat first
    [ rewrite bind_bind
    | rewrite bind_ret
    | rewrite bind_AlignPC4
    | rewrite bind_SetTerm
    | rewrite bind_Inst; rewrite ?append_insts_app, ?append_insts_length;
      cbn [length app] ];
  cbv beta delta [ret Imm1 Imm8 Imm32]; cbv beta iota;
  cbn [rc_result rc_carry rco_result rco_carry rco_overflow].

Ltac refs_solved :=
  cbn [refs_earlier args];
  repeat match goal with
         | |- _ /\ _ => split
         | |- True => exact I
         | |- Forall _ [] => apply Forall_nil_2
         | |- Forall _ (_ :: _) => apply Forall_cons_2
         | |- defined_below _ _ => cbn [defined_below]; first [exact I | lia]
         end.

Ltac reads_solved :=
  unfold reads_words;
  repeat (apply Forall_cons_2;
          [cbn [opcode Optimization.is_read]; intros Hread;
           first
             [ discriminate Hread
             | split; [reflexivity|];
               eexists; split; [reflexivity|];
               first
                 [ left; eexists; reflexivity
                 | right; eexists _, _;
                   split; [reflexivity|]; split; reflexivity ] ]|]);
  apply Forall_nil_2.

Ltac flags_solved :=
  unfold flags_of_ops;
  repeat (apply Forall_cons_2;
          [cbn [opcode Optimization.flag_source]; intros src Hsrc;
           first
             [ discriminate Hsrc
             | injection Hsrc as <-; eexists _, _;
               split; [reflexivity|]; split; reflexivity ]|]);
  apply Forall_nil_2.

Ltac appended t :=
  run_builder;
  refine (ex_intro _ _ (ex_intro _ t _)); split; [reflexivity|];
  split; [refs_solved|]; split; [reads_solved|];
  split; [flags_solved|]; split; [reflexivity|].

Ltac straight_line := appended (@None Terminal); reflexivity.

Lemma append_insts_nil (ir : IREmitter) : append_insts ir [] = ir.
Proof.
  destruct ir as [[l loc n t] cur].
  unfold append_insts, set_instructions. simpl. rewrite app_nil_r.
  reflexivity.
Qed.

(** What a call of an instruction method does to the builder. *)
Lemma call_after (c : VisitorCall) (ir : IREmitter) :
  match call c ir with
  | Returns should_continue ir' =>
    exists l t,
      ir' = after ir l t /\
      refs_earlier (length (instructions (block ir))) l /\
      reads_words (length (instructions (block ir))) l /\
      flags_of_ops (length (instructions (block ir))) l /\
      flags_together l = true /\
      stop_reason (current_location ir) should_continue l t
  | AssertionFailed _ => True
  end.
Proof.
  destruct c; cbv beta iota delta [call].
  1-26, 30-45:
    cbv delta
      [ thumb16_LSL_imm thumb16_LSR_imm thumb16_ASR_imm thumb16_ADD_reg_t1
        thumb16_SUB_reg thumb16_ADD_imm_t1 thumb16_SUB_imm_t1
        thumb16_MOV_imm thumb16_CMP_imm thumb16_ADD_imm_t2
        thumb16_SUB_imm_t2 thumb16_AND_reg thumb16_EOR_reg
        thumb16_LSL_reg thumb16_LSR_reg thumb16_ASR_reg thumb16_ADC_reg
        thumb16_SBC_reg thumb16_ROR_reg thumb16_TST_reg thumb16_RSB_imm
        thumb16_CMP_reg_t1 thumb16_CMN_reg thumb16_ORR_reg
        thumb16_BIC_reg thumb16_MVN_reg thumb16_LDR_literal
        thumb16_STR_reg thumb16_STRH_reg thumb16_STRB_reg
        thumb16_LDR_imm_t1 thumb16_ADR thumb16_ADD_sp_t1
        thumb16_ADD_sp_t2 thumb16_SUB_sp thumb16_SXTH thumb16_SXTB
        thumb16_UXTH thumb16_UXTB thumb16_REV thumb16_REV16
        thumb16_REVSH ];
    straight_line.
  - (* ADD <Rdn>, <Rm> *)
    unfold thumb16_ADD_reg_t2, RegAdd.
    assert (Hbody : forall d_n : Reg,
      match
        (if Reg_eqb d_n PC && Reg_eqb m PC then UnpredictableInstruction
         else
           let* rn := GetRegister d_n in
           let* rm := GetRegister m in
           let* result := AddWithCarry rn rm (Imm1 false) in
           if Reg_eqb d_n PC then
             let* _ := ALUWritePC (rco_result result) in
             let* _ := SetTerm ReturnToDispatch in
             ret false
           else
             let* _ := SetRegister d_n (rco_result result) in
             ret true) ir
      with
      | Returns should_continue ir' =>
        exists l t,
          ir' = after ir l t /\
          refs_earlier (length (instructions (block ir))) l /\
          reads_words (length (instructions (block ir))) l /\
          flags_of_ops (length (instructions (block ir))) l /\
          flags_together l = true /\
          stop_reason (current_location ir) should_continue l t
      | AssertionFailed _ => True
      end).
    { intros d_n. destruct (Reg_eqb d_n PC && Reg_eqb m PC); [exact I|].
      destruct (Reg_eqb d_n PC).
      - appended (Some ReturnToDispatch).
        right. left. split; [reflexivity|]. eexists. reflexivity.
      - straight_line. }
    destruct d_n_hi.
    + destruct (RegOfNumber (RegNumber d_n_lo + 8)) as [d_n|]; [|exact I].
      rewrite bind_ret. apply Hbody.
    + rewrite bind_ret. apply Hbody.
  - (* CMP <Rn>, <Rm> *)
    unfold thumb16_CMP_reg_t2, RegAdd.
    assert (Hbody : forall n : Reg,
      match
        (if Reg_ltb n R8 && Reg_ltb m R8 then UnpredictableInstruction
         else if Reg_eqb n PC || Reg_eqb m PC then UnpredictableInstruction
         else
           let* rn := GetRegister n in
           let* rm := GetRegister m in
           let* result := SubWithCarry rn rm (Imm1 true) in
           let* msb := MostSignificantBit (rco_result result) in
           let* _ := SetNFlag msb in
           let* z := IsZero (rco_result result) in
           let* _ := SetZFlag z in
           let* _ := SetCFlag (rco_carry result) in
           let* _ := SetVFlag (rco_overflow result) in
           ret true) ir
      with
      | Returns should_continue ir' =>
        exists l t,
          ir' = after ir l t /\
          refs_earlier (length (instructions (block ir))) l /\
          reads_words (length (instructions (block ir))) l /\
          flags_of_ops (length (instructions (block ir))) l /\
          flags_together l = true /\
          stop_reason (current_location ir) should_continue l t
      | AssertionFailed _ => True
      end).
    { intros n. destruct (Reg_ltb n R8 && Reg_ltb m R8); [exact I|].
      destruct (Reg_eqb n PC || Reg_eqb m PC); [exact I|].
      straight_line. }
    destruct n_hi.
    + destruct (RegOfNumber (RegNumber n_lo + 8)) as [n|]; [|exact I].
      rewrite bind_ret. apply Hbody.
    + rewrite bind_ret. apply Hbody.
  - (* MOV <Rd>, <Rm> *)
    unfold thumb16_MOV_reg, RegAdd.
    assert (Hbody : forall d : Reg,
      match
        (let* result := GetRegister m in
         if Reg_eqb d PC then
           let* _ := ALUWritePC result in
           let* _ := SetTerm ReturnToDispatch in
           ret false
         else
           let* _ := SetRegister d result in
           ret true) ir
      with
      | Returns should_continue ir' =>
        exists l t,
          ir' = after ir l t /\
          refs_earlier (length (instructions (block ir))) l /\
          reads_words (length (instructions (block ir))) l /\
          flags_of_ops (length (instructions (block ir))) l /\
          flags_together l = true /\
          stop_reason (current_location ir) should_continue l t
      | AssertionFailed _ => True
      end).
    { intros d. destruct (Reg_eqb d PC).
      - appended (Some ReturnToDispatch).
        right. left. split; [reflexivity|]. eexists. reflexivity.
      - straight_line. }
    destruct d_hi.
    + destruct (RegOfNumber (RegNumber d_lo + 8)) as [d|]; [|exact I].
      rewrite bind_ret. apply Hbody.
    + rewrite bind_ret. apply Hbody.
  - (* UDF *)
    unfold thumb16_UDF, InterpretThisInstruction.
    rewrite bind_SetTerm. cbv beta delta [ret].
    exists [], (Some (Interpret (current_location ir))).
    split; [unfold after; rewrite append_insts_nil; reflexivity|].
    split; [exact I|]. split; [apply Forall_nil_2|].
    split; [apply Forall_nil_2|]. split; [reflexivity|].
    left. split; reflexivity.
  - (* SVC *)
    unfold thumb16_SVC. appended (@None Terminal).
    right. right. split; [reflexivity|]. eexists. reflexivity.
Qed.

Lemma after_instructions (ir : IREmitter) (l : list IR.Inst)
  (t : option Terminal) :
  instructions (block (after ir l t)) = instructions (block ir) ++ l.
Proof. destruct t; reflexivity. Qed.

Lemma after_location (ir : IREmitter) (l : list IR.Inst)
  (t : option Terminal) :
  location (block (after ir l t)) = location (block ir).
Proof. destruct t; reflexivity. Qed.

Lemma after_cycle_count (ir : IREmitter) (l : list IR.Inst)
  (t : option Terminal) :
  cycle_count (block (after ir l t)) = cycle_count (block ir).
Proof. destruct t; reflexivity. Qed.

Lemma after_current_location (ir : IREmitter) (l : list IR.Inst)
  (t : option Terminal) :
  current_location (after ir l t) = current_location ir.
Proof. destruct t; reflexivity. Qed.

Lemma after_terminal (ir : IREmitter) (l : list IR.Inst)
  (t : option Terminal) :
  terminal (block (after ir l t)) = default (terminal (block ir)) t.
Proof. destruct t; reflexivity. Qed.

Lemma defined_below_In (n : nat) (vs : list Value) (k : nat) :
  Forall (defined_below n) vs -> In (InstRef k) vs -> (k < n)%nat.
Proof.
  intros HF Hin. rewrite Forall_forall in HF.
  apply (HF (InstRef k)). apply list_elem_of_In. exact Hin.
Qed.

Lemma refs_earlier_well_formed (l : list IR.Inst) :
  forall l0, Optimization.well_formed l0 ->
    refs_earlier (length l0) l -> Optimization.well_formed (l0 ++ l).
Proof.
  induction l as [|d l IH]; intros l0 Hwf Hrefs.
  - rewrite app_nil_r. exact Hwf.
  - destruct Hrefs as [Hd Hl].
    change (l0 ++ d :: l) with (l0 ++ [d] ++ l). rewrite app_assoc.
    apply IH.
    + intros i inst j Hi Hin.
      destruct (decide (i < length l0)%nat) as [Hlt|Hge].
      * rewrite lookup_app_l in Hi by exact Hlt.
        exact (Hwf i inst j Hi Hin).
      * rewrite lookup_app_r in Hi by lia.
        destruct (i - length l0)%nat as [|i'] eqn:Hi0;
          [|discriminate Hi].
        injection Hi as <-.
        pose proof (defined_below_In _ _ _ Hd Hin). lia.
    + rewrite length_app. simpl.
      replace (length l0 + 1)%nat with (S (length l0)) by lia. exact Hl.
Qed.

Lemma reads_words_app (l0 l : list IR.Inst) :
  Optimization.word_reads l0 -> reads_words (length l0) l ->
  Optimization.word_reads (l0 ++ l).
Proof.
  intros Hty Hl i inst Hi Hread.
  destruct (decide (i < length l0)%nat) as [Hlt|Hge].
  - rewrite lookup_app_l in Hi by exact Hlt.
    destruct (Hty i inst Hi Hread) as (Hop & x & Hx & Hu).
    split; [exact Hop|]. exists x. split; [exact Hx|].
    destruct Hu as [H|(j & d & -> & Hj & Hd)]; [left; exact H|].
    right. exists j, d. split; [reflexivity|]. split; [|exact Hd].
    apply lookup_app_l_Some. exact Hj.
  - rewrite lookup_app_r in Hi by lia.
    unfold reads_words in Hl. rewrite Forall_lookup in Hl.
    destruct (Hl _ _ Hi Hread) as (Hop & x & Hx & Hu).
    split; [exact Hop|]. exists x. split; [exact Hx|].
    destruct Hu as [H|(k & d' & -> & Hk & Hd)]; [left; exact H|].
    right. exists (length l0 + k)%nat, d'. split; [reflexivity|].
    split; [|exact Hd].
    rewrite lookup_app_r by lia.
    replace (length l0 + k - length l0)%nat with k by lia. exact Hk.
Qed.

Lemma flags_of_ops_app (l0 l : list IR.Inst) :
  Optimization.flags_from_ops l0 -> flags_of_ops (length l0) l ->
  Optimization.flags_from_ops (l0 ++ l).
Proof.
  intros Hfl Hl i inst src Hi Hsrc.
  destruct (decide (i < length l0)%nat) as [Hlt|Hge].
  - rewrite lookup_app_l in Hi by exact Hlt.
    destruct (Hfl i inst src Hi Hsrc) as (j & d & Hargs & Hj & Hd).
    exists j, d. split; [exact Hargs|]. split; [|exact Hd].
    apply lookup_app_l_Some. exact Hj.
  - rewrite lookup_app_r in Hi by lia.
    unfold flags_of_ops in Hl. rewrite Forall_lookup in Hl.
    destruct (Hl _ _ Hi src Hsrc) as (k & d' & Hargs & Hk & Hd).
    exists (length l0 + k)%nat, d'. split; [exact Hargs|].
    split; [|exact Hd].
    rewrite lookup_app_r by lia.
    replace (length l0 + k - length l0)%nat with k by lia. exact Hk.
Qed.

Lemma word_reads_typed (l : list IR.Inst) :
  Optimization.word_reads l -> Optimization.typed_reads l.
Proof.
  intros Hw i inst Hi Hread.
  destruct (Hw i inst Hi Hread) as (_ & x & Hx & Hu).
  exists x. split; [exact Hx|].
  destruct Hu as [H|(j & d & -> & Hj & Hd)]; [left; exact H|].
  right. exists j, d. split; [reflexivity|]. split; [exact Hj|].
  rewrite Hd. repeat split; discriminate.
Qed.

(** An instruction method that returns has appended instructions to the
    block, each using the values of earlier instructions only, and has
    touched neither the block's location and cycle count nor the
    current location.  The terminal is as it was when the method asks to
    continue; a method that asks to stop has set [Interpret] of the
    current location and appended nothing, or has set
    [ReturnToDispatch] after an [ALUWritePC], or has appended one
    [CallSupervisor] and left the terminal alone. *)
Theorem instruction_methods_append (c : VisitorCall) (ir ir' : IREmitter)
  (should_continue : bool) :
  call c ir = Returns should_continue ir' ->
  exists l,
    instructions (block ir') = instructions (block ir) ++ l /\
    refs_earlier (length (instructions (block ir))) l /\
    location (block ir') = location (block ir) /\
    cycle_count (block ir') = cycle_count (block ir) /\
    current_location ir' = current_location ir /\
    if should_continue then terminal (block ir') = terminal (block ir)
    else
      (l = [] /\ terminal (block ir') = Interpret (current_location ir)) \/
      (terminal (block ir') = ReturnToDispatch /\
       exists v,
         last l = Some {| opcode := A32ALUWritePC; args := [v] |}) \/
      (terminal (block ir') = terminal (block ir) /\
       exists imm32,
         l = [{| opcode := A32CallSupervisor; args := [ImmU32 imm32] |}]).
Proof.
  intros Hcall. pose proof (call_after c ir) as H. rewrite Hcall in H.
  destruct H as (l & t & -> & Hrefs & _ & _ & _ & Hstop).
  exists l. rewrite after_instructions, after_location, after_cycle_count,
    after_current_location, after_terminal.
  repeat (split; [first [reflexivity|exact Hrefs]|]).
  unfold stop_reason in Hstop. destruct should_continue.
  - rewrite Hstop. reflexivity.
  - destruct Hstop as [[-> ->]|[[-> Hlast]|[-> Hsvc]]].
    + left. split; reflexivity.
    + right. left. split; [reflexivity|exact Hlast].
    + right. right. split; [reflexivity|exact Hsvc].
Qed.

Lemma instruction_methods_append_witness :
  call (Call_MOV_reg true R1 R7) fresh_emitter
  = Returns false
      (with_terminal
         (append_insts fresh_emitter
            [ {| opcode := A32GetRegister; args := [ImmRegRef R1] |};
              {| opcode := A32ALUWritePC; args := [InstRef 0] |} ])
         ReturnToDispatch) /\
  exists l,
    [ {| opcode := A32GetRegister; args := [ImmRegRef R1] |};
      {| opcode := A32ALUWritePC; args := [InstRef 0] |} ] = [] ++ l /\
    refs_earlier 0 l /\
    location (block fresh_emitter) = location (block fresh_emitter) /\
    cycle_count (block fresh_emitter) = cycle_count (block fresh_emitter) /\
    current_location fresh_emitter = current_location fresh_emitter /\
    ((l = [] /\ ReturnToDispatch = Interpret (current_location fresh_emitter))
     \/ (ReturnToDispatch = ReturnToDispatch /\
         exists v,
           last l = Some {| opcode := A32ALUWritePC; args := [v] |})
     \/ (ReturnToDispatch = TermInvalid /\
         exists imm32,
           l = [{| opcode := A32CallSupervisor;
                   args := [ImmU32 imm32] |}])).
Proof.
  split; [vm_compute; reflexivity|].
  apply (instruction_methods_append (Call_MOV_reg true R1 R7) fresh_emitter
           (with_terminal
              (append_insts fresh_emitter
                 [ {| opcode := A32GetRegister; args := [ImmRegRef R1] |};
                   {| opcode := A32ALUWritePC; args := [InstRef 0] |} ])
              ReturnToDispatch) false).
  vm_compute. reflexivity.
Defined.

(** The flags an instruction method sets.  It sets N and Z together,
    the C flag only together with them, and the V flag only together
    with C; and every flag it sets takes the value of an instruction of
    its own: [MostSignificantBit] for N, [IsZero] for Z,
    [GetCarryFromOp] for C and [GetOverflowFromOp] for V.  No method
    copies a flag it has read. *)
Theorem instruction_methods_flags (c : VisitorCall) (ir ir' : IREmitter)
  (should_continue : bool) :
  call c ir = Returns should_continue ir' ->
  exists l,
    instructions (block ir') = instructions (block ir) ++ l /\
    emits A32SetNFlag l = emits A32SetZFlag l /\
    (emits A32SetCFlag l = true -> emits A32SetNFlag l = true) /\
    (emits A32SetVFlag l = true -> emits A32SetCFlag l = true) /\
    flags_of_ops (length (instructions (block ir))) l.
Proof.
  intros Hcall. pose proof (call_after c ir) as H. rewrite Hcall in H.
  destruct H as (l & t & -> & _ & _ & Hflags & Htogether & _).
  exists l. rewrite after_instructions. split; [reflexivity|].
  unfold flags_together in Htogether.
  apply andb_true_iff in Htogether as [Htogether HV].
  apply andb_true_iff in Htogether as [HNZ HC].
  split; [apply eqb_prop, HNZ|].
  split; [|split; [|exact Hflags]].
  - intros HsetC. rewrite HsetC in HC. exact HC.
  - intros HsetV. rewrite HsetV in HV. exact HV.
Qed.

Lemma instruction_methods_flags_witness :
  call (Call_ADC_reg R1 R0) fresh_emitter
  = Returns true
      (append_insts fresh_emitter
         [ {| opcode := A32GetCFlag; args := [] |};
           {| opcode := A32GetRegister; args := [ImmRegRef R0] |};
           {| opcode := A32GetRegister; args := [ImmRegRef R1] |};
           {| opcode := IR.AddWithCarry;
              args := [InstRef 1; InstRef 2; InstRef 0] |};
           {| opcode := GetCarryFromOp; args := [InstRef 3] |};
           {| opcode := GetOverflowFromOp; args := [InstRef 3] |};
           {| opcode := A32SetRegister;
              args := [ImmRegRef R0; InstRef 3] |};
           {| opcode := IR.MostSignificantBit; args := [InstRef 3] |};
           {| opcode := A32SetNFlag; args := [InstRef 7] |};
           {| opcode := IR.IsZero; args := [InstRef 3] |};
           {| opcode := A32SetZFlag; args := [InstRef 9] |};
           {| opcode := A32SetCFlag; args := [InstRef 4] |};
           {| opcode := A32SetVFlag; args := [InstRef 5] |} ]) /\
  exists l,
    instructions
      (block
         (append_insts fresh_emitter
            [ {| opcode := A32GetCFlag; args := [] |};
              {| opcode := A32GetRegister; args := [ImmRegRef R0] |};
              {| opcode := A32GetRegister; args := [ImmRegRef R1] |};
              {| opcode := IR.AddWithCarry;
                 args := [InstRef 1; InstRef 2; InstRef 0] |};
              {| opcode := GetCarryFromOp; args := [InstRef 3] |};
              {| opcode := GetOverflowFromOp; args := [InstRef 3] |};
              {| opcode := A32SetRegister;
                 args := [ImmRegRef R0; InstRef 3] |};
              {| opcode := IR.MostSignificantBit; args := [InstRef 3] |};
              {| opcode := A32SetNFlag; args := [InstRef 7] |};
              {| opcode := IR.IsZero; args := [InstRef 3] |};
              {| opcode := A32SetZFlag; args := [InstRef 9] |};
              {| opcode := A32SetCFlag; args := [InstRef 4] |};
              {| opcode := A32SetVFlag; args := [InstRef 5] |} ]))
    = instructions (block fresh_emitter) ++ l /\
    emits A32SetNFlag l = emits A32SetZFlag l /\
    (emits A32SetCFlag l = true -> emits A32SetNFlag l = true) /\
    (emits A32SetVFlag l = true -> emits A32SetCFlag l = true) /\
    flags_of_ops (length (instructions (block fresh_emitter))) l.
Proof.
  split; [vm_compute; reflexivity|].
  apply (instruction_methods_flags (Call_ADC_reg R1 R0) fresh_emitter _
           true).
  vm_compute. reflexivity.
Defined.

Lemma Reg_eqb_eq (a b : Reg) : Reg_eqb a b = true -> a = b.
Proof. destruct a, b; intros H; try reflexivity; discriminate H. Qed.

Ltac returns := run_builder; intros Hfail; discriminate Hfail.

(** The assertions of the instruction methods.  A method fails only
    for the encodings the code calls unpredictable, [ADD <Rdn>, <Rm>]
    with both registers the PC and [CMP <Rn>, <Rm>] with both registers
    below R8 or one of them the PC, and when a high register is asked
    for past R15; every other call returns. *)
Theorem instruction_methods_assertions (c : VisitorCall) (ir : IREmitter)
  (msg : string) :
  call c ir = AssertionFailed msg ->
  (msg = "UNPREDICTABLE"%string /\
   ((exists hi lo,
       c = Call_ADD_reg_t2 hi PC lo /\ high_register hi lo = Some PC) \/
    (exists hi m lo n,
       c = Call_CMP_reg_t2 hi m lo /\ high_register hi lo = Some n /\
       (Reg_ltb n R8 && Reg_ltb m R8) || (Reg_eqb n PC || Reg_eqb m PC)
       = true))) \/
  (msg = "new_reg <= 15"%string /\
   exists hi m lo,
     (c = Call_ADD_reg_t2 hi m lo \/ c = Call_CMP_reg_t2 hi m lo \/
      c = Call_MOV_reg hi m lo) /\
     hi = true /\ high_register hi lo = None).
Proof.
  destruct c; cbv beta iota delta [call].
  1-26, 30-45, 47:
    cbv delta
      [ thumb16_LSL_imm thumb16_LSR_imm thumb16_ASR_imm thumb16_ADD_reg_t1
        thumb16_SUB_reg thumb16_ADD_imm_t1 thumb16_SUB_imm_t1
        thumb16_MOV_imm thumb16_CMP_imm thumb16_ADD_imm_t2
        thumb16_SUB_imm_t2 thumb16_AND_reg thumb16_EOR_reg
        thumb16_LSL_reg thumb16_LSR_reg thumb16_ASR_reg thumb16_ADC_reg
        thumb16_SBC_reg thumb16_ROR_reg thumb16_TST_reg thumb16_RSB_imm
        thumb16_CMP_reg_t1 thumb16_CMN_reg thumb16_ORR_reg
        thumb16_BIC_reg thumb16_MVN_reg thumb16_LDR_literal
        thumb16_STR_reg thumb16_STRH_reg thumb16_STRB_reg
        thumb16_LDR_imm_t1 thumb16_ADR thumb16_ADD_sp_t1
        thumb16_ADD_sp_t2 thumb16_SUB_sp thumb16_SXTH thumb16_SXTB
        thumb16_UXTH thumb16_UXTB thumb16_REV thumb16_REV16
        thumb16_REVSH thumb16_SVC ];
    returns.
  - (* ADD <Rdn>, <Rm> *)
    unfold thumb16_ADD_reg_t2, RegAdd.
    assert (Hbody : forall d_n : Reg,
      (if Reg_eqb d_n PC && Reg_eqb m PC then UnpredictableInstruction
       else
         let* rn := GetRegister d_n in
         let* rm := GetRegister m in
         let* result := AddWithCarry rn rm (Imm1 false) in
         if Reg_eqb d_n PC then
           let* _ := ALUWritePC (rco_result result) in
           let* _ := SetTerm ReturnToDispatch in
           ret false
         else
           let* _ := SetRegister d_n (rco_result result) in
           ret true) ir = AssertionFailed msg ->
      msg = "UNPREDICTABLE"%string /\ d_n = PC /\ m = PC).
    { intros d_n.
      destruct (Reg_eqb d_n PC && Reg_eqb m PC) eqn:Hpc.
      - intros Hfail. injection Hfail as <-.
        apply andb_true_iff in Hpc as [Hd Hm].
        split; [reflexivity|]. split; apply Reg_eqb_eq; assumption.
      - destruct (Reg_eqb d_n PC); returns. }
    unfold high_register. destruct d_n_hi.
    + destruct (RegOfNumber (RegNumber d_n_lo + 8)) as [d_n|] eqn:Hhi.
      * rewrite bind_ret. intros Hfail.
        destruct (Hbody d_n Hfail) as (-> & -> & ->).
        left. split; [reflexivity|]. left. exists true, d_n_lo.
        split; [reflexivity|exact Hhi].
      * intros Hfail. injection Hfail as <-. right.
        split; [reflexivity|]. exists true, m, d_n_lo.
        split; [left; reflexivity|]. split; [reflexivity|exact Hhi].
    + rewrite bind_ret. intros Hfail.
      destruct (Hbody d_n_lo Hfail) as (-> & -> & ->).
      left. split; [reflexivity|]. left. exists false, PC.
      split; reflexivity.
  - (* CMP <Rn>, <Rm> *)
    unfold thumb16_CMP_reg_t2, RegAdd.
    assert (Hbody : forall n : Reg,
      (if Reg_ltb n R8 && Reg_ltb m R8 then UnpredictableInstruction
       else if Reg_eqb n PC || Reg_eqb m PC then UnpredictableInstruction
       else
         let* rn := GetRegister n in
         let* rm := GetRegister m in
         let* result := SubWithCarry rn rm (Imm1 true) in
         let* msb := MostSignificantBit (rco_result result) in
         let* _ := SetNFlag msb in
         let* z := IsZero (rco_result result) in
         let* _ := SetZFlag z in
         let* _ := SetCFlag (rco_carry result) in
         let* _ := SetVFlag (rco_overflow result) in
         ret true) ir = AssertionFailed msg ->
      msg = "UNPREDICTABLE"%string /\
      (Reg_ltb n R8 && Reg_ltb m R8) || (Reg_eqb n PC || Reg_eqb m PC)
      = true).
    { intros n.
      destruct (Reg_ltb n R8 && Reg_ltb m R8).
      - intros Hfail. injection Hfail as <-. split; reflexivity.
      - destruct (Reg_eqb n PC || Reg_eqb m PC).
        + intros Hfail. injection Hfail as <-. split; reflexivity.
        + returns. }
    unfold high_register. destruct n_hi.
    + destruct (RegOfNumber (RegNumber n_lo + 8)) as [n|] eqn:Hhi.
      * rewrite bind_ret. intros Hfail.
        destruct (Hbody n Hfail) as (-> & Hcond).
        left. split; [reflexivity|]. right. exists true, m, n_lo, n.
        split; [reflexivity|]. split; [exact Hhi|exact Hcond].
      * intros Hfail. injection Hfail as <-. right.
        split; [reflexivity|]. exists true, m, n_lo.
        split; [right; left; reflexivity|].
        split; [reflexivity|exact Hhi].
    + rewrite bind_ret. intros Hfail.
      destruct (Hbody n_lo Hfail) as (-> & Hcond).
      left. split; [reflexivity|]. right. exists false, m, n_lo, n_lo.
      split; [reflexivity|]. split; [reflexivity|exact Hcond].
  - (* MOV <Rd>, <Rm> *)
    unfold thumb16_MOV_reg, RegAdd.
    assert (Hbody : forall d : Reg,
      (let* result := GetRegister m in
       if Reg_eqb d PC then
         let* _ := ALUWritePC result in
         let* _ := SetTerm ReturnToDispatch in
         ret false
       else
         let* _ := SetRegister d result in
         ret true) ir <> AssertionFailed msg).
    { intros d. destruct (Reg_eqb d PC); returns. }
    unfold high_register. destruct d_hi.
    + destruct (RegOfNumber (RegNumber d_lo + 8)) as [d|] eqn:Hhi.
      * rewrite bind_ret. intros Hfail. destruct (Hbody d Hfail).
      * intros Hfail. injection Hfail as <-. right.
        split; [reflexivity|]. exists true, m, d_lo.
        split; [right; right; reflexivity|].
        split; [reflexivity|exact Hhi].
    + rewrite bind_ret. intros Hfail. destruct (Hbody d_lo Hfail).
  - (* UDF *)
    unfold thumb16_UDF, InterpretThisInstruction.
    rewrite bind_SetTerm. intros Hfail. discriminate Hfail.
Qed.

Lemma instruction_methods_assertions_witness :
  call (Call_CMP_reg_t2 false R2 R3) fresh_emitter
  = AssertionFailed "UNPREDICTABLE" /\
  (("UNPREDICTABLE"%string = "UNPREDICTABLE"%string /\
     ((exists hi lo,
         Call_CMP_reg_t2 false R2 R3 = Call_ADD_reg_t2 hi PC lo /\
         high_register hi lo = Some PC) \/
      (exists hi m lo n,
         Call_CMP_reg_t2 false R2 R3 = Call_CMP_reg_t2 hi m lo /\
         high_register hi lo = Some n /\
         (Reg_ltb n R8 && Reg_ltb m R8) || (Reg_eqb n PC || Reg_eqb m PC)
         = true))) \/
    ("UNPREDICTABLE"%string = "new_reg <= 15"%string /\
     exists hi m lo,
       (Call_CMP_reg_t2 false R2 R3 = Call_ADD_reg_t2 hi m lo \/
        Call_CMP_reg_t2 false R2 R3 = Call_CMP_reg_t2 hi m lo \/
        Call_CMP_reg_t2 false R2 R3 = Call_MOV_reg hi m lo) /\
       hi = true /\ high_register hi lo = None)).
Proof.
  split; [reflexivity|].
  apply (instruction_methods_assertions (Call_CMP_reg_t2 false R2 R3)
           fresh_emitter "UNPREDICTABLE").
  reflexivity.
Defined.

End ThumbVisitors.

(* --------------------------------------------------------------------- *)
(** ** The blocks [TranslateThumb] returns *)
(* --------------------------------------------------------------------- *)

Section TranslatedBlocks.
Import Arm IR Translate.

Variable DecodeThumb16 : Z -> option (Z -> Visitor bool).
Variable memory_read_32 : Z -> Z.
Hypothesis decoder_calls : calls_visitor DecodeThumb16.

Lemma round_call (visitor : IREmitter) :
  exists c inst_size,
    TranslateThumb_round DecodeThumb16 memory_read_32 visitor
    = advance inst_size (call c visitor) /\
    (inst_size = Thumb32 -> c = Call_UDF).
Proof.
  unfold TranslateThumb_round.
  destruct (ReadThumbInstruction _ _) as [thumb_instruction [|]].
  - unfold dispatch_thumb16.
    destruct (DecodeThumb16 _) as [decoder|] eqn:Hhit.
    + destruct (decoder_calls _ _ Hhit) as [c Hc].
      exists c, Thumb16. rewrite Hc. split; [reflexivity|discriminate].
    + exists Call_UDF, Thumb16. split; [reflexivity|discriminate].
  - exists Call_UDF, Thumb32. split; reflexivity.
Qed.

Lemma last_app_cons {A} (l0 l : list A) (x : A) :
  last l = Some x -> last (l0 ++ l) = Some x.
Proof.
  intros Hl. destruct l as [|y l]; [discriminate Hl|].
  rewrite last_app. rewrite Hl. reflexivity.
Qed.

Lemma round_translating (descriptor : LocationDescriptor) (n : Z)
  (visitor visitor' : IREmitter) (should_continue : bool) :
  translating descriptor n visitor ->
  TFlag descriptor = true ->
  terminal (block visitor) = TermInvalid ->
  TranslateThumb_round DecodeThumb16 memory_read_32 visitor
  = Returns should_continue visitor' ->
  cycle_count (block visitor') = n + 1 /\
  if should_continue
  then translating descriptor (n + 1) visitor' /\
       terminal (block visitor') = TermInvalid
  else translated descriptor (block visitor').
Proof.
  intros (Hwf & Hty & Hfl & Hloc & Hcnt & HT & Hmode & Hpc) HTd Hterm Hround.
  destruct (round_call visitor) as (c & inst_size & Hcall & Hsize).
  rewrite Hcall in Hround. clear Hcall.
  pose proof (call_after c visitor) as Hafter.
  destruct (call c visitor) as [b ir'|msg] eqn:Hc; [|discriminate Hround].
  destruct Hafter as (l & t & -> & Hrefs & Hreads & Hflags & _ & Hstop).
  unfold advance in Hround. injection Hround as <- <-.
  unfold translating, translated.
  cbn [block current_location instructions location cycle_count terminal
       Arm.TFlag Arm.fpscr_mode Arm.arm_pc].
  rewrite after_instructions, after_location, after_cycle_count,
    after_current_location, after_terminal.
  split; [rewrite Hcnt; reflexivity|].
  assert (Hwf' : Optimization.well_formed (instructions (block visitor) ++ l))
    by (apply refs_earlier_well_formed; assumption).
  assert (Hty' : Optimization.word_reads (instructions (block visitor) ++ l))
    by (apply reads_words_app; assumption).
  assert (Hfl' : Optimization.flags_from_ops
                   (instructions (block visitor) ++ l))
    by (apply flags_of_ops_app; assumption).
  unfold stop_reason in Hstop. destruct b.
  - split; [|rewrite Hstop; exact Hterm].
    split; [exact Hwf'|]. split; [exact Hty'|]. split; [exact Hfl'|].
    split; [exact Hloc|].
    split; [rewrite Hcnt; reflexivity|]. split; [exact HT|].
    split; [exact Hmode|].
    destruct inst_size.
    + rewrite Z.mod_mod by lia.
      rewrite Z.add_mod, Hpc, <- Z.add_mod by lia. f_equal. lia.
    + rewrite (Hsize eq_refl) in Hc. discriminate Hc.
  - split; [exact Hwf'|]. split; [exact Hty'|]. split; [exact Hfl'|].
    split; [exact Hloc|].
    unfold block_end. cbn [terminal instructions cycle_count].
    destruct Hstop as [[-> ->]|[[-> [v Hlast]]|[-> [imm32 ->]]]].
    + right. left. exists (current_location visitor).
      split; [reflexivity|]. split; [rewrite HT; exact HTd|].
      split; [exact Hmode|]. rewrite Hpc, Hcnt. f_equal. lia.
    + left. split; [reflexivity|]. exists v.
      apply last_app_cons. exact Hlast.
    + right. right. split; [exact Hterm|]. exists imm32.
      apply last_app_cons. reflexivity.
Qed.

Lemma loop_translating (descriptor : LocationDescriptor) (fuel : nat) :
  TFlag descriptor = true ->
  forall (n : Z) (visitor visitor' : IREmitter),
    translating descriptor n visitor ->
    terminal (block visitor) = TermInvalid ->
    TranslateThumb_loop DecodeThumb16 memory_read_32 fuel visitor
    = Some (Returns tt visitor') ->
    n + 1 <= cycle_count (block visitor') <= n + Z.of_nat fuel /\
    translated descriptor (block visitor').
Proof.
  intros HTd. induction fuel as [|fuel IH]; intros n v v' Hinv Hterm Hloop.
  - discriminate Hloop.
  - cbn [TranslateThumb_loop] in Hloop.
    destruct (TranslateThumb_round _ _ v) as [b v1|msg] eqn:Hround;
      [|discriminate Hloop].
    destruct (round_translating _ _ _ _ _ Hinv HTd Hterm Hround)
      as [Hcnt Hnext].
    destruct b.
    + destruct Hnext as [Hinv1 Hterm1].
      destruct (IH _ _ _ Hinv1 Hterm1 Hloop) as [Hk Hdone].
      split; [lia|exact Hdone].
    + injection Hloop as <-. split; [lia|exact Hnext].
Qed.

(** The loop ends after exactly as many rounds as the cycle count
    grew by: bounded by fewer rounds it has not ended, bounded by that
    many or more it returns the same state. *)
Lemma loop_rounds (descriptor : LocationDescriptor) (fuel : nat) :
  TFlag descriptor = true ->
  forall (n : Z) (visitor visitor' : IREmitter),
    translating descriptor n visitor ->
    terminal (block visitor) = TermInvalid ->
    TranslateThumb_loop DecodeThumb16 memory_read_32 fuel visitor
    = Some (Returns tt visitor') ->
    forall fuel' : nat,
      TranslateThumb_loop DecodeThumb16 memory_read_32 fuel' visitor
      = if Z.of_nat fuel' <? cycle_count (block visitor') - n
        then None else Some (Returns tt visitor').
Proof.
  intros HTd. induction fuel as [|fuel IH]; intros n v v' Hinv Hterm Hloop.
  - discriminate Hloop.
  - pose proof (loop_translating descriptor (S fuel) HTd n v v' Hinv Hterm
                  Hloop) as [Hk _].
    cbn [TranslateThumb_loop] in Hloop.
    destruct (TranslateThumb_round _ _ v) as [b v1|msg] eqn:Hround;
      [|discriminate Hloop].
    destruct (round_translating _ _ _ _ _ Hinv HTd Hterm Hround)
      as [Hcnt Hnext].
    intros [|fuel'].
    + cbn [TranslateThumb_loop].
      destruct (Z.ltb_spec (Z.of_nat 0) (cycle_count (block v') - n));
        [reflexivity|lia].
    + cbn [TranslateThumb_loop]. rewrite Hround. destruct b.
      * destruct Hnext as [Hinv1 Hterm1].
        rewrite (IH _ _ _ Hinv1 Hterm1 Hloop fuel').
        destruct (Z.ltb_spec (Z.of_nat fuel')
                    (cycle_count (block v') - (n + 1))),
          (Z.ltb_spec (Z.of_nat (S fuel')) (cycle_count (block v') - n));
          try reflexivity; lia.
      * injection Hloop as <-.
        destruct (Z.ltb_spec (Z.of_nat (S fuel'))
                    (cycle_count (block v1) - n)); [lia|reflexivity].
Qed.

Lemma TranslateThumb_translated (fuel : nat)
  (descriptor : LocationDescriptor) (b : Block) (visitor : IREmitter) :
  TranslateThumb DecodeThumb16 memory_read_32 fuel descriptor
  = Some (Returns b visitor) ->
  TFlag descriptor = true /\
  1 <= cycle_count b <= Z.of_nat fuel /\
  translated descriptor b /\
  (forall fuel' : nat,
     TranslateThumb DecodeThumb16 memory_read_32 fuel' descriptor
     = if Z.of_nat fuel' <? cycle_count b then None
       else Some (Returns b visitor)).
Proof.
  unfold TranslateThumb. intros Hrun.
  destruct (TFlag descriptor) eqn:HTd; [|discriminate Hrun].
  split; [reflexivity|]. cbn [negb] in Hrun.
  destruct (TranslateThumb_loop _ _ _ _) as [[[] v|msg]|] eqn:Hloop;
    try discriminate Hrun.
  injection Hrun as <- <-.
  assert (Hstart : translating descriptor 0
            {| block := {| instructions := []; location := descriptor;
                           cycle_count := 0; terminal := TermInvalid |};
               current_location := descriptor |}).
  { split; [intros i inst j Hi; cbn [block instructions] in Hi;
            rewrite lookup_nil in Hi; discriminate Hi|].
    split; [intros i inst Hi; cbn [block instructions] in Hi;
            rewrite lookup_nil in Hi; discriminate Hi|].
    split; [intros i inst src Hi; cbn [block instructions] in Hi;
            rewrite lookup_nil in Hi; discriminate Hi|].
    cbn [block current_location location cycle_count].
    repeat split; try reflexivity. f_equal. lia. }
  destruct (loop_translating descriptor fuel HTd 0 _ _ Hstart eq_refl Hloop)
    as [Hk Hdone].
  split; [exact Hk|]. split; [exact Hdone|].
  intros fuel'.
  rewrite (loop_rounds descriptor fuel HTd 0 _ _ Hstart eq_refl Hloop fuel').
  rewrite Z.sub_0_r. destruct (Z.of_nat fuel' <? _); reflexivity.
Qed.

(** A block [TranslateThumb] returns was translated in Thumb mode from
    its location [descriptor]; its cycle count is the number of rounds
    the loop ran, at least one: bounded by fewer rounds the loop has
    not ended, and bounded by that many or more it returns this block;
    every value an instruction uses is the value of an earlier
    instruction; and the block ends as [block_end] says: after a write
    to the PC with [ReturnToDispatch], after a supervisor call with no
    terminal set, or with [Interpret] of the location of the last
    instruction, [2 * (cycle_count - 1)] bytes after the start. *)
Theorem TranslateThumb_block (fuel : nat) (descriptor : LocationDescriptor)
  (b : Block) (visitor : IREmitter) :
  TranslateThumb DecodeThumb16 memory_read_32 fuel descriptor
  = Some (Returns b visitor) ->
  TFlag descriptor = true /\
  location b = descriptor /\
  1 <= cycle_count b <= Z.of_nat fuel /\
  (forall fuel' : nat,
     TranslateThumb DecodeThumb16 memory_read_32 fuel' descriptor
     = if Z.of_nat fuel' <? cycle_count b then None
       else Some (Returns b visitor)) /\
  Optimization.well_formed (instructions b) /\
  block_end descriptor b.
Proof.
  intros Hrun.
  destruct (TranslateThumb_translated _ _ _ _ Hrun)
    as (HTd & Hk & (Hwf & _ & _ & Hloc & Hend) & Hrounds).
  split; [exact HTd|]. split; [exact Hloc|].
  split; [exact Hk|]. split; [exact Hrounds|]. split; assumption.
Qed.

(** On a block [TranslateThumb] returns, the pass
    [A32ConstantMemoryReads] runs to its end, with no failed assertion,
    and a second run leaves its result as it is. *)
Theorem A32ConstantMemoryReads_after_TranslateThumb
  (cb : Optimization.UserCallbacks) (fuel : nat)
  (descriptor : LocationDescriptor) (b : Block) (visitor : IREmitter) :
  TranslateThumb DecodeThumb16 memory_read_32 fuel descriptor
  = Some (Returns b visitor) ->
  exists b',
    Optimization.A32ConstantMemoryReads cb b = Some b' /\
    Optimization.A32ConstantMemoryReads cb b' = Some b'.
Proof.
  intros Hrun.
  destruct (TranslateThumb_translated _ _ _ _ Hrun)
    as (_ & _ & (Hwf & Hty & _) & _).
  destruct (typed_reads_run cb _ (word_reads_typed _ Hty)) as [l' Hl'].
  exists (set_instructions b l').
  unfold Optimization.A32ConstantMemoryReads. rewrite Hl'.
  split; [reflexivity|]. cbn [instructions set_instructions].
  rewrite (run_twice cb _ _ Hwf Hl'). reflexivity.
Qed.

(** What the pass does to a block [TranslateThumb] returns: it
    retires the 32-bit reads whose address is an immediate naming
    read-only memory, the loads of literals; every other instruction,
    each flag set among them, keeps its place and its opcode. *)
Theorem A32ConstantMemoryReads_on_translated_block
  (cb : Optimization.UserCallbacks) (fuel : nat)
  (descriptor : LocationDescriptor) (b b' : Block) (visitor : IREmitter) :
  TranslateThumb DecodeThumb16 memory_read_32 fuel descriptor
  = Some (Returns b visitor) ->
  Optimization.A32ConstantMemoryReads cb b = Some b' ->
  forall i inst, instructions b !! i = Some inst ->
    (exists vaddr,
       inst = {| opcode := A32ReadMemory32; args := [ImmU32 vaddr] |} /\
       Optimization.IsReadOnlyMemory cb vaddr = true /\
       instructions b' !! i = Some Invalidated)
    \/ (exists inst',
          instructions b' !! i = Some inst' /\ opcode inst' = opcode inst).
Proof.
  intros Hrun Hpass i inst Hi.
  destruct (TranslateThumb_translated _ _ _ _ Hrun)
    as (_ & _ & (Hwf & Hwords & Hflags & _) & _).
  destruct (A32ConstantMemoryReads_Some cb b b' Hpass) as (l' & Hl' & ->).
  cbn [instructions set_instructions].
  destruct (visit_upto_state cb _ _ _ (Nat.le_refl _) Hl') as [_ Hst].
  destruct (Hst i inst Hi) as (inst' & Hi' & Hs).
  destruct Hs as [(_ & -> & [(v & Hf & _)|Hsg])|(Hop & _)].
  - left. inversion Hf as [? d ys ? Hd Hys Hfy]; subst.
    rewrite Hi in Hd. injection Hd as <-.
    destruct (folds_to_read cb _ _ _ _ Hf Hi) as [Hread _].
    destruct (Hwords i inst Hi Hread) as (Hop & x & Hx & Hu).
    rewrite Hx in Hys.
    inversion Hys as [|x' y xs' ys' Hxy Hnil]; subst.
    inversion Hnil; subst.
    destruct Hu as [[vaddr ->]|(j & dj & -> & Hj & Hdj)].
    + rewrite (use_of_immediate _ (ImmU32 vaddr) y eq_refl Hxy) in Hfy.
      exists vaddr. split; [destruct inst; simpl in *; congruence|].
      split; [|exact Hi'].
      unfold Optimization.foldable in Hfy. simpl in Hfy.
      destruct (Optimization.IsReadOnlyMemory cb vaddr);
        [reflexivity|discriminate Hfy].
    + exfalso. destruct Hxy as [->|(k & Hk & Hfk)].
      * discriminate Hfy.
      * injection Hk as <-.
        destruct (folds_to_read cb _ _ _ _ Hfk Hj) as [Hrj _].
        rewrite Hdj in Hrj. discriminate Hrj.
  - exfalso. destruct Hsg as (Hset & j & dj & Harg & Hj & Hdj).
    destruct (Hflags i inst GetCarryFromOp Hi) as (j' & dj' & Hargs & Hj' & Hdj').
    { rewrite Hset. reflexivity. }
    rewrite Hargs in Harg. injection Harg as <-.
    rewrite Hj in Hj'. injection Hj' as <-. congruence.
  - right. exists inst'. split; assumption.
Qed.

End TranslatedBlocks.

Section TranslatedBlocksExamples.
Import Arm IR Translate.

Lemma decode_LDR_SVC_calls : calls_visitor decode_LDR_SVC.
Proof.
  intros inst decoder. unfold decode_LDR_SVC.
  destruct (Z.land inst 0xFF00 =? 0x4800).
  - intros H. injection H as <-.
    exists (Call_LDR_literal R0 (Z.land inst 0xFF)). reflexivity.
  - destruct (Z.land inst 0xFF00 =? 0xDF00); [|discriminate].
    intros H. injection H as <-.
    exists (Call_SVC (Z.land inst 0xFF)). reflexivity.
Qed.

Lemma TranslateThumb_block_witness :
  calls_visitor decode_LDR_SVC /\
  TranslateThumb decode_LDR_SVC memory_LDR_SVC 5 descriptor_1000
  = Some (Returns LDR_SVC_block LDR_SVC_visitor) /\
  TFlag descriptor_1000 = true /\
  location LDR_SVC_block = descriptor_1000 /\
  1 <= cycle_count LDR_SVC_block <= Z.of_nat 5 /\
  (forall fuel' : nat,
     TranslateThumb decode_LDR_SVC memory_LDR_SVC fuel' descriptor_1000
     = if Z.of_nat fuel' <? cycle_count LDR_SVC_block then None
       else Some (Returns LDR_SVC_block LDR_SVC_visitor)) /\
  Optimization.well_formed (instructions LDR_SVC_block) /\
  block_end descriptor_1000 LDR_SVC_block.
Proof.
  split; [exact decode_LDR_SVC_calls|].
  split; [vm_compute; reflexivity|].
  apply (TranslateThumb_block decode_LDR_SVC memory_LDR_SVC
           decode_LDR_SVC_calls 5 descriptor_1000 LDR_SVC_block
           LDR_SVC_visitor).
  vm_compute. reflexivity.
Defined.

Lemma A32ConstantMemoryReads_after_TranslateThumb_witness :
  calls_visitor decode_LDR_SVC /\
  TranslateThumb decode_LDR_SVC memory_LDR_SVC 5 descriptor_1000
  = Some (Returns LDR_SVC_block LDR_SVC_visitor) /\
  exists b',
    Optimization.A32ConstantMemoryReads Optimization.rom_1008 LDR_SVC_block
    = Some b' /\
    Optimization.A32ConstantMemoryReads Optimization.rom_1008 b' = Some b'.
Proof.
  split; [exact decode_LDR_SVC_calls|].
  split; [vm_compute; reflexivity|].
  apply (A32ConstantMemoryReads_after_TranslateThumb decode_LDR_SVC
           memory_LDR_SVC decode_LDR_SVC_calls Optimization.rom_1008 5
           descriptor_1000 LDR_SVC_block LDR_SVC_visitor).
  vm_compute. reflexivity.
Defined.

Lemma A32ConstantMemoryReads_on_translated_block_witness :
  calls_visitor decode_LDR_SVC /\
  TranslateThumb decode_LDR_SVC memory_LDR_SVC 5 descriptor_1000
  = Some (Returns LDR_SVC_block LDR_SVC_visitor) /\
  Optimization.A32ConstantMemoryReads Optimization.rom_1008 LDR_SVC_block
  = Some (set_instructions LDR_SVC_block
            [ Invalidated;
              {| opcode := A32SetRegister;
                 args := [ImmRegRef R0; ImmU32 0xDEADBEEF] |};
              {| opcode := A32CallSupervisor; args := [ImmU32 0] |} ]) /\
  forall i inst, instructions LDR_SVC_block !! i = Some inst ->
    (exists vaddr,
       inst = {| opcode := A32ReadMemory32; args := [ImmU32 vaddr] |} /\
       Optimization.IsReadOnlyMemory Optimization.rom_1008 vaddr = true /\
       [ Invalidated;
         {| opcode := A32SetRegister;
            args := [ImmRegRef R0; ImmU32 0xDEADBEEF] |};
         {| opcode := A32CallSupervisor; args := [ImmU32 0] |} ] !! i
       = Some Invalidated)
    \/ (exists inst',
          [ Invalidated;
            {| opcode := A32SetRegister;
               args := [ImmRegRef R0; ImmU32 0xDEADBEEF] |};
            {| opcode := A32CallSupervisor; args := [ImmU32 0] |} ] !! i
          = Some inst' /\ opcode inst' = opcode inst).
Proof.
  split; [exact decode_LDR_SVC_calls|].
  split; [vm_compute; reflexivity|].
  split; [vm_compute; reflexivity|].
  apply (A32ConstantMemoryReads_on_translated_block decode_LDR_SVC
           memory_LDR_SVC decode_LDR_SVC_calls Optimization.rom_1008 5
           descriptor_1000 LDR_SVC_block
           (set_instructions LDR_SVC_block
              [ Invalidated;
                {| opcode := A32SetRegister;
                   args := [ImmRegRef R0; ImmU32 0xDEADBEEF] |};
                {| opcode := A32CallSupervisor; args := [ImmU32 0] |} ])
           LDR_SVC_visitor).
  - vm_compute. reflexivity.
  - vm_compute. reflexivity.
Defined.

End TranslatedBlocksExamples.

(* --------------------------------------------------------------------- *)
(** ** Instruction fetch *)
(* --------------------------------------------------------------------- *)

Section InstructionFetch.
Import Arm IR Translate.

Lemma halfword_at_range (memory_read_32 : Z -> Z) (arm_pc : Z) :
  0 <= halfword_at memory_read_32 arm_pc < 2 ^ 16.
Proof.
  unfold halfword_at. change 0xFFFF with (Z.ones 16).
  rewrite Z.land_ones by lia. apply Z.mod_pos_bound. lia.
Qed.

Lemma lor_halfwords (hi lo : Z) :
  0 <= hi < 2 ^ 16 -> 0 <= lo < 2 ^ 16 ->
  Z.lor (Z.shiftl hi 16) lo mod 2 ^ 32 = hi * 2 ^ 16 + lo.
Proof.
  intros Hhi Hlo.
  assert (Hdisjoint : Z.land (Z.shiftl hi 16) lo = 0).
  { apply Z.bits_inj'. intros k Hk.
    rewrite Z.land_spec, Z.bits_0.
    destruct (Z.ltb_spec k 16) as [Hlt|Hge].
    - rewrite Z.shiftl_spec_low by lia. reflexivity.
    - replace (Z.testbit lo k) with false; [apply andb_false_r|].
      symmetry. destruct (Z.eq_dec lo 0) as [->|Hne];
        [apply Z.bits_0|].
      apply Z.bits_above_log2; [lia|].
      apply Z.log2_lt_pow2; [lia|].
      apply Z.lt_le_trans with (2 ^ 16); [lia|].
      apply Z.pow_le_mono_r; lia. }
  rewrite <- Z.lxor_lor by exact Hdisjoint.
  rewrite <- Z.add_nocarry_lxor by exact Hdisjoint.
  rewrite Z.shiftl_mul_pow2 by lia.
  apply Z.mod_small. lia.
Qed.

(** The fetch in terms of the halfwords at [arm_pc] and at
    [arm_pc + 2]: a first halfword whose high five bits are at most
    [0b11101] is a 16-bit instruction and is returned as it is; every
    other first halfword is the high half of a 32-bit instruction, the
    halfword that follows being the low half. *)
Theorem ReadThumbInstruction_halfwords (memory_read_32 : Z -> Z)
  (arm_pc : Z) :
  let first_part := halfword_at memory_read_32 arm_pc in
  let second_part := halfword_at memory_read_32 ((arm_pc + 2) mod 2 ^ 32) in
  ReadThumbInstruction arm_pc memory_read_32
  = if Z.shiftr first_part 11 <=? 29
    then (first_part, Thumb16)
    else (first_part * 2 ^ 16 + second_part, Thumb32).
Proof.
  intros first_part second_part. subst first_part second_part.
  pose proof (ReadThumbInstruction_size memory_read_32 arm_pc) as Hsize.
  destruct (Z.shiftr (halfword_at memory_read_32 arm_pc) 11 <=? 29) eqn:Hle.
  - apply ReadThumbInstruction_thumb16. apply Z.leb_le. exact Hle.
  - unfold ReadThumbInstruction in Hsize |- *.
    fold (halfword_at memory_read_32 arm_pc) in Hsize |- *.
    fold (halfword_at memory_read_32 ((arm_pc + 2) mod 2 ^ 32)) in Hsize |- *.
    destruct (Z.land (halfword_at memory_read_32 arm_pc) 63488 <=? 59392);
      [discriminate Hsize|].
    f_equal. apply lor_halfwords; apply halfword_at_range.
Qed.

End InstructionFetch.

(* --------------------------------------------------------------------- *)
(** ** PC-relative addresses *)
(* --------------------------------------------------------------------- *)

Section LiteralAddress.
Import Arm IR Translate.

Lemma align4 (x : Z) :
  0 <= x < 2 ^ 32 -> Z.land x 0xFFFFFFFC = 4 * (x / 4).
Proof.
  intros Hx.
  replace (4 * (x / 4)) with (Z.shiftl (Z.shiftr x 2) 2)
    by (rewrite Z.shiftl_mul_pow2, Z.shiftr_div_pow2 by lia;
        change (2 ^ 2) with 4; lia).
  change 0xFFFFFFFC with (Z.shiftl (Z.ones 30) 2).
  apply Z.bits_inj'. intros k Hk. rewrite Z.land_spec.
  destruct (Z.ltb_spec k 2) as [Hlt|Hge].
  - rewrite !Z.shiftl_spec_low by lia. apply andb_false_r.
  - rewrite !Z.shiftl_spec by lia. rewrite Z.shiftr_spec by lia.
    replace (k - 2 + 2) with k by lia.
    destruct (Z.ltb_spec (k - 2) 30) as [Hlow|Hhigh].
    + rewrite Z.ones_spec_low by lia. apply andb_true_r.
    + rewrite Z.ones_spec_high by lia. rewrite andb_false_r.
      destruct (Z.eq_dec x 0) as [->|Hne]; [symmetry; apply Z.bits_0|].
      symmetry. apply Z.bits_above_log2; [lia|].
      apply Z.log2_lt_pow2; [lia|].
      apply Z.lt_le_trans with (2 ^ 32); [lia|].
      apply Z.pow_le_mono_r; lia.
Qed.

(** [LDR <Rt>, <label>] and [ADR <Rd>, <label>] use the same address:
    the PC of the instruction plus four, rounded down to a multiple of
    four, plus four times [imm8], wrapping at [2^32].  The address is
    word-aligned, and it is an immediate of the instructions appended:
    the read of [LDR] has no other operand. *)
Theorem literal_address (r : Reg) (imm8 : Z) (ir : IREmitter) :
  let pc := arm_pc (current_location ir) in
  let address := (4 * ((pc + 4) mod 2 ^ 32 / 4) + 4 * imm8) mod 2 ^ 32 in
  let n := length (instructions (block ir)) in
  address mod 4 = 0 /\
  thumb16_LDR_literal r imm8 ir
  = Returns true
      (append_insts ir
         [ {| opcode := A32ReadMemory32; args := [ImmU32 address] |};
           {| opcode := A32SetRegister;
              args := [ImmRegRef r; InstRef n] |} ]) /\
  thumb16_ADR r imm8 ir
  = Returns true
      (append_insts ir
         [ {| opcode := A32SetRegister;
              args := [ImmRegRef r; ImmU32 address] |} ]).
Proof.
  intros pc address n.
  assert (Haligned : Z.land ((pc + 4) mod 2 ^ 32) 0xFFFFFFFC
                     = 4 * ((pc + 4) mod 2 ^ 32 / 4)).
  { apply align4. apply Z.mod_pos_bound. lia. }
  assert (Haddress :
            (Z.land ((pc + 4) mod 2 ^ 32) 0xFFFFFFFC
             + Z.shiftl imm8 2 mod 2 ^ 32) mod 2 ^ 32 = address).
  { rewrite Haligned, Z.shiftl_mul_pow2 by lia. unfold address.
    rewrite Z.add_mod_idemp_r by lia. f_equal. lia. }
  split; [|split].
  - unfold address.
    rewrite Z.mod_mod_divide by (exists (2 ^ 30); reflexivity).
    replace (4 * ((pc + 4) mod 2 ^ 32 / 4) + 4 * imm8)
      with (((pc + 4) mod 2 ^ 32 / 4 + imm8) * 4) by lia.
    apply Z.mod_mul. lia.
  - unfold thumb16_LDR_literal, ReadMemory32, SetRegister, Imm32.
    cbv zeta. rewrite bind_AlignPC4. fold pc. rewrite Haddress.
    rewrite bind_Inst, bind_Inst, append_insts_app. reflexivity.
  - unfold thumb16_ADR, SetRegister, Imm32.
    cbv zeta. rewrite bind_AlignPC4. fold pc. rewrite Haddress.
    rewrite bind_Inst. reflexivity.
Qed.

End LiteralAddress.

(* --------------------------------------------------------------------- *)
(** ** Vector floating-point emission *)
(* --------------------------------------------------------------------- *)

Section VectorFloatingPoint.
Import FP X64 BackendX64.

(** *** Lanes *)

Lemma decode_nan (fsize : FSize) (x : Z) :
  decode fsize x = S754_nan <-> IsNaN fsize x = true.
Proof.
  unfold decode. destruct (IsNaN fsize x); [tauto|].
  split; [|discriminate].
  destruct (IsInf fsize x); [discriminate|].
  destruct (FP.IsZero fsize x); [discriminate|].
  destruct (_ =? 0); discriminate.
Qed.

Lemma SFcompare_None (x y : spec_float) :
  SFcompare x y = None <-> x = S754_nan \/ y = S754_nan.
Proof.
  destruct x as [sx|sx| |sx mx ex], y as [sy|sy| |sy my ey]; simpl;
    split; intros H; try discriminate H; try tauto;
    destruct H as [H|H]; discriminate H.
Qed.

Lemma UNORD_compare (fsize : FSize) (x y : Z) :
  UNORD (compare fsize x y) = IsNaN fsize x || IsNaN fsize y.
Proof.
  unfold UNORD, ORD, compare.
  destruct (SFcompare _ _) as [c|] eqn:Hc.
  - destruct (IsNaN fsize x) eqn:Hx.
    + apply decode_nan in Hx. rewrite Hx in Hc. discriminate Hc.
    + destruct (IsNaN fsize y) eqn:Hy; [|reflexivity].
      apply decode_nan in Hy. rewrite Hy in Hc.
      destruct (decode fsize x); discriminate Hc.
  - apply SFcompare_None in Hc. rewrite !decode_nan in Hc.
    simpl. destruct Hc as [-> | ->]; [reflexivity|].
    rewrite orb_true_r. reflexivity.
Qed.

Lemma ORD_compare_self (fsize : FSize) (r : Z) :
  ORD (compare fsize r r) = negb (IsNaN fsize r).
Proof.
  pose proof (UNORD_compare fsize r r) as H. unfold UNORD in H.
  rewrite orb_diag in H. rewrite <- H, negb_involutive. reflexivity.
Qed.

Lemma valid_lane_range (fsize : FSize) (x : Z) :
  valid_lane fsize x = true <-> 0 <= x < 2 ^ bitsize fsize.
Proof.
  unfold valid_lane. rewrite andb_true_iff, Z.leb_le, Z.ltb_lt. tauto.
Qed.

Lemma bitsize_pos (fsize : FSize) : 0 < bitsize fsize.
Proof. destruct fsize; reflexivity. Qed.

Lemma land_all_ones (fsize : FSize) (x : Z) :
  valid_lane fsize x = true -> Z.land x (all_ones fsize) = x.
Proof.
  intros Hx. apply valid_lane_range in Hx. unfold all_ones.
  rewrite Z.land_ones by (pose proof (bitsize_pos fsize); lia).
  apply Z.mod_small. exact Hx.
Qed.

Lemma land_lnot_all_ones (fsize : FSize) (x : Z) :
  valid_lane fsize x = true -> Z.land (Z.lnot (all_ones fsize)) x = 0.
Proof.
  intros Hx. rewrite <- (land_all_ones fsize x Hx) at 1.
  rewrite (Z.land_comm x), Z.land_assoc, (Z.land_comm (Z.lnot _)).
  rewrite Z.land_lnot_diag. apply Z.land_0_l.
Qed.

Lemma valid_mod (fsize : FSize) (x : Z) :
  valid_lane fsize (Z.land x (all_ones fsize)) = true.
Proof.
  apply valid_lane_range. unfold all_ones.
  rewrite Z.land_ones by (pose proof (bitsize_pos fsize); lia).
  apply Z.mod_pos_bound. apply Z.pow_pos_nonneg; [lia|].
  pose proof (bitsize_pos fsize). lia.
Qed.

Lemma valid_land (fsize : FSize) (x y : Z) :
  valid_lane fsize x = true -> valid_lane fsize (Z.land x y) = true.
Proof.
  intros Hx. rewrite <- (land_all_ones fsize x Hx).
  rewrite <- Z.land_assoc, (Z.land_comm (all_ones fsize)), Z.land_assoc.
  apply valid_mod.
Qed.

Lemma valid_lor (fsize : FSize) (x y : Z) :
  valid_lane fsize x = true -> valid_lane fsize y = true ->
  valid_lane fsize (Z.lor x y) = true.
Proof.
  intros Hx Hy.
  rewrite <- (land_all_ones fsize x Hx), <- (land_all_ones fsize y Hy).
  rewrite <- Z.land_lor_distr_l. apply valid_mod.
Qed.

Lemma IsNaN_zero (fsize : FSize) : IsNaN fsize 0 = false.
Proof. destruct fsize; reflexivity. Qed.

Lemma IsNaN_all_ones (fsize : FSize) : IsNaN fsize (all_ones fsize) = true.
Proof. destruct fsize; reflexivity. Qed.

Lemma sign_bit_all_ones (fsize : FSize) :
  sign_bit fsize (all_ones fsize) = true.
Proof. destruct fsize; reflexivity. Qed.

Lemma sign_bit_zero (fsize : FSize) : sign_bit fsize 0 = false.
Proof. destruct fsize; reflexivity. Qed.

Lemma valid_DefaultNaN (fsize : FSize) :
  valid_lane fsize (DefaultNaN fsize) = true.
Proof. destruct fsize; reflexivity. Qed.

Lemma pcmpeqw_lane_diag (fsize : FSize) (x : Z) :
  pcmpeqw_lane fsize x x = all_ones fsize.
Proof.
  unfold pcmpeqw_lane. destruct fsize; cbn [bitsize].
  - change (Z.to_nat (32 / 16)) with 2%nat. cbn [seq fold_right].
    rewrite !Z.eqb_refl. reflexivity.
  - change (Z.to_nat (64 / 16)) with 4%nat. cbn [seq fold_right].
    rewrite !Z.eqb_refl. reflexivity.
Qed.

Lemma DefaultNaN_MConst_lanes (fsize : FSize) :
  DefaultNaN_MConst fsize = replicate (lanes fsize) (DefaultNaN fsize).
Proof. destruct fsize; reflexivity. Qed.

(** *** Registers *)

Lemma valid_vec_length (fsize : FSize) (v : Vec) :
  valid_vec fsize v = true -> length v = lanes fsize.
Proof.
  unfold valid_vec. intros H. apply andb_true_iff in H as [H _].
  apply Nat.eqb_eq. exact H.
Qed.

Lemma valid_vec_lookup (fsize : FSize) (v : Vec) (i : nat) (x : Z) :
  valid_vec fsize v = true -> v !! i = Some x -> valid_lane fsize x = true.
Proof.
  unfold valid_vec. intros H Hi. apply andb_true_iff in H as [_ H].
  rewrite forallb_forall in H. apply H, list_elem_of_In.
  eapply list_elem_of_lookup_2, Hi.
Qed.

Lemma valid_vec_lane (fsize : FSize) (v : Vec) (i : nat) :
  valid_vec fsize v = true -> (i < lanes fsize)%nat ->
  exists x, v !! i = Some x /\ valid_lane fsize x = true.
Proof.
  intros Hv Hi.
  destruct (lookup_lt_is_Some_2 v i) as [x Hx].
  { rewrite (valid_vec_length fsize v Hv). exact Hi. }
  exists x. split; [exact Hx|]. exact (valid_vec_lookup fsize v i x Hv Hx).
Qed.

(** *** Default-NaN mode *)

Lemma default_nan_fixup_lane (fsize : FSize) (r t : Z) :
  valid_lane fsize r = true ->
  Z.lor (Z.land r (cmp_lane fsize ORD r r))
        (Z.land (Z.lxor (cmp_lane fsize ORD r r) (pcmpeqw_lane fsize t t))
                (DefaultNaN fsize))
  = default_nan_lane fsize r.
Proof.
  intros Hr. unfold cmp_lane, default_nan_lane.
  rewrite ORD_compare_self, pcmpeqw_lane_diag.
  destruct (IsNaN fsize r); simpl.
  - rewrite Z.land_0_r, Z.lxor_0_l, Z.lor_0_l, Z.land_comm.
    apply land_all_ones, valid_DefaultNaN.
  - rewrite Z.lxor_nilpotent, Z.land_0_l, Z.lor_0_r.
    apply land_all_ones, Hr.
Qed.

Lemma default_nan_fixup (fsize : FSize) (X T : Vec) :
  valid_vec fsize X = true -> valid_vec fsize T = true ->
  orps (andps X (cmpordp fsize (movaps X) (movaps X)))
       (andps (xorps (cmpordp fsize (movaps X) (movaps X))
                     (pcmpeqw fsize T T))
              (DefaultNaN_MConst fsize))
  = default_nan_lane fsize <$> X.
Proof.
  intros HX HT. apply list_eq. intros i.
  unfold orps, andps, xorps, cmpordp, cmpp, pcmpeqw, movaps.
  rewrite DefaultNaN_MConst_lanes, list_lookup_fmap.
  rewrite !lookup_zip_with.
  destruct (X !! i) as [r|] eqn:Hr; simpl; [|reflexivity].
  assert (Hi : (i < lanes fsize)%nat).
  { rewrite <- (valid_vec_length fsize X HX). eapply lookup_lt_Some, Hr. }
  destruct (valid_vec_lane fsize T i HT Hi) as (t & Ht & _).
  rewrite Ht. simpl. rewrite lookup_replicate_2 by exact Hi. simpl.
  f_equal. apply default_nan_fixup_lane.
  exact (valid_vec_lookup fsize X i r HX Hr).
Qed.


Lemma three_op_default_nan (fsize : FSize) (code : BlockOfCode)
  (ctx : EmitContext) (fn : Vec -> Vec -> Vec)
  (nan_handler : list Vec -> list Vec) (a b : Vec) :
  FPSCR_DN ctx = true ->
  valid_vec fsize (fn a b) = true ->
  valid_vec fsize (ScratchXmm (reg_alloc ctx) 1) = true ->
  EmitThreeOpVectorOperation fsize code ctx fn nan_handler a b
  = default_nan_lane fsize <$> fn a b.
Proof.
  intros HDN HX HT. unfold EmitThreeOpVectorOperation.
  rewrite HDN, orb_true_r. cbv zeta.
  apply default_nan_fixup; assumption.
Qed.

Lemma four_op_default_nan (fsize : FSize) (code : BlockOfCode)
  (ctx : EmitContext) (fn : Vec -> Vec -> Vec -> Vec)
  (nan_handler : list Vec -> list Vec) (a b c : Vec) :
  FPSCR_DN ctx = true ->
  valid_vec fsize (fn a b c) = true ->
  valid_vec fsize (ScratchXmm (reg_alloc ctx) 1) = true ->
  EmitFourOpVectorOperation fsize code ctx fn nan_handler a b c
  = default_nan_lane fsize <$> fn a b c.
Proof.
  intros HDN HX HT. unfold EmitFourOpVectorOperation.
  rewrite HDN, orb_true_r. cbv zeta.
  apply default_nan_fixup; assumption.
Qed.

(** A lane-wise instruction with a broadcast constant. *)
Lemma zip_with_replicate_lanes (fsize : FSize) (f : Z -> Z -> Z) (a : Vec)
  (m : Z) :
  valid_vec fsize a = true ->
  zip_with f a (replicate (lanes fsize) m) = (fun x => f x m) <$> a.
Proof.
  intros Ha. apply list_eq. intros i.
  rewrite lookup_zip_with, list_lookup_fmap.
  destruct (a !! i) as [x|] eqn:Hx; [|reflexivity]. simpl.
  rewrite lookup_replicate_2; [reflexivity|].
  rewrite <- (valid_vec_length fsize a Ha). eapply lookup_lt_Some, Hx.
Qed.

Lemma sign_mask_lanes (fsize : FSize) (f : Z -> Z -> Z) (v : Vec) (m : Z)
  (i : nat) (x : Z) :
  valid_vec fsize v = true -> v !! i = Some x ->
  zip_with f v (replicate (lanes fsize) m) !! i = Some (f x m).
Proof.
  intros Hv Hx. rewrite (zip_with_replicate_lanes fsize f v m Hv).
  rewrite list_lookup_fmap, Hx. reflexivity.
Qed.

(** C4, as amended.  In default-NaN mode the value of every operation
    emitted through [EmitThreeOpVectorOperation] or
    [EmitFourOpVectorOperation] - [FPVectorAdd], [Sub], [Mul], [Div],
    [Max], [Min], [PairedAdd], [PairedAddLower] and, on a host with
    FMA, [FPVectorMulAdd], in both lane sizes - is the value of the
    host operation with every NaN lane replaced by the default NaN,
    [0x7FC00000] or [0x7FF8000000000000], and every other lane kept.
    [FPVectorAbs] and [FPVectorNeg] are emitted without this step: each
    lane, a NaN lane too, is the operand lane with the sign bit cleared
    or flipped. *)
Theorem default_nan_mode_lanes (fsize : FSize) (code : BlockOfCode)
  (ctx : EmitContext)
  (vfmadd231p : FSize -> Vec -> Vec -> Vec -> Vec)
  (FPMulAdd : FSize -> Z -> Z -> Z -> Z -> Z)
  (ProcessNaNs3 : FSize -> Z -> Z -> Z -> option Z)
  (a b c : Vec) :
  FPSCR_DN ctx = true ->
  valid_vec fsize (ScratchXmm (reg_alloc ctx) 1) = true ->
  let dn := fun r => if IsNaN fsize r then DefaultNaN fsize else r in
  let two := fun emit fn : Vec -> Vec -> Vec =>
    valid_vec fsize (fn a b) = true -> emit a b = dn <$> fn a b in
  let zero := ScratchXmm (reg_alloc ctx) 2 in
  two (EmitFPVectorAdd fsize code ctx) (addp fsize) /\
  two (EmitFPVectorSub fsize code ctx) (subp fsize) /\
  two (EmitFPVectorMul fsize code ctx) (mulp fsize) /\
  two (EmitFPVectorDiv fsize code ctx) (divp fsize) /\
  two (EmitFPVectorMax fsize code ctx) (EmitFPVectorMax_fn fsize code ctx) /\
  two (EmitFPVectorMin fsize code ctx) (EmitFPVectorMin_fn fsize code ctx) /\
  two (EmitFPVectorPairedAdd fsize code ctx) (haddp fsize) /\
  two (EmitFPVectorPairedAddLower fsize code ctx)
      (fun x y => haddp fsize (punpcklqdq fsize x y) (xorps zero zero)) /\
  (DoesCpuSupport code tFMA = true ->
   valid_vec fsize (vfmadd231p fsize a b c) = true ->
   EmitFPVectorMulAdd vfmadd231p FPMulAdd ProcessNaNs3 fsize code ctx a b c
   = dn <$> vfmadd231p fsize a b c) /\
  (forall fn2 nan_handler,
     two (EmitThreeOpVectorOperation fsize code ctx fn2 nan_handler) fn2) /\
  (forall fn3 nan_handler,
     valid_vec fsize (fn3 a b c) = true ->
     EmitFourOpVectorOperation fsize code ctx fn3 nan_handler a b c
     = dn <$> fn3 a b c) /\
  DefaultNaN F32 = 0x7FC00000 /\
  DefaultNaN F64 = 0x7FF8000000000000 /\
  (forall v i x, valid_vec F32 v = true -> v !! i = Some x ->
     EmitFPVectorAbs32 v !! i = Some (Z.land x 0x7FFFFFFF) /\
     EmitFPVectorNeg32 v !! i = Some (Z.lxor x 0x80000000)) /\
  (forall v i x, valid_vec F64 v = true -> v !! i = Some x ->
     EmitFPVectorAbs64 v !! i = Some (Z.land x 0x7FFFFFFFFFFFFFFF) /\
     EmitFPVectorNeg64 v !! i = Some (Z.lxor x 0x8000000000000000)).
Proof.
  intros HDN HT dn two zero. subst two. cbv beta.
  assert (H2 : forall fn2 nan_handler,
            valid_vec fsize (fn2 a b) = true ->
            EmitThreeOpVectorOperation fsize code ctx fn2 nan_handler a b
            = dn <$> fn2 a b).
  { intros fn2 nan_handler HX. apply three_op_default_nan; assumption. }
  assert (H3 : forall fn3 nan_handler,
            valid_vec fsize (fn3 a b c) = true ->
            EmitFourOpVectorOperation fsize code ctx fn3 nan_handler a b c
            = dn <$> fn3 a b c).
  { intros fn3 nan_handler HX. apply four_op_default_nan; assumption. }
  do 7 (split; [apply H2|]).
  split.
  { exact (H2 (fun x y =>
                 haddp fsize (punpcklqdq fsize x y) (xorps zero zero)) _). }
  split.
  { intros HFMA HX. unfold EmitFPVectorMulAdd. rewrite HFMA.
    apply H3, HX. }
  split; [exact H2|]. split; [exact H3|].
  split; [reflexivity|]. split; [reflexivity|].
  split; intros v i x Hv Hx; split.
  - exact (sign_mask_lanes F32 Z.land v _ i x Hv Hx).
  - exact (sign_mask_lanes F32 Z.lxor v _ i x Hv Hx).
  - exact (sign_mask_lanes F64 Z.land v _ i x Hv Hx).
  - exact (sign_mask_lanes F64 Z.lxor v _ i x Hv Hx).
Qed.

(** *** Accurate NaN processing *)

Lemma handler_lanes (fsize : FSize) (indexer : Indexer) (X a b : Vec) :
  default [] (NaNHandler_GetDefault fsize indexer [X; a; b] !! 0%nat)
  = imap (fun i r =>
            accurate_nan_lane fsize (Indexer_call fsize indexer i a b) r) X.
Proof.
  unfold NaNHandler_GetDefault. simpl. apply imap_ext.
  intros i r _. unfold ProcessNaNs, accurate_nan_lane.
  destruct (IsNaN fsize (fst _)); [reflexivity|].
  destruct (IsNaN fsize (snd _)); reflexivity.
Qed.

Lemma nan_mask_lane (fsize : FSize) (x y r : Z) :
  cmp_lane fsize UNORD (cmp_lane fsize UNORD y x) r
  = if IsNaN fsize x || IsNaN fsize y || IsNaN fsize r
    then all_ones fsize else 0.
Proof.
  unfold cmp_lane. rewrite !UNORD_compare.
  destruct (IsNaN fsize y), (IsNaN fsize x); simpl;
    rewrite ?IsNaN_all_ones, ?IsNaN_zero; reflexivity.
Qed.

Lemma all_ones_nonzero (fsize : FSize) : all_ones fsize <> 0.
Proof. destruct fsize; discriminate. Qed.

Lemma bits_to_Z_nonneg (l : list bool) : 0 <= bits_to_Z l.
Proof.
  induction l as [|b l IH]; simpl; [lia|]. destruct b; simpl; lia.
Qed.

Lemma bits_to_Z_zero (l : list bool) (b : bool) :
  bits_to_Z l = 0 -> In b l -> b = false.
Proof.
  induction l as [|b' l IH]; simpl; intros Hz Hin; [destruct Hin|].
  pose proof (bits_to_Z_nonneg l) as Hl.
  destruct Hin as [->|Hin].
  - destruct b; [simpl in Hz; lia|reflexivity].
  - apply IH; [|exact Hin]. destruct b'; simpl in Hz; lia.
Qed.

Lemma testbit31_all_ones (fsize : FSize) :
  Z.testbit (all_ones fsize) 31 = true.
Proof. destruct fsize; reflexivity. Qed.

(** When [jnz nan] is not taken, every lane of a mask made of zeros and
    all-ones lanes is zero. *)
Lemma jnz_not_taken (fsize : FSize) (code : BlockOfCode) (mask : Vec)
  (i : nat) (p : bool) :
  (if DoesCpuSupport code tSSE41 then negb (ptest_ZF mask mask)
   else negb (movmskps fsize mask =? 0)) = false ->
  mask !! i = Some (if p then all_ones fsize else 0) ->
  p = false.
Proof.
  intros Hj Hi. destruct p; [exfalso|reflexivity].
  destruct (DoesCpuSupport code tSSE41).
  - apply negb_false_iff in Hj. unfold ptest_ZF, andps in Hj.
    rewrite forallb_forall in Hj.
    specialize (Hj (Z.land (all_ones fsize) (all_ones fsize))).
    rewrite Z.land_diag in Hj.
    assert (Hin : In (all_ones fsize) (zip_with Z.land mask mask)).
    { apply list_elem_of_In, (list_elem_of_lookup_2 _ i).
      rewrite lookup_zip_with, Hi. simpl. rewrite Z.land_diag.
      reflexivity. }
    apply Hj, Z.eqb_eq in Hin. exact (all_ones_nonzero fsize Hin).
  - apply negb_false_iff, Z.eqb_eq in Hj. unfold movmskps in Hj.
    assert (Hb : Z.testbit (all_ones fsize) 31 = false).
    { apply (bits_to_Z_zero _ _ Hj), in_flat_map.
      exists (all_ones fsize). split.
      - apply list_elem_of_In, (list_elem_of_lookup_2 _ i), Hi.
      - destruct fsize; left; reflexivity. }
    rewrite testbit31_all_ones in Hb. discriminate Hb.
Qed.

Lemma Indexer_call_no_nan (fsize : FSize) (indexer : Indexer) (i : nat)
  (a b : Vec) :
  (forall j, IsNaN fsize (lane a j) = false) ->
  (forall j, IsNaN fsize (lane b j) = false) ->
  IsNaN fsize (fst (Indexer_call fsize indexer i a b)) = false /\
  IsNaN fsize (snd (Indexer_call fsize indexer i a b)) = false.
Proof.
  intros Ha Hb. pose proof (IsNaN_zero fsize) as H0.
  unfold Indexer_call. destruct indexer.
  - simpl. split; [apply Ha|apply Hb].
  - destruct (i / (lanes fsize / 2))%nat as [|[|w]]; simpl;
      split; auto.
  - destruct fsize.
    + destruct i as [|[|i]]; simpl; split; auto.
    + destruct (Nat.eqb i 0); simpl; split; auto.
Qed.

Lemma three_op_accurate (fsize : FSize) (indexer : Indexer)
  (code : BlockOfCode) (ctx : EmitContext) (fn : Vec -> Vec -> Vec)
  (a b : Vec) :
  AccurateNaN ctx = true -> FPSCR_DN ctx = false ->
  valid_vec fsize a = true -> valid_vec fsize b = true ->
  valid_vec fsize (fn a b) = true ->
  EmitThreeOpVectorOperation fsize code ctx fn
    (NaNHandler_GetDefault fsize indexer) a b
  = imap (fun i r =>
            accurate_nan_lane fsize (Indexer_call fsize indexer i a b) r)
         (fn a b).
Proof.
  intros Hacc HDN Ha Hb HX. unfold EmitThreeOpVectorOperation.
  rewrite Hacc, HDN. cbv zeta. simpl negb. simpl orb. cbv iota.
  unfold HandleNaNs, movaps.
  set (X := fn a b) in *.
  set (mask := cmpunordp fsize (cmpunordp fsize b a) X).
  destruct (if DoesCpuSupport code tSSE41 then _ else _) eqn:Hj.
  - apply handler_lanes.
  - simpl.
    assert (Hlane : forall i x y r,
               a !! i = Some x -> b !! i = Some y -> X !! i = Some r ->
               IsNaN fsize x || IsNaN fsize y || IsNaN fsize r = false).
    { intros i x y r Hx Hy Hr.
      apply (jnz_not_taken fsize code mask i _ Hj).
      unfold mask, cmpunordp, cmpp. rewrite !lookup_zip_with, Hx, Hy, Hr.
      simpl. rewrite nan_mask_lane. reflexivity. }
    assert (Hall : forall i, (i < lanes fsize)%nat ->
               exists x y r, a !! i = Some x /\ b !! i = Some y /\
                             X !! i = Some r).
    { intros i Hi.
      destruct (valid_vec_lane fsize a i Ha Hi) as (x & Hx & _).
      destruct (valid_vec_lane fsize b i Hb Hi) as (y & Hy & _).
      destruct (valid_vec_lane fsize X i HX Hi) as (r & Hr & _).
      exists x, y, r. repeat split; assumption. }
    assert (Hna : forall j, IsNaN fsize (lane a j) = false).
    { intros j. unfold lane. destruct (a !! j) as [x|] eqn:Hx;
        [|apply IsNaN_zero]. simpl.
      destruct (Hall j) as (x' & y & r & Hx' & Hy & Hr).
      { rewrite <- (valid_vec_length fsize a Ha).
        eapply lookup_lt_Some, Hx. }
      rewrite Hx in Hx'. injection Hx' as <-.
      pose proof (Hlane j x y r Hx Hy Hr) as H.
      apply orb_false_iff in H as [H _].
      apply orb_false_iff in H as [H _]. exact H. }
    assert (Hnb : forall j, IsNaN fsize (lane b j) = false).
    { intros j. unfold lane. destruct (b !! j) as [y|] eqn:Hy;
        [|apply IsNaN_zero]. simpl.
      destruct (Hall j) as (x & y' & r & Hx & Hy' & Hr).
      { rewrite <- (valid_vec_length fsize b Hb).
        eapply lookup_lt_Some, Hy. }
      rewrite Hy in Hy'. injection Hy' as <-.
      pose proof (Hlane j x y r Hx Hy Hr) as H.
      apply orb_false_iff in H as [H _].
      apply orb_false_iff in H as [_ H]. exact H. }
    apply list_eq. intros i. rewrite list_lookup_imap.
    destruct (X !! i) as [r|] eqn:Hr; [|reflexivity]. simpl. f_equal.
    destruct (Indexer_call_no_nan fsize indexer i a b Hna Hnb) as [H1 H2].
    unfold accurate_nan_lane. rewrite H1, H2.
    destruct (Hall i) as (x & y & r' & Hx & Hy & Hr').
    { rewrite <- (valid_vec_length fsize X HX).
      eapply lookup_lt_Some, Hr. }
    rewrite Hr in Hr'. injection Hr' as <-.
    pose proof (Hlane i x y r Hx Hy Hr) as H.
    apply orb_false_iff in H as [_ H]. rewrite H. reflexivity.
Qed.


(** A lane of an operation emitted with accurate NaNs, by the inputs
    its indexer picks. *)
Lemma three_op_accurate_lane (fsize : FSize) (indexer : Indexer)
  (code : BlockOfCode) (ctx : EmitContext) (fn : Vec -> Vec -> Vec)
  (a b : Vec) (i : nat) (x y r : Z) :
  AccurateNaN ctx = true -> FPSCR_DN ctx = false ->
  valid_vec fsize a = true -> valid_vec fsize b = true ->
  valid_vec fsize (fn a b) = true ->
  fn a b !! i = Some r ->
  Indexer_call fsize indexer i a b = (x, y) ->
  EmitThreeOpVectorOperation fsize code ctx fn
    (NaNHandler_GetDefault fsize indexer) a b !! i
  = Some (accurate_nan_lane fsize (x, y) r).
Proof.
  intros Hacc HDN Ha Hb HX Hr Hxy.
  rewrite three_op_accurate by assumption.
  rewrite list_lookup_imap, Hr. simpl. rewrite Hxy. reflexivity.
Qed.



Lemma DefaultIndexer_inputs (fsize : FSize) (a b : Vec) (i : nat)
  (x y : Z) :
  a !! i = Some x -> b !! i = Some y ->
  Indexer_call fsize DefaultIndexer i a b = (x, y).
Proof.
  intros Hx Hy. unfold Indexer_call, lane. rewrite Hx, Hy. reflexivity.
Qed.





Lemma default_nan_mode_lanes_witness :
  FPSCR_DN (context false true F32) = true /\
  valid_vec F32 (ScratchXmm (reg_alloc (context false true F32)) 1)
  = true /\
  EmitFPVectorAdd32 (host true true) (context false true F32)
    [f32_1; f32_pos_inf; qNaN_a; f32_2]
    [f32_3; f32_neg_inf; f32_4; sNaN_c]
  = [f32_4; 0x7FC00000; 0x7FC00000; 0x7FC00000] /\
  EmitFPVectorPairedAdd F32 (host true true) (context false true F32)
    [f32_1; f32_pos_inf; qNaN_a; f32_2]
    [f32_3; f32_neg_inf; f32_4; sNaN_c]
  = [0x7F800000; 0x7FC00000; 0xFF800000; 0x7FC00000] /\
  EmitFPVectorNeg32 [f32_1; f32_pos_inf; qNaN_a; f32_2] !! 2%nat
  = Some 0xFFC00001.
Proof.
  do 2 (split; [vm_compute; reflexivity|]).
  pose proof (default_nan_mode_lanes F32 (host true true)
                (context false true F32)
                (fun _ x _ _ => x) (fun _ _ _ _ _ => 0)
                (fun _ _ _ _ => None)
                [f32_1; f32_pos_inf; qNaN_a; f32_2]
                [f32_3; f32_neg_inf; f32_4; sNaN_c] []
                eq_refl eq_refl) as H.
  cbv zeta in H.
  destruct H as (HAdd & _ & _ & _ & _ & _ & HPaired & _ & _ & _ & _ & _
                 & _ & HNeg & _).
  split; [|split].
  - unfold EmitFPVectorAdd32. rewrite (HAdd eq_refl).
    vm_compute. reflexivity.
  - rewrite (HPaired eq_refl). vm_compute. reflexivity.
  - exact (proj2 (HNeg [f32_1; f32_pos_inf; qNaN_a; f32_2] 2%nat qNaN_a
                    eq_refl eq_refl)).
Defined.

(** C4 as the specification words it fails: the NaN lanes of
    [FPVectorAbs] and [FPVectorNeg] are not the default NaN.  These
    emitters never ask the context: they are the same in default-NaN
    mode. *)
Lemma Abs_Neg_keep_NaN_lanes :
  ~ NaN_lanes_default F32
      (EmitFPVectorAbs32 [qNaN_a; f32_1; f32_2; f32_3]) /\
  ~ NaN_lanes_default F32
      (EmitFPVectorNeg32 [qNaN_a; f32_1; f32_2; f32_3]) /\
  ~ NaN_lanes_default F64
      (EmitFPVectorAbs64 [0x7FF8000000000001; 0x3FF0000000000000]) /\
  ~ NaN_lanes_default F64
      (EmitFPVectorNeg64 [0x7FF8000000000001; 0x3FF0000000000000]).
Proof.
  split; [|split; [|split]]; intros H.
  - specialize (H 0%nat 0x7FC00001 eq_refl eq_refl). discriminate H.
  - specialize (H 0%nat 0xFFC00001 eq_refl eq_refl). discriminate H.
  - specialize (H 0%nat 0x7FF8000000000001 eq_refl eq_refl).
    discriminate H.
  - specialize (H 0%nat 0xFFF8000000000001 eq_refl eq_refl).
    discriminate H.
Qed.

(** *** Maximum and minimum *)

Lemma blend_lanes (fsize : FSize) (f g : Z -> Z -> Z) (a b : Vec) :
  vblendvp fsize (zip_with f a b) (zip_with g a b) (vcmpeqp fsize a b)
  = zip_with (fun x y => if EQ_OQ (compare fsize x y) then g x y
                         else f x y) a b.
Proof.
  apply list_eq. intros i.
  unfold vblendvp, vcmpeqp, cmpp. rewrite !lookup_zip_with.
  destruct (a !! i) as [x|]; [|reflexivity]. simpl.
  destruct (b !! i) as [y|]; [|reflexivity]. simpl.
  unfold cmp_lane. destruct (EQ_OQ (compare fsize x y));
    rewrite ?sign_bit_all_ones, ?sign_bit_zero; reflexivity.
Qed.

Lemma select_lanes (fsize : FSize) (f g : Z -> Z -> Z) (a b : Vec) :
  valid_vec fsize a = true ->
  (forall x y, valid_lane fsize x = true ->
               valid_lane fsize (f x y) = true \/ f x y = y) ->
  valid_vec fsize b = true ->
  (forall x y, valid_lane fsize x = true -> valid_lane fsize y = true ->
               valid_lane fsize (g x y) = true) ->
  orps (andps (zip_with f a b) (cmpneqp fsize (movaps a) b))
       (andnps (cmpneqp fsize (movaps a) b) (zip_with g (movaps a) b))
  = zip_with (fun x y => if EQ_OQ (compare fsize x y) then g x y
                         else f x y) a b.
Proof.
  intros Ha Hf Hb Hg. apply list_eq. intros i.
  unfold orps, andps, andnps, cmpneqp, cmpp, movaps.
  rewrite !lookup_zip_with.
  destruct (a !! i) as [x|] eqn:Hx; [|reflexivity]. simpl.
  destruct (b !! i) as [y|] eqn:Hy; [|reflexivity]. simpl.
  pose proof (valid_vec_lookup fsize a i x Ha Hx) as Hvx.
  pose proof (valid_vec_lookup fsize b i y Hb Hy) as Hvy.
  f_equal. unfold cmp_lane, NEQ_UQ.
  destruct (EQ_OQ (compare fsize x y)); simpl.
  - rewrite Z.land_0_r, Z.lor_0_l.
    change (Z.lnot 0) with (-1). apply Z.land_m1_l.
  - rewrite (land_lnot_all_ones fsize (g x y)) by (apply Hg; assumption).
    rewrite Z.lor_0_r. apply land_all_ones.
    destruct (Hf x y Hvx) as [H|H]; [exact H|]. rewrite H. exact Hvy.
Qed.

Lemma max_lane_valid (fsize : FSize) (x y : Z) :
  valid_lane fsize x = true ->
  valid_lane fsize (max_lane fsize x y) = true \/ max_lane fsize x y = y.
Proof.
  intros Hx. unfold max_lane.
  destruct (compare fsize x y) as [[| |]|]; auto.
Qed.

Lemma min_lane_valid (fsize : FSize) (x y : Z) :
  valid_lane fsize x = true ->
  valid_lane fsize (min_lane fsize x y) = true \/ min_lane fsize x y = y.
Proof.
  intros Hx. unfold min_lane.
  destruct (compare fsize x y) as [[| |]|]; auto.
Qed.

Lemma EmitFPVectorMax_fn_lanes (fsize : FSize) (code : BlockOfCode)
  (ctx : EmitContext) (a b : Vec) :
  valid_vec fsize a = true -> valid_vec fsize b = true ->
  EmitFPVectorMax_fn fsize code ctx a b
  = zip_with (max_fixed_lane fsize) a b.
Proof.
  intros Ha Hb. unfold EmitFPVectorMax_fn. cbv zeta.
  destruct (DoesCpuSupport code tAVX).
  - apply (blend_lanes fsize (max_lane fsize) Z.land).
  - apply (select_lanes fsize (max_lane fsize) Z.land); try assumption.
    + apply max_lane_valid.
    + intros x y Hx _. apply valid_land, Hx.
Qed.

Lemma EmitFPVectorMin_fn_lanes (fsize : FSize) (code : BlockOfCode)
  (ctx : EmitContext) (a b : Vec) :
  valid_vec fsize a = true -> valid_vec fsize b = true ->
  EmitFPVectorMin_fn fsize code ctx a b
  = zip_with (min_fixed_lane fsize) a b.
Proof.
  intros Ha Hb. unfold EmitFPVectorMin_fn. cbv zeta.
  destruct (DoesCpuSupport code tAVX).
  - apply (blend_lanes fsize (min_lane fsize) Z.lor).
  - apply (select_lanes fsize (min_lane fsize) Z.lor); try assumption.
    + apply min_lane_valid.
    + intros x y Hx Hy. apply valid_lor; assumption.
Qed.


Lemma three_op_fast (fsize : FSize) (code : BlockOfCode)
  (ctx : EmitContext) (fn : Vec -> Vec -> Vec)
  (nan_handler : list Vec -> list Vec) (a b : Vec) :
  AccurateNaN ctx = false -> FPSCR_DN ctx = false ->
  EmitThreeOpVectorOperation fsize code ctx fn nan_handler a b = fn a b.
Proof.
  intros Hacc HDN. unfold EmitThreeOpVectorOperation.
  rewrite Hacc, HDN. reflexivity.
Qed.

Lemma valid_zip_with (fsize : FSize) (f : Z -> Z -> Z) (a b : Vec) :
  valid_vec fsize a = true -> valid_vec fsize b = true ->
  (forall x y, valid_lane fsize x = true -> valid_lane fsize y = true ->
               valid_lane fsize (f x y) = true) ->
  valid_vec fsize (zip_with f a b) = true.
Proof.
  intros Ha Hb Hf. unfold valid_vec. apply andb_true_iff. split.
  - apply Nat.eqb_eq. rewrite length_zip_with.
    rewrite (valid_vec_length fsize a Ha), (valid_vec_length fsize b Hb).
    lia.
  - apply forallb_forall. intros r Hr.
    apply list_elem_of_In, list_elem_of_lookup in Hr as [i Hi].
    apply lookup_zip_with_Some in Hi as (x & y & -> & Hx & Hy).
    apply Hf.
    + exact (valid_vec_lookup fsize a i x Ha Hx).
    + exact (valid_vec_lookup fsize b i y Hb Hy).
Qed.

Lemma max_fixed_lane_valid (fsize : FSize) (x y : Z) :
  valid_lane fsize x = true -> valid_lane fsize y = true ->
  valid_lane fsize (max_fixed_lane fsize x y) = true.
Proof.
  intros Hx Hy. unfold max_fixed_lane.
  destruct (EQ_OQ _); [apply valid_land, Hx|].
  unfold max_lane. destruct (compare fsize x y) as [[]|]; assumption.
Qed.

Lemma min_fixed_lane_valid (fsize : FSize) (x y : Z) :
  valid_lane fsize x = true -> valid_lane fsize y = true ->
  valid_lane fsize (min_fixed_lane fsize x y) = true.
Proof.
  intros Hx Hy. unfold min_fixed_lane.
  destruct (EQ_OQ _); [apply valid_lor; assumption|].
  unfold min_lane. destruct (compare fsize x y) as [[]|]; assumption.
Qed.

(** **** Lanes that compare equal *)

Lemma exponent_field (fsize : FSize) (x : Z) :
  Z.land x (exponent_mask fsize)
  = Z.shiftl (Z.shiftr (Z.land x (exponent_mask fsize))
                       (explicit_mantissa_width fsize))
             (explicit_mantissa_width fsize).
Proof.
  apply Z.bits_inj'. intros k Hk.
  destruct (Z.ltb_spec k (explicit_mantissa_width fsize)) as [Hlt|Hge].
  - rewrite (Z.shiftl_spec_low _ _ _ Hlt), Z.land_spec.
    unfold exponent_mask. rewrite (Z.shiftl_spec_low _ _ _ Hlt).
    apply andb_false_r.
  - rewrite Z.shiftl_spec_high by lia. rewrite Z.shiftr_spec by lia.
    f_equal. lia.
Qed.

Lemma mantissa_range (fsize : FSize) (x : Z) :
  0 <= Z.land x (mantissa_mask fsize)
  < 2 ^ explicit_mantissa_width fsize.
Proof.
  unfold mantissa_mask. rewrite Z.land_ones by (destruct fsize; cbn; lia).
  apply Z.mod_pos_bound. destruct fsize; reflexivity.
Qed.

Lemma magnitude_fields (fsize : FSize) (x : Z) :
  Z.land x (Z.ones (bitsize fsize - 1))
  = Z.lor (Z.land x (exponent_mask fsize)) (Z.land x (mantissa_mask fsize)).
Proof.
  rewrite <- Z.land_lor_distr_r. f_equal. destruct fsize; reflexivity.
Qed.

Lemma fields_of_magnitude (fsize : FSize) (x m : Z) :
  Z.land x (Z.ones (bitsize fsize - 1)) = m ->
  Z.land x (exponent_mask fsize) = Z.land m (exponent_mask fsize) /\
  Z.land x (mantissa_mask fsize) = Z.land m (mantissa_mask fsize).
Proof.
  intros <-. rewrite <- !Z.land_assoc. split; f_equal.
  - destruct fsize; reflexivity.
  - destruct fsize; reflexivity.
Qed.

Lemma SFcompare_finite_Eq (s1 s2 : bool) (m1 m2 : positive) (e1 e2 : Z) :
  SFcompare (S754_finite s1 m1 e1) (S754_finite s2 m2 e2) = Some Eq ->
  e1 = e2 /\ m1 = m2.
Proof.
  simpl. intros H. injection H as H.
  destruct s1, s2; try discriminate H;
    destruct (Z.compare_spec e1 e2) as [He|He|He]; try discriminate H;
    (split; [exact He|]).
  - apply Pos.compare_eq.
    destruct (Pos.compare m1 m2) eqn:Hm; try reflexivity;
      unfold Pos.compare in Hm; rewrite Hm in H; discriminate H.
  - apply Pos.compare_eq. exact H.
Qed.

(** The value a lane that is no NaN decodes to. *)
Lemma decode_not_nan (fsize : FSize) (x : Z) :
  IsNaN fsize x = false ->
  let s := sign_bit fsize x in
  let mw := explicit_mantissa_width fsize in
  let e := Z.shiftr (Z.land x (exponent_mask fsize)) mw in
  let m := Z.land x (mantissa_mask fsize) in
  (IsInf fsize x = true /\ decode fsize x = S754_infinity s) \/
  (FP.IsZero fsize x = true /\ decode fsize x = S754_zero s) \/
  (FP.IsZero fsize x = false /\ e = 0 /\
   decode fsize x
   = S754_finite s (Z.to_pos m) (1 - exponent_bias fsize - mw)) \/
  (e <> 0 /\
   decode fsize x
   = S754_finite s (Z.to_pos (m + 2 ^ mw)) (e - exponent_bias fsize - mw)).
Proof.
  intros Hx. cbv zeta. unfold decode. rewrite Hx.
  destruct (IsInf fsize x); [left; split; reflexivity|].
  destruct (FP.IsZero fsize x); [right; left; split; reflexivity|].
  destruct (Z.eqb_spec
              (Z.shiftr (Z.land x (exponent_mask fsize))
                        (explicit_mantissa_width fsize)) 0) as [He|He].
  - right; right; left. split; [reflexivity|]. split; [exact He|].
    reflexivity.
  - right; right; right. split; [exact He|]. reflexivity.
Qed.

(** Lanes that compare equal on the host have the same exponent and
    mantissa bits: they differ in the sign bit at most, and then they
    are zeros. *)
Lemma compare_Eq_fields (fsize : FSize) (x y : Z) :
  compare fsize x y = Some Eq ->
  Z.land x (exponent_mask fsize) = Z.land y (exponent_mask fsize) /\
  Z.land x (mantissa_mask fsize) = Z.land y (mantissa_mask fsize).
Proof.
  intros Hc.
  pose proof (UNORD_compare fsize x y) as Hn. rewrite Hc in Hn.
  symmetry in Hn. apply orb_false_iff in Hn as [Hnx Hny].
  pose proof (mantissa_range fsize x) as Hmx.
  pose proof (mantissa_range fsize y) as Hmy.
  assert (Hpow : 1 < 2 ^ explicit_mantissa_width fsize)
    by (destruct fsize; reflexivity).
  unfold compare in Hc.
  destruct (decode_not_nan fsize x Hnx)
    as [[Hix Hdx]|[[Hzx Hdx]|[(Hzx & Hex & Hdx)|[Hex Hdx]]]];
  destruct (decode_not_nan fsize y Hny)
    as [[Hiy Hdy]|[[Hzy Hdy]|[(Hzy & Hey & Hdy)|[Hey Hdy]]]];
  rewrite Hdx, Hdy in Hc;
  try (simpl in Hc;
       repeat match type of Hc with
              | context [if ?s then _ else _] => destruct s
              end; discriminate Hc).
  - (* two infinities *)
    unfold IsInf in Hix, Hiy. apply Z.eqb_eq in Hix, Hiy.
    destruct (fields_of_magnitude fsize x _ Hix) as [-> ->].
    destruct (fields_of_magnitude fsize y _ Hiy) as [-> ->].
    split; reflexivity.
  - (* two zeros *)
    unfold FP.IsZero in Hzx, Hzy. apply Z.eqb_eq in Hzx, Hzy.
    destruct (fields_of_magnitude fsize x _ Hzx) as [-> ->].
    destruct (fields_of_magnitude fsize y _ Hzy) as [-> ->].
    split; reflexivity.
  - (* two subnormal numbers *)
    apply SFcompare_finite_Eq in Hc as [_ Hm].
    assert (Hexp : Z.land x (exponent_mask fsize)
                   = Z.land y (exponent_mask fsize)).
    { rewrite (exponent_field fsize x), (exponent_field fsize y).
      rewrite Hex, Hey. reflexivity. }
    split; [exact Hexp|].
    assert (Hpos : forall v,
              FP.IsZero fsize v = false ->
              Z.shiftr (Z.land v (exponent_mask fsize))
                       (explicit_mantissa_width fsize) = 0 ->
              Z.land v (mantissa_mask fsize) <> 0).
    { intros v Hz He Hm0. unfold FP.IsZero in Hz.
      apply Z.eqb_neq in Hz. apply Hz.
      rewrite magnitude_fields, Hm0, (exponent_field fsize v), He.
      rewrite Z.shiftl_0_l. reflexivity. }
    pose proof (Hpos x Hzx Hex). pose proof (Hpos y Hzy Hey).
    apply Z2Pos.inj in Hm; lia.
  - (* a subnormal and a normal number *)
    apply SFcompare_finite_Eq in Hc as [_ Hm].
    exfalso.
    destruct (Z.eq_dec (Z.land x (mantissa_mask fsize)) 0) as [H0|H0].
    + rewrite H0 in Hm. change (Z.to_pos 0) with 1%positive in Hm.
      pose proof (Z2Pos.id (Z.land y (mantissa_mask fsize)
                            + 2 ^ explicit_mantissa_width fsize)
                    ltac:(lia)) as Hid.
      rewrite <- Hm in Hid. lia.
    + apply Z2Pos.inj in Hm; lia.
  - (* a normal and a subnormal number *)
    apply SFcompare_finite_Eq in Hc as [_ Hm].
    exfalso.
    destruct (Z.eq_dec (Z.land y (mantissa_mask fsize)) 0) as [H0|H0].
    + rewrite H0 in Hm. change (Z.to_pos 0) with 1%positive in Hm.
      pose proof (Z2Pos.id (Z.land x (mantissa_mask fsize)
                            + 2 ^ explicit_mantissa_width fsize)
                    ltac:(lia)) as Hid.
      rewrite Hm in Hid. lia.
    + apply Z2Pos.inj in Hm; lia.
  - (* two normal numbers *)
    apply SFcompare_finite_Eq in Hc as [He Hm].
    split.
    + rewrite (exponent_field fsize x), (exponent_field fsize y).
      f_equal. lia.
    + apply Z2Pos.inj in Hm; lia.
Qed.

Lemma compare_not_nan (fsize : FSize) (x y : Z) (c : comparison) :
  compare fsize x y = Some c ->
  IsNaN fsize x = false /\ IsNaN fsize y = false.
Proof.
  intros Hc. pose proof (UNORD_compare fsize x y) as Hn.
  rewrite Hc in Hn. symmetry in Hn. apply orb_false_iff in Hn. exact Hn.
Qed.

Lemma land_same_field (x y m : Z) :
  Z.land x m = Z.land y m -> Z.land (Z.land x y) m = Z.land y m.
Proof.
  intros H. apply Z.bits_inj'. intros k _.
  apply (f_equal (fun z => Z.testbit z k)) in H.
  rewrite !Z.land_spec in *.
  destruct (Z.testbit x k), (Z.testbit y k), (Z.testbit m k);
    simpl in *; congruence.
Qed.

Lemma compare_Eq_land (fsize : FSize) (x y : Z) :
  compare fsize x y = Some Eq -> IsNaN fsize (Z.land x y) = false.
Proof.
  intros Hc. destruct (compare_Eq_fields fsize x y Hc) as [He Hm].
  destruct (compare_not_nan fsize x y Eq Hc) as [_ Hy].
  unfold IsNaN in *.
  rewrite (land_same_field x y _ He), (land_same_field x y _ Hm).
  exact Hy.
Qed.

Lemma compare_Eq_lor (fsize : FSize) (x y : Z) :
  compare fsize x y = Some Eq -> IsNaN fsize (Z.lor x y) = false.
Proof.
  intros Hc. destruct (compare_Eq_fields fsize x y Hc) as [He Hm].
  destruct (compare_not_nan fsize x y Eq Hc) as [_ Hy].
  unfold IsNaN in *.
  rewrite !Z.land_lor_distr_l, He, Hm, !Z.lor_diag. exact Hy.
Qed.

(** A lane of a lane-wise host function, emitted in whichever NaN mode,
    when neither the inputs of the lane nor its host result is a
    NaN. *)
Lemma three_op_lane (fsize : FSize) (code : BlockOfCode)
  (ctx : EmitContext) (fn : Vec -> Vec -> Vec) (f : Z -> Z -> Z)
  (a b : Vec) (i : nat) (x y : Z) :
  valid_vec fsize a = true -> valid_vec fsize b = true ->
  valid_vec fsize (ScratchXmm (reg_alloc ctx) 1) = true ->
  valid_vec fsize (fn a b) = true ->
  fn a b = zip_with f a b ->
  a !! i = Some x -> b !! i = Some y ->
  IsNaN fsize x = false -> IsNaN fsize y = false ->
  IsNaN fsize (f x y) = false ->
  EmitThreeOpVectorOperation fsize code ctx fn
    (NaNHandler_GetDefault fsize DefaultIndexer) a b !! i
  = Some (f x y).
Proof.
  intros Ha Hb HT HX Hfn Hx Hy Hnx Hny Hnr.
  assert (Hr : fn a b !! i = Some (f x y)).
  { rewrite Hfn, lookup_zip_with, Hx. simpl. rewrite Hy. reflexivity. }
  destruct (FPSCR_DN ctx) eqn:HDN.
  - rewrite three_op_default_nan by assumption.
    rewrite list_lookup_fmap, Hr. simpl. unfold default_nan_lane.
    rewrite Hnr. reflexivity.
  - destruct (AccurateNaN ctx) eqn:Hacc.
    + rewrite (three_op_accurate_lane fsize DefaultIndexer code ctx fn a b
                 i x y (f x y)); try assumption.
      * unfold accurate_nan_lane. cbn [fst snd].
        rewrite Hnx, Hny, Hnr. reflexivity.
      * apply DefaultIndexer_inputs; assumption.
    + rewrite three_op_fast by assumption. exact Hr.
Qed.

Lemma zero_lanes_compare (fsize : FSize) :
  compare fsize 0 (sign_mask fsize) = Some Eq /\
  compare fsize (sign_mask fsize) 0 = Some Eq.
Proof. destruct fsize; split; reflexivity. Qed.

(** C5.  In the vector maximum and minimum, as emitted in every NaN
    mode and with or without AVX, a lane whose inputs compare equal on
    the host is the bitwise AND of the inputs for the maximum and their
    bitwise OR for the minimum, in the place of the second operand the
    host's [maxp] and [minp] answer there; a lane whose inputs compare
    unequal is the host's maximum or minimum.  So the maximum of
    [+0.0] and [-0.0] is [+0.0] and their minimum is [-0.0], in either
    operand order.  Before NaN processing, the AVX and the SSE sequence
    of the emitted code both leave [maxp] or [minp] with these lanes
    replaced. *)
Theorem min_max_equal_lanes (fsize : FSize) (code : BlockOfCode)
  (ctx : EmitContext) (a b : Vec) (i : nat) (x y : Z) :
  valid_vec fsize a = true -> valid_vec fsize b = true ->
  valid_vec fsize (ScratchXmm (reg_alloc ctx) 1) = true ->
  a !! i = Some x -> b !! i = Some y ->
  (compare fsize x y = Some Eq ->
   maxp fsize a b !! i = Some y /\
   minp fsize a b !! i = Some y /\
   EmitFPVectorMax fsize code ctx a b !! i = Some (Z.land x y) /\
   EmitFPVectorMin fsize code ctx a b !! i = Some (Z.lor x y)) /\
  (compare fsize x y = Some Lt \/ compare fsize x y = Some Gt ->
   EmitFPVectorMax fsize code ctx a b !! i = maxp fsize a b !! i /\
   EmitFPVectorMin fsize code ctx a b !! i = minp fsize a b !! i) /\
  ((x = 0 /\ y = sign_mask fsize) \/ (x = sign_mask fsize /\ y = 0) ->
   EmitFPVectorMax fsize code ctx a b !! i = Some 0 /\
   EmitFPVectorMin fsize code ctx a b !! i = Some (sign_mask fsize)) /\
  EmitFPVectorMax_fn fsize code ctx a b
  = zip_with (fun x y => if EQ_OQ (compare fsize x y) then Z.land x y
                         else max_lane fsize x y) a b /\
  EmitFPVectorMin_fn fsize code ctx a b
  = zip_with (fun x y => if EQ_OQ (compare fsize x y) then Z.lor x y
                         else min_lane fsize x y) a b.
Proof.
  intros Ha Hb HT Hx Hy.
  pose proof (valid_vec_lookup fsize a i x Ha Hx) as Hvx.
  pose proof (valid_vec_lookup fsize b i y Hb Hy) as Hvy.
  assert (Hmax : IsNaN fsize x = false -> IsNaN fsize y = false ->
            IsNaN fsize (max_fixed_lane fsize x y) = false ->
            EmitFPVectorMax fsize code ctx a b !! i
            = Some (max_fixed_lane fsize x y)).
  { intros Hnx Hny Hnr. unfold EmitFPVectorMax.
    apply three_op_lane; try assumption.
    - rewrite EmitFPVectorMax_fn_lanes by assumption.
      apply valid_zip_with; try assumption. apply max_fixed_lane_valid.
    - apply EmitFPVectorMax_fn_lanes; assumption. }
  assert (Hmin : IsNaN fsize x = false -> IsNaN fsize y = false ->
            IsNaN fsize (min_fixed_lane fsize x y) = false ->
            EmitFPVectorMin fsize code ctx a b !! i
            = Some (min_fixed_lane fsize x y)).
  { intros Hnx Hny Hnr. unfold EmitFPVectorMin.
    apply three_op_lane; try assumption.
    - rewrite EmitFPVectorMin_fn_lanes by assumption.
      apply valid_zip_with; try assumption. apply min_fixed_lane_valid.
    - apply EmitFPVectorMin_fn_lanes; assumption. }
  assert (Hhost : maxp fsize a b !! i = Some (max_lane fsize x y) /\
                  minp fsize a b !! i = Some (min_lane fsize x y)).
  { unfold maxp, minp. rewrite !lookup_zip_with, Hx. simpl.
    rewrite Hy. split; reflexivity. }
  destruct Hhost as [Hmaxp Hminp].
  assert (Heq : compare fsize x y = Some Eq ->
            EmitFPVectorMax fsize code ctx a b !! i = Some (Z.land x y) /\
            EmitFPVectorMin fsize code ctx a b !! i = Some (Z.lor x y)).
  { intros Hc. destruct (compare_not_nan fsize x y Eq Hc) as [Hnx Hny].
    unfold max_fixed_lane, min_fixed_lane in Hmax, Hmin.
    rewrite Hc in Hmax, Hmin. cbn [EQ_OQ] in Hmax, Hmin. split.
    - apply Hmax; try assumption. apply compare_Eq_land, Hc.
    - apply Hmin; try assumption. apply compare_Eq_lor, Hc. }
  split; [|split; [|split; [|split]]];
    [| | |apply EmitFPVectorMax_fn_lanes; assumption
     |apply EmitFPVectorMin_fn_lanes; assumption].
  - intros Hc. rewrite Hmaxp, Hminp. unfold max_lane, min_lane.
    rewrite Hc. split; [reflexivity|]. split; [reflexivity|].
    apply Heq, Hc.
  - intros Hc. rewrite Hmaxp, Hminp.
    assert (Hn : IsNaN fsize x = false /\ IsNaN fsize y = false).
    { destruct Hc as [Hc|Hc]; exact (compare_not_nan fsize x y _ Hc). }
    destruct Hn as [Hnx Hny].
    unfold max_fixed_lane, min_fixed_lane in Hmax, Hmin.
    assert (HEQ : EQ_OQ (compare fsize x y) = false)
      by (destruct Hc as [-> | ->]; reflexivity).
    rewrite HEQ in Hmax, Hmin. split.
    + apply Hmax; try assumption. unfold max_lane.
      destruct Hc as [-> | ->]; assumption.
    + apply Hmin; try assumption. unfold min_lane.
      destruct Hc as [-> | ->]; assumption.
  - destruct (zero_lanes_compare fsize) as [H0 H1].
    intros [[-> ->]|[-> ->]].
    + destruct (Heq H0) as [-> ->]. rewrite Z.land_0_l, Z.lor_0_l.
      split; reflexivity.
    + destruct (Heq H1) as [-> ->]. rewrite Z.land_0_r, Z.lor_0_r.
      split; reflexivity.
Qed.

(** The maximum and the minimum of [{+0.0, 1.0, -0.0, qNaN_a}] and
    [{-0.0, 1.0, +0.0, 3.0}], with accurate NaNs and without AVX: the
    lanes of the zeros in both operand orders, beside a NaN lane. *)
Lemma min_max_equal_lanes_witness :
  valid_vec F32 [f32_pos_zero; f32_1; f32_neg_zero; qNaN_a] = true /\
  valid_vec F32 [f32_neg_zero; f32_1; f32_pos_zero; f32_3] = true /\
  valid_vec F32 (ScratchXmm (reg_alloc (context true false F32)) 1)
  = true /\
  maxp F32 [f32_pos_zero; f32_1; f32_neg_zero; qNaN_a]
           [f32_neg_zero; f32_1; f32_pos_zero; f32_3] !! 0%nat
  = Some f32_neg_zero /\
  EmitFPVectorMax F32 (host true false) (context true false F32)
    [f32_pos_zero; f32_1; f32_neg_zero; qNaN_a]
    [f32_neg_zero; f32_1; f32_pos_zero; f32_3] !! 0%nat
  = Some f32_pos_zero /\
  EmitFPVectorMin F32 (host true false) (context true false F32)
    [f32_pos_zero; f32_1; f32_neg_zero; qNaN_a]
    [f32_neg_zero; f32_1; f32_pos_zero; f32_3] !! 0%nat
  = Some f32_neg_zero /\
  minp F32 [f32_pos_zero; f32_1; f32_neg_zero; qNaN_a]
           [f32_neg_zero; f32_1; f32_pos_zero; f32_3] !! 2%nat
  = Some f32_pos_zero /\
  EmitFPVectorMax F32 (host true false) (context true false F32)
    [f32_pos_zero; f32_1; f32_neg_zero; qNaN_a]
    [f32_neg_zero; f32_1; f32_pos_zero; f32_3] !! 2%nat
  = Some f32_pos_zero /\
  EmitFPVectorMin F32 (host true false) (context true false F32)
    [f32_pos_zero; f32_1; f32_neg_zero; qNaN_a]
    [f32_neg_zero; f32_1; f32_pos_zero; f32_3] !! 2%nat
  = Some f32_neg_zero.
Proof.
  do 3 (split; [vm_compute; reflexivity|]).
  destruct (min_max_equal_lanes F32 (host true false)
              (context true false F32)
              [f32_pos_zero; f32_1; f32_neg_zero; qNaN_a]
              [f32_neg_zero; f32_1; f32_pos_zero; f32_3]
              0%nat f32_pos_zero f32_neg_zero
              eq_refl eq_refl eq_refl eq_refl eq_refl)
    as (Heq0 & _ & _).
  destruct (min_max_equal_lanes F32 (host true false)
              (context true false F32)
              [f32_pos_zero; f32_1; f32_neg_zero; qNaN_a]
              [f32_neg_zero; f32_1; f32_pos_zero; f32_3]
              2%nat f32_neg_zero f32_pos_zero
              eq_refl eq_refl eq_refl eq_refl eq_refl)
    as (Heq2 & _ & _).
  destruct (Heq0 eq_refl) as (Hmaxp0 & _ & Hmax0 & Hmin0).
  destruct (Heq2 eq_refl) as (_ & Hminp2 & Hmax2 & Hmin2).
  split; [exact Hmaxp0|]. split; [exact Hmax0|]. split; [exact Hmin0|].
  split; [exact Hminp2|]. split; [exact Hmax2|]. exact Hmin2.
Defined.

(** *** Conversion to fixed point *)

(** The AVX path hands no value to [DefineValue], whatever the input. *)
Lemma ToFixed_AVX_defines_nothing
  (FPToFixed : Z -> Z -> Z -> bool -> Z -> RoundingMode -> Z)
  (fsize : FSize) (unsigned_ : bool) (code : BlockOfCode)
  (ctx : EmitContext) (arg0 : Vec) (fbits : Z) (rounding : RoundingMode) :
  DoesCpuSupport code tAVX = true ->
  rounding <> ToNearest_TieAwayFromZero ->
  exists src,
    EmitFPVectorToFixed FPToFixed fsize unsigned_ code ctx arg0 fbits
      rounding
    = Some {| DefineValue := None; xmm_src := src |}.
Proof.
  intros Havx Hr. unfold EmitFPVectorToFixed. rewrite Havx.
  replace (RoundingMode_eqb rounding ToNearest_TieAwayFromZero) with false
    by (destruct rounding; try reflexivity; congruence).
  simpl. repeat case_match; eexists; reflexivity.
Qed.

(** C1 on the AVX path, for the lanes [+inf], [-inf], a NaN and [1.0],
    no fraction bits and rounding towards zero: no value is defined, and
    the register holds zero in the lane of [+inf] (not the largest
    integer), the pattern of [-inf] in its lane (not the smallest
    integer), and zero in the lane of [1.0]; the NaN lane is zero only in
    the unsigned conversion. *)
Theorem ToFixed_AVX_path_does_not_saturate
  (FPToFixed : Z -> Z -> Z -> bool -> Z -> RoundingMode -> Z) :
  EmitFPVectorToSignedFixed32 FPToFixed (host true true)
    (context false false F32)
    [f32_pos_inf; f32_neg_inf; qNaN_a; f32_1] 0 TowardsZero
  = Some {| DefineValue := None;
            xmm_src := [0; f32_neg_inf; qNaN_a; 0] |} /\
  EmitFPVectorToUnsignedFixed32 FPToFixed (host true true)
    (context false false F32)
    [f32_pos_inf; f32_neg_inf; qNaN_a; f32_1] 0 TowardsZero
  = Some {| DefineValue := None;
            xmm_src := [0; f32_neg_inf; 0; 0] |}.
Proof. split; vm_compute; reflexivity. Qed.

End VectorFloatingPoint.

(* --------------------------------------------------------------------- *)
(** ** More about the vector floating-point emitters *)
(* --------------------------------------------------------------------- *)

Section VectorComparisons.
Import FP X64 BackendX64.

Lemma SFcompare_antisym (x y : spec_float) :
  SFcompare y x = CompOpp <$> SFcompare x y.
Proof.
  destruct x as [sx|sx| |sx mx ex], y as [sy|sy| |sy my ey]; simpl;
    try reflexivity;
    try (destruct sx; reflexivity); try (destruct sy; reflexivity);
    try (destruct sx, sy; reflexivity).
  destruct sx, sy; try reflexivity.
  - rewrite (Z.compare_antisym ex ey).
    destruct (ex ?= ey); simpl; try reflexivity.
    pose proof (Pos.compare_cont_antisym mx my Eq) as H.
    change (CompOpp Eq) with Eq in H. rewrite <- H.
    destruct (Pos.compare_cont Eq mx my); reflexivity.
  - rewrite (Z.compare_antisym ex ey).
    destruct (ex ?= ey); simpl; try reflexivity.
    pose proof (Pos.compare_cont_antisym mx my Eq) as H.
    change (CompOpp Eq) with Eq in H. rewrite <- H.
    destruct (Pos.compare_cont Eq mx my); reflexivity.
Qed.

Lemma compare_antisym (fsize : FSize) (x y : Z) :
  compare fsize y x = CompOpp <$> compare fsize x y.
Proof. apply SFcompare_antisym. Qed.

Lemma compare_None (fsize : FSize) (x y : Z) :
  compare fsize x y = None -> IsNaN fsize x || IsNaN fsize y = true.
Proof.
  intros H. rewrite <- UNORD_compare. unfold UNORD, ORD. rewrite H.
  reflexivity.
Qed.

Lemma zip_with_swap {A B} (f g : A -> A -> B) (a b : list A) :
  (forall x y, f y x = g x y) -> zip_with f b a = zip_with g a b.
Proof.
  intros Hfg. apply list_eq. intros i. rewrite !lookup_zip_with.
  destruct (a !! i) as [x|], (b !! i) as [y|]; simpl; try reflexivity.
  f_equal. apply Hfg.
Qed.

(** [FPVectorGreater] and [FPVectorGreaterEqual] are emitted as the
    host's less-than and less-or-equal with the operands exchanged;
    lane by lane their value is the mask of [a > b] and of [a >= b] on
    the operands in the order the IR gives them, and zero wherever an
    operand is a NaN. *)
Theorem greater_masks (a b : Vec) :
  EmitFPVectorGreater32 a b
  = zip_with (fun x y => match compare F32 x y with
                         | Some Gt => all_ones F32
                         | _ => 0
                         end) a b /\
  EmitFPVectorGreater64 a b
  = zip_with (fun x y => match compare F64 x y with
                         | Some Gt => all_ones F64
                         | _ => 0
                         end) a b /\
  EmitFPVectorGreaterEqual32 a b
  = zip_with (fun x y => match compare F32 x y with
                         | Some Gt | Some Eq => all_ones F32
                         | _ => 0
                         end) a b /\
  EmitFPVectorGreaterEqual64 a b
  = zip_with (fun x y => match compare F64 x y with
                         | Some Gt | Some Eq => all_ones F64
                         | _ => 0
                         end) a b /\
  (forall fsize x y,
     IsNaN fsize x || IsNaN fsize y = true -> compare fsize x y = None).
Proof.
  assert (Hgt : forall fsize,
            cmpp fsize LT_OS b a
            = zip_with (fun x y => match compare fsize x y with
                                   | Some Gt => all_ones fsize
                                   | _ => 0
                                   end) a b).
  { intros fsize. unfold cmpp. apply zip_with_swap.
    intros x y. unfold cmp_lane. rewrite compare_antisym.
    destruct (compare fsize x y) as [[]|]; reflexivity. }
  assert (Hge : forall fsize,
            cmpp fsize LE_OS b a
            = zip_with (fun x y => match compare fsize x y with
                                   | Some Gt | Some Eq => all_ones fsize
                                   | _ => 0
                                   end) a b).
  { intros fsize. unfold cmpp. apply zip_with_swap.
    intros x y. unfold cmp_lane. rewrite compare_antisym.
    destruct (compare fsize x y) as [[]|]; reflexivity. }
  split; [apply Hgt|]. split; [apply Hgt|].
  split; [apply Hge|]. split; [apply Hge|].
  intros fsize x y Hnan. rewrite <- UNORD_compare in Hnan.
  unfold UNORD, ORD in Hnan.
  destruct (compare fsize x y); [discriminate Hnan|reflexivity].
Qed.

(** On every lane, [FPVectorGreaterEqual] is [FPVectorGreater] or
    [FPVectorEqual], and the last two never hold together. *)
Theorem greater_equal_is_greater_or_equal (a b : Vec) :
  EmitFPVectorGreaterEqual32 a b
  = orps (EmitFPVectorGreater32 a b) (EmitFPVectorEqual32 a b) /\
  EmitFPVectorGreaterEqual64 a b
  = orps (EmitFPVectorGreater64 a b) (EmitFPVectorEqual64 a b) /\
  andps (EmitFPVectorGreater32 a b) (EmitFPVectorEqual32 a b)
  = zip_with (fun _ _ => 0) a b /\
  andps (EmitFPVectorGreater64 a b) (EmitFPVectorEqual64 a b)
  = zip_with (fun _ _ => 0) a b.
Proof.
  assert (Hor : forall fsize,
            cmpp fsize LE_OS b a
            = orps (cmpp fsize LT_OS b a) (cmpp fsize EQ_OQ a b)).
  { intros fsize. unfold orps, cmpp.
    rewrite (zip_with_swap (cmp_lane fsize LE_OS)
               (fun x y => cmp_lane fsize LE_OS y x) a b)
      by reflexivity.
    rewrite (zip_with_swap (cmp_lane fsize LT_OS)
               (fun x y => cmp_lane fsize LT_OS y x) a b)
      by reflexivity.
    apply list_eq. intros i. rewrite !lookup_zip_with.
    destruct (a !! i) as [x|]; [|reflexivity].
    destruct (b !! i) as [y|]; [|reflexivity]. simpl. f_equal.
    unfold cmp_lane. rewrite compare_antisym.
    destruct (compare fsize x y) as [[]|]; simpl;
      rewrite ?Z.lor_0_l, ?Z.lor_0_r; reflexivity. }
  assert (Hand : forall fsize,
            andps (cmpp fsize LT_OS b a) (cmpp fsize EQ_OQ a b)
            = zip_with (fun _ _ => 0) a b).
  { intros fsize. unfold andps, cmpp.
    rewrite (zip_with_swap (cmp_lane fsize LT_OS)
               (fun x y => cmp_lane fsize LT_OS y x) a b)
      by reflexivity.
    apply list_eq. intros i. rewrite !lookup_zip_with.
    destruct (a !! i) as [x|]; [|reflexivity].
    destruct (b !! i) as [y|]; [|reflexivity]. simpl. f_equal.
    unfold cmp_lane. rewrite compare_antisym.
    destruct (compare fsize x y) as [[]|]; simpl;
      rewrite ?Z.land_0_l, ?Z.land_0_r; reflexivity. }
  split; [apply Hor|]. split; [apply Hor|].
  split; apply Hand.
Qed.

End VectorComparisons.

Section MinMaxCommute.
Import FP X64 BackendX64.

Lemma has_nan_lookup (fsize : FSize) (v : Vec) (i : nat) (x : Z) :
  has_nan fsize v = false -> v !! i = Some x -> IsNaN fsize x = false.
Proof.
  intros Hv Hi. destruct (IsNaN fsize x) eqn:Hx; [|reflexivity].
  assert (Hex : has_nan fsize v = true).
  { apply existsb_exists. exists x. split; [|exact Hx].
    apply list_elem_of_In. eapply list_elem_of_lookup_2, Hi. }
  congruence.
Qed.

Lemma has_nan_lane (fsize : FSize) (v : Vec) (i : nat) :
  has_nan fsize v = false -> IsNaN fsize (lane v i) = false.
Proof.
  intros Hv. unfold lane. destruct (v !! i) as [x|] eqn:Hi.
  - exact (has_nan_lookup fsize v i x Hv Hi).
  - apply IsNaN_zero.
Qed.

Lemma max_fixed_lane_comm (fsize : FSize) (x y : Z) :
  IsNaN fsize x = false -> IsNaN fsize y = false ->
  max_fixed_lane fsize x y = max_fixed_lane fsize y x.
Proof.
  intros Hx Hy. unfold max_fixed_lane, max_lane.
  rewrite (compare_antisym fsize x y).
  destruct (compare fsize x y) as [[]|] eqn:Hc; simpl;
    try reflexivity; [apply Z.land_comm|].
  apply compare_None in Hc. rewrite Hx, Hy in Hc. discriminate Hc.
Qed.

Lemma min_fixed_lane_comm (fsize : FSize) (x y : Z) :
  IsNaN fsize x = false -> IsNaN fsize y = false ->
  min_fixed_lane fsize x y = min_fixed_lane fsize y x.
Proof.
  intros Hx Hy. unfold min_fixed_lane, min_lane.
  rewrite (compare_antisym fsize x y).
  destruct (compare fsize x y) as [[]|] eqn:Hc; simpl;
    try reflexivity; [apply Z.lor_comm|].
  apply compare_None in Hc. rewrite Hx, Hy in Hc. discriminate Hc.
Qed.

Lemma zip_with_comm_on (f : Z -> Z -> Z) (P : Z -> Prop) (a b : Vec) :
  (forall x y, P x -> P y -> f x y = f y x) ->
  (forall i x, a !! i = Some x -> P x) ->
  (forall i y, b !! i = Some y -> P y) ->
  zip_with f a b = zip_with f b a.
Proof.
  intros Hf Ha Hb. apply list_eq. intros i. rewrite !lookup_zip_with.
  destruct (a !! i) as [x|] eqn:Hx, (b !! i) as [y|] eqn:Hy; simpl;
    try reflexivity.
  f_equal. apply Hf; [exact (Ha i x Hx)|exact (Hb i y Hy)].
Qed.

(** A two-input operation whose host function commutes on the given
    registers commutes as emitted, when no input lane is a NaN. *)
Lemma three_op_commute (fsize : FSize) (code : BlockOfCode)
  (ctx : EmitContext) (fn : Vec -> Vec -> Vec) (a b : Vec) :
  valid_vec fsize a = true -> valid_vec fsize b = true ->
  has_nan fsize a = false -> has_nan fsize b = false ->
  valid_vec fsize (ScratchXmm (reg_alloc ctx) 1) = true ->
  valid_vec fsize (fn a b) = true ->
  fn a b = fn b a ->
  EmitThreeOpVectorOperation fsize code ctx fn
    (NaNHandler_GetDefault fsize DefaultIndexer) a b
  = EmitThreeOpVectorOperation fsize code ctx fn
      (NaNHandler_GetDefault fsize DefaultIndexer) b a.
Proof.
  intros Ha Hb Hna Hnb HT HX Hfn.
  destruct (FPSCR_DN ctx) eqn:HDN.
  - rewrite !three_op_default_nan by (rewrite <- ?Hfn; assumption).
    rewrite Hfn. reflexivity.
  - destruct (AccurateNaN ctx) eqn:Hacc.
    + rewrite !three_op_accurate by (rewrite <- ?Hfn; assumption).
      rewrite <- Hfn. apply imap_ext. intros i r _.
      unfold accurate_nan_lane, Indexer_call. cbn [fst snd].
      rewrite (has_nan_lane fsize a i Hna), (has_nan_lane fsize b i Hnb).
      reflexivity.
    + rewrite !three_op_fast by assumption. exact Hfn.
Qed.

(** The vector maximum and minimum, as emitted, commute on registers
    without NaN lanes, in every NaN mode and with or without AVX: the
    replacement of the lanes that compare equal makes up for the host's
    [maxp] and [minp], which answer their second operand there. *)
Theorem min_max_commute (fsize : FSize) (code : BlockOfCode)
  (ctx : EmitContext) (a b : Vec) :
  valid_vec fsize a = true -> valid_vec fsize b = true ->
  has_nan fsize a = false -> has_nan fsize b = false ->
  valid_vec fsize (ScratchXmm (reg_alloc ctx) 1) = true ->
  EmitFPVectorMax fsize code ctx a b = EmitFPVectorMax fsize code ctx b a /\
  EmitFPVectorMin fsize code ctx a b = EmitFPVectorMin fsize code ctx b a.
Proof.
  intros Ha Hb Hna Hnb HT. split.
  - unfold EmitFPVectorMax. apply three_op_commute; try assumption.
    + rewrite EmitFPVectorMax_fn_lanes by assumption.
      apply valid_zip_with; try assumption. apply max_fixed_lane_valid.
    + rewrite !EmitFPVectorMax_fn_lanes by assumption.
      apply (zip_with_comm_on _ (fun x => IsNaN fsize x = false)).
      * apply max_fixed_lane_comm.
      * intros i x. apply has_nan_lookup, Hna.
      * intros i y. apply has_nan_lookup, Hnb.
  - unfold EmitFPVectorMin. apply three_op_commute; try assumption.
    + rewrite EmitFPVectorMin_fn_lanes by assumption.
      apply valid_zip_with; try assumption. apply min_fixed_lane_valid.
    + rewrite !EmitFPVectorMin_fn_lanes by assumption.
      apply (zip_with_comm_on _ (fun x => IsNaN fsize x = false)).
      * apply min_fixed_lane_comm.
      * intros i x. apply has_nan_lookup, Hna.
      * intros i y. apply has_nan_lookup, Hnb.
Qed.

(** The maximum and minimum of [{+0.0, 1.0, -0.0, 2.0}] and
    [{-0.0, 3.0, +0.0, 1.0}], where the host's [maxps] does not
    commute. *)
Lemma min_max_commute_witness :
  valid_vec F32 [f32_pos_zero; f32_1; f32_neg_zero; f32_2] = true /\
  valid_vec F32 [f32_neg_zero; f32_3; f32_pos_zero; f32_1] = true /\
  has_nan F32 [f32_pos_zero; f32_1; f32_neg_zero; f32_2] = false /\
  has_nan F32 [f32_neg_zero; f32_3; f32_pos_zero; f32_1] = false /\
  valid_vec F32 (ScratchXmm (reg_alloc (context true false F32)) 1)
  = true /\
  maxp F32 [f32_pos_zero; f32_1; f32_neg_zero; f32_2]
           [f32_neg_zero; f32_3; f32_pos_zero; f32_1]
  <> maxp F32 [f32_neg_zero; f32_3; f32_pos_zero; f32_1]
              [f32_pos_zero; f32_1; f32_neg_zero; f32_2] /\
  EmitFPVectorMax F32 (host false false) (context true false F32)
    [f32_pos_zero; f32_1; f32_neg_zero; f32_2]
    [f32_neg_zero; f32_3; f32_pos_zero; f32_1]
  = EmitFPVectorMax F32 (host false false) (context true false F32)
      [f32_neg_zero; f32_3; f32_pos_zero; f32_1]
      [f32_pos_zero; f32_1; f32_neg_zero; f32_2] /\
  EmitFPVectorMin F32 (host false false) (context true false F32)
    [f32_pos_zero; f32_1; f32_neg_zero; f32_2]
    [f32_neg_zero; f32_3; f32_pos_zero; f32_1]
  = EmitFPVectorMin F32 (host false false) (context true false F32)
      [f32_neg_zero; f32_3; f32_pos_zero; f32_1]
      [f32_pos_zero; f32_1; f32_neg_zero; f32_2].
Proof.
  do 5 (split; [vm_compute; reflexivity|]).
  split; [vm_compute; discriminate|].
  apply (min_max_commute F32 (host false false) (context true false F32)
           [f32_pos_zero; f32_1; f32_neg_zero; f32_2]
           [f32_neg_zero; f32_3; f32_pos_zero; f32_1]);
    vm_compute; reflexivity.
Defined.

End MinMaxCommute.

Section AbsNeg.
Import FP X64 BackendX64.

Lemma land_lxor_distr_l (a b c : Z) :
  Z.land (Z.lxor a b) c = Z.lxor (Z.land a c) (Z.land b c).
Proof.
  apply Z.bits_inj'. intros k _.
  rewrite !Z.land_spec, !Z.lxor_spec, !Z.land_spec.
  destruct (Z.testbit a k), (Z.testbit b k), (Z.testbit c k); reflexivity.
Qed.

Lemma below_sign_clear (fsize : FSize) (x k : Z) :
  Z.land (Z.ones (bitsize fsize - 1)) k = k ->
  Z.land (clear_sign fsize x) k = Z.land x k.
Proof.
  intros Hk. unfold clear_sign. rewrite <- Z.land_assoc, Hk. reflexivity.
Qed.

Lemma below_sign_flip (fsize : FSize) (x k : Z) :
  Z.land (sign_mask fsize) k = 0 ->
  Z.land (flip_sign fsize x) k = Z.land x k.
Proof.
  intros Hk. unfold flip_sign.
  rewrite land_lxor_distr_l, Hk. apply Z.lxor_0_r.
Qed.

Lemma exponent_below_sign (fsize : FSize) :
  Z.land (Z.ones (bitsize fsize - 1)) (exponent_mask fsize)
  = exponent_mask fsize /\
  Z.land (sign_mask fsize) (exponent_mask fsize) = 0.
Proof. destruct fsize; split; reflexivity. Qed.

Lemma mantissa_below_sign (fsize : FSize) :
  Z.land (Z.ones (bitsize fsize - 1)) (mantissa_mask fsize)
  = mantissa_mask fsize /\
  Z.land (sign_mask fsize) (mantissa_mask fsize) = 0.
Proof. destruct fsize; split; reflexivity. Qed.

Lemma magnitude_below_sign (fsize : FSize) :
  Z.land (Z.ones (bitsize fsize - 1)) (Z.ones (bitsize fsize - 1))
  = Z.ones (bitsize fsize - 1) /\
  Z.land (sign_mask fsize) (Z.ones (bitsize fsize - 1)) = 0.
Proof. destruct fsize; split; reflexivity. Qed.

Lemma sign_bit_clear (fsize : FSize) (x : Z) :
  sign_bit fsize (clear_sign fsize x) = false.
Proof.
  unfold sign_bit, clear_sign.
  rewrite Z.land_spec.
  replace (Z.testbit (Z.ones (bitsize fsize - 1)) (bitsize fsize - 1))
    with false by (destruct fsize; reflexivity).
  apply andb_false_r.
Qed.

Lemma sign_bit_flip (fsize : FSize) (x : Z) :
  sign_bit fsize (flip_sign fsize x) = negb (sign_bit fsize x).
Proof.
  unfold sign_bit, flip_sign.
  rewrite Z.lxor_spec.
  replace (Z.testbit (sign_mask fsize) (bitsize fsize - 1))
    with true by (destruct fsize; reflexivity).
  apply xorb_true_r.
Qed.

Lemma decode_clear_sign (fsize : FSize) (x : Z) :
  decode fsize (clear_sign fsize x) = SFabs (decode fsize x).
Proof.
  destruct (exponent_below_sign fsize) as [He _].
  destruct (mantissa_below_sign fsize) as [Hm _].
  destruct (magnitude_below_sign fsize) as [Hg _].
  unfold decode, IsNaN, IsInf, FP.IsZero.
  rewrite sign_bit_clear.
  rewrite !(below_sign_clear fsize x _ He), !(below_sign_clear fsize x _ Hm),
    !(below_sign_clear fsize x _ Hg).
  repeat case_match; reflexivity.
Qed.

Lemma decode_flip_sign (fsize : FSize) (x : Z) :
  decode fsize (flip_sign fsize x) = SFopp (decode fsize x).
Proof.
  destruct (exponent_below_sign fsize) as [_ He].
  destruct (mantissa_below_sign fsize) as [_ Hm].
  destruct (magnitude_below_sign fsize) as [_ Hg].
  unfold decode, IsNaN, IsInf, FP.IsZero.
  rewrite sign_bit_flip.
  rewrite !(below_sign_flip fsize x _ He), !(below_sign_flip fsize x _ Hm),
    !(below_sign_flip fsize x _ Hg).
  repeat case_match; reflexivity.
Qed.

Lemma Abs_lanes (a32 a64 : Vec) :
  valid_vec F32 a32 = true -> valid_vec F64 a64 = true ->
  EmitFPVectorAbs32 a32 = clear_sign F32 <$> a32 /\
  EmitFPVectorAbs64 a64 = clear_sign F64 <$> a64.
Proof.
  intros H32 H64. split.
  - exact (zip_with_replicate_lanes F32 Z.land a32 _ H32).
  - exact (zip_with_replicate_lanes F64 Z.land a64 _ H64).
Qed.

Lemma Neg_lanes (a32 a64 : Vec) :
  valid_vec F32 a32 = true -> valid_vec F64 a64 = true ->
  EmitFPVectorNeg32 a32 = flip_sign F32 <$> a32 /\
  EmitFPVectorNeg64 a64 = flip_sign F64 <$> a64.
Proof.
  intros H32 H64. split.
  - exact (zip_with_replicate_lanes F32 Z.lxor a32 _ H32).
  - exact (zip_with_replicate_lanes F64 Z.lxor a64 _ H64).
Qed.

(** [FPVectorAbs] and [FPVectorNeg] act on the sign bit alone, in both
    lane sizes: every lane of the result is the lane of the operand
    with the sign bit cleared or flipped and all other bits kept, so a
    NaN lane keeps its payload and no lane is made quiet or replaced by
    the default NaN; read as IEEE-754 values, the lanes of the result
    are the absolute values and the opposites of the lanes of the
    operand, NaN lanes and infinities included. *)
Theorem abs_neg_lanes (a32 a64 : Vec) :
  valid_vec F32 a32 = true -> valid_vec F64 a64 = true ->
  (forall i x, a32 !! i = Some x ->
     EmitFPVectorAbs32 a32 !! i = Some (Z.land x 0x7FFFFFFF) /\
     EmitFPVectorNeg32 a32 !! i = Some (Z.lxor x 0x80000000)) /\
  (forall i x, a64 !! i = Some x ->
     EmitFPVectorAbs64 a64 !! i = Some (Z.land x 0x7FFFFFFFFFFFFFFF) /\
     EmitFPVectorNeg64 a64 !! i = Some (Z.lxor x 0x8000000000000000)) /\
  (forall fsize i x,
     match fsize with F32 => a32 | F64 => a64 end !! i = Some x ->
     IsNaN fsize x = true ->
     exists r n,
       match fsize with
       | F32 => EmitFPVectorAbs32 a32
       | F64 => EmitFPVectorAbs64 a64
       end !! i = Some r /\
       match fsize with
       | F32 => EmitFPVectorNeg32 a32
       | F64 => EmitFPVectorNeg64 a64
       end !! i = Some n /\
       IsNaN fsize r = true /\ IsNaN fsize n = true /\
       IsSNaN fsize r = IsSNaN fsize x /\
       IsSNaN fsize n = IsSNaN fsize x /\
       Z.land r (mantissa_mask fsize) = Z.land x (mantissa_mask fsize) /\
       Z.land n (mantissa_mask fsize) = Z.land x (mantissa_mask fsize)) /\
  decode F32 <$> EmitFPVectorAbs32 a32 = SFabs <$> (decode F32 <$> a32) /\
  decode F64 <$> EmitFPVectorAbs64 a64 = SFabs <$> (decode F64 <$> a64) /\
  decode F32 <$> EmitFPVectorNeg32 a32 = SFopp <$> (decode F32 <$> a32) /\
  decode F64 <$> EmitFPVectorNeg64 a64 = SFopp <$> (decode F64 <$> a64).
Proof.
  intros H32 H64.
  destruct (Abs_lanes a32 a64 H32 H64) as [-> ->].
  destruct (Neg_lanes a32 a64 H32 H64) as [-> ->].
  rewrite <- !list_fmap_compose.
  split.
  { intros i x Hx. rewrite !list_lookup_fmap, Hx. split; reflexivity. }
  split.
  { intros i x Hx. rewrite !list_lookup_fmap, Hx. split; reflexivity. }
  split.
  { intros fsize i x Hx Hnan.
    exists (clear_sign fsize x), (flip_sign fsize x).
    split; [destruct fsize; rewrite list_lookup_fmap, Hx; reflexivity|].
    split; [destruct fsize; rewrite list_lookup_fmap, Hx; reflexivity|].
    destruct (exponent_below_sign fsize) as [He He'].
    destruct (mantissa_below_sign fsize) as [Hm Hm'].
    assert (Hmsb : Z.land (Z.ones (bitsize fsize - 1)) (mantissa_msb fsize)
                   = mantissa_msb fsize /\
                   Z.land (sign_mask fsize) (mantissa_msb fsize) = 0)
      by (destruct fsize; split; reflexivity).
    destruct Hmsb as [Hq Hq'].
    unfold IsSNaN, IsNaN in *.
    rewrite !(below_sign_clear fsize x _ He),
      !(below_sign_clear fsize x _ Hm), !(below_sign_clear fsize x _ Hq).
    rewrite !(below_sign_flip fsize x _ He'),
      !(below_sign_flip fsize x _ Hm'), !(below_sign_flip fsize x _ Hq').
    repeat split; try reflexivity; exact Hnan. }
  split; [apply list_fmap_ext; intros i x _; apply decode_clear_sign|].
  split; [apply list_fmap_ext; intros i x _; apply decode_clear_sign|].
  split; [apply list_fmap_ext; intros i x _; apply decode_flip_sign|].
  apply list_fmap_ext; intros i x _; apply decode_flip_sign.
Qed.

Lemma abs_neg_lanes_witness :
  valid_vec F32 [f32_neg_inf; qNaN_a; f32_neg_zero; f32_2] = true /\
  valid_vec F64 [0xBFF0000000000000; 0xFFF0000000000001] = true /\
  EmitFPVectorNeg32 [f32_neg_inf; qNaN_a; f32_neg_zero; f32_2] !! 1%nat
  = Some 0xFFC00001 /\
  EmitFPVectorAbs64 [0xBFF0000000000000; 0xFFF0000000000001] !! 1%nat
  = Some 0x7FF0000000000001 /\
  decode F32 <$> EmitFPVectorAbs32 [f32_neg_inf; qNaN_a; f32_neg_zero; f32_2]
  = SFabs <$> (decode F32 <$> [f32_neg_inf; qNaN_a; f32_neg_zero; f32_2]).
Proof.
  do 2 (split; [vm_compute; reflexivity|]).
  destruct (abs_neg_lanes [f32_neg_inf; qNaN_a; f32_neg_zero; f32_2]
              [0xBFF0000000000000; 0xFFF0000000000001] eq_refl eq_refl)
    as (H32 & H64 & _ & Habs & _).
  split; [exact (proj2 (H32 1%nat qNaN_a eq_refl))|].
  split; [exact (proj1 (H64 1%nat 0xFFF0000000000001 eq_refl))|].
  exact Habs.
Defined.

(** Negating twice gives the operand back, and the absolute value of
    the opposite is the absolute value. *)
Theorem neg_involutive (a32 a64 : Vec) :
  valid_vec F32 a32 = true -> valid_vec F64 a64 = true ->
  EmitFPVectorNeg32 (EmitFPVectorNeg32 a32) = a32 /\
  EmitFPVectorNeg64 (EmitFPVectorNeg64 a64) = a64 /\
  EmitFPVectorAbs32 (EmitFPVectorNeg32 a32) = EmitFPVectorAbs32 a32 /\
  EmitFPVectorAbs64 (EmitFPVectorNeg64 a64) = EmitFPVectorAbs64 a64.
Proof.
  intros H32 H64.
  assert (Hflip : forall fsize a, valid_vec fsize a = true ->
            valid_vec fsize (flip_sign fsize <$> a) = true).
  { intros fsize a Ha. unfold valid_vec in *.
    apply andb_true_iff in Ha as [Hlen Hall].
    apply andb_true_iff. split; [rewrite length_fmap; exact Hlen|].
    rewrite forallb_forall in *. intros r Hr.
    apply list_elem_of_In, list_elem_of_fmap in Hr as (x & -> & Hx).
    apply list_elem_of_In, Hall in Hx. unfold flip_sign.
    rewrite <- (land_all_ones fsize x Hx).
    replace (sign_mask fsize)
      with (Z.land (sign_mask fsize) (all_ones fsize))
      by (destruct fsize; reflexivity).
    rewrite <- land_lxor_distr_l. apply valid_mod. }
  destruct (Neg_lanes a32 a64 H32 H64) as [E32 E64].
  destruct (Neg_lanes _ _ (Hflip F32 a32 H32) (Hflip F64 a64 H64))
    as [E32' E64'].
  destruct (Abs_lanes _ _ (Hflip F32 a32 H32) (Hflip F64 a64 H64))
    as [A32' A64'].
  destruct (Abs_lanes a32 a64 H32 H64) as [A32 A64].
  rewrite E32, E64, E32', E64', A32', A64', A32, A64.
  rewrite <- !list_fmap_compose.
  assert (Hinv : forall fsize x, flip_sign fsize (flip_sign fsize x) = x).
  { intros fsize x. unfold flip_sign.
    rewrite Z.lxor_assoc, Z.lxor_nilpotent. apply Z.lxor_0_r. }
  assert (Habs : forall fsize x,
            clear_sign fsize (flip_sign fsize x) = clear_sign fsize x).
  { intros fsize x. unfold clear_sign.
    apply (below_sign_flip fsize x).
    destruct fsize; reflexivity. }
  repeat split.
  - rewrite <- (list_fmap_id a32) at 2. apply list_fmap_ext.
    intros i x _. apply Hinv.
  - rewrite <- (list_fmap_id a64) at 2. apply list_fmap_ext.
    intros i x _. apply Hinv.
  - apply list_fmap_ext. intros i x _. apply Habs.
  - apply list_fmap_ext. intros i x _. apply Habs.
Qed.

Lemma neg_involutive_witness :
  valid_vec F32 [f32_neg_inf; qNaN_a; f32_neg_zero; f32_2] = true /\
  valid_vec F64 [0xBFF0000000000000; 0x7FF0000000000001] = true /\
  EmitFPVectorNeg32 [f32_neg_inf; qNaN_a; f32_neg_zero; f32_2]
  = [f32_pos_inf; 0xFFC00001; f32_pos_zero; 0xC0000000] /\
  EmitFPVectorNeg32
    (EmitFPVectorNeg32 [f32_neg_inf; qNaN_a; f32_neg_zero; f32_2])
  = [f32_neg_inf; qNaN_a; f32_neg_zero; f32_2].
Proof.
  do 3 (split; [vm_compute; reflexivity|]).
  apply (neg_involutive [f32_neg_inf; qNaN_a; f32_neg_zero; f32_2]
           [0xBFF0000000000000; 0x7FF0000000000001]);
    vm_compute; reflexivity.
Defined.

End AbsNeg.

Section NaNHandlers.
Import FP X64 BackendX64.

Lemma bits_to_Z_app (l1 l2 : list bool) :
  (bits_to_Z (l1 ++ l2) =? 0)
  = (bits_to_Z l1 =? 0) && (bits_to_Z l2 =? 0).
Proof.
  induction l1 as [|b l1 IH]; [reflexivity|].
  cbn [app bits_to_Z fold_right]. fold (bits_to_Z (l1 ++ l2)).
  fold (bits_to_Z l1).
  pose proof (bits_to_Z_nonneg (l1 ++ l2)) as H12.
  pose proof (bits_to_Z_nonneg l1) as H1.
  destruct (Z.eqb_spec (bits_to_Z (l1 ++ l2)) 0) as [E12|N12];
    destruct (Z.eqb_spec (bits_to_Z l1) 0) as [E1|N1];
    destruct (Z.eqb_spec (bits_to_Z l2) 0) as [E2|N2];
    cbn [andb] in IH; try discriminate IH;
    destruct b; cbn [Z.b2z andb];
    repeat match goal with
           | |- context [?x =? 0] =>
             destruct (Z.eqb_spec x 0); try lia
           end; reflexivity.
Qed.

(** The test of [HandleNaNs] on a mask of all-ones and zero lanes: the
    jump to the far code is taken when some lane is set, with [ptest]
    and with [movmskps] alike. *)
Lemma jnz_taken_iff (fsize : FSize) (code : BlockOfCode)
  (ps : list bool) :
  let mask := (fun p : bool => if p then all_ones fsize else 0) <$> ps in
  (if DoesCpuSupport code tSSE41 then negb (ptest_ZF mask mask)
   else negb (movmskps fsize mask =? 0))
  = existsb (fun p => p) ps.
Proof.
  intros mask. subst mask. destruct (DoesCpuSupport code tSSE41).
  - unfold ptest_ZF, andps. induction ps as [|p ps IH]; [reflexivity|].
    cbn [fmap list_fmap zip_with forallb existsb].
    rewrite negb_andb, IH, Z.land_diag.
    destruct p; [|reflexivity].
    destruct fsize; reflexivity.
  - unfold movmskps. induction ps as [|p ps IH]; [reflexivity|].
    cbn [fmap list_fmap flat_map existsb].
    rewrite bits_to_Z_app, negb_andb, IH.
    destruct p; destruct fsize; reflexivity.
Qed.

Lemma three_op_mask (fsize : FSize) (a : Vec) :
  forall b X : Vec, length a = length b -> length a = length X ->
  exists ps,
    cmpunordp fsize (cmpunordp fsize b a) X
    = (fun p : bool => if p then all_ones fsize else 0) <$> ps /\
    existsb (fun p => p) ps
    = has_nan fsize a || has_nan fsize b || has_nan fsize X.
Proof.
  induction a as [|x a IH]; intros [|y b] [|r X] Hb HX;
    try discriminate Hb; try discriminate HX.
  - exists []. split; reflexivity.
  - destruct (IH b X) as (ps & Hmask & Hex);
      [simpl in Hb; lia|simpl in HX; lia|].
    exists ((IsNaN fsize x || IsNaN fsize y || IsNaN fsize r) :: ps).
    split.
    + unfold cmpunordp, cmpp in *. cbn [zip_with fmap list_fmap].
      rewrite nan_mask_lane. f_equal. exact Hmask.
    + unfold has_nan in *. cbn [existsb]. rewrite Hex.
      destruct (IsNaN fsize x), (IsNaN fsize y), (IsNaN fsize r),
        (existsb (IsNaN fsize) a), (existsb (IsNaN fsize) b); reflexivity.
Qed.

Lemma four_op_mask (fsize : FSize) (a : Vec) :
  forall b c X : Vec,
    length a = length b -> length a = length c -> length a = length X ->
  exists ps,
    cmpunordp fsize (cmpunordp fsize (cmpunordp fsize b a) c) X
    = (fun p : bool => if p then all_ones fsize else 0) <$> ps /\
    existsb (fun p => p) ps
    = has_nan fsize a || has_nan fsize b || has_nan fsize c
      || has_nan fsize X.
Proof.
  induction a as [|x a IH]; intros [|y b] [|z c] [|r X] Hb Hc HX;
    try discriminate Hb; try discriminate Hc; try discriminate HX.
  - exists []. split; reflexivity.
  - destruct (IH b c X) as (ps & Hmask & Hex);
      [simpl in Hb; lia|simpl in Hc; lia|simpl in HX; lia|].
    exists ((IsNaN fsize x || IsNaN fsize y || IsNaN fsize z
             || IsNaN fsize r) :: ps).
    split.
    + unfold cmpunordp, cmpp in *. cbn [zip_with fmap list_fmap].
      f_equal; [|exact Hmask].
      unfold cmp_lane. rewrite !UNORD_compare.
      destruct (IsNaN fsize y), (IsNaN fsize x); simpl;
        rewrite ?IsNaN_all_ones, ?IsNaN_zero; simpl;
        destruct (IsNaN fsize z); simpl;
        rewrite ?IsNaN_all_ones, ?IsNaN_zero; reflexivity.
    + unfold has_nan in *. cbn [existsb]. rewrite Hex.
      destruct (IsNaN fsize x), (IsNaN fsize y), (IsNaN fsize z),
        (IsNaN fsize r), (existsb (IsNaN fsize) a),
        (existsb (IsNaN fsize) b), (existsb (IsNaN fsize) c);
        reflexivity.
Qed.

Lemma three_op_handler (fsize : FSize) (code : BlockOfCode)
  (ctx : EmitContext) (fn : Vec -> Vec -> Vec)
  (nan_handler : list Vec -> list Vec) (a b : Vec) :
  AccurateNaN ctx = true -> FPSCR_DN ctx = false ->
  valid_vec fsize a = true -> valid_vec fsize b = true ->
  valid_vec fsize (fn a b) = true ->
  EmitThreeOpVectorOperation fsize code ctx fn nan_handler a b
  = if has_nan fsize a || has_nan fsize b || has_nan fsize (fn a b)
    then default [] (nan_handler [fn a b; a; b] !! 0%nat)
    else fn a b.
Proof.
  intros Hacc HDN Ha Hb HX. unfold EmitThreeOpVectorOperation.
  rewrite Hacc, HDN. cbv zeta. simpl negb. simpl orb. cbv iota.
  unfold HandleNaNs, movaps.
  destruct (three_op_mask fsize a b (fn a b)) as (ps & -> & <-).
  { rewrite (valid_vec_length fsize a Ha), (valid_vec_length fsize b Hb).
    reflexivity. }
  { rewrite (valid_vec_length fsize a Ha), (valid_vec_length fsize _ HX).
    reflexivity. }
  rewrite (jnz_taken_iff fsize code ps). reflexivity.
Qed.

Lemma four_op_handler (fsize : FSize) (code : BlockOfCode)
  (ctx : EmitContext) (fn : Vec -> Vec -> Vec -> Vec)
  (nan_handler : list Vec -> list Vec) (a b c : Vec) :
  AccurateNaN ctx = true -> FPSCR_DN ctx = false ->
  valid_vec fsize a = true -> valid_vec fsize b = true ->
  valid_vec fsize c = true ->
  valid_vec fsize (fn a b c) = true ->
  EmitFourOpVectorOperation fsize code ctx fn nan_handler a b c
  = if has_nan fsize a || has_nan fsize b || has_nan fsize c
       || has_nan fsize (fn a b c)
    then default [] (nan_handler [fn a b c; a; b; c] !! 0%nat)
    else fn a b c.
Proof.
  intros Hacc HDN Ha Hb Hc HX. unfold EmitFourOpVectorOperation.
  rewrite Hacc, HDN. cbv zeta. simpl negb. simpl orb. cbv iota.
  unfold HandleNaNs, movaps.
  destruct (four_op_mask fsize a b c (fn a b c)) as (ps & -> & <-).
  { rewrite (valid_vec_length fsize a Ha), (valid_vec_length fsize b Hb).
    reflexivity. }
  { rewrite (valid_vec_length fsize a Ha), (valid_vec_length fsize c Hc).
    reflexivity. }
  { rewrite (valid_vec_length fsize a Ha), (valid_vec_length fsize _ HX).
    reflexivity. }
  rewrite (jnz_taken_iff fsize code ps). reflexivity.
Qed.

(** With accurate NaNs and default-NaN mode off, the NaN handler of a
    two-input and of a three-input operation is called exactly when
    some lane of an operand or of the host result is a NaN, whether the
    host tests the mask with [ptest] or with [movmskps]; the value is
    then what the handler leaves in [values[0]], and the host result
    otherwise.  This holds for every handler. *)
Theorem nan_handler_called_on_nan (fsize : FSize) (code : BlockOfCode)
  (ctx : EmitContext) (fn2 : Vec -> Vec -> Vec)
  (fn3 : Vec -> Vec -> Vec -> Vec)
  (nan_handler : list Vec -> list Vec) (a b c : Vec) :
  AccurateNaN ctx = true -> FPSCR_DN ctx = false ->
  valid_vec fsize a = true -> valid_vec fsize b = true ->
  valid_vec fsize c = true ->
  valid_vec fsize (fn2 a b) = true ->
  valid_vec fsize (fn3 a b c) = true ->
  EmitThreeOpVectorOperation fsize code ctx fn2 nan_handler a b
  = (if has_nan fsize a || has_nan fsize b || has_nan fsize (fn2 a b)
     then default [] (nan_handler [fn2 a b; a; b] !! 0%nat)
     else fn2 a b) /\
  EmitFourOpVectorOperation fsize code ctx fn3 nan_handler a b c
  = (if has_nan fsize a || has_nan fsize b || has_nan fsize c
        || has_nan fsize (fn3 a b c)
     then default [] (nan_handler [fn3 a b c; a; b; c] !! 0%nat)
     else fn3 a b c).
Proof.
  intros Hacc HDN Ha Hb Hc H2 H3. split.
  - apply three_op_handler; assumption.
  - apply four_op_handler; assumption.
Qed.

(** A handler that answers zeros, on a host without SSE4.1, for the
    addition of a register with a NaN lane and for an unfused
    multiply-add without one. *)
Lemma nan_handler_called_on_nan_witness :
  AccurateNaN (context true false F32) = true /\
  FPSCR_DN (context true false F32) = false /\
  valid_vec F32 [f32_1; f32_1; f32_1; qNaN_a] = true /\
  valid_vec F32 [f32_2; f32_2; f32_2; f32_2] = true /\
  valid_vec F32 [f32_1; f32_1; f32_1; f32_1] = true /\
  has_nan F32 [f32_1; f32_1; f32_1; qNaN_a] = true /\
  EmitThreeOpVectorOperation F32 (host false false)
    (context true false F32) (addp F32)
    (fun values => [[0; 0; 0; 0]])
    [f32_1; f32_1; f32_1; qNaN_a] [f32_2; f32_2; f32_2; f32_2]
  = (if has_nan F32 [f32_1; f32_1; f32_1; qNaN_a]
        || has_nan F32 [f32_2; f32_2; f32_2; f32_2]
        || has_nan F32 (addp F32 [f32_1; f32_1; f32_1; qNaN_a]
                                 [f32_2; f32_2; f32_2; f32_2])
     then [0; 0; 0; 0]
     else addp F32 [f32_1; f32_1; f32_1; qNaN_a]
                   [f32_2; f32_2; f32_2; f32_2]) /\
  EmitFourOpVectorOperation F32 (host false false)
    (context true false F32) (fun x y z => addp F32 x (mulp F32 y z))
    (fun values => [[0; 0; 0; 0]])
    [f32_1; f32_1; f32_1; qNaN_a] [f32_2; f32_2; f32_2; f32_2]
    [f32_1; f32_1; f32_1; f32_1]
  = (if has_nan F32 [f32_1; f32_1; f32_1; qNaN_a]
        || has_nan F32 [f32_2; f32_2; f32_2; f32_2]
        || has_nan F32 [f32_1; f32_1; f32_1; f32_1]
        || has_nan F32 (addp F32 [f32_1; f32_1; f32_1; qNaN_a]
                          (mulp F32 [f32_2; f32_2; f32_2; f32_2]
                                    [f32_1; f32_1; f32_1; f32_1]))
     then [0; 0; 0; 0]
     else addp F32 [f32_1; f32_1; f32_1; qNaN_a]
            (mulp F32 [f32_2; f32_2; f32_2; f32_2]
                      [f32_1; f32_1; f32_1; f32_1])).
Proof.
  do 6 (split; [vm_compute; reflexivity|]).
  apply (nan_handler_called_on_nan F32 (host false false)
           (context true false F32) (addp F32)
           (fun x y z => addp F32 x (mulp F32 y z))
           (fun values => [[0; 0; 0; 0]])
           [f32_1; f32_1; f32_1; qNaN_a] [f32_2; f32_2; f32_2; f32_2]
           [f32_1; f32_1; f32_1; f32_1]);
    vm_compute; reflexivity.
Defined.

End NaNHandlers.

Section MulAddLanes.
Import FP X64 BackendX64.

Variable vfmadd231p : FSize -> Vec -> Vec -> Vec -> Vec.
Variable FPMulAdd : FSize -> Z -> Z -> Z -> Z -> Z.
Variable ProcessNaNs3 : FSize -> Z -> Z -> Z -> option Z.

(** On a host with FMA, with accurate NaNs and default-NaN mode off: a
    lane of [FPVectorMulAdd] whose addend is a quiet NaN and whose
    factors are an infinity and a zero is the default NaN, whatever
    [FP::ProcessNaNs] answers for it; when no lane of the operands or
    of the host result is a NaN, the lane is the host result; in every
    other case the lane is the answer of [FP::ProcessNaNs] on addend
    and factors when it gives one, and else the host lane, with the
    default NaN in the place of a NaN. *)
Theorem MulAdd_accurate_lanes (fsize : FSize) (code : BlockOfCode)
  (ctx : EmitContext) (a b c : Vec) (i : nat) (x y z r : Z) :
  DoesCpuSupport code tFMA = true ->
  AccurateNaN ctx = true -> FPSCR_DN ctx = false ->
  valid_vec fsize a = true -> valid_vec fsize b = true ->
  valid_vec fsize c = true ->
  valid_vec fsize (vfmadd231p fsize a b c) = true ->
  a !! i = Some x -> b !! i = Some y -> c !! i = Some z ->
  vfmadd231p fsize a b c !! i = Some r ->
  let emitted :=
    EmitFPVectorMulAdd vfmadd231p FPMulAdd ProcessNaNs3 fsize code ctx
      a b c in
  let inf_times_zero :=
    (IsInf fsize y && IsZero fsize z) || (IsZero fsize y && IsInf fsize z) in
  let some_nan :=
    has_nan fsize a || has_nan fsize b || has_nan fsize c
    || has_nan fsize (vfmadd231p fsize a b c) in
  (IsQNaN fsize x && inf_times_zero = true ->
   emitted !! i = Some (DefaultNaN fsize)) /\
  (some_nan = false -> emitted !! i = Some r) /\
  (some_nan = true -> IsQNaN fsize x && inf_times_zero = false ->
   emitted !! i
   = Some match ProcessNaNs3 fsize x y z with
          | Some r' => r'
          | None => if IsNaN fsize r then DefaultNaN fsize else r
          end).
Proof.
  intros HFMA Hacc HDN Ha Hb Hc HX Hx Hy Hz Hr emitted inf_times_zero
    some_nan.
  assert (Hlane : lane a i = x /\ lane b i = y /\ lane c i = z).
  { unfold lane. rewrite Hx, Hy, Hz. repeat split; reflexivity. }
  destruct Hlane as (Hla & Hlb & Hlc).
  assert (Hem : emitted
                = if some_nan
                  then default []
                         (MulAdd_nan_handler ProcessNaNs3 fsize
                            [vfmadd231p fsize a b c; a; b; c] !! 0%nat)
                  else vfmadd231p fsize a b c).
  { subst emitted. unfold EmitFPVectorMulAdd. rewrite HFMA.
    apply four_op_handler; assumption. }
  assert (Hcalled : some_nan = true ->
            emitted !! i
            = Some (if IsQNaN fsize x && inf_times_zero
                    then DefaultNaN fsize
                    else match ProcessNaNs3 fsize x y z with
                         | Some r' => r'
                         | None => if IsNaN fsize r then DefaultNaN fsize
                                   else r
                         end)).
  { intros Hnan. rewrite Hem, Hnan. unfold MulAdd_nan_handler.
    cbn [lookup list_lookup default from_option insert list_insert].
    unfold id. rewrite list_lookup_imap, Hr. cbn [fmap option_fmap option_map].
    rewrite Hla, Hlb, Hlc. reflexivity. }
  split; [|split].
  - intros Hspecial. rewrite Hcalled; [rewrite Hspecial; reflexivity|].
    subst some_nan. destruct (has_nan fsize a) eqn:Hna; [reflexivity|].
    pose proof (has_nan_lookup fsize a i x Hna Hx) as Hnx.
    unfold IsQNaN in Hspecial. rewrite Hnx in Hspecial.
    discriminate Hspecial.
  - intros Hnan. rewrite Hem, Hnan. exact Hr.
  - intros Hnan Hspecial. rewrite (Hcalled Hnan), Hspecial. reflexivity.
Qed.

End MulAddLanes.

Section MulAddExamples.
Import FP X64 BackendX64.

(** The unfused multiply-add in the place of the host instruction: a
    quiet NaN addend with the factors infinity and zero gives the
    default NaN, not the addend. *)
Lemma MulAdd_accurate_lanes_witness :
  DoesCpuSupport host_fma tFMA = true /\
  AccurateNaN (context true false F32) = true /\
  FPSCR_DN (context true false F32) = false /\
  valid_vec F32 [qNaN_a; qNaN_a; f32_1; f32_1] = true /\
  valid_vec F32 [f32_pos_inf; f32_2; sNaN_c; f32_2] = true /\
  valid_vec F32 [f32_pos_zero; f32_2; f32_2; f32_3] = true /\
  EmitFPVectorMulAdd (fun fsize x y z => addp fsize x (mulp fsize y z))
    (fun _ _ _ _ _ => 0) (fun _ _ _ _ => None)
    F32 host_fma (context true false F32)
    [qNaN_a; qNaN_a; f32_1; f32_1] [f32_pos_inf; f32_2; sNaN_c; f32_2]
    [f32_pos_zero; f32_2; f32_2; f32_3] !! 0%nat
  = Some (DefaultNaN F32).
Proof.
  do 6 (split; [vm_compute; reflexivity|]).
  refine (proj1 (MulAdd_accurate_lanes
             (fun fsize x y z => addp fsize x (mulp fsize y z))
             (fun _ _ _ _ _ => 0) (fun _ _ _ _ => None)
             F32 host_fma (context true false F32)
             [qNaN_a; qNaN_a; f32_1; f32_1]
             [f32_pos_inf; f32_2; sNaN_c; f32_2]
             [f32_pos_zero; f32_2; f32_2; f32_3]
             0%nat qNaN_a f32_pos_inf f32_pos_zero qNaN_a
             eq_refl eq_refl eq_refl eq_refl eq_refl eq_refl eq_refl
             eq_refl eq_refl eq_refl _) eq_refl).
  vm_compute. reflexivity.
Defined.

End MulAddExamples.

Section ToFixedLanes.
Import FP X64 BackendX64.

Lemma cmp_lane_cases (fsize : FSize) (pred : option comparison -> bool)
  (x y : Z) :
  cmp_lane fsize pred x y = 0 \/ cmp_lane fsize pred x y = all_ones fsize.
Proof. unfold cmp_lane. destruct (pred _); [right|left]; reflexivity. Qed.

Lemma andn_lane_cases (fsize : FSize) (m s : Z) :
  m = 0 \/ m = all_ones fsize ->
  Z.land (Z.lnot m) s = s \/
  Z.land (Z.land (Z.lnot m) s) (all_ones fsize) = 0.
Proof.
  intros [-> | ->].
  - left. change (Z.lnot 0) with (-1). apply Z.land_m1_l.
  - right. rewrite (Z.land_comm (Z.lnot _)), <- Z.land_assoc.
    rewrite (Z.land_comm (Z.lnot _)), Z.land_lnot_diag. apply Z.land_0_r.
Qed.

Lemma clamp_lanes (fsize : FSize)
  (pred1 pred2 : option comparison -> bool) (L1 L2 U1 U2 R : Vec)
  (i : nat) (s : Z) :
  vandnp (zip_with (cmp_lane fsize pred1) L1 L2)
    (vandnp (zip_with (cmp_lane fsize pred2) U1 U2) R) !! i = Some s ->
  exists r, R !! i = Some r /\
    (s = r \/ Z.land s (all_ones fsize) = 0).
Proof.
  unfold vandnp, andnps. rewrite !lookup_zip_with.
  destruct (L1 !! i) as [l1|]; [|discriminate].
  destruct (L2 !! i) as [l2|]; [|discriminate].
  destruct (U1 !! i) as [u1|]; [|discriminate].
  destruct (U2 !! i) as [u2|]; [|discriminate].
  destruct (R !! i) as [r|]; [|discriminate].
  simpl. intros H. injection H as <-. exists r. split; [reflexivity|].
  destruct (andn_lane_cases fsize _ r (cmp_lane_cases fsize pred2 u1 u2))
    as [-> | Hzero].
  - destruct (andn_lane_cases fsize _ r (cmp_lane_cases fsize pred1 l1 l2))
      as [-> | Hzero]; [left; reflexivity|right; exact Hzero].
  - right. rewrite <- Z.land_assoc, Hzero. apply Z.land_0_r.
Qed.

(** On a host with AVX, and for every rounding mode but
    to-nearest-ties-away, [EmitFPVectorToFixed] hands no value to
    [DefineValue], whatever the operand, the number of fraction bits
    and the signedness; each lane it leaves in the register of the
    operand is a floating-point value rounded to an integral value by
    [vroundp], or has its bits cleared: no lane is converted to an
    integer. *)
Theorem ToFixed_AVX_lanes
  (FPToFixed : Z -> Z -> Z -> bool -> Z -> RoundingMode -> Z)
  (fsize : FSize) (unsigned_ : bool) (code : BlockOfCode)
  (ctx : EmitContext) (arg0 : Vec) (fbits : Z) (rounding : RoundingMode) :
  DoesCpuSupport code tAVX = true ->
  rounding <> ToNearest_TieAwayFromZero ->
  exists src,
    EmitFPVectorToFixed FPToFixed fsize unsigned_ code ctx arg0 fbits
      rounding
    = Some {| DefineValue := None; xmm_src := src |} /\
    forall i s, src !! i = Some s ->
      (exists imm y, s = round_lane fsize imm y) \/
      Z.land s (all_ones fsize) = 0.
Proof.
  intros Havx Hr. unfold EmitFPVectorToFixed. rewrite Havx.
  replace (RoundingMode_eqb rounding ToNearest_TieAwayFromZero) with false
    by (destruct rounding; try reflexivity; congruence).
  cbn [andb negb].
  destruct (fbits =? 0), unsigned_, fsize;
    cbv beta iota zeta delta [Z.eqb negb];
    (eexists; split; [reflexivity|]);
    intros i s Hs;
    unfold vcmpnge_uqp, vcmplt_oqp, vcmpge_oqp, cmpp in Hs;
    apply clamp_lanes in Hs as (r & Hround & [-> | Hzero]);
    try (right; exact Hzero);
    left; unfold vroundp in Hround;
    rewrite list_lookup_fmap in Hround;
    match type of Hround with
    | context [?v !! i] => destruct (v !! i) as [y|]
    end; try discriminate Hround;
    injection Hround as <-; eexists _, y; reflexivity.
Qed.

Lemma ToFixed_AVX_lanes_witness :
  DoesCpuSupport (host true true) tAVX = true /\
  TowardsZero <> ToNearest_TieAwayFromZero /\
  exists src,
    EmitFPVectorToFixed (fun _ _ _ _ _ _ => 0) F32 false (host true true)
      (context false false F32) [f32_pos_inf; f32_neg_inf; qNaN_a; f32_1]
      0 TowardsZero
    = Some {| DefineValue := None; xmm_src := src |} /\
    forall i s, src !! i = Some s ->
      (exists imm y, s = round_lane F32 imm y) \/
      Z.land s (all_ones F32) = 0.
Proof.
  split; [reflexivity|]. split; [discriminate|].
  apply (ToFixed_AVX_lanes (fun _ _ _ _ _ _ => 0) F32 false
           (host true true) (context false false F32)
           [f32_pos_inf; f32_neg_inf; qNaN_a; f32_1] 0 TowardsZero).
  - reflexivity.
  - discriminate.
Defined.

End ToFixedLanes.

Section PairedAddLower.
Import FP X64 BackendX64.

Lemma xorps_diag (z : Vec) : xorps z z = replicate (length z) 0.
Proof.
  unfold xorps. induction z as [|x z IH]; [reflexivity|].
  cbn [zip_with length replicate]. rewrite Z.lxor_nilpotent, IH.
  reflexivity.
Qed.

Lemma add_zeros (fsize : FSize) :
  arith2 fsize (SFadd (prec fsize) (emax fsize)) 0 0 = 0.
Proof. destruct fsize; vm_compute; reflexivity. Qed.

(** The host function of [FPVectorPairedAddLower]: the pair sums in the
    low half, zeros in the high half. *)
Lemma PairedAddLower_fn (fsize : FSize) (z a b : Vec) :
  length z = lanes fsize ->
  valid_vec fsize a = true -> valid_vec fsize b = true ->
  exists low,
    length low = (lanes fsize / 2)%nat /\
    haddp fsize (punpcklqdq fsize a b) (xorps z z)
    = low ++ replicate (lanes fsize / 2) 0.
Proof.
  intros Hz Ha Hb. rewrite xorps_diag, Hz.
  apply valid_vec_length in Ha, Hb. unfold haddp, punpcklqdq.
  pose proof (add_zeros fsize) as H0.
  destruct fsize; cbn [lanes] in *.
  - destruct a as [|a0 [|a1 [|a2 [|a3 [|]]]]]; try discriminate Ha.
    destruct b as [|b0 [|b1 [|b2 [|b3 [|]]]]]; try discriminate Hb.
    change (4 / 2)%nat with 2%nat.
    cbn [take app pair_sums replicate]. rewrite H0.
    eexists [_; _]. split; reflexivity.
  - destruct a as [|a0 [|a1 [|]]]; try discriminate Ha.
    destruct b as [|b0 [|b1 [|]]]; try discriminate Hb.
    change (2 / 2)%nat with 1%nat.
    cbn [take app pair_sums replicate]. rewrite H0.
    eexists [_]. split; reflexivity.
Qed.

Lemma PairedLowerIndexer_upper (fsize : FSize) (i : nat) (a b : Vec) :
  (lanes fsize / 2 <= i)%nat ->
  Indexer_call fsize PairedLowerIndexer i a b = (0, 0).
Proof.
  intros Hi. destruct fsize; cbn [lanes] in Hi.
  - change (4 / 2)%nat with 2%nat in Hi.
    destruct i as [|[|i]]; [lia|lia|reflexivity].
  - change (2 / 2)%nat with 1%nat in Hi.
    destruct i as [|i]; [lia|reflexivity].
Qed.

(** The high half of the value of [FPVectorPairedAddLower] is zero, in
    every NaN mode. *)
Theorem PairedAddLower_upper_lanes_zero (fsize : FSize)
  (code : BlockOfCode) (ctx : EmitContext) (a b : Vec) (i : nat) :
  valid_vec fsize a = true -> valid_vec fsize b = true ->
  valid_vec fsize (ScratchXmm (reg_alloc ctx) 1) = true ->
  length (ScratchXmm (reg_alloc ctx) 2) = lanes fsize ->
  valid_vec fsize
    (haddp fsize (punpcklqdq fsize a b)
       (xorps (ScratchXmm (reg_alloc ctx) 2) (ScratchXmm (reg_alloc ctx) 2)))
  = true ->
  (lanes fsize / 2 <= i < lanes fsize)%nat ->
  EmitFPVectorPairedAddLower fsize code ctx a b !! i = Some 0.
Proof.
  intros Ha Hb HT Hz HX Hi. unfold EmitFPVectorPairedAddLower.
  set (fn := fun result xmm_b : Vec => _).
  assert (Hfn : fn a b
                = haddp fsize (punpcklqdq fsize a b)
                    (xorps (ScratchXmm (reg_alloc ctx) 2)
                           (ScratchXmm (reg_alloc ctx) 2)))
    by reflexivity.
  destruct (PairedAddLower_fn fsize _ a b Hz Ha Hb) as (low & Hlow & Hsum).
  assert (Hlane : fn a b !! i = Some 0).
  { rewrite Hfn, Hsum, lookup_app_r by lia.
    apply lookup_replicate_2.
    assert (lanes fsize = 2 * (lanes fsize / 2))%nat
      by (destruct fsize; reflexivity).
    lia. }
  destruct (FPSCR_DN ctx) eqn:HDN.
  - rewrite three_op_default_nan by (rewrite ?Hfn; assumption).
    rewrite list_lookup_fmap, Hlane. simpl. unfold default_nan_lane.
    rewrite IsNaN_zero. reflexivity.
  - destruct (AccurateNaN ctx) eqn:Hacc.
    + rewrite three_op_accurate by (rewrite ?Hfn; assumption).
      rewrite list_lookup_imap, Hlane.
      rewrite PairedLowerIndexer_upper by lia.
      unfold accurate_nan_lane. cbn [fst snd fmap option_fmap option_map].
      rewrite IsNaN_zero. reflexivity.
    + rewrite three_op_fast by assumption. exact Hlane.
Qed.

Lemma PairedAddLower_upper_lanes_zero_witness :
  valid_vec F32 [f32_1; f32_2; f32_3; f32_4] = true /\
  valid_vec F32 [f32_2; f32_2; qNaN_a; f32_neg_inf] = true /\
  (lanes F32 / 2 <= 3 < lanes F32)%nat /\
  EmitFPVectorPairedAddLower F32 (host false false) (context true false F32)
    [f32_1; f32_2; f32_3; f32_4] [f32_2; f32_2; qNaN_a; f32_neg_inf]
  = [f32_3; f32_4; 0; 0] /\
  EmitFPVectorPairedAddLower F32 (host false false) (context true false F32)
    [f32_1; f32_2; f32_3; f32_4] [f32_2; f32_2; qNaN_a; f32_neg_inf]
  !! 3%nat = Some 0.
Proof.
  do 2 (split; [vm_compute; reflexivity|]).
  split; [vm_compute; lia|].
  split; [vm_compute; reflexivity|].
  apply (PairedAddLower_upper_lanes_zero F32 (host false false)
           (context true false F32) [f32_1; f32_2; f32_3; f32_4]
           [f32_2; f32_2; qNaN_a; f32_neg_inf] 3);
    try (vm_compute; reflexivity).
  vm_compute. lia.
Defined.

End PairedAddLower.

Section IntegerConversions.
Import FP X64 BackendX64.

(** The three code paths of [FPVectorS64ToDouble] (AVX-512, SSE4.1 and
    plain SSE2) give the same value: each quadword converted on its
    own, as [vcvtqq2pd] does. *)
Theorem S64ToDouble_paths_agree (code : BlockOfCode) (ctx : EmitContext)
  (a : Vec) :
  valid_vec F64 a = true ->
  length (ScratchXmm (reg_alloc ctx) 0) = lanes F64 ->
  length (ScratchXmm (reg_alloc ctx) 1) = lanes F64 ->
  EmitFPVectorS64ToDouble code ctx a = cvt_signed F64 <$> a.
Proof.
  intros Ha H0 H1. apply valid_vec_length in Ha.
  unfold EmitFPVectorS64ToDouble. cbv zeta.
  destruct a as [|q0 [|q1 [|]]]; try discriminate Ha.
  destruct (ScratchXmm (reg_alloc ctx) 0) as [|s0 [|s1 [|]]];
    try discriminate H0.
  destruct (ScratchXmm (reg_alloc ctx) 1) as [|t0 [|t1 [|]]];
    try discriminate H1.
  destruct (DoesCpuSupport code tAVX512VL && DoesCpuSupport code tAVX512DQ);
    [reflexivity|].
  destruct (DoesCpuSupport code tSSE41); reflexivity.
Qed.

Lemma S64ToDouble_paths_agree_witness :
  valid_vec F64 [5; 2 ^ 64 - 3] = true /\
  EmitFPVectorS64ToDouble (host_with []) (context false false F64)
    [5; 2 ^ 64 - 3]
  = [0x4014000000000000; 0xC008000000000000] /\
  EmitFPVectorS64ToDouble (host_with [tSSE41]) (context false false F64)
    [5; 2 ^ 64 - 3]
  = cvt_signed F64 <$> [5; 2 ^ 64 - 3] /\
  EmitFPVectorS64ToDouble (host_with [tAVX512VL; tAVX512DQ])
    (context false false F64) [5; 2 ^ 64 - 3]
  = cvt_signed F64 <$> [5; 2 ^ 64 - 3].
Proof.
  split; [vm_compute; reflexivity|].
  split; [vm_compute; reflexivity|].
  split.
  - apply (S64ToDouble_paths_agree (host_with [tSSE41])
             (context false false F64) [5; 2 ^ 64 - 3]);
      vm_compute; reflexivity.
  - apply (S64ToDouble_paths_agree (host_with [tAVX512VL; tAVX512DQ])
             (context false false F64) [5; 2 ^ 64 - 3]);
      vm_compute; reflexivity.
Defined.

Lemma SFadd_comm (prec emax : Z) (x y : spec_float) :
  SFadd prec emax x y = SFadd prec emax y x.
Proof.
  destruct x as [sx|sx| |sx mx ex], y as [sy|sy| |sy my ey];
    try reflexivity; try (destruct sx, sy; reflexivity).
  unfold SFadd. rewrite (Z.min_comm ex ey).
  rewrite (Z.add_comm (cond_Zopp sx _)). reflexivity.
Qed.

Lemma add_lane_comm (fsize : FSize) (x y : Z) :
  IsNaN fsize x = false ->
  arith2 fsize (SFadd (prec fsize) (emax fsize)) x y
  = arith2 fsize (SFadd (prec fsize) (emax fsize)) y x.
Proof.
  intros Hx. unfold arith2. rewrite Hx.
  destruct (IsNaN fsize y); [reflexivity|].
  rewrite SFadd_comm. reflexivity.
Qed.

Lemma low_half_not_nan (x : Z) :
  IsNaN F32 (Z.lor (Z.land x 0xFFFF) 0x4B000000) = false.
Proof.
  unfold IsNaN.
  replace (Z.land (Z.lor (Z.land x 0xFFFF) 0x4B000000) (exponent_mask F32))
    with 0x4B000000; [reflexivity|].
  rewrite Z.land_lor_distr_l, <- Z.land_assoc.
  change (Z.land 0xFFFF (exponent_mask F32)) with 0.
  rewrite Z.land_0_r. reflexivity.
Qed.

Lemma high_half (x : Z) :
  valid_lane F32 x = true ->
  Z.land (Z.shiftr x 16) 0xFFFF = Z.shiftr x 16.
Proof.
  intros Hx. apply valid_lane_range in Hx. cbn [bitsize] in Hx.
  change 0xFFFF with (Z.ones 16). rewrite Z.land_ones by lia.
  apply Z.mod_small. rewrite Z.shiftr_div_pow2 by lia.
  split; [apply Z.div_pos; lia|].
  apply Z.div_lt_upper_bound; lia.
Qed.

Lemma blend_170 (i : nat) (x y : Z) :
  (i < 4)%nat ->
  blend_lane 170 i x y = Z.lor (Z.land x 0xFFFF) (Z.land y 0xFFFF0000).
Proof.
  intros Hi. unfold blend_lane.
  destruct i as [|[|[|[|i]]]]; try lia; reflexivity.
Qed.

Lemma vpblendw_lookup (src1 src2 : Vec) (imm8 : Z) (i : nat) :
  vpblendw src1 src2 imm8 !! i
  = match src1 !! i, src2 !! i with
    | Some x, Some y => Some (blend_lane imm8 i x y)
    | _, _ => None
    end.
Proof.
  unfold vpblendw. rewrite list_lookup_imap, lookup_zip_with.
  destruct (src1 !! i) as [x|]; [|reflexivity].
  destruct (src2 !! i) as [y|]; reflexivity.
Qed.

(** The value of the code written when AVX-512 is missing: the sum of
    the halves of each lane, each made the mantissa of a float. *)
Lemma U32ToSingle_lanes (code : BlockOfCode) (ctx : EmitContext)
  (a : Vec) :
  valid_vec F32 a = true ->
  DoesCpuSupport code tAVX512DQ && DoesCpuSupport code tAVX512VL = false ->
  EmitFPVectorU32ToSingle code ctx a
  = (fun sum =>
       if RoundingMode_eqb (FPSCR_RMode ctx) TowardsMinusInfinity
       then pand sum (MConst F32 0x7FFFFFFF7FFFFFFF 0x7FFFFFFF7FFFFFFF)
       else sum)
      ((fun x =>
          arith2 F32 (SFadd (prec F32) (emax F32))
            (arith2 F32 (SFadd (prec F32) (emax F32))
               (Z.lor (Z.shiftr x 16) 0x53000000) 0xD3000080)
            (Z.lor (Z.land x 0xFFFF) 0x4B000000)) <$> a).
Proof.
  intros Ha H512. unfold EmitFPVectorU32ToSingle. rewrite H512.
  cbv beta zeta.
  match goal with
  | |- (if _ then pand ?core _ else _) = (if _ then pand ?lanes _ else _) =>
    assert (Hcore : core = lanes); [|rewrite Hcore; reflexivity]
  end.
  apply list_eq. intros i. rewrite list_lookup_fmap.
  destruct (a !! i) as [x|] eqn:Hx.
  - assert (Hi : (i < 4)%nat).
    { pose proof (valid_vec_length F32 a Ha) as Hlen. cbn [lanes] in Hlen.
      rewrite <- Hlen. eapply lookup_lt_Some, Hx. }
    pose proof (valid_vec_lookup F32 a i x Ha Hx) as Hvx.
    assert (H4B : MConst F32 0x4B0000004B000000 0x4B0000004B000000 !! i
                  = Some 0x4B000000)
      by (destruct i as [|[|[|[|i]]]]; try lia; reflexivity).
    assert (H53 : MConst F32 0x5300000053000000 0x5300000053000000 !! i
                  = Some 0x53000000)
      by (destruct i as [|[|[|[|i]]]]; try lia; reflexivity).
    assert (HD3 : MConst F32 0xD3000080D3000080 0xD3000080D3000080 !! i
                  = Some 0xD3000080)
      by (destruct i as [|[|[|[|i]]]]; try lia; reflexivity).
    assert (HFF : MConst F32 0x0000FFFF0000FFFF 0x0000FFFF0000FFFF !! i
                  = Some 0xFFFF)
      by (destruct i as [|[|[|[|i]]]]; try lia; reflexivity).
    destruct (DoesCpuSupport code tAVX).
    + unfold vaddp, addp, vpsrld, psrld.
      rewrite !lookup_zip_with, !vpblendw_lookup, list_lookup_fmap.
      rewrite Hx, H4B, H53, HD3. cbn [fmap option_fmap option_map mbind
        option_bind].
      rewrite !blend_170 by exact Hi.
      change (Z.land 0x4B000000 0xFFFF0000) with 0x4B000000.
      change (Z.land 0x53000000 0xFFFF0000) with 0x53000000.
      rewrite (high_half x Hvx).
      rewrite add_lane_comm by apply low_half_not_nan. reflexivity.
    + unfold addp, por, orps, pand, andps, movdqa, psrld.
      rewrite !lookup_zip_with, list_lookup_fmap.
      rewrite Hx, H4B, H53, HD3, HFF. cbn [fmap option_fmap option_map
        mbind option_bind].
      rewrite (Z.land_comm 0xFFFF x). reflexivity.
  - destruct (DoesCpuSupport code tAVX).
    + unfold vaddp, addp.
      rewrite !lookup_zip_with, !vpblendw_lookup, Hx. reflexivity.
    + unfold addp, por, orps, pand, andps, movdqa, psrld.
      rewrite !lookup_zip_with, list_lookup_fmap, Hx.
      destruct (_ !! i); reflexivity.
Qed.

(** Without AVX-512, [FPVectorU32ToSingle] gives the same value with
    and without AVX: the blends of the one path pick the halves that
    the masks of the other do, and the last addition takes its operands
    in the other order.  (The host additions are those of this model:
    they round to nearest even.) *)
Theorem U32ToSingle_paths_agree (code1 code2 : BlockOfCode)
  (ctx : EmitContext) (a : Vec) :
  valid_vec F32 a = true ->
  DoesCpuSupport code1 tAVX512DQ && DoesCpuSupport code1 tAVX512VL = false ->
  DoesCpuSupport code2 tAVX512DQ && DoesCpuSupport code2 tAVX512VL = false ->
  EmitFPVectorU32ToSingle code1 ctx a = EmitFPVectorU32ToSingle code2 ctx a.
Proof.
  intros Ha H1 H2.
  rewrite (U32ToSingle_lanes code1 ctx a Ha H1).
  rewrite (U32ToSingle_lanes code2 ctx a Ha H2). reflexivity.
Qed.

Lemma U32ToSingle_paths_agree_witness :
  valid_vec F32 [0; 1; 0x12345678; 0xFFFFFFFF] = true /\
  EmitFPVectorU32ToSingle (host_with [tAVX]) (context false false F32)
    [0; 1; 0x12345678; 0xFFFFFFFF]
  = [0; f32_1; 0x4D91A2B4; 0x4F800000] /\
  EmitFPVectorU32ToSingle (host_with [tAVX]) (context false false F32)
    [0; 1; 0x12345678; 0xFFFFFFFF]
  = EmitFPVectorU32ToSingle (host_with []) (context false false F32)
      [0; 1; 0x12345678; 0xFFFFFFFF].
Proof.
  split; [vm_compute; reflexivity|].
  split; [vm_compute; reflexivity|].
  apply (U32ToSingle_paths_agree (host_with [tAVX]) (host_with [])
           (context false false F32) [0; 1; 0x12345678; 0xFFFFFFFF]);
    vm_compute; reflexivity.
Defined.

End IntegerConversions.

Section NoSignallingNaN.
Import FP X64 BackendX64.

Lemma land_lor_absorb (x m : Z) : Z.land (Z.lor x m) m = m.
Proof.
  apply Z.bits_inj'. intros k _. rewrite Z.land_spec, Z.lor_spec.
  destruct (Z.testbit x k), (Z.testbit m k); reflexivity.
Qed.

Lemma Quiet_not_signalling (fsize : FSize) (x : Z) :
  IsSNaN fsize (Quiet fsize x) = false.
Proof.
  unfold IsSNaN, Quiet. rewrite land_lor_absorb.
  replace (mantissa_msb fsize =? 0) with false
    by (destruct fsize; reflexivity).
  apply andb_false_r.
Qed.

Lemma DefaultNaN_not_signalling (fsize : FSize) :
  IsSNaN fsize (DefaultNaN fsize) = false.
Proof. destruct fsize; reflexivity. Qed.

Lemma not_nan_not_signalling (fsize : FSize) (r : Z) :
  IsNaN fsize r = false -> IsSNaN fsize r = false.
Proof. intros H. unfold IsSNaN. rewrite H. reflexivity. Qed.

(** In default-NaN mode, and with accurate NaNs, no lane of the value
    of a two-input vector operation is a signalling NaN, whatever the
    host function and the operands are: a NaN lane is the default NaN
    or an operand made quiet. *)
Theorem no_signalling_nan_lanes (fsize : FSize) (indexer : Indexer)
  (code : BlockOfCode) (ctx : EmitContext) (fn : Vec -> Vec -> Vec)
  (a b : Vec) (i : nat) (r : Z) :
  FPSCR_DN ctx = true \/ AccurateNaN ctx = true ->
  valid_vec fsize a = true -> valid_vec fsize b = true ->
  valid_vec fsize (fn a b) = true ->
  valid_vec fsize (ScratchXmm (reg_alloc ctx) 1) = true ->
  EmitThreeOpVectorOperation fsize code ctx fn
    (NaNHandler_GetDefault fsize indexer) a b !! i = Some r ->
  IsSNaN fsize r = false.
Proof.
  intros Hmode Ha Hb HX HT Hr.
  destruct (FPSCR_DN ctx) eqn:HDN.
  - rewrite three_op_default_nan in Hr by assumption.
    rewrite list_lookup_fmap in Hr.
    destruct (fn a b !! i) as [x|]; [|discriminate Hr].
    injection Hr as <-. unfold default_nan_lane.
    destruct (IsNaN fsize x) eqn:Hx.
    + apply DefaultNaN_not_signalling.
    + apply not_nan_not_signalling, Hx.
  - destruct Hmode as [Hmode|Hacc]; [discriminate Hmode|].
    rewrite three_op_accurate in Hr by assumption.
    rewrite list_lookup_imap in Hr.
    destruct (fn a b !! i) as [x|]; [|discriminate Hr].
    injection Hr as <-. unfold accurate_nan_lane.
    destruct (IsNaN fsize (fst _)); [apply Quiet_not_signalling|].
    destruct (IsNaN fsize (snd _)); [apply Quiet_not_signalling|].
    destruct (IsNaN fsize x) eqn:Hx.
    + apply DefaultNaN_not_signalling.
    + apply not_nan_not_signalling, Hx.
Qed.

(** The maximum of a signalling NaN and [1.0]: the host's [maxps]
    answers the signalling NaN of its second operand; the value emitted
    with accurate NaNs is that NaN made quiet. *)
Lemma no_signalling_nan_lanes_witness :
  valid_vec F32 [f32_1; f32_1; f32_1; f32_1] = true /\
  valid_vec F32 [sNaN_c; f32_2; f32_2; f32_2] = true /\
  IsSNaN F32 sNaN_c = true /\
  maxp F32 [f32_1; f32_1; f32_1; f32_1] [sNaN_c; f32_2; f32_2; f32_2]
  = [sNaN_c; f32_2; f32_2; f32_2] /\
  EmitThreeOpVectorOperation F32 (host false false)
    (context true false F32) (maxp F32)
    (NaNHandler_GetDefault F32 DefaultIndexer)
    [f32_1; f32_1; f32_1; f32_1] [sNaN_c; f32_2; f32_2; f32_2] !! 0%nat
  = Some (Quiet F32 sNaN_c) /\
  IsSNaN F32 (Quiet F32 sNaN_c) = false.
Proof.
  do 5 (split; [vm_compute; reflexivity|]).
  apply (no_signalling_nan_lanes F32 DefaultIndexer (host false false)
           (context true false F32) (maxp F32)
           [f32_1; f32_1; f32_1; f32_1] [sNaN_c; f32_2; f32_2; f32_2]
           0%nat (Quiet F32 sNaN_c));
    try (vm_compute; reflexivity).
  right. reflexivity.
Defined.

End NoSignallingNaN.
